(* ===== verification/_CoqProject ===== *)
-Q . S2P
Prelude.v
Layout.v
Prog.v
Common.v
Names.v
Options.v
Writer.v
Reader.v
Channel.v
Memory.v
Protocol.v
History.v
Published.v
Seqlock.v
WriterProof.v
Session.v
Delivery.v
Example.v
World.v
ReaderSafety.v
WriterSafety.v
Create.v
Locking.v
Text.v
Dump.v
DumpProof.v
Verdict.v
Total.v
Wakeup.v
Waiting.v
Progress.v
Opened.v
Bench.v
BenchProof.v
BenchSafety.v
BenchMain.v
BenchMainProof.v
Motor.v
MotorProof.v
MotorDelivery.v
BenchDelivery.v
