(* ===== verification/Prelude.v ===== *)
(** * ps-msgr: a verification of the state channel library

    ps-msgr (src/) is a C library for publishing the latest value of something
    - a state - from one writer process to any number of reader processes over
    a memory-mapped file.  A channel is a data file
    [<dir>/psmsgr.<name>.state] and a lock file [<dir>/psmsgr.<name>.lock].
    The writer holds the lock and publishes by a seqlock into the next of 2 to
    16 slots, then points the header's [latest] word at it; a reader maps the
    file read-only and copies the slot [latest] names, retrying if its [seq]
    moved.  Around the library (src/state.c, src/common.c, src/seqcopy.c,
    src/layout.h, src/internal.h, include/psmsgr) there are an inspection tool
    (tools/psmsgr-dump.c), a benchmark (bench/psmsgr-bench.c) and two example
    programs (examples/c).  All of these are modelled here.

    ** How the code is modelled

    A C function is a program of the free monad of Prog.v.  Its events are what
    the code does outside its private memory: loads, stores and fences on a
    mapping with their C11 order, system calls, malloc and free, printing.  A
    program threads [errno]; a handle ([w], [r]) is a record that is passed and
    returned; a result is the C return code with the out-parameters.  Integers
    are [Z], with [u32] and [u64] where the C arithmetic wraps; byte buffers are
    lists; [for (;;)] is [loop] with fuel, and running out of it ([Out]) means
    that the C loop is still running.

    No event has a meaning of its own.  An instance of the class [Sem] of
    Prog.v - when an event may be issued, how it may answer, whether running
    out of fuel is allowed - gives it one, and [wp] is the logic of the
    programs over it.  [m ≈ n] says that two programs do the same events in the
    same order whatever they are told; it is a congruence, and such programs
    have the same runs and properties under every [Sem].  Results pass from one
    [Sem] to another by [wp_refine], [wp_only] and [wp_going] of Prog.v.  The
    theorems use these:

    - [reader_sem], [writer_sem] (Memory.v): the shared file as the log of its
      writers' stores under the C11 memory model; [reader_of_file],
      [writer_of_file], [motor_reader_of_file] are the ones of a file that is
      written all the time (total: no fuel may run out); [run_reader]
      (BenchDelivery.v) is the reader's, for a run that may go on (partial);
    - [kernel], [waiter] (Wakeup.v): the log and the waiters asleep in the kernel
      on the file's counter, with more falling asleep between any two steps of
      the writer (total); the reader's machine that may make a futex call only
      on the counter and only when it may sleep (total);
    - [world_sem] (World.v): a monitor of descriptors, mappings, heap blocks and
      streams, on which the system answers anything and files hold any bytes -
      but what the process itself stored in the constant part of a header is
      read back as stored (partial: what is shown holds all along a loop that
      still runs); [told_sem] (Opened.v): that assumption alone;
    - [create_sem] (Create.v): the file under construction (total);
    - [fs_sem], [guard_sem] (Locking.v): lock files and locks, with any number
      of processes taking steps in between, each with its own [$PSMSGR_DIR]
      (partial);
    - [t_sem] (Waiting.v): a clock that never goes back, sleeps that last as asked
      when they report that their time is up, finitely many early wake-ups and
      retired files; [progress_sem] (Progress.v): lock files that are removed
      finitely often (total: these prove termination);
    - [still_sem] (Verdict.v): a file nobody writes to (total);
    - [files_sem] (BenchMainProof.v): text files read with fgets (total);
    - [any_sem] (Prog.v): any answer to anything.

    ** The files and the code they model

    - Prelude: machine integers, little-endian bytes, lists, tactics.
    - Prog: events, programs, [Sem], [wp], traces and runs by computation.
    - Layout (src/layout.h; [header_valid] of state.c): header and slot records,
      their bytes, the [latest] word, stride and size.
    - Common (include/psmsgr/psmsgr.h, src/common.c, src/internal.h,
      src/seqcopy.c): codes, version, clock, the bytewise copies, and [Config],
      the build: pointer and handle sizes and the two test hooks.
    - Names, Options (state.c "paths", "options"; include/psmsgr/state.h): names,
      paths, stale temporary files, the versioned options struct.
    - Writer, Channel, Reader (state.c): the writer on a mapped file; the lock,
      creating, opening and unlinking; attach, read, peek, describe, wait,
      liveness.
    - Text (the printf conversions and number parsing the programs use, with
      binary32 and binary64 from the Standard Library's SpecFloat).
    - Dump (tools/psmsgr-dump.c), Bench and BenchMain (bench/psmsgr-bench.c),
      Motor (examples/motor_status.h, examples/c/motor_writer.c and
      motor_reader.c): the programs, from their options to their exit.

    The other files hold specifications and proofs:

    - Memory, Protocol, History, Published: the memory model; the automaton of
      what writers may do to a file; facts about its logs; the list of the
      published values as the abstract state of a file.
    - Seqlock (the reader against such logs), WriterProof (the writer's code
      produces such logs), Session (any sequence of writers, each stopped
      anywhere), Delivery (both together), Example (a computed channel).
    - World, ReaderSafety, WriterSafety: memory and resource safety.
    - Wakeup: the waiters' counter, the sleepers in the kernel and FUTEX_WAKE.
    - Create, Locking, Opened, Total, Waiting, Progress: creation, mutual
      exclusion, what an opened writer looks like, termination.
    - DumpProof, Verdict, BenchProof, BenchSafety, BenchMainProof, BenchDelivery,
      MotorProof, MotorDelivery: the programs.

    ** What is shown

    - Delivery.  A read returns a value that was published, whole, no older than
      what the reader had, whatever the writers do and wherever they die; reads
      do not go back; a read with nobody writing succeeds; a publish adds
      exactly its value under the next generation; a crash loses nothing;
      reopening continues where the last writer stopped; begin, write and commit
      are the same program as publish.  The motor programs deliver statuses the
      same way, and the benchmark's polling run counts the values it missed.
    - Wake-ups.  A publish wakes everyone who slept through a part of it, and a
      waiter, because it reads the counter before it looks, never goes to sleep
      with a notified value unseen: who is asleep has the newest value
      (Wakeup.v).
    - Exclusion.  Who is told OK by [lock_channel] holds the lock of the file the
      path names, alone, until it closes it, under any interleaving; so is a
      writer that was opened, in whatever directory.  The files of two channels
      never coincide.
    - Creation.  A data file appears under its name only complete and valid; the
      old file is retired only afterwards.  The writer reads the geometry of the
      new file back through the mapping, and it is the one asked for.
    - Safety.  The life of a reader, of a writer, and each program from its
      command line to its exit touch live, aligned, mapped memory only, use what
      is open only, and release what they acquired, on every error path.
    - Termination.  [psmsgr_state_wait] by its timeout, the early wake-ups and the
      retired files; opening and unlinking by the number of times the lock file is
      removed; every other call in any environment; [cpuidle_info] by its buffer.
    - Data.  Header, [latest] word, slots, options, names, paths, payloads of the
      examples, the rows and figures of the benchmark, the lines of the dump.

    ** Fuel and bounds

    The 64 attempts of a read and the 2 of an attach are the code's own bounds
    and need no fuel.  [lock_channel] needs one pass more than the lock file is
    removed or replaced while it runs, [remove_stale_tmp] one more than the
    directory has entries (Progress.v); [psmsgr_state_wait] one per 10 ms of
    its timeout, per early wake-up and per file retired, and one more
    (Waiting.v); [read_line] one per character
    of the file and [cpuidle_info] one per byte of its buffer (BenchMainProof.v).
    The other loops - [--watch] of the dump, the loops of the motor programs, the
    timed runs and the sleeps of the benchmark - run until they are told to stop
    or their clock has passed; about them the theorems say what holds at every
    pass.  Printing a number uses as many digits as its type can have.

    ** Assumptions

    The memory model is described in Memory.v; it allows more than C11 does.  All
    stores to a file are by holders of its lock, which Locking.v shows to be one
    at a time; nobody writes the constant part of a header once the file has its
    name.  [missed] is accounted for over fewer than 2^32 - 1 values, and no
    slot reused 2^27 times.  Inodes are not reused while open; [fcntl] locks belong to open
    file descriptions; [rename] and [unlink] act at once.  [strerror],
    [strftime], [strtod], [getopt_long], [isatty] and what fresh memory holds are
    parameters of the definitions that use them.  The hosts are little-endian
    (src/common.c refuses others).

    ** Not modelled

    The test programs (tests/), the bindings (bindings/), and
    bench/results/*/scripts/runstat.c, a timing wrapper kept with the results of
    one measurement; the declarations of the public headers that have no code.
    Of the programs, what the C library and the kernel do behind the calls.

    ** Plan

    Next: the whole of [psmsgr_state_wait] and the benchmark's run that waits on
    the memory model; the child process of the benchmark on it; and the
    refinement of a channel - its two files over its whole life, retired and
    recreated - to one abstract history. *)
From stdpp Require Export prelude gmap strings list sets.
From Stdlib Require Export ZArith Lia.
Global Open Scope Z_scope.

(** ** Machine integers

    A C [uint32_t] or [uint64_t] is the [Z] it denotes; every operation that
    can leave the range is wrapped by [u32] or [u64] where the C code
    computes in that type. *)

Definition u32 (z : Z) : Z := z mod 4294967296.
Definition u64 (z : Z) : Z := z mod 18446744073709551616.

Definition UINT32_MAX : Z := 4294967295.
Definition UINT64_MAX : Z := 18446744073709551615.

(** [x & ~m] at width 32, for [x] of that width. *)
Definition and_not32 (x m : Z) : Z := Z.land x (UINT32_MAX - m).

(** ** Little-endian bytes (the hosts are little-endian: common.c refuses to
    build elsewhere). *)

Fixpoint le_bytes (n : nat) (z : Z) : list Z :=
  match n with
  | O => []
  | S n' => z mod 256 :: le_bytes n' (z / 256)
  end.

Fixpoint le_val (bs : list Z) : Z :=
  match bs with
  | [] => 0
  | b :: bs' => b + 256 * le_val bs'
  end.

Definition is_byte (b : Z) : Prop := 0 <= b < 256.

(** ** Automation *)

Create HintDb psm discriminated.
Create Rewrite HintDb psm_simpl.

(** Splits conjunctions and existentials in the context. *)
Ltac destr_and :=
  repeat match goal with
         | H : _ /\ _ |- _ => destruct H
         | H : exists _, _ |- _ => destruct H
         end.

(** Turns the boolean tests of the code into propositions. *)
Ltac bool_hyps :=
  repeat match goal with
         | H : (_ && _)%bool = true |- _ => apply andb_prop in H; destruct H
         | H : (_ || _)%bool = false |- _ => apply orb_false_elim in H; destruct H
         | H : negb _ = true |- _ => apply negb_true_iff in H
         | H : negb _ = false |- _ => apply negb_false_iff in H
         | H : (_ =? _) = true |- _ => apply Z.eqb_eq in H
         | H : (_ =? _) = false |- _ => apply Z.eqb_neq in H
         | H : (_ <=? _) = true |- _ => apply Z.leb_le in H
         | H : (_ <=? _) = false |- _ => apply Z.leb_gt in H
         | H : (_ <? _) = true |- _ => apply Z.ltb_lt in H
         | H : (_ <? _) = false |- _ => apply Z.ltb_ge in H
         | H : bool_decide _ = true |- _ => apply bool_decide_eq_true in H
         | H : bool_decide _ = false |- _ => apply bool_decide_eq_false in H
         end.

(** Linear arithmetic with [/] and [mod]. *)
Ltac div_lia := Z.to_euclidean_division_equations; lia.

(** One case of a conditional in the goal, with its test in the context. *)
Ltac case_if :=
  match goal with
  | |- context [if ?b then _ else _] => destruct b eqn:?
  end.

(** ** Lemmas on widths *)

Lemma u32_range (z : Z) : 0 <= u32 z < 4294967296.
Proof. unfold u32. apply Z.mod_pos_bound. lia. Qed.

Lemma u64_range (z : Z) : 0 <= u64 z < 18446744073709551616.
Proof. unfold u64. apply Z.mod_pos_bound. lia. Qed.

Lemma u32_small (z : Z) : 0 <= z < 4294967296 -> u32 z = z.
Proof. intros H. unfold u32. apply Z.mod_small. lia. Qed.

Lemma u64_small (z : Z) : 0 <= z < 18446744073709551616 -> u64 z = z.
Proof. intros H. unfold u64. apply Z.mod_small. lia. Qed.

Lemma u32_idemp (z : Z) : u32 (u32 z) = u32 z.
Proof. apply u32_small, u32_range. Qed.

Lemma u32_add_l (a b : Z) : u32 (u32 a + b) = u32 (a + b).
Proof. unfold u32. rewrite Zplus_mod_idemp_l. reflexivity. Qed.

Lemma u32_eq_iff (a b : Z) : u32 a = u32 b <-> exists k, a = b + 4294967296 * k.
Proof.
  unfold u32. split.
  - intros H. exists (a / 4294967296 - b / 4294967296).
    pose proof (Z.div_mod a 4294967296). pose proof (Z.div_mod b 4294967296). lia.
  - intros [k ->]. rewrite Z.mul_comm, Z_mod_plus_full. reflexivity.
Qed.

Lemma u32_mod2 (z : Z) : u32 z mod 2 = z mod 2.
Proof. unfold u32. apply Z.mod_mod_divide. by exists 2147483648. Qed.

#[export] Hint Resolve u32_range u64_range : psm.
#[export] Hint Rewrite u32_idemp u32_add_l : psm_simpl.

(** ** Lemmas on little-endian bytes *)

Lemma length_le_bytes (n : nat) (z : Z) : length (le_bytes n z) = n.
Proof. revert z. induction n; intros z; simpl; [done | by rewrite IHn]. Qed.

Lemma le_bytes_byte (n : nat) (z b : Z) : b ∈ le_bytes n z -> is_byte b.
Proof.
  revert z. induction n; intros z; simpl; [by intros ?%elem_of_nil |].
  intros [->|H]%elem_of_cons; [| eauto].
  unfold is_byte. apply Z.mod_pos_bound. lia.
Qed.

Lemma le_val_bytes (n : nat) (z : Z) : le_val (le_bytes n z) = z mod 256 ^ Z.of_nat n.
Proof.
  revert z. induction n; intros z.
  - simpl. by rewrite Z.mod_1_r.
  - cbn [le_bytes le_val]. rewrite IHn, Nat2Z.inj_succ, Z.pow_succ_r by lia.
    rewrite Z.rem_mul_r by lia. lia.
Qed.

Lemma le_val_bytes4 (z : Z) : le_val (le_bytes 4 z) = u32 z.
Proof. rewrite le_val_bytes. reflexivity. Qed.

Lemma le_val_bytes8 (z : Z) : le_val (le_bytes 8 z) = u64 z.
Proof. rewrite le_val_bytes. reflexivity. Qed.

Lemma le_bytes_val (bs : list Z) : Forall is_byte bs -> le_bytes (length bs) (le_val bs) = bs.
Proof.
  induction 1 as [|b bs Hb _ IH]; [done |].
  cbn [length le_val le_bytes]. unfold is_byte in Hb. f_equal.
  - rewrite Z.mul_comm, Z_mod_plus_full. apply Z.mod_small. lia.
  - rewrite Z.mul_comm, Z.div_add by lia. rewrite Z.div_small by lia. done.
Qed.

Lemma le_val_range (bs : list Z) :
  Forall is_byte bs -> 0 <= le_val bs < 256 ^ Z.of_nat (length bs).
Proof.
  induction 1 as [|b bs Hb _ IH]; [simpl; lia |].
  cbn [length le_val]. unfold is_byte in Hb.
  rewrite Nat2Z.inj_succ, Z.pow_succ_r by lia. lia.
Qed.

Lemma le_bytes_forall (n : nat) (z : Z) : Forall is_byte (le_bytes n z).
Proof. apply Forall_forall. intros b Hb. by eapply le_bytes_byte. Qed.

(** ** Bit masks *)

Lemma land_ones_mod (a m n : Z) : 0 <= n -> m = 2 ^ n - 1 -> Z.land a m = a mod 2 ^ n.
Proof.
  intros Hn ->. rewrite <- Z.land_ones by done. f_equal. rewrite Z.ones_equiv. lia.
Qed.

Lemma omap_none {A B : Type} (f : A -> option B) (l : list A) :
  (forall x, x ∈ l -> f x = None) -> omap f l = [].
Proof.
  induction l as [|x l IH]; intros H; [done |]. simpl. rewrite H by apply list_elem_of_here.
  apply IH. intros y Hy. apply H. by apply list_elem_of_further.
Qed.

(** Clearing the low [n] bits of a 32-bit word. *)
Lemma and_not32_low (x n : Z) :
  0 <= n <= 32 -> 0 <= x < 4294967296 -> and_not32 x (2 ^ n - 1) = x - x mod 2 ^ n.
Proof.
  intros Hn Hx. unfold and_not32, UINT32_MAX.
  assert (E : x - x mod 2 ^ n = Z.ldiff x (Z.ones n)).
  { rewrite Z.ldiff_ones_r by lia. rewrite Z.shiftl_mul_pow2, Z.shiftr_div_pow2 by lia.
    pose proof (Z.div_mod x (2 ^ n)). lia. }
  rewrite E. replace (4294967295 - (2 ^ n - 1)) with (Z.ldiff (Z.ones 32) (Z.ones n)).
  2: { rewrite Z.ldiff_ones_r by lia. rewrite Z.shiftr_div_pow2, Z.shiftl_mul_pow2 by lia.
       change (Z.ones 32) with (2 ^ 32 - 1).
       replace 32 with (n + (32 - n)) at 1 by lia. rewrite Z.pow_add_r by lia.
       assert (0 < 2 ^ n) by lia. assert (0 < 2 ^ (32 - n)) by lia.
       assert (D : (2 ^ n * 2 ^ (32 - n) - 1) / 2 ^ n = 2 ^ (32 - n) - 1).
       { symmetry. apply Z.div_unique with (r := 2 ^ n - 1); lia. }
       rewrite D. replace 4294967295 with (2 ^ (n + (32 - n)) - 1).
       - rewrite Z.pow_add_r by lia. lia.
       - by replace (n + (32 - n)) with 32 by lia. }
  apply Z.bits_inj'. intros i Hi.
  rewrite Z.land_spec, !Z.ldiff_spec.
  destruct (decide (i < 32)) as [Hlt|Hge].
  - rewrite (Z.ones_spec_low 32 i) by lia. by destruct (Z.testbit x i).
  - rewrite (Z.bits_above_log2 x i); [done | lia |].
    destruct (decide (x = 0)) as [->|Hx0]; [simpl; lia |].
    apply Z.log2_lt_pow2; [lia |].
    assert (2 ^ 32 <= 2 ^ i) by (apply Z.pow_le_mono_r; lia). lia.
Qed.

