(* ===== verification/Layout.v ===== *)
(** * The on-disk layout (src/layout.h) and its validation

    The channel file format: header and slot records with their byte
    encodings, the [latest] word, the slot stride and the file size, and the
    validation a reader or a writer makes before it trusts a header. *)
From S2P Require Import Prelude.

(** ** Constants *)

Definition PSMI_MAGIC : Z := 0x534D5350.
Definition PSMI_VERSION_MAJOR : Z := 1.
Definition PSMI_VERSION_MINOR : Z := 0.
Definition PSMI_HEADER_SIZE : Z := 128.
Definition PSMI_SLOT_HEADER_SIZE : Z := 32.
Definition PSMI_SLOT_ALIGN : Z := 64.
Definition PSMI_MIN_SLOTS : Z := 2.
Definition PSMI_MAX_SLOTS : Z := 16.
Definition PSMI_LATEST_NONE : Z := 0xFFFFFFFF.
Definition PSMI_LATEST_SLOT_MASK : Z := 0xF.
Definition PSMI_LATEST_TAG_MASK : Z := 0x07FFFFFF.
Definition PSMI_CONFIG_NO_NOTIFY : Z := 1.
Definition PSMI_STATE_RETIRED : Z := 1.
Definition PSMSGR_STATE_MAX_CAPACITY : Z := Z.shiftl 16 20.

(** ** The channel header *)

Record psmi_header := {
  h_magic : Z;
  h_version_major : Z;
  h_version_minor : Z;
  h_header_size : Z;
  h_slot_header_size : Z;
  h_slot_count : Z;
  h_slot_stride : Z;
  h_capacity : Z;
  h_payload_type : Z;
  h_config_flags : Z;
  h_state : Z;
  h_latest : Z;
  h_notify : Z;
  h_writer_pid : Z;
  h_reserved0 : Z;
  h_created_realtime_ns : Z;
  h_reserved1 : list Z
}.

(** [offsetof(psmi_header, f)], as the static assertions pin them. *)
Module HOff.
Definition magic : Z := 0.
Definition version_major : Z := 4.
Definition version_minor : Z := 6.
Definition header_size : Z := 8.
Definition slot_header_size : Z := 12.
Definition slot_count : Z := 16.
Definition slot_stride : Z := 20.
Definition capacity : Z := 24.
Definition payload_type : Z := 28.
Definition config_flags : Z := 32.
Definition state : Z := 36.
Definition latest : Z := 40.
Definition notify : Z := 44.
Definition writer_pid : Z := 48.
Definition created_realtime_ns : Z := 56.
Definition reserved1 : Z := 64.
End HOff.

(** ** The slot header; the payload follows at [PSMI_SLOT_HEADER_SIZE]. *)

Record psmi_slot := {
  s_seq : Z;
  s_generation : Z;
  s_timestamp_ns : Z;
  s_length : Z
}.

(** [offsetof(psmi_slot, f)]; [reserved] is also the length of the part of
    the slot header that carries information. *)
Module SOff.
Definition seq : Z := 0.
Definition generation : Z := 4.
Definition timestamp_ns : Z := 8.
Definition length : Z := 16.
Definition reserved : Z := 20.
End SOff.

(** A little-endian field of [n] bytes at [off]. *)
Definition field (bs : list Z) (off n : nat) : Z := le_val (take n (drop off bs)).

Definition decode_header (bs : list Z) : psmi_header := {|
  h_magic := field bs 0 4;
  h_version_major := field bs 4 2;
  h_version_minor := field bs 6 2;
  h_header_size := field bs 8 4;
  h_slot_header_size := field bs 12 4;
  h_slot_count := field bs 16 4;
  h_slot_stride := field bs 20 4;
  h_capacity := field bs 24 4;
  h_payload_type := field bs 28 4;
  h_config_flags := field bs 32 4;
  h_state := field bs 36 4;
  h_latest := field bs 40 4;
  h_notify := field bs 44 4;
  h_writer_pid := field bs 48 4;
  h_reserved0 := field bs 52 4;
  h_created_realtime_ns := field bs 56 8;
  h_reserved1 := take 64 (drop 64 bs)
|}.

Definition encode_header (h : psmi_header) : list Z :=
  le_bytes 4 (h_magic h) ++ le_bytes 2 (h_version_major h) ++ le_bytes 2 (h_version_minor h) ++
  le_bytes 4 (h_header_size h) ++ le_bytes 4 (h_slot_header_size h) ++
  le_bytes 4 (h_slot_count h) ++ le_bytes 4 (h_slot_stride h) ++ le_bytes 4 (h_capacity h) ++
  le_bytes 4 (h_payload_type h) ++ le_bytes 4 (h_config_flags h) ++ le_bytes 4 (h_state h) ++
  le_bytes 4 (h_latest h) ++ le_bytes 4 (h_notify h) ++ le_bytes 4 (h_writer_pid h) ++
  le_bytes 4 (h_reserved0 h) ++ le_bytes 8 (h_created_realtime_ns h) ++ h_reserved1 h.

(** The bytes of a slot that [offsetof(psmi_slot, reserved)] bytes cover. *)
Definition decode_slot (bs : list Z) : psmi_slot := {|
  s_seq := field bs 0 4;
  s_generation := field bs 4 4;
  s_timestamp_ns := field bs 8 8;
  s_length := field bs 16 4
|}.

(** ** The [latest] word *)

Definition psmi_latest (i seq : Z) : Z :=
  Z.lor (u32 (Z.shiftl (Z.land (Z.shiftr seq 1) PSMI_LATEST_TAG_MASK) 4)) i.

Definition psmi_latest_slot (latest : Z) : Z := Z.land latest PSMI_LATEST_SLOT_MASK.

Definition psmi_latest_valid (latest slot_count : Z) : bool :=
  (latest =? PSMI_LATEST_NONE) ||
  ((Z.shiftr latest 31 =? 0) && (psmi_latest_slot latest <? slot_count)).

(** ** Geometry *)

Definition psmi_slot_stride (capacity : Z) : Z :=
  and_not32 (u32 (PSMI_SLOT_HEADER_SIZE + capacity + PSMI_SLOT_ALIGN - 1)) (PSMI_SLOT_ALIGN - 1).

Definition psmi_file_size (slot_count slot_stride : Z) : Z :=
  u64 (PSMI_HEADER_SIZE + slot_count * slot_stride).

(** Offset of slot [i] in the file: the pointer arithmetic of [writer_slot]
    and of [read_latest]. *)
Definition slot_offset (slot_stride i : Z) : Z := PSMI_HEADER_SIZE + i * slot_stride.

(** ** Header validation (state.c) *)

Definition header_valid (h : psmi_header) (file_bytes : Z) : bool :=
  (h_magic h =? PSMI_MAGIC) && (h_version_major h =? PSMI_VERSION_MAJOR) &&
  (h_header_size h =? PSMI_HEADER_SIZE) && (h_slot_header_size h =? PSMI_SLOT_HEADER_SIZE) &&
  (PSMI_MIN_SLOTS <=? h_slot_count h) && (h_slot_count h <=? PSMI_MAX_SLOTS) &&
  (h_capacity h <=? PSMSGR_STATE_MAX_CAPACITY) &&
  (h_slot_stride h =? psmi_slot_stride (h_capacity h)) &&
  (psmi_file_size (h_slot_count h) (h_slot_stride h) <=? file_bytes).

(** ** Well-formedness: every field within its C type. *)

Definition header_ok (h : psmi_header) : Prop :=
  0 <= h_magic h < 4294967296 /\ 0 <= h_version_major h < 65536 /\
  0 <= h_version_minor h < 65536 /\ 0 <= h_header_size h < 4294967296 /\
  0 <= h_slot_header_size h < 4294967296 /\ 0 <= h_slot_count h < 4294967296 /\
  0 <= h_slot_stride h < 4294967296 /\ 0 <= h_capacity h < 4294967296 /\
  0 <= h_payload_type h < 4294967296 /\ 0 <= h_config_flags h < 4294967296 /\
  0 <= h_state h < 4294967296 /\ 0 <= h_latest h < 4294967296 /\
  0 <= h_notify h < 4294967296 /\ 0 <= h_writer_pid h < 4294967296 /\
  0 <= h_reserved0 h < 4294967296 /\ 0 <= h_created_realtime_ns h < 18446744073709551616 /\
  length (h_reserved1 h) = 64%nat.

(** The geometry a validated header fixes: what the rest of the library
    relies on after [header_valid]. *)
Record geometry := { g_slots : Z; g_stride : Z; g_cap : Z }.

Definition geometry_ok (g : geometry) : Prop :=
  2 <= g_slots g <= 16 /\ 0 <= g_cap g <= 16777216 /\ g_stride g = psmi_slot_stride (g_cap g).

Definition geometry_of (h : psmi_header) : geometry :=
  {| g_slots := h_slot_count h; g_stride := h_slot_stride h; g_cap := h_capacity h |}.

(** ** Lemmas: the [latest] word *)

Lemma psmi_latest_arith (i seq : Z) :
  0 <= i < 16 -> 0 <= seq < 4294967296 ->
  psmi_latest i seq = 16 * ((seq / 2) mod 134217728) + i.
Proof.
  intros Hi Hs. unfold psmi_latest, PSMI_LATEST_TAG_MASK.
  rewrite (land_ones_mod _ _ 27) by (reflexivity || lia).
  rewrite Z.shiftr_div_pow2, Z.shiftl_mul_pow2 by lia.
  change (2 ^ 1) with 2. change (2 ^ 27) with 134217728. change (2 ^ 4) with 16.
  pose proof (Z.mod_pos_bound (seq / 2) 134217728).
  rewrite u32_small by lia.
  pose proof (Z.add_lor_land (((seq / 2) mod 134217728) * 16) i) as Hadd.
  enough (Z.land (((seq / 2) mod 134217728) * 16) i = 0) as Hland by (rewrite Hland in Hadd; lia).
  clear Hadd.
  apply Z.bits_inj'. intros n Hn. rewrite Z.land_spec, Z.bits_0.
  change 16 with (2 ^ 4). rewrite <- Z.shiftl_mul_pow2 by lia.
  destruct (decide (n < 4)) as [Hlt|Hge].
  - by rewrite Z.shiftl_spec_low by lia.
  - rewrite (Z.bits_above_log2 i n); [apply andb_false_r | lia |].
    destruct (decide (i = 0)) as [->|Hi0]; [simpl; lia |].
    apply Z.log2_lt_pow2; [lia |].
    assert (2 ^ 4 <= 2 ^ n) by (apply Z.pow_le_mono_r; lia). lia.
Qed.

Lemma psmi_latest_slot_arith (l : Z) : psmi_latest_slot l = l mod 16.
Proof. unfold psmi_latest_slot, PSMI_LATEST_SLOT_MASK. by apply (land_ones_mod _ _ 4). Qed.

Lemma psmi_latest_range (i seq : Z) :
  0 <= i < 16 -> 0 <= seq < 4294967296 -> 0 <= psmi_latest i seq < 2147483648.
Proof.
  intros. rewrite psmi_latest_arith by done.
  pose proof (Z.mod_pos_bound (seq / 2) 134217728). lia.
Qed.

Lemma psmi_latest_not_none (i seq : Z) :
  0 <= i < 16 -> 0 <= seq < 4294967296 -> psmi_latest i seq <> PSMI_LATEST_NONE.
Proof. intros Hi Hs. pose proof (psmi_latest_range i seq Hi Hs). unfold PSMI_LATEST_NONE. lia. Qed.

Lemma psmi_latest_slot_latest (i seq : Z) :
  0 <= i < 16 -> 0 <= seq < 4294967296 -> psmi_latest_slot (psmi_latest i seq) = i.
Proof.
  intros. rewrite psmi_latest_slot_arith, psmi_latest_arith by done.
  rewrite Z.add_comm, Z.mul_comm, Z_mod_plus_full. apply Z.mod_small. lia.
Qed.

Lemma psmi_latest_valid_latest (i seq n : Z) :
  0 <= i < 16 -> 0 <= seq < 4294967296 ->
  psmi_latest_valid (psmi_latest i seq) n = (i <? n).
Proof.
  intros Hi Hs. unfold psmi_latest_valid.
  pose proof (psmi_latest_not_none i seq Hi Hs) as Hn. apply Z.eqb_neq in Hn. rewrite Hn.
  rewrite psmi_latest_slot_latest by done. rewrite Z.shiftr_div_pow2 by lia.
  rewrite Z.div_small; [done |]. pose proof (psmi_latest_range i seq Hi Hs). lia.
Qed.

(** Two committed versions share a [latest] word only if they are the same
    slot and their commit counts agree modulo 2^27. *)
Lemma psmi_latest_eq_iff (i j p q : Z) :
  0 <= i < 16 -> 0 <= j < 16 -> 0 <= p < 4294967296 -> 0 <= q < 4294967296 ->
  psmi_latest i p = psmi_latest j q <->
  i = j /\ (p / 2) mod 134217728 = (q / 2) mod 134217728.
Proof.
  intros. rewrite !psmi_latest_arith by done.
  pose proof (Z.mod_pos_bound (p / 2) 134217728).
  pose proof (Z.mod_pos_bound (q / 2) 134217728). lia.
Qed.

#[export] Hint Rewrite psmi_latest_slot_latest using lia : psm_simpl.

(** ** Lemmas: geometry *)

Lemma psmi_slot_stride_arith (c : Z) :
  0 <= c <= 16777216 -> psmi_slot_stride c = (c + 95) / 64 * 64.
Proof.
  intros Hc. unfold psmi_slot_stride, PSMI_SLOT_HEADER_SIZE, PSMI_SLOT_ALIGN.
  rewrite u32_small by lia.
  change (64 - 1) with (2 ^ 6 - 1). rewrite and_not32_low by lia.
  change (2 ^ 6) with 64. replace (32 + c + 64 - 1) with (c + 95) by lia.
  pose proof (Z.div_mod (c + 95) 64). lia.
Qed.

Lemma psmi_slot_stride_bounds (c : Z) :
  0 <= c <= 16777216 ->
  32 + c <= psmi_slot_stride c <= 95 + c /\ psmi_slot_stride c mod 64 = 0.
Proof.
  intros Hc. rewrite psmi_slot_stride_arith by done. split.
  - pose proof (Z.div_mod (c + 95) 64). pose proof (Z.mod_pos_bound (c + 95) 64). lia.
  - apply Z_mod_mult.
Qed.

Lemma psmi_file_size_arith (g : geometry) :
  geometry_ok g -> psmi_file_size (g_slots g) (g_stride g) = 128 + g_slots g * g_stride g.
Proof.
  intros (Hs & Hc & E). unfold psmi_file_size, PSMI_HEADER_SIZE.
  pose proof (psmi_slot_stride_bounds _ Hc). apply u64_small. nia.
Qed.

Lemma header_valid_geometry (h : psmi_header) (n : Z) :
  header_ok h -> header_valid h n = true -> geometry_ok (geometry_of h).
Proof.
  unfold header_ok, header_valid, geometry_ok, geometry_of; simpl.
  unfold PSMI_MIN_SLOTS, PSMI_MAX_SLOTS. change PSMSGR_STATE_MAX_CAPACITY with 16777216.
  intros Hok Hv. bool_hyps. repeat split; lia.
Qed.

(** ** Lemmas: encodings *)

Lemma field_app_l (a b : list Z) (off n : nat) :
  (off + n <= length a)%nat -> field (a ++ b) off n = field a off n.
Proof.
  intros H. unfold field. rewrite drop_app_le by lia. rewrite take_app_le; [done |].
  rewrite length_drop. lia.
Qed.

Lemma field_app_r (a b : list Z) (off n : nat) :
  field (a ++ b) (length a + off) n = field b off n.
Proof. unfold field. by rewrite drop_app_add. Qed.

(** The field that a [le_bytes] prefix holds. *)
Lemma field_le_bytes (n : nat) (z : Z) (b : list Z) :
  field (le_bytes n z ++ b) 0 n = z mod 256 ^ Z.of_nat n.
Proof.
  unfold field. rewrite drop_0, take_app_le by (by rewrite length_le_bytes).
  rewrite take_ge by (by rewrite length_le_bytes). apply le_val_bytes.
Qed.

Lemma length_encode_header (h : psmi_header) :
  length (h_reserved1 h) = 64%nat -> length (encode_header h) = 128%nat.
Proof. intros H. unfold encode_header. rewrite !length_app, !length_le_bytes, H. done. Qed.

Lemma le_bytes_field (bs : list Z) (off n : nat) :
  Forall is_byte bs -> (off + n <= length bs)%nat ->
  le_bytes n (field bs off n) = take n (drop off bs).
Proof.
  intros Hb Hl. unfold field.
  assert (E : length (take n (drop off bs)) = n) by (rewrite length_take, length_drop; lia).
  rewrite <- E at 1. apply le_bytes_val. by apply Forall_take, Forall_drop.
Qed.

Lemma take_drop_step (bs : list Z) (off n m : nat) :
  m = (off + n)%nat -> take n (drop off bs) ++ drop m bs = drop off bs.
Proof. intros ->. rewrite <- drop_drop. apply take_drop. Qed.

Lemma field_range (bs : list Z) (off n : nat) :
  Forall is_byte bs -> (off + n <= length bs)%nat -> 0 <= field bs off n < 256 ^ Z.of_nat n.
Proof.
  intros Hb Hl. unfold field.
  assert (E : length (take n (drop off bs)) = n) by (rewrite length_take, length_drop; lia).
  pose proof (le_val_range (take n (drop off bs))) as H. rewrite E in H.
  apply H. by apply Forall_take, Forall_drop.
Qed.

(** A header read from a file has every field within its C type. *)
Lemma decode_header_ok (bs : list Z) :
  Forall is_byte bs -> length bs = 128%nat -> header_ok (decode_header bs).
Proof.
  intros Hb Hl. unfold header_ok, decode_header; cbn [h_magic h_version_major h_version_minor
    h_header_size h_slot_header_size h_slot_count h_slot_stride h_capacity h_payload_type
    h_config_flags h_state h_latest h_notify h_writer_pid h_reserved0 h_created_realtime_ns
    h_reserved1].
  repeat split;
    try (match goal with
         | |- _ <= field _ ?o ?n => apply (field_range bs o n Hb); lia
         | |- field _ ?o ?n < _ => apply (field_range bs o n Hb); lia
         end).
  rewrite length_take, length_drop. lia.
Qed.

Lemma decode_encode_header (h : psmi_header) : header_ok h -> decode_header (encode_header h) = h.
Proof.
  intros Hok. unfold header_ok in Hok. destr_and.
  unfold decode_header.
  change (field (encode_header h) 0 4) with (le_val (le_bytes 4 (h_magic h))).
  change (field (encode_header h) 4 2) with (le_val (le_bytes 2 (h_version_major h))).
  change (field (encode_header h) 6 2) with (le_val (le_bytes 2 (h_version_minor h))).
  change (field (encode_header h) 8 4) with (le_val (le_bytes 4 (h_header_size h))).
  change (field (encode_header h) 12 4) with (le_val (le_bytes 4 (h_slot_header_size h))).
  change (field (encode_header h) 16 4) with (le_val (le_bytes 4 (h_slot_count h))).
  change (field (encode_header h) 20 4) with (le_val (le_bytes 4 (h_slot_stride h))).
  change (field (encode_header h) 24 4) with (le_val (le_bytes 4 (h_capacity h))).
  change (field (encode_header h) 28 4) with (le_val (le_bytes 4 (h_payload_type h))).
  change (field (encode_header h) 32 4) with (le_val (le_bytes 4 (h_config_flags h))).
  change (field (encode_header h) 36 4) with (le_val (le_bytes 4 (h_state h))).
  change (field (encode_header h) 40 4) with (le_val (le_bytes 4 (h_latest h))).
  change (field (encode_header h) 44 4) with (le_val (le_bytes 4 (h_notify h))).
  change (field (encode_header h) 48 4) with (le_val (le_bytes 4 (h_writer_pid h))).
  change (field (encode_header h) 52 4) with (le_val (le_bytes 4 (h_reserved0 h))).
  change (field (encode_header h) 56 8) with (le_val (le_bytes 8 (h_created_realtime_ns h))).
  change (take 64 (drop 64 (encode_header h))) with (take 64 (h_reserved1 h)).
  rewrite !le_val_bytes, take_ge by lia.
  destruct h; simpl in *. f_equal; apply Z.mod_small; lia.
Qed.

Lemma encode_decode_header (bs : list Z) :
  Forall is_byte bs -> length bs = 128%nat -> encode_header (decode_header bs) = bs.
Proof.
  intros Hb Hl. unfold encode_header, decode_header; cbn [h_magic h_version_major h_version_minor
    h_header_size h_slot_header_size h_slot_count h_slot_stride h_capacity h_payload_type
    h_config_flags h_state h_latest h_notify h_writer_pid h_reserved0 h_created_realtime_ns
    h_reserved1].
  rewrite !le_bytes_field by (done || lia).
  rewrite (take_ge (drop 64 bs)) by (rewrite length_drop; lia).
  by rewrite !take_drop_step by reflexivity.
Qed.

(** ** Properties *)

(** C37. The [latest] word round-trips: for every slot index below 16 and every
    32-bit sequence number, the word published for it decodes to that slot, its
    tag is the commit count modulo 2^27, bit 31 is clear (so it never is
    [PSMI_LATEST_NONE]), the readers' validity test accepts it exactly when the
    index is below the slot count, and two words are equal only if slot and tag
    are. *)
Theorem latest_word_roundtrip (i seq : Z) :
  0 <= i < 16 -> 0 <= seq < 4294967296 ->
  psmi_latest_slot (psmi_latest i seq) = i /\
  Z.land (Z.shiftr (psmi_latest i seq) 4) PSMI_LATEST_TAG_MASK = (seq / 2) mod 134217728 /\
  psmi_latest i seq < 2147483648 /\ psmi_latest i seq <> PSMI_LATEST_NONE /\
  (forall n, psmi_latest_valid (psmi_latest i seq) n = (i <? n)) /\
  (forall j seq', 0 <= j < 16 -> 0 <= seq' < 4294967296 ->
     psmi_latest i seq = psmi_latest j seq' ->
     i = j /\ (seq / 2) mod 134217728 = (seq' / 2) mod 134217728).
Proof.
  intros Hi Hs. split; [by apply psmi_latest_slot_latest |]. split.
  - unfold PSMI_LATEST_TAG_MASK. rewrite (land_ones_mod _ _ 27) by (reflexivity || lia).
    rewrite psmi_latest_arith, Z.shiftr_div_pow2 by lia.
    change (2 ^ 4) with 16. change (2 ^ 27) with 134217728.
    replace ((16 * ((seq / 2) mod 134217728) + i) / 16) with ((seq / 2) mod 134217728).
    + apply Z.mod_mod. lia.
    + apply Z.div_unique with (r := i); lia.
  - pose proof (psmi_latest_range i seq Hi Hs).
    repeat split; try lia.
    + by apply psmi_latest_not_none.
    + intros n. by apply psmi_latest_valid_latest.
    + by apply (psmi_latest_eq_iff i j seq seq').
    + by apply (psmi_latest_eq_iff i j seq seq').
Qed.

Lemma latest_word_roundtrip_witness :
  psmi_latest_slot (psmi_latest 2 0xFFFFFFFE) = 2 /\ psmi_latest 2 0xFFFFFFFE = 0x7FFFFFF2.
Proof. split; [apply (latest_word_roundtrip 2 0xFFFFFFFE); lia | reflexivity]. Defined.

(** C38. Slot geometry: for every capacity the format allows, the stride is the
    least multiple of 64 that holds the slot header and the payload (the 32-bit
    computation does not wrap), and with at most 16 slots every slot lies inside
    [psmi_file_size] bytes, past the header, disjoint from every other slot,
    with its payload 32-byte aligned. *)
Theorem slot_geometry (g : geometry) :
  geometry_ok g ->
  (32 + g_cap g <= g_stride g /\ g_stride g mod 64 = 0 /\
   (forall s, 32 + g_cap g <= s -> s mod 64 = 0 -> g_stride g <= s)) /\
  (forall i, 0 <= i < g_slots g ->
     PSMI_HEADER_SIZE <= slot_offset (g_stride g) i /\
     slot_offset (g_stride g) i + g_stride g <= psmi_file_size (g_slots g) (g_stride g) /\
     (slot_offset (g_stride g) i + PSMI_SLOT_HEADER_SIZE) mod 32 = 0) /\
  (forall i j, 0 <= i -> i < j ->
     slot_offset (g_stride g) i + g_stride g <= slot_offset (g_stride g) j).
Proof.
  intros Hg. pose proof (psmi_file_size_arith g Hg) as Hsz.
  destruct Hg as (Hn & Hc & Hst). pose proof (psmi_slot_stride_bounds _ Hc) as [Hb Hm].
  rewrite <- Hst in Hb, Hm. split; [split; [lia | split; [done |]] | split].
  - intros s Hs1 Hs2. rewrite Hst, psmi_slot_stride_arith by done.
    apply Z.mod_divide in Hs2; [| lia]. destruct Hs2 as [k ->].
    enough ((g_cap g + 95) / 64 <= k) by lia.
    apply Z.lt_succ_r, Z.div_lt_upper_bound; lia.
  - intros i Hi. rewrite Hsz. unfold slot_offset, PSMI_HEADER_SIZE, PSMI_SLOT_HEADER_SIZE.
    split; [nia | split; [nia |]].
    apply Z.mod_divide in Hm; [| lia]. destruct Hm as [k ->].
    replace (128 + i * (k * 64) + 32) with ((5 + 2 * i * k) * 32) by lia. apply Z_mod_mult.
  - intros i j Hi Hij. unfold slot_offset, PSMI_HEADER_SIZE.
    pose proof (Z.mul_le_mono_nonneg_r (i + 1) j (g_stride g)). lia.
Qed.

Lemma slot_geometry_witness :
  let g := {| g_slots := 3; g_stride := 128; g_cap := 96 |} in
  32 + g_cap g <= g_stride g /\ psmi_file_size (g_slots g) (g_stride g) = 512.
Proof.
  split; [| reflexivity].
  refine (proj1 (proj1 (slot_geometry {| g_slots := 3; g_stride := 128; g_cap := 96 |} _))).
  unfold geometry_ok; simpl. split; [lia | split; [lia | reflexivity]].
Defined.

(** C39. The header's byte encoding round-trips: decoding the 128 encoded bytes
    of a header whose fields fit their C types gives the header back, and
    encoding the decoded fields of any 128 bytes gives the bytes back. *)
Theorem header_roundtrip :
  (forall h, header_ok h -> length (encode_header h) = 128%nat /\ decode_header (encode_header h) = h) /\
  (forall bs, Forall is_byte bs -> length bs = 128%nat ->
     header_ok (decode_header bs) /\ encode_header (decode_header bs) = bs).
Proof.
  split.
  - intros h Hok. split; [| by apply decode_encode_header].
    apply length_encode_header. apply Hok.
  - intros bs Hb Hl. split; [by apply decode_header_ok | by apply encode_decode_header].
Qed.
