(* ===== verification/Prog.v ===== *)
(** * Programs, their events and their program logic

    The C functions are translated into programs over a free monad whose
    events are exactly the interactions of the library with what is outside
    its own private memory: loads, stores and fences on the shared mapping,
    system calls, the heap, and the calls of the C library that reach the
    environment.  No event has a built-in meaning: an operating system, a
    memory model or a resource monitor is an instance of [Sem], and a theorem
    proved for every response of an event holds for every operating system. *)
From S2P Require Import Prelude.
From Stdlib Require Import Ascii.

(** ** Pointers into mappings: a block (one per [mmap]) and an offset. *)

Record ptr := { p_blk : Z; p_off : Z }.

Definition ptr_add (p : ptr) (d : Z) : ptr := {| p_blk := p_blk p; p_off := p_off p + d |}.

(** ** Events *)

(** C11 memory orders, as the [__atomic] builtins of state.c use them. *)
Inductive mo := Relaxed | Acquire | Release.

Inductive oflag := O_RDONLY | O_RDWR | O_CREAT | O_EXCL | O_CLOEXEC | O_NOFOLLOW | O_NONBLOCK.

Inductive clockid := CLOCK_MONOTONIC | CLOCK_REALTIME.

Record stat := { st_dev : Z; st_ino : Z; st_size : Z; st_isreg : bool }.

Inductive ev : Type :=
  (* shared memory *)
  | Load32 (o : mo) (p : ptr)
  | Store32 (o : mo) (p : ptr) (v : Z)
  | FetchOr32 (o : mo) (p : ptr) (v : Z)
  | FetchAdd32 (o : mo) (p : ptr) (v : Z)
  | Load8 (p : ptr)
  | Store8 (p : ptr) (v : Z)
  | Fence (o : mo)
  (* files *)
  | SysOpen (path : string) (flags : list oflag) (mode : Z)
  | SysClose (fd : Z)
  | SysFchmod (fd mode : Z)
  | SysFstat (fd : Z)
  | SysLstat (path : string)
  | SysPread (fd n off : Z)
  | SysSetlk (fd : Z)            (* F_OFD_SETLK, F_WRLCK, whole file *)
  | SysGetlk (fd : Z)            (* F_OFD_GETLK, F_WRLCK, whole file *)
  | SysMkostemp (template : string)
  | SysFallocate (fd off len : Z)
  | SysMmap (fd size : Z) (writable populate : bool)
  | SysMunmap (blk size : Z)
  | SysRename (from to : string)
  | SysUnlink (path : string)
  | SysOpendir (path : string)
  | SysReaddir (d : Z)
  | SysUnlinkat (d : Z) (name : string)
  | SysClosedir (d : Z)
  (* futex, time, process *)
  | SysFutexWake (p : ptr)
  | SysFutexWait (p : ptr) (expected sec nsec : Z)
  | SysClockGettime (c : clockid)
  | SysNanosleep (sec nsec : Z)  (* clock_nanosleep(CLOCK_MONOTONIC, 0, ..) *)
  | SysSleepUntil (sec nsec : Z) (* clock_nanosleep(CLOCK_MONOTONIC, TIMER_ABSTIME, ..) *)
  | SysSchedYield
  | SysGetpid
  | SysGetppid
  | SysGetrandom (n : Z)
  (* processes and pipes, for the benchmark *)
  | SysPipe
  | SysFork
  | SysPrctlPdeathsig            (* prctl(PR_SET_PDEATHSIG, SIGKILL) *)
  | SysRead (fd n : Z)
  | SysWrite (fd : Z) (bs : list Z)
  | SysWaitpid (pid : Z)
  | SysRmdir (path : string)
  | SysMkdtemp (template : string)
  | SysUname
  | SysNprocs                    (* sysconf(_SC_NPROCESSORS_ONLN) *)
  (* C library *)
  | Fopen (path : string)        (* for reading *)
  | Fgets (f n : Z)
  | Fclose (f : Z)
  | Getenv (name : string)
  | Malloc (n : Z)
  | Free (b : Z)
  | Print (err : bool) (s : string) (* to stdout, or to stderr *)
  (* a read of the volatile flag that a signal handler sets *)
  | ReadStop
  (* psmi_test_lock_opened: the fault injection hook *)
  | HookLockOpened.

(** What the program gets back.  [inl] is success, [inr e] a failure with
    [errno = e]. *)
Definition resp (e : ev) : Type :=
  match e with
  | Load32 _ _ | Load8 _ | FetchOr32 _ _ _ | FetchAdd32 _ _ _ => Z
  | Store32 _ _ _ | Store8 _ _ | Fence _ => unit
  | SysOpen _ _ _ => Z + Z
  | SysClose _ | SysFchmod _ _ | SysSetlk _ => unit + Z
  | SysFstat _ | SysLstat _ => stat + Z
  | SysPread _ _ _ => list Z + Z
  | SysGetlk _ => bool + Z           (* a conflicting lock is held *)
  | SysMkostemp _ => (Z * string) + Z
  | SysFallocate _ _ _ => Z          (* the error number, 0 for success *)
  | SysMmap _ _ _ _ => Z + Z
  | SysMunmap _ _ | SysRename _ _ | SysUnlink _ | SysUnlinkat _ _ => unit + Z
  | SysOpendir _ => Z + Z
  | SysReaddir _ => option string
  | SysClosedir _ => unit + Z
  | SysFutexWake _ => Z + Z
  | SysFutexWait _ _ _ _ => unit + Z
  | SysClockGettime _ => Z * Z       (* tv_sec, tv_nsec *)
  | SysNanosleep _ _ => Z            (* the error number, 0 for success *)
  | SysSleepUntil _ _ => Z           (* the error number, 0 for success *)
  | SysSchedYield => unit
  | SysGetpid | SysGetppid => Z
  | SysGetrandom _ => list Z + Z
  | SysPipe => (Z * Z) + Z           (* the read end, the write end *)
  | SysFork => Z + Z                 (* 0 in the child *)
  | SysPrctlPdeathsig => unit + Z
  | SysRead _ _ => list Z + Z
  | SysWrite _ _ => Z + Z
  | SysWaitpid _ => option Z + Z     (* the exit status; None: killed *)
  | SysRmdir _ => unit + Z
  | SysMkdtemp _ => string * option Z (* what is in the buffer; the error *)
  | SysUname => option (string * string * string) (* sysname, release, machine *)
  | SysNprocs => Z
  | Fopen _ => Z + Z
  | Fgets _ _ => option (list ascii) (* the characters before the NUL it adds *)
  | Fclose _ => unit
  | Getenv _ => option string
  | Malloc _ => option Z
  | Free _ => unit
  | Print _ _ => unit
  | ReadStop => bool
  | HookLockOpened => unit
  end.

(** Error numbers (Linux). *)
Definition ENOENT : Z := 2.
Definition EINTR : Z := 4.
Definition EAGAIN : Z := 11.
Definition ENOMEM : Z := 12.
Definition EACCES : Z := 13.
Definition EEXIST : Z := 17.
Definition ETIMEDOUT : Z := 110.

(** [errno] after the event: a failing call sets it, a succeeding one leaves
    it alone. *)
Definition resp_errno (e : ev) : resp e -> Z -> Z :=
  match e return resp e -> Z -> Z with
  | SysOpen _ _ _ | SysMmap _ _ _ _ | SysOpendir _ | SysFutexWake _ =>
      fun r en => match r with inl _ => en | inr x => x end
  | SysClose _ | SysFchmod _ _ | SysSetlk _ | SysMunmap _ _ | SysRename _ _ | SysUnlink _
  | SysUnlinkat _ _ | SysClosedir _ | SysFutexWait _ _ _ _ =>
      fun r en => match r with inl _ => en | inr x => x end
  | SysFstat _ | SysLstat _ => fun r en => match r with inl _ => en | inr x => x end
  | SysPipe => fun r en => match r with inl _ => en | inr x => x end
  | SysFork | SysWrite _ _ => fun r en => match r with inl _ => en | inr x => x end
  | SysMkdtemp _ => fun r en => match snd r with None => en | Some x => x end
  | Fopen _ => fun r en => match r with inl _ => en | inr x => x end
  | SysPrctlPdeathsig | SysRmdir _ => fun r en => match r with inl _ => en | inr x => x end
  | SysRead _ _ => fun r en => match r with inl _ => en | inr x => x end
  | SysWaitpid _ => fun r en => match r with inl _ => en | inr x => x end
  | SysPread _ _ _ | SysGetrandom _ => fun r en => match r with inl _ => en | inr x => x end
  | SysGetlk _ => fun r en => match r with inl _ => en | inr x => x end
  | SysMkostemp _ => fun r en => match r with inl _ => en | inr x => x end
  | Malloc _ => fun r en => match r with Some _ => en | None => ENOMEM end
  | _ => fun _ en => en
  end.

(** ** The free monad *)

(** [Out] is a loop that has used up its fuel: the C loop is still running. *)
Inductive free (A : Type) : Type :=
  | Ret (a : A)
  | Vis (e : ev) (k : resp e -> free A)
  | Out.
Arguments Ret {A} a.
Arguments Vis {A} e k.
Arguments Out {A}.

Fixpoint fbind {A B : Type} (m : free A) (f : A -> free B) : free B :=
  match m with
  | Ret a => f a
  | Vis e k => Vis e (fun r => fbind (k r) f)
  | Out => Out
  end.

(** Programs thread [errno], the one piece of thread-local state the library
    reads and restores. *)
Definition prog (A : Type) : Type := Z -> free (A * Z).

Definition ret {A : Type} (a : A) : prog A := fun en => Ret (a, en).

Definition bind {A B : Type} (m : prog A) (f : A -> prog B) : prog B :=
  fun en => fbind (m en) (fun '(a, en') => f a en').

Definition call (e : ev) : prog (resp e) :=
  fun en => Vis e (fun r => Ret (r, resp_errno e r en)).

Definition get_errno : prog Z := fun en => Ret (en, en).
Definition set_errno (e : Z) : prog unit := fun _ => Ret (tt, e).

Declare Scope prog_scope.
Delimit Scope prog_scope with prog.
Notation "'let*' p ':=' m 'in' k" := (bind m (fun p => k))
  (at level 10, p pattern, m at level 200, k at level 200) : prog_scope.
Notation "m ;;; k" := (bind m (fun _ => k)) (at level 199, right associativity) : prog_scope.
Open Scope prog_scope.

(** [for (;;)]: the body either starts over with a new state or leaves the
    loop with a value. *)
Fixpoint loop {S A : Type} (fuel : nat) (body : S -> prog (S + A)) (s : S) : prog A :=
  match fuel with
  | O => fun _ => Out
  | S n => let* r := body s in
           match r with
           | inl s' => loop n body s'
           | inr a => ret a
           end
  end.

(** ** Semantics *)

(** What an environment is: when an event may be issued, and which responses
    and successor states it can have. [sem_out] says what running out of fuel
    means to the logic: [True] for partial, [False] for total correctness. *)
Class Sem (S : Type) := {
  sem_pre : ev -> S -> Prop;
  sem_step : forall e : ev, S -> resp e -> S -> Prop;
  sem_out : Prop
}.

(** The trace records every event with its response. *)
Inductive event := Event (e : ev) (r : resp e).

(** [steps p s tr p' s']: running [p] from [s], the events [tr] later, [p'] is
    left to do in state [s'].  Stopping at any [p'] is a crash. *)
Inductive steps {S : Type} `{Sem S} {A : Type} :
  free A -> S -> list event -> free A -> S -> Prop :=
  | steps_refl p s : steps p s [] p s
  | steps_vis e k s r s1 tr p' s' :
      sem_step e s r s1 -> steps (k r) s1 tr p' s' -> steps (Vis e k) s (Event e r :: tr) p' s'.

(** A complete run. *)
Definition exec {S : Type} `{Sem S} {A : Type} (m : prog A) (en : Z) (s : S)
    (tr : list event) (a : A) (en' : Z) (s' : S) : Prop :=
  steps (m en) s tr (Ret (a, en')) s'.

(** The environment that answers anything: runs are then just the possible
    traces of a program. *)
#[export] Instance any_sem : Sem unit := {
  sem_pre := fun _ _ => True;
  sem_step := fun _ _ _ _ => True;
  sem_out := True
}.

(** [runs m en tr a en']: some environment makes [m] do [tr] and return [a]. *)
Definition runs {A : Type} (m : prog A) (en : Z) (tr : list event) (a : A) (en' : Z) : Prop :=
  exec (S := unit) m en tt tr a en' tt.

(** ** The program logic *)

Section wp.
Context {S : Type} {HS : Sem S}.

(** Every event is issued where it may be, and every complete run ends in
    [Q]. *)
Fixpoint wpf {A : Type} (p : free A) (s : S) (Q : A -> S -> Prop) : Prop :=
  match p with
  | Ret a => Q a s
  | Vis e k => sem_pre e s /\ forall r s', sem_step e s r s' -> wpf (k r) s' Q
  | Out => sem_out
  end.

Definition wp {A : Type} (m : prog A) (en : Z) (s : S) (Q : A -> Z -> S -> Prop) : Prop :=
  wpf (m en) s (fun x s' => Q (fst x) (snd x) s').

Lemma wpf_mono {A : Type} (p : free A) (s : S) (Q Q' : A -> S -> Prop) :
  wpf p s Q -> (forall a s', Q a s' -> Q' a s') -> wpf p s Q'.
Proof.
  revert s. induction p as [a | e k IH |]; simpl; intros s Hp HQ; [by apply HQ | | done].
  destruct Hp as [Hpre Hk]. split; [done |]. eauto.
Qed.

Lemma wpf_bind {A B : Type} (p : free A) (f : A -> free B) (s : S) (Q : B -> S -> Prop) :
  wpf (fbind p f) s Q <-> wpf p s (fun a s' => wpf (f a) s' Q).
Proof.
  revert s. induction p as [a | e k IH |]; simpl; intros s; [done | | done].
  split; intros [Hpre Hk]; (split; [done |]); intros; by apply IH, Hk.
Qed.

Lemma wpf_steps {A : Type} (p p' : free A) (s s' : S) (tr : list event) (Q : A -> S -> Prop) :
  wpf p s Q -> steps p s tr p' s' -> wpf p' s' Q.
Proof. intros Hp Hs. induction Hs; [done |]. destruct Hp as [_ Hk]. eauto. Qed.

Lemma wp_mono {A : Type} (m : prog A) (en : Z) (s : S) (Q Q' : A -> Z -> S -> Prop) :
  wp m en s Q -> (forall a en' s', Q a en' s' -> Q' a en' s') -> wp m en s Q'.
Proof. intros Hm HQ. eapply wpf_mono; [exact Hm | intros [a en'] s' H; by apply HQ]. Qed.

Lemma wp_bind {A B : Type} (m : prog A) (f : A -> prog B) (en : Z) (s : S)
    (Q : B -> Z -> S -> Prop) :
  wp m en s (fun a en' s' => wp (f a) en' s' Q) -> wp (bind m f) en s Q.
Proof.
  unfold wp, bind. intros Hm. apply wpf_bind. eapply wpf_mono; [exact Hm |].
  by intros [a en'] s'.
Qed.

Lemma wp_ret {A : Type} (a : A) (en : Z) (s : S) (Q : A -> Z -> S -> Prop) :
  Q a en s -> wp (ret a) en s Q.
Proof. done. Qed.

Lemma wp_call (e : ev) (en : Z) (s : S) (Q : resp e -> Z -> S -> Prop) :
  sem_pre e s -> (forall r s', sem_step e s r s' -> Q r (resp_errno e r en) s') ->
  wp (call e) en s Q.
Proof. intros Hpre Hk. by split. Qed.

Lemma wp_get_errno (en : Z) (s : S) (Q : Z -> Z -> S -> Prop) :
  Q en en s -> wp get_errno en s Q.
Proof. done. Qed.

Lemma wp_set_errno (e en : Z) (s : S) (Q : unit -> Z -> S -> Prop) :
  Q tt e s -> wp (set_errno e) en s Q.
Proof. done. Qed.

(** A loop: an invariant for the states it starts over with. *)
Lemma wp_loop {X A : Type} (Inv : X -> Z -> S -> Prop) (fuel : nat) (body : X -> prog (X + A))
    (x : X) (en : Z) (s : S) (Q : A -> Z -> S -> Prop) :
  sem_out ->
  (forall x en s, Inv x en s ->
     wp (body x) en s (fun r en' s' => match r with
                                       | inl x' => Inv x' en' s'
                                       | inr a => Q a en' s'
                                       end)) ->
  Inv x en s -> wp (loop fuel body x) en s Q.
Proof.
  intros Hout Hbody. revert x en s. induction fuel as [|n IH]; intros x en s HI; [done |].
  simpl. apply wp_bind. eapply wp_mono; [by apply Hbody |].
  intros [x' | a] en' s' H; [by apply IH | done].
Qed.

Lemma wp_exec {A : Type} (m : prog A) (en : Z) (s : S) (Q : A -> Z -> S -> Prop) :
  wp m en s Q -> forall tr a en' s', exec m en s tr a en' s' -> Q a en' s'.
Proof. intros Hm tr a en' s' Hx. exact (wpf_steps _ _ _ _ _ _ Hm Hx). Qed.

(** No run, complete or not, issues an event where it may not. *)
Lemma wp_safe {A : Type} (m : prog A) (en : Z) (s : S) (Q : A -> Z -> S -> Prop) :
  wp m en s Q -> forall tr e k s', steps (m en) s tr (Vis e k) s' -> sem_pre e s'.
Proof. intros Hm tr e k s' Hx. exact (proj1 (wpf_steps _ _ _ _ _ _ Hm Hx)). Qed.

(** Two postconditions of one program. *)
Lemma wp_and {A : Type} (m : prog A) (en : Z) (s : S) (P Q : A -> Z -> S -> Prop) :
  wp m en s P -> wp m en s Q -> wp m en s (fun a en' s' => P a en' s' /\ Q a en' s').
Proof.
  unfold wp. generalize (m en) as p. intros p. revert s.
  induction p as [[a e] | e k IH |]; intros s HP HQ; cbn in *; [by split | | done].
  split; [apply HP |]. intros r s' Hs. apply IH; [by apply HP | by apply HQ].
Qed.
End wp.

(** ** Environments that accept everything *)

Section lax.
Context {S : Type} {HS : Sem S} (Hpre : forall e s, sem_pre e s) (Hout : sem_out).

Lemma wp_lax_true {A : Type} (m : prog A) (en : Z) (s : S) : wp m en s (fun _ _ _ => True).
Proof using Hpre Hout.
  unfold wp. generalize (m en) as p. intros p. revert s.
  induction p as [a | e k IH |]; intros s; cbn; [done | | done]. split; [apply Hpre | by intros].
Qed.

(** A step whose result does not matter. *)
Lemma wp_lax_skip {A B : Type} (m : prog A) (f : A -> prog B) (en : Z) (s : S)
    (Q : B -> Z -> S -> Prop) :
  (forall a en' s', wp (f a) en' s' Q) -> wp (bind m f) en s Q.
Proof using Hpre Hout.
  intros HQ. apply wp_bind. eapply wp_mono; [apply wp_lax_true |]. intros a en' s' _. apply HQ.
Qed.
End lax.

(** What holds in an environment holds in each that refines it: [f] gives the
    state of the one in the state of the other. *)
Lemma wp_refine {S T A : Type} {HS : Sem S} {HT : Sem T} (f : T -> S) (m : prog A) (en : Z) (t : T)
    (P : A -> Z -> S -> Prop) (Q : A -> Z -> T -> Prop) :
  (forall e t r t', sem_pre (S := T) e t -> sem_step e t r t' -> sem_step e (f t) r (f t')) ->
  wp m en (f t) P -> wp m en t Q ->
  wp m en t (fun a en' t' => P a en' (f t') /\ Q a en' t').
Proof.
  intros Hf. unfold wp. generalize (m en) as p. intros p. revert t.
  induction p as [[a en'] | e k IH |]; intros t HP HQ; cbn in *; [done | | done].
  split; [apply HQ |]. intros r t' Hs. apply IH; [| by apply HQ].
  apply (proj2 HP). apply Hf; [apply HQ | done].
Qed.

(** The same environment, in which a loop may go on. *)
Definition going {S : Type} (HS : Sem S) : Sem S := {|
  sem_pre := sem_pre; sem_step := sem_step; sem_out := True
|}.

Lemma wp_going {S A : Type} (HS : Sem S) (m : prog A) (en : Z) (s : S) (Q : A -> Z -> S -> Prop) :
  wp (HS := HS) m en s Q -> wp (HS := going HS) m en s Q.
Proof.
  unfold wp. generalize (m en) as p. intros p. revert s.
  induction p as [[a en'] | e k IH |]; intros s H; cbn in *; [done | | done].
  split; [apply H |]. intros r s' Hs. by apply IH, H.
Qed.

(** ** What events a program consists of *)

(** Every event of the program, whatever it is told, satisfies [P]. *)
Fixpoint only (P : ev -> Prop) {A : Type} (p : free A) : Prop :=
  match p with
  | Ret _ => True
  | Vis e k => P e /\ forall r, only P (k r)
  | Out => True
  end.

Lemma only_bind (P : ev -> Prop) {A B : Type} (p : free A) (f : A -> free B) :
  only P p -> (forall a, only P (f a)) -> only P (fbind p f).
Proof.
  induction p as [a | e k IH |]; cbn; intros Hp Hf; [apply Hf | | done].
  split; [apply Hp |]. intros r. apply IH; [apply Hp | exact Hf].
Qed.

(** A program in an environment whose states are those of another one, seen
    through [f], and which asks for more only of events the program has not. *)
Lemma wp_only {S T A : Type} {HS : Sem S} {HT : Sem T} (f : T -> S) (P : ev -> Prop)
    (m : prog A) (en : Z) (t : T) (Q : A -> Z -> S -> Prop) :
  (forall e t, P e -> sem_pre e (f t) -> sem_pre e t) ->
  (forall e t r t', sem_step e t r t' -> sem_step e (f t) r (f t')) ->
  (sem_out (S := S) -> sem_out (S := T)) ->
  only P (m en) -> wp m en (f t) Q -> wp m en t (fun a en' t' => Q a en' (f t')).
Proof.
  intros Hpre Hstep Hout. unfold wp. generalize (m en) as p. intros p. revert t.
  induction p as [[a en'] | e k IH |]; cbn; intros t Ho Hq; [done | | by apply Hout].
  split; [apply Hpre; [apply Ho | apply Hq] |].
  intros r t' Hs. apply IH; [apply Ho | by apply Hq, Hstep].
Qed.

(** ** Equality of programs

    Two programs are the same if they do the same events in the same order,
    whatever they are told, and end in the same way: equality of the trees, up
    to the equality of their continuations at every response. *)

Inductive same {A : Type} : free A -> free A -> Prop :=
  | same_ret a : same (Ret a) (Ret a)
  | same_vis e k k' : (forall r, same (k r) (k' r)) -> same (Vis e k) (Vis e k')
  | same_out : same Out Out.

Lemma same_inv {A : Type} (p q : free A) :
  same p q -> match p with
              | Ret a => q = Ret a
              | Vis e k => exists k', q = Vis e k' /\ forall r, same (k r) (k' r)
              | Out => q = Out
              end.
Proof. intros [a | e k k' H |]; [done | by exists k' | done]. Qed.

#[export] Instance same_equivalence (A : Type) : Equivalence (@same A).
Proof.
  split.
  - intros p. induction p; by constructor.
  - intros p q H. induction H; by constructor.
  - intros p q u H. revert u. induction H as [a | e k k' H IH |]; intros u Hu; [done | | done].
    apply same_inv in Hu as (k2 & -> & Hk). constructor. intros r. by apply IH.
Qed.

(** Sequencing preserves it. *)
Lemma same_bind {A B : Type} (p q : free A) (f f' : A -> free B) :
  same p q -> (forall a, same (f a) (f' a)) -> same (fbind p f) (fbind q f').
Proof. intros H Hf. induction H; cbn; [apply Hf | by constructor | constructor]. Qed.

#[export] Instance fbind_proper (A B : Type) :
  Proper (same ==> pointwise_relation A same ==> same) (@fbind A B).
Proof. intros p q H f f' Hf. by apply same_bind. Qed.

(** A bind can be reassociated; [ret] is its unit. *)
Lemma same_assoc {A B D : Type} (p : free A) (f : A -> free B) (h : B -> free D) :
  same (fbind (fbind p f) h) (fbind p (fun a => fbind (f a) h)).
Proof. induction p; cbn; [reflexivity | by constructor | constructor]. Qed.

(** The same programs have the same runs, and the same properties, in every
    environment. *)
Lemma same_steps {S A : Type} {HS : Sem S} (p q : free A) (s s' : S) (tr : list event) (a : A) :
  same p q -> steps p s tr (Ret a) s' -> steps q s tr (Ret a) s'.
Proof.
  intros H Hs. revert q H. remember (Ret a) as d eqn:Ed.
  induction Hs as [p s | e k s r s1 tr p s' Hstep _ IH]; intros q H; subst.
  - apply same_inv in H as ->. constructor.
  - apply same_inv in H as (k' & -> & H). econstructor; [exact Hstep |]. by apply IH.
Qed.

Lemma same_wpf {S A : Type} {HS : Sem S} (p q : free A) (s : S) (Q : A -> S -> Prop) :
  same p q -> wpf p s Q -> wpf q s Q.
Proof.
  intros H. revert s. induction H as [a | e k k' H IH |]; intros s; cbn; [done | | done].
  intros [Hpre Hk]. split; [done |]. intros r s' Hs. by apply IH, Hk.
Qed.

#[export] Instance wpf_proper {S A : Type} {HS : Sem S} :
  Proper (same ==> eq ==> eq ==> iff) (@wpf S HS A).
Proof. intros p q H s ? <- Q ? <-. split; apply same_wpf; [done | by symmetry]. Qed.

(** The same with [errno] threaded: from every [errno]. *)
Definition same_prog {A : Type} (m n : prog A) : Prop := forall en, same (m en) (n en).

Infix "≈" := same_prog (at level 70, no associativity) : prog_scope.

#[export] Instance same_prog_equivalence (A : Type) : Equivalence (@same_prog A).
Proof.
  split; [intros m en | intros m n H en | intros m n o H1 H2 en].
  - reflexivity.
  - symmetry. apply H.
  - etransitivity; [apply H1 | apply H2].
Qed.

Lemma bind_same {A B : Type} (m n : prog A) (f f' : A -> prog B) :
  m ≈ n -> (forall a, f a ≈ f' a) -> bind m f ≈ bind n f'.
Proof. intros H Hf en. apply same_bind; [apply H |]. intros [a en']. apply Hf. Qed.

#[export] Instance bind_proper (A B : Type) :
  Proper (same_prog ==> pointwise_relation A same_prog ==> same_prog) (@bind A B).
Proof. intros m n H f f' Hf. by apply bind_same. Qed.

Lemma bind_assoc {A B D : Type} (m : prog A) (f : A -> prog B) (h : B -> prog D) :
  bind (bind m f) h ≈ bind m (fun a => bind (f a) h).
Proof.
  intros en. unfold bind. rewrite same_assoc. apply same_bind; [reflexivity |]. by intros [a en'].
Qed.

(** Two programs with the same first step. *)
Lemma bind_under {A B D : Type} (m : prog A) (k k' : A -> prog B) (f f' : B -> prog D) :
  (forall a, bind (k a) f ≈ bind (k' a) f') -> bind (bind m k) f ≈ bind (bind m k') f'.
Proof. intros H. rewrite !bind_assoc. by apply bind_same. Qed.

Lemma ret_bind {A B : Type} (a : A) (f : A -> prog B) : bind (ret a) f ≈ f a.
Proof. intros en. reflexivity. Qed.

Lemma same_wp {S A : Type} {HS : Sem S} (m n : prog A) (en : Z) (s : S) (Q : A -> Z -> S -> Prop) :
  m ≈ n -> wp m en s Q -> wp n en s Q.
Proof. intros H. by apply same_wpf. Qed.

(** Equal programs run alike in every environment: the same events with the
    same answers, result, [errno] and final state. *)
Lemma same_exec {S A : Type} {HS : Sem S} (m n : prog A) (en en' : Z) (s s' : S)
    (tr : list event) (a : A) :
  m ≈ n -> exec m en s tr a en' s' <-> exec n en s tr a en' s'.
Proof. intros H. split; apply same_steps; [apply H | symmetry; apply H]. Qed.

(** One step of symbolic execution: [wp_step] goes under the first bind,
    [wp_go] also through calls that need no lemma. *)
Ltac wp_step :=
  lazymatch goal with
  | |- wp (bind _ _) _ _ _ => apply wp_bind
  | |- wp (ret _) _ _ _ => apply wp_ret
  | |- wp (call _) _ _ _ => apply wp_call; [| intros ? ? ?]
  | |- wp get_errno _ _ _ => apply wp_get_errno
  | |- wp (set_errno _) _ _ _ => apply wp_set_errno
  | |- wp (match ?x with _ => _ end) _ _ _ => destruct x eqn:?
  | |- wp ((fun _ => _) _) _ _ _ => cbv beta
  end.

(** ** Traces of runs *)

Lemma steps_trans {S : Type} {HS : Sem S} {A : Type} (p1 p2 p3 : free A) (s1 s2 s3 : S)
    (t1 t2 : list event) :
  steps p1 s1 t1 p2 s2 -> steps p2 s2 t2 p3 s3 -> steps p1 s1 (t1 ++ t2) p3 s3.
Proof. induction 1; intros H2; simpl; [done |]. econstructor; eauto. Qed.

Lemma steps_fbind {S : Type} {HS : Sem S} {A B : Type} (p p' : free A) (f : A -> free B)
    (s s' : S) (tr : list event) :
  steps p s tr p' s' -> steps (fbind p f) s tr (fbind p' f) s'.
Proof. induction 1; simpl; econstructor; eauto. Qed.

(** A bind runs its first half, then its second. *)
Lemma exec_bind {S : Type} {HS : Sem S} {A B : Type} (m : prog A) (f : A -> prog B)
    (en en1 en2 : Z) (s s1 s2 : S) (t1 t2 : list event) (a : A) (b : B) :
  exec m en s t1 a en1 s1 -> exec (f a) en1 s1 t2 b en2 s2 ->
  exec (bind m f) en s (t1 ++ t2) b en2 s2.
Proof.
  intros H1 H2. eapply steps_trans; [by apply steps_fbind |]. exact H2.
Qed.

(** ** Runs by computation

    A program in an environment that answers by a function: its result, final
    state and trace, if it does not run out of fuel. *)
Section compute.
Context {S : Type} (answer : forall e : ev, S -> resp e * S).

Fixpoint compute {A : Type} (p : free A) (s : S) : option (A * S * list event) :=
  match p with
  | Ret a => Some (a, s, [])
  | Vis e k =>
      let (r, s1) := answer e s in
      match compute (k r) s1 with
      | Some (a, s2, tr) => Some (a, s2, Event e r :: tr)
      | None => None
      end
  | Out => None
  end.

(** [ok]: the states the answers are right in. *)
Lemma compute_steps {HS : Sem S} (ok : S -> Prop) {A : Type} (p : free A) (s s' : S) (a : A)
    (tr : list event) :
  (forall e s, ok s -> sem_step e s (fst (answer e s)) (snd (answer e s)) /\
                       ok (snd (answer e s))) ->
  ok s -> compute p s = Some (a, s', tr) -> steps p s tr (Ret a) s'.
Proof.
  intros Hstep. revert s s' a tr.
  induction p as [x | e k IH |]; intros s s' a tr Hok; simpl; [| | done].
  - intros [= <- <- <-]. constructor.
  - destruct (Hstep e s Hok) as [Hs Hok1]. destruct (answer e s) as [r s1]. cbn [fst snd] in *.
    destruct (compute (k r) s1) as [[[y s2] tr']|] eqn:E; [| done].
    intros [= <- <- <-]. econstructor; [exact Hs |]. by eapply IH.
Qed.
End compute.
