(* ===== verification/Common.v ===== *)
(** * Error codes, version, clock (include/psmsgr/psmsgr.h, src/common.c,
    src/internal.h, src/seqcopy.c) *)
From S2P Require Import Prelude Prog.
#[local] Open Scope string_scope.
#[local] Open Scope Z_scope.

(** ** The build: the size of a pointer (4 on ARMv7, 8 on 64-bit hosts), of the
    two handles, and the two test hooks of internal.h, NULL and false outside of tests. *)
Class Config := {
  sizeof_pointer : Z;
  sizeof_writer : Z;                  (* sizeof(psmsgr_state_writer) *)
  sizeof_reader : Z;                  (* sizeof(psmsgr_state_reader) *)
  psmi_test_lock_opened : bool;       (* the hook is installed *)
  psmi_test_skip_seq_recheck : bool
}.

(** ** Result codes *)

Definition PSMSGR_OK : Z := 0.
Definition PSMSGR_E_INVAL : Z := -1.
Definition PSMSGR_E_SYS : Z := -2.
Definition PSMSGR_E_NODATA : Z := -3.
Definition PSMSGR_E_TOOSMALL : Z := -4.
Definition PSMSGR_E_TOOBIG : Z := -5.
Definition PSMSGR_E_BUSY : Z := -6.
Definition PSMSGR_E_TIMEOUT : Z := -7.
Definition PSMSGR_E_INTR : Z := -8.
Definition PSMSGR_E_WRITER_EXISTS : Z := -9.
Definition PSMSGR_E_MISMATCH : Z := -10.
Definition PSMSGR_E_FORMAT : Z := -11.
Definition PSMSGR_E_NOTSUP : Z := -12.
Definition PSMSGR_E_STATE : Z := -13.

(** ** Version *)

Definition PSMSGR_VERSION_MAJOR : Z := 1.
Definition PSMSGR_VERSION_MINOR : Z := 0.
Definition PSMSGR_VERSION_PATCH : Z := 0.

Definition PSMSGR_VERSION_NUMBER (major minor patch : Z) : Z :=
  Z.lor (Z.lor (u32 (Z.shiftl (u32 major) 16)) (u32 (Z.shiftl (u32 minor) 8))) (u32 patch).

Definition psmsgr_version : Z :=
  PSMSGR_VERSION_NUMBER PSMSGR_VERSION_MAJOR PSMSGR_VERSION_MINOR PSMSGR_VERSION_PATCH.

(** ** Error strings *)

Definition psmsgr_strerror (code : Z) : string :=
  if code =? PSMSGR_OK then "success"
  else if code =? PSMSGR_E_INVAL then "invalid argument"
  else if code =? PSMSGR_E_SYS then "system call failed"
  else if code =? PSMSGR_E_NODATA then "no data"
  else if code =? PSMSGR_E_TOOSMALL then "buffer too small"
  else if code =? PSMSGR_E_TOOBIG then "payload larger than capacity"
  else if code =? PSMSGR_E_BUSY then "channel busy"
  else if code =? PSMSGR_E_TIMEOUT then "timed out"
  else if code =? PSMSGR_E_INTR then "interrupted"
  else if code =? PSMSGR_E_WRITER_EXISTS then "another writer holds the channel"
  else if code =? PSMSGR_E_MISMATCH then "channel geometry mismatch"
  else if code =? PSMSGR_E_FORMAT then "invalid channel format"
  else if code =? PSMSGR_E_NOTSUP then "not supported"
  else if code =? PSMSGR_E_STATE then "invalid state for this call"
  else "unknown error".

(** ** Clock *)

(** [(uint64_t)tv_sec * 1000000000u + (uint64_t)tv_nsec]. *)
Definition timespec_ns (sec nsec : Z) : Z := u64 (u64 (u64 sec * 1000000000) + u64 nsec).

Definition psmi_clock_ns (clock : clockid) : prog Z :=
  let* (sec, nsec) := call (SysClockGettime clock) in
  ret (timespec_ns sec nsec).

Definition psmsgr_now_ns : prog Z := psmi_clock_ns CLOCK_MONOTONIC.

(** ** The racy copy

    [memcpy] between private memory and a mapping, one byte at a time: any
    coarser access is one of the interleavings this allows.  A plain (not
    atomic) access of a field of the mapping is the copy of its bytes. *)

Fixpoint load_bytes (src : ptr) (n : nat) : prog (list Z) :=
  match n with
  | O => ret []
  | S n' => let* b := call (Load8 src) in
            let* bs := load_bytes (ptr_add src 1) n' in
            ret (b :: bs)
  end.

Fixpoint store_bytes (dst : ptr) (bs : list Z) : prog unit :=
  match bs with
  | [] => ret tt
  | b :: bs' => call (Store8 dst b) ;;; store_bytes (ptr_add dst 1) bs'
  end.

(** [psmi_seq_copy(dst, src, n)] with [src] in the mapping. *)
Definition psmi_seq_copy_from (src : ptr) (n : Z) : prog (list Z) :=
  if negb (n =? 0) then load_bytes src (Z.to_nat n) else ret [].

(** [psmi_seq_copy(dst, src, n)] with [dst] in the mapping. *)
Definition psmi_seq_copy_to (dst : ptr) (src : list Z) (n : Z) : prog unit :=
  if negb (n =? 0) then store_bytes dst (take (Z.to_nat n) src) else ret tt.

(** A plain load and a plain store of an [n]-byte integer field. *)
Definition plain_load (p : ptr) (n : nat) : prog Z :=
  let* bs := load_bytes p n in ret (le_val bs).

Definition plain_store (p : ptr) (n : nat) (v : Z) : prog unit := store_bytes p (le_bytes n v).

(** Closes [fd] without clobbering [errno]. *)
Definition close_keep_errno (fd : Z) : prog unit :=
  let* e := get_errno in
  let* _ := call (SysClose fd) in
  set_errno e.

(** ** Bytes the environment tells *)

(** In the state [s] the byte at [p] may be loaded, and is [v]. *)
Definition byte_is {S : Type} `{HS : Sem S} (s : S) (p : ptr) (v : Z) : Prop :=
  sem_pre (Load8 p) s /\ forall r s', sem_step (Load8 p) s r s' -> r = v /\ s' = s.

Definition bytes_are {S : Type} `{HS : Sem S} (s : S) (p : ptr) (bs : list Z) : Prop :=
  forall i b, bs !! i = Some b -> byte_is s (ptr_add p (Z.of_nat i)) b.

Lemma wp_load_bytes_are {S : Type} `{HS : Sem S} (bs : list Z) (p : ptr) (en : Z) (s : S)
    (Q : list Z -> Z -> S -> Prop) :
  bytes_are s p bs -> Q bs en s -> wp (load_bytes p (length bs)) en s Q.
Proof.
  revert p Q. induction bs as [|b bs IH]; intros p Q Hb HQ; cbn [length load_bytes]; [by apply wp_ret |].
  destruct (Hb 0%nat b eq_refl) as [Hp Hs]. unfold ptr_add in Hp, Hs. rewrite Z.add_0_r in Hp, Hs.
  destruct p as [blk off]. cbn [p_blk p_off] in *.
  apply wp_bind, wp_call; [done |]. intros r s' Hr. destruct (Hs r s' Hr) as [-> ->].
  apply wp_bind, IH; [| by apply wp_ret].
  intros i b' Hi. replace (ptr_add (ptr_add _ 1) (Z.of_nat i))
    with (ptr_add {| p_blk := blk; p_off := off |} (Z.of_nat (Datatypes.S i)))
    by (unfold ptr_add; cbn [p_blk p_off]; f_equal; lia).
  by apply Hb.
Qed.

Lemma wp_plain_load_is {S : Type} `{HS : Sem S} (n : nat) (v : Z) (p : ptr) (en : Z) (s : S)
    (Q : Z -> Z -> S -> Prop) :
  0 <= v < 256 ^ Z.of_nat n -> bytes_are s p (le_bytes n v) -> Q v en s ->
  wp (plain_load p n) en s Q.
Proof.
  intros Hv Hb HQ. unfold plain_load. apply wp_bind. rewrite <- (length_le_bytes n v) at 1.
  apply wp_load_bytes_are; [done |]. apply wp_ret. rewrite le_val_bytes. by rewrite Z.mod_small.
Qed.

(** ** Properties *)

(** The codes the header declares. *)
Definition known_code (c : Z) : bool := (PSMSGR_E_STATE <=? c) && (c <=? PSMSGR_OK).

(** Every code of the public enum has a message of its own, and every
    other code has the message "unknown error", which no known code has. *)
Theorem strerror_classifies (c d : Z) :
  (known_code c = true -> psmsgr_strerror c = psmsgr_strerror d -> c = d) /\
  (known_code c = false -> psmsgr_strerror c = "unknown error").
Proof.
  unfold known_code. split.
  - intros Hc Heq. bool_hyps.
    assert (Hk : c ∈ [0;-1;-2;-3;-4;-5;-6;-7;-8;-9;-10;-11;-12;-13]).
    { repeat rewrite elem_of_cons. unfold PSMSGR_E_STATE, PSMSGR_OK in *. lia. }
    revert Heq. unfold psmsgr_strerror at 2.
    repeat match goal with |- context [d =? ?k] => destruct (Z.eqb_spec d k) as [->|] end;
    repeat (apply elem_of_cons in Hk as [->|Hk]; [by vm_compute |]);
    by apply elem_of_nil in Hk.
  - intros Hc. apply andb_false_iff in Hc. unfold psmsgr_strerror.
    unfold PSMSGR_E_STATE, PSMSGR_OK in Hc.
    repeat match goal with
           | |- context [c =? ?k] => destruct (Z.eqb_spec c k) as [E|_];
               [exfalso; subst; destruct Hc; discriminate |]
           end.
    done.
Qed.

Lemma strerror_classifies_witness :
  known_code (-6) = true /\ -6 = PSMSGR_E_BUSY /\ psmsgr_strerror 7 = "unknown error".
Proof.
  split; [reflexivity | split].
  - by apply (proj1 (strerror_classifies (-6) PSMSGR_E_BUSY)).
  - by apply (proj2 (strerror_classifies 7 0)).
Defined.

(** The clock reading is the exact nanosecond count for every normalised
    time below 2^34 seconds (over 500 years), and it orders the clock values
    as the clock does: no carry is lost between seconds and nanoseconds. *)
Theorem clock_ns_exact_and_monotone (s1 n1 s2 n2 : Z) :
  0 <= s1 < 17179869184 -> 0 <= n1 < 1000000000 ->
  0 <= s2 < 17179869184 -> 0 <= n2 < 1000000000 ->
  timespec_ns s1 n1 = s1 * 1000000000 + n1 /\
  (timespec_ns s1 n1 < timespec_ns s2 n2 <-> s1 < s2 \/ (s1 = s2 /\ n1 < n2)).
Proof.
  intros. unfold timespec_ns.
  rewrite !(u64_small s1), !(u64_small s2), !(u64_small n1), !(u64_small n2) by lia.
  rewrite !(u64_small (_ * _)) by lia. rewrite !u64_small by lia. lia.
Qed.

Lemma clock_ns_exact_and_monotone_witness :
  timespec_ns 5 999999999 = 5 * 1000000000 + 999999999 /\
  timespec_ns 5 999999999 < timespec_ns 6 0.
Proof.
  split.
  - apply (clock_ns_exact_and_monotone 5 999999999 6 0); lia.
  - apply (clock_ns_exact_and_monotone 5 999999999 6 0); lia.
Defined.
