(* ===== verification/Names.v ===== *)
(** * Channel names and file paths (src/state.c, "small helpers", "paths")

    Name validation, the one-allocation path buffer of [paths_init], and the
    test that decides which leftover temporary files belong to a channel. *)
From S2P Require Import Prelude Prog Common.
From Stdlib Require Import Ascii.
#[local] Open Scope string_scope.
#[local] Open Scope list_scope.
#[local] Open Scope Z_scope.

Definition PSMSGR_NAME_MAX : nat := 64.

(** C strings as lists of characters. *)
Definition chars (s : string) : list ascii := String.list_ascii_of_string s.
Definition NUL : ascii := Ascii.zero.

(** A C string has no NUL inside. *)
Definition cstring (s : string) : Prop := Forall (fun c => c <> NUL) (chars s).

(** ** Name validation *)

Definition in_range (c lo hi : ascii) : bool :=
  (N_of_ascii lo <=? N_of_ascii c)%N && (N_of_ascii c <=? N_of_ascii hi)%N.

Definition name_char (c : ascii) : bool :=
  in_range c "A" "Z" || in_range c "a" "z" || in_range c "0" "9" ||
  (c =? "_")%char || (c =? "-")%char || (c =? ".")%char.

(** The [for] loop of [name_valid], from index [i]. *)
Fixpoint name_loop (i : nat) (s : string) : bool :=
  match s with
  | EmptyString => true
  | String c s' =>
      if (i =? PSMSGR_NAME_MAX)%nat then false
      else if negb (name_char c) then false
      else name_loop (i + 1) s'
  end.

Definition name_valid (name : option string) : bool :=
  match name with
  | None => false
  | Some EmptyString => false
  | Some (String c s) => if (c =? ".")%char then false else name_loop 0 (String c s)
  end.

(** ** The path buffer *)

(** Memory from [malloc]: [None] is a byte not written yet. *)
Definition buffer : Type := list (option ascii).

(** [memcpy(buf + off, src, length src)]; [None] if it runs past the block. *)
Definition memcpy_at (buf : buffer) (off : nat) (src : list (option ascii)) : option buffer :=
  if (off + length src <=? length buf)%nat
  then Some (take off buf ++ src ++ drop (off + length src) buf)
  else None.

(** The C string at [off], up to its NUL. *)
Fixpoint cstr (buf : buffer) : option string :=
  match buf with
  | Some c :: buf' => if (c =? NUL)%char then Some EmptyString
                      else s ← cstr buf'; Some (String c s)
  | _ => None
  end.

Record paths := {
  pt_block : Z;          (* the allocation [dir] points to *)
  pt_dir : string;
  pt_data : string;      (* <dir>/psmsgr.<name>.state *)
  pt_lock : string;      (* <dir>/psmsgr.<name>.lock *)
  pt_data_base : string  (* psmsgr.<name>.state, inside data *)
}.

(** The copies of [paths_init] into a block of [n] bytes: the directory, the
    data path, and the lock path, whose first part is copied from the data
    path. *)
Definition paths_copy (dir name : string) (n : nat) : option buffer :=
  let dlen := String.length dir in
  let nlen := String.length name in
  let data_len := (dlen + 8 + nlen + 6)%nat in
  let data := (dlen + 1)%nat in
  let lock := (data + data_len + 1)%nat in
  let lit s := Some <$> chars s in
  b ← memcpy_at (replicate n None) 0 (lit dir ++ [Some NUL]);
  b ← memcpy_at b data (lit dir);
  b ← memcpy_at b (data + dlen) (lit "/psmsgr.");
  b ← memcpy_at b (data + dlen + 8) (lit name);
  b ← memcpy_at b (data + dlen + 8 + nlen) (lit ".state" ++ [Some NUL]);
  b ← memcpy_at b lock (take (dlen + 8 + nlen) (drop data b));
  memcpy_at b (lock + dlen + 8 + nlen) (lit ".lock" ++ [Some NUL]).

(** The strings the members of [paths] then point to. *)
Definition paths_fill (dir name : string) (n : nat) (block : Z) : option paths :=
  let dlen := String.length dir in
  let nlen := String.length name in
  let data := (dlen + 1)%nat in
  let lock := (data + (dlen + 8 + nlen + 6) + 1)%nat in
  b ← paths_copy dir name n;
  s_dir ← cstr b;
  s_data ← cstr (drop data b);
  s_lock ← cstr (drop lock b);
  s_base ← cstr (drop (data + dlen + 1) b);
  Some {| pt_block := block; pt_dir := s_dir; pt_data := s_data; pt_lock := s_lock;
          pt_data_base := s_base |}.

(** The size [paths_init] asks [malloc] for. *)
Definition paths_size (dir name : string) : nat :=
  let dlen := String.length dir in
  let nlen := String.length name in
  let data_len := (dlen + 8 + nlen + 6)%nat in
  let lock_len := (dlen + 8 + nlen + 5)%nat in
  (dlen + 1 + data_len + 1 + lock_len + 1)%nat.

Definition default_dir (env : option string) : string :=
  match env with
  | Some e => if (e =? "")%string then "/dev/shm" else e
  | None => "/dev/shm"
  end.

(** [paths_init(&p, dir, name)].  [paths_fill] never fails on the block asked
    for ([paths_fill_spec]). *)
Definition paths_init (dir : option string) (name : string) : prog (Z * option paths) :=
  let* d := match dir with
            | Some d => ret d
            | None => let* env := call (Getenv "PSMSGR_DIR") in ret (default_dir env)
            end in
  let* buf := call (Malloc (Z.of_nat (paths_size d name))) in
  match buf with
  | None => ret (PSMSGR_E_SYS, None)
  | Some b => ret (PSMSGR_OK, paths_fill d name (paths_size d name) b)
  end.

Definition paths_free (p : paths) : prog unit := call (Free (pt_block p)).

(** ** Leftover temporary files *)

(** [strncmp(a, b, strlen(b)) == 0]. *)
Definition starts_with (b a : string) : bool := String.prefix b a.

(** [s + n], for [n] up to the length. *)
Fixpoint str_drop (n : nat) (s : string) : string :=
  match n, s with
  | S n', String _ s' => str_drop n' s'
  | _, _ => s
  end.

(** [strchr(s, '.') == NULL]. *)
Definition no_dot (s : string) : bool := forallb (fun c => negb (c =? ".")%char) (chars s).

(** The test of [remove_stale_tmp] on a directory entry [n]. *)
Definition stale_tmp (data_base n : string) : bool :=
  let blen := String.length data_base in
  if negb (starts_with data_base n) || negb (starts_with ".tmp." (str_drop blen n)) then false
  else
    let suffix := str_drop (blen + 5) n in
    (String.length suffix =? 6)%nat && no_dot suffix.

(** The [readdir] loop, then [closedir]. *)
Definition remove_stale_tmp (fuel : nat) (p : paths) : prog unit :=
  let* d := call (SysOpendir (pt_dir p)) in
  match d with
  | inr _ => ret tt (* best effort *)
  | inl d =>
      loop fuel (fun _ : unit =>
        let* e := call (SysReaddir d) in
        match e with
        | None => ret (inr tt)
        | Some n =>
            if stale_tmp (pt_data_base p) n
            then let* _ := call (SysUnlinkat d n) in ret (inl tt)
            else ret (inl tt)
        end) tt ;;;
      let* _ := call (SysClosedir d) in
      ret tt
  end.

(** ** Specifications *)

(** The names of a channel's files inside its directory (spec §2). *)
Definition state_file (name : string) : string := ("psmsgr." ++ name ++ ".state")%string.
Definition lock_file (name : string) : string := ("psmsgr." ++ name ++ ".lock")%string.
Definition tmp_file (name suffix : string) : string :=
  (state_file name ++ ".tmp." ++ suffix)%string.

(** [[A-Za-z0-9_-][A-Za-z0-9_.-]{0,63}], the pattern of spec §2. *)
Definition name_pattern (s : string) : Prop :=
  exists c rest, s = String c rest /\ name_char c = true /\ c <> "."%char /\
    Forall (fun c => name_char c = true) (chars rest) /\ (String.length rest <= 63)%nat.

(** ** Lemmas: strings *)

Lemma chars_app (a b : string) : chars (a ++ b)%string = chars a ++ chars b.
Proof. induction a; simpl; [done | unfold chars in *; simpl; by rewrite IHa]. Qed.

Lemma chars_inj (a b : string) : chars a = chars b -> a = b.
Proof.
  intros H. rewrite <- (String.string_of_list_ascii_of_string a), <- (String.string_of_list_ascii_of_string b).
  unfold chars in H. by rewrite H.
Qed.

Lemma length_chars (s : string) : length (chars s) = String.length s.
Proof. induction s; simpl; [done | unfold chars in *; simpl; by rewrite IHs]. Qed.

Lemma string_app_assoc (a b c : string) : ((a ++ b) ++ c)%string = (a ++ b ++ c)%string.
Proof. apply chars_inj. by rewrite !chars_app, app_assoc. Qed.

Lemma str_length_app (a b : string) :
  String.length (a ++ b)%string = (String.length a + String.length b)%nat.
Proof. by rewrite <- !length_chars, chars_app, length_app. Qed.

Lemma chars_str_drop (n : nat) (s : string) : chars (str_drop n s) = drop n (chars s).
Proof.
  revert s. induction n; intros s; [done |]. destruct s; [done |]. simpl. by rewrite IHn.
Qed.

Lemma prefix_chars (b a : string) :
  starts_with b a = true <-> exists r, chars a = (chars b ++ r).
Proof.
  unfold starts_with. revert a. induction b as [|c b IH]; intros a; simpl.
  - split; [intros _; by exists (chars a) | by destruct a].
  - destruct a as [|c' a].
    + split; [done | intros [r Hr]; discriminate].
    + cbn [String.prefix]. destruct (ascii_dec c c') as [->|Hne].
      * rewrite IH. split; intros [r Hr]; exists r; unfold chars in *; simpl in *; congruence.
      * split; [done | intros [r Hr]; unfold chars in Hr; simpl in Hr; congruence].
Qed.

Lemma no_dot_spec (s : string) : no_dot s = true <-> "."%char ∉ chars s.
Proof.
  unfold no_dot. rewrite forallb_forall. split.
  - intros H Hin. apply list_elem_of_In, H in Hin.
    by rewrite Ascii.eqb_refl in Hin.
  - intros H x Hx. apply negb_true_iff, Ascii.eqb_neq. intros ->.
    by apply H, list_elem_of_In.
Qed.

(** What [remove_stale_tmp] unlinks. *)
Lemma stale_tmp_spec (base n : string) :
  stale_tmp base n = true <->
  exists suf, chars n = (chars base ++ chars ".tmp." ++ suf) /\ length suf = 6%nat /\
    "."%char ∉ suf.
Proof.
  unfold stale_tmp. split.
  - destruct (starts_with base n) eqn:H1; simpl; [| done].
    destruct (starts_with ".tmp." (str_drop (String.length base) n)) eqn:H2; simpl; [| done].
    intros H. bool_hyps.
    apply prefix_chars in H1 as [r Hr]. apply prefix_chars in H2 as [r2 Hr2].
    rewrite chars_str_drop, Hr, <- length_chars, drop_app_length in Hr2. subst r.
    exists r2. match goal with H : no_dot _ = true |- _ => apply no_dot_spec in H; rename H into Hd end.
    match goal with H : (_ =? 6)%nat = true |- _ => apply Nat.eqb_eq in H; rename H into Hl end.
    rewrite <- length_chars, chars_str_drop in Hl. rewrite chars_str_drop in Hd.
    rewrite Hr, <- length_chars in Hl, Hd.
    assert (E : drop (length (chars base) + 5) (chars base ++ chars ".tmp." ++ r2) = r2).
    { by rewrite drop_app_add. }
    rewrite E in Hl, Hd. done.
  - intros (suf & Hn & Hl & Hd).
    assert (H1 : starts_with base n = true) by (apply prefix_chars; eauto).
    assert (E1 : chars (str_drop (String.length base) n) = (chars ".tmp." ++ suf)).
    { by rewrite chars_str_drop, Hn, <- length_chars, drop_app_length. }
    assert (H2 : starts_with ".tmp." (str_drop (String.length base) n) = true)
      by (apply prefix_chars; eauto).
    assert (E2 : chars (str_drop (String.length base + 5) n) = suf).
    { by rewrite chars_str_drop, Hn, <- length_chars, drop_app_add. }
    rewrite H1, H2; simpl. apply andb_true_intro. split.
    + apply Nat.eqb_eq. by rewrite <- length_chars, E2.
    + apply no_dot_spec. by rewrite E2.
Qed.

(** ** Lemmas: the path buffer *)

(** A copy to where the written part ends extends it. *)
Lemma memcpy_append (pre src : buffer) (k off : nat) :
  off = length pre -> (length src <= k)%nat ->
  memcpy_at (pre ++ replicate k None) off src =
  Some ((pre ++ src) ++ replicate (k - length src) None).
Proof.
  intros -> Hk. unfold memcpy_at. rewrite length_app, length_replicate.
  destruct (Nat.leb_spec (length pre + length src) (length pre + k)); [| lia].
  f_equal. rewrite take_app_length, drop_app_add, drop_replicate, <- app_assoc. done.
Qed.

Lemma cstr_spec (s : string) (post : buffer) :
  cstring s -> cstr ((Some <$> chars s) ++ Some NUL :: post) = Some s.
Proof.
  unfold cstring. induction s as [|c s IH]; [done |].
  change (chars (String c s)) with (c :: chars s).
  intros H. apply Forall_cons in H as [Hc Hs].
  apply Ascii.eqb_neq in Hc. rewrite fmap_cons. cbn [cstr app]. by rewrite Hc, (IH Hs).
Qed.

Lemma cstring_app (a b : string) : cstring a -> cstring b -> cstring (a ++ b)%string.
Proof. unfold cstring. intros. rewrite chars_app. by apply Forall_app. Qed.

Lemma cstring_lit (s : string) : forallb (fun c => negb (c =? NUL)%char) (chars s) = true -> cstring s.
Proof.
  intros H. apply Forall_forall. intros c Hc ->.
  rewrite forallb_forall in H. apply list_elem_of_In, H in Hc. by rewrite Ascii.eqb_refl in Hc.
Qed.

(** A file name made of a directory, a prefix, a name and a suffix. *)
Lemma cstr_path (dir name ext : string) (post : buffer) :
  cstring dir -> cstring name -> cstring ext ->
  cstr ((Some <$> chars dir) ++ (Some <$> chars "/psmsgr.") ++ (Some <$> chars name) ++
        (Some <$> chars ext) ++ Some NUL :: post) =
  Some (dir ++ "/psmsgr." ++ name ++ ext)%string.
Proof.
  intros Hd Hn He.
  rewrite <- (cstr_spec (dir ++ "/psmsgr." ++ name ++ ext)%string post).
  - rewrite !chars_app, !fmap_app, <- !app_assoc. done.
  - repeat apply cstring_app; try done. by apply cstring_lit.
Qed.

(** Contents of the block after the copies of [paths_init]. *)
Definition paths_content (dir name : string) : buffer :=
  let lit s := Some <$> chars s in
  (lit dir ++ [Some NUL]) ++
  (lit dir ++ lit "/psmsgr." ++ lit name ++ lit ".state" ++ [Some NUL]) ++
  (lit dir ++ lit "/psmsgr." ++ lit name ++ lit ".lock" ++ [Some NUL]).

Lemma length_lit (s : string) : length (Some <$> chars s) = String.length s.
Proof. by rewrite length_fmap, length_chars. Qed.

Ltac lengths := rewrite ?length_app, ?length_lit; cbn [length String.length]; lia.

Lemma take_head (a b : buffer) (n : nat) : n = length a -> take n (a ++ b) = a.
Proof. intros ->. apply take_app_length. Qed.

Lemma drop_head (a b : buffer) (n : nat) : n = length a -> drop n (a ++ b) = b.
Proof. intros ->. apply drop_app_length. Qed.

Lemma take_head3 (a b c d : buffer) (n : nat) :
  n = (length a + length b + length c)%nat -> take n (a ++ b ++ c ++ d) = a ++ b ++ c.
Proof. intros ->. rewrite !app_assoc. apply take_head. rewrite !length_app. lia. Qed.

Lemma drop_head2 (a b c : buffer) (n : nat) :
  n = (length a + length b)%nat -> drop n (a ++ b ++ c) = c.
Proof. intros ->. rewrite app_assoc. apply drop_head. rewrite length_app. lia. Qed.

(** The seven copies fill the block exactly: every copy stays inside it, and
    no byte is left unwritten. *)
Lemma paths_copies (dir name : string) :
  paths_copy dir name (paths_size dir name) = Some (paths_content dir name).
Proof.
  unfold paths_copy. set (dlen := String.length dir). set (nlen := String.length name).
  set (data := (dlen + 1)%nat). set (lock := (data + (dlen + 8 + nlen + 6) + 1)%nat). cbv zeta.
  change (replicate (paths_size dir name) None)
    with ([] ++ replicate (paths_size dir name) (None : option ascii)).
  do 5 (rewrite memcpy_append;
        [| unfold lock, data, dlen, nlen; cbn [app]; lengths
         | unfold paths_size; lengths]; cbn [mbind option_bind]).
  assert (Hcopy : forall rest, take (dlen + 8 + nlen) (drop data
     ((((((([] ++ (Some <$> chars dir) ++ [Some NUL]) ++ (Some <$> chars dir)) ++
        (Some <$> chars "/psmsgr.")) ++ (Some <$> chars name)) ++
        (Some <$> chars ".state") ++ [Some NUL]) ++ rest))) =
     (Some <$> chars dir) ++ (Some <$> chars "/psmsgr.") ++ (Some <$> chars name)).
  { intros rest. cbn [app]. rewrite <- !app_assoc.
    rewrite drop_head2 by (unfold data, dlen; lengths).
    apply take_head3. unfold dlen, nlen. lengths. }
  rewrite Hcopy.
  do 2 (rewrite memcpy_append;
        [| unfold lock, data, dlen, nlen; cbn [app]; lengths
         | unfold paths_size; lengths]; cbn [mbind option_bind]).
  f_equal.
  match goal with |- _ ++ replicate ?n None = _ => replace n with 0%nat end.
  - cbn [replicate]. rewrite app_nil_r. unfold paths_content. cbn [app].
    by rewrite <- !app_assoc.
  - unfold paths_size. lengths.
Qed.

Lemma cstr_content_dir (dir name : string) :
  cstring dir -> cstr (paths_content dir name) = Some dir.
Proof. intros H. unfold paths_content. rewrite <- !app_assoc. by apply cstr_spec. Qed.

(** [paths_init]'s buffer arithmetic is right: the block is big enough for
    every copy, and the strings found in it are the ones of spec §2. *)
Lemma paths_fill_spec (dir name : string) (blk : Z) :
  cstring dir -> cstring name ->
  paths_fill dir name (paths_size dir name) blk =
  Some {| pt_block := blk; pt_dir := dir;
          pt_data := dir ++ "/" ++ state_file name;
          pt_lock := dir ++ "/" ++ lock_file name;
          pt_data_base := state_file name |}%string.
Proof.
  intros Hd Hn.
  unfold paths_fill. rewrite paths_copies. cbn [mbind option_bind].
  rewrite cstr_content_dir by done. cbn [mbind option_bind].
  assert (Edata : drop (String.length dir + 1) (paths_content dir name) =
    ((Some <$> chars dir) ++ (Some <$> chars "/psmsgr.") ++ (Some <$> chars name) ++
     (Some <$> chars ".state") ++ [Some NUL]) ++
    ((Some <$> chars dir) ++ (Some <$> chars "/psmsgr.") ++ (Some <$> chars name) ++
     (Some <$> chars ".lock") ++ [Some NUL])).
  { unfold paths_content. apply drop_head. lengths. }
  assert (Elock : drop (String.length dir + 1 +
      (String.length dir + 8 + String.length name + 6) + 1) (paths_content dir name) =
    (Some <$> chars dir) ++ (Some <$> chars "/psmsgr.") ++ (Some <$> chars name) ++
    (Some <$> chars ".lock") ++ [Some NUL]).
  { replace (String.length dir + 1 + (String.length dir + 8 + String.length name + 6) + 1)%nat
      with (String.length dir + 1 + (String.length dir + 8 + String.length name + 7))%nat by lia.
    rewrite <- drop_drop, Edata. apply drop_head. rewrite ?length_app, ?length_lit.
    change (String.length "/psmsgr.") with 8%nat. change (String.length ".state") with 6%nat.
    cbn [length]. lia. }
  rewrite Edata, Elock, <- !app_assoc. cbn [app].
  rewrite !cstr_path by (done || by apply cstring_lit). cbn [mbind option_bind].
  assert (Ebase : drop (String.length dir + 1 + String.length dir + 1) (paths_content dir name) =
    (Some <$> chars "psmsgr.") ++ (Some <$> chars name) ++ (Some <$> chars ".state") ++
    Some NUL :: ((Some <$> chars dir) ++ (Some <$> chars "/psmsgr.") ++ (Some <$> chars name) ++
     (Some <$> chars ".lock") ++ [Some NUL])).
  { replace (String.length dir + 1 + String.length dir + 1)%nat
      with (String.length dir + 1 + (String.length dir + 1))%nat by lia.
    rewrite <- drop_drop, Edata. rewrite <- !app_assoc.
    change (Some <$> chars "/psmsgr.") with ([Some "/"%char] ++ (Some <$> chars "psmsgr.")) at 1.
    rewrite <- (app_assoc [_]). rewrite drop_head2 by lengths. done. }
  rewrite Ebase.
  assert (E : cstr ((Some <$> chars "psmsgr.") ++ (Some <$> chars name) ++
      (Some <$> chars ".state") ++ Some NUL :: ((Some <$> chars dir) ++
      (Some <$> chars "/psmsgr.") ++ (Some <$> chars name) ++
      (Some <$> chars ".lock") ++ [Some NUL])) = Some (state_file name)).
  { rewrite <- (cstr_spec (state_file name) ((Some <$> chars dir) ++
      (Some <$> chars "/psmsgr.") ++ (Some <$> chars name) ++ (Some <$> chars ".lock") ++ [Some NUL])).
    - unfold state_file. rewrite !chars_app, !fmap_app, <- !app_assoc. done.
    - unfold state_file. repeat apply cstring_app; try done; by apply cstring_lit. }
  rewrite E. done.
Qed.

Lemma name_char_cstring (s : string) : Forall (fun c => name_char c = true) (chars s) -> cstring s.
Proof. intros H. eapply Forall_impl; [exact H |]. intros c Hc ->. discriminate Hc. Qed.

Lemma name_loop_spec (i : nat) (s : string) :
  (i <= 64)%nat ->
  name_loop i s = true <->
  Forall (fun c => name_char c = true) (chars s) /\ (i + String.length s <= 64)%nat.
Proof.
  revert i. induction s as [|c s IH]; intros i Hi.
  - simpl. split; [intros _; split; [constructor | lia] | done].
  - cbn [name_loop String.length]. change (chars (String c s)) with (c :: chars s).
    rewrite Forall_cons. unfold PSMSGR_NAME_MAX.
    destruct (Nat.eqb_spec i 64) as [->|Hne]; [split; [done | lia] |].
    destruct (name_char c); simpl; [| split; [done | intros [[? _] _]; done]].
    rewrite IH by lia. split; intros [H1 H2]; repeat split; try tauto; lia.
Qed.

Lemma name_valid_pattern (s : string) : name_valid (Some s) = true <-> name_pattern s.
Proof.
  unfold name_pattern. destruct s as [|c s].
  - simpl. split; [done | by intros (c & r & ? & _)].
  - cbn [name_valid]. destruct (Ascii.eqb_spec c "."%char) as [->|Hne].
    + split; [done |]. intros (c & r & E & _ & Hc & _). by simplify_eq.
    + rewrite name_loop_spec by lia. change (chars (String c s)) with (c :: chars s).
      rewrite Forall_cons. cbn [String.length]. split.
      * intros [[Hc Hs] Hl]. exists c, s. repeat split; try done. lia.
      * intros (c' & r & E & Hc & _ & Hr & Hl). simplify_eq. repeat split; try done. lia.
Qed.

Lemma name_valid_cstring (s : string) : name_valid (Some s) = true -> cstring s.
Proof.
  rewrite name_valid_pattern. intros (c & r & -> & Hc & _ & Hr & _).
  apply name_char_cstring. by constructor.
Qed.

(** A name ending in six characters is its first part and those six. *)
Lemma suffix6_inj (a b s t : list ascii) :
  length s = 6%nat -> length t = 6%nat -> a ++ s = b ++ t -> a = b /\ s = t.
Proof. intros Hs Ht H. apply app_inj_2 in H; [done | by rewrite Hs, Ht]. Qed.

(** A path ending in ".lock" has a dot among its last six characters. *)
Lemma lock_suffix (a b suf : list ascii) :
  a ++ suf = b ++ chars ".lock" -> length suf = 6%nat -> "."%char ∈ suf.
Proof.
  intros E Hl. destruct b as [|c b' _] using rev_ind.
  - apply (f_equal length) in E. rewrite length_app in E. cbn in E. lia.
  - rewrite <- (app_assoc b') in E. apply suffix6_inj in E as [_ ->]; [| done | done].
    change ([c] ++ chars ".lock") with (c :: chars ".lock"). right. by left.
Qed.

Definition alnum (c : ascii) : bool := in_range c "A" "Z" || in_range c "a" "z" || in_range c "0" "9".

(** What a file of a channel is for; the six characters [mkostemp] puts in place
    of the X's of a temporary name are letters and digits. *)
Inductive role := Data | Lock | Tmp (suffix : string).

Definition role_ok (k : role) : Prop :=
  match k with
  | Tmp suf => String.length suf = 6%nat /\
      forallb alnum (chars suf) = true
  | _ => True
  end.

(** The path of a file of a channel, from its [paths]. *)
Definition file_at (p : paths) (k : role) : string :=
  match k with
  | Data => pt_data p
  | Lock => pt_lock p
  | Tmp suf => (pt_data p ++ ".tmp." ++ suf)%string
  end.

(** And its name in the directory. *)
Definition role_file (n : string) (k : role) : string :=
  match k with
  | Data => state_file n
  | Lock => lock_file n
  | Tmp suf => tmp_file n suf
  end.

Lemma file_at_paths (d n : string) (b : Z) (k : role) :
  file_at {| pt_block := b; pt_dir := d; pt_data := d ++ "/" ++ state_file n;
             pt_lock := d ++ "/" ++ lock_file n; pt_data_base := state_file n |}%string k =
  (d ++ "/" ++ role_file n k)%string.
Proof.
  destruct k; [done | done |]. cbn [file_at pt_data role_file]. unfold tmp_file.
  by rewrite <- !string_app_assoc.
Qed.

(** The last slash of a path divides it. *)
Lemma base_inj (a b f h : list ascii) :
  "/"%char ∉ f -> "/"%char ∉ h -> a ++ chars "/" ++ f = b ++ chars "/" ++ h -> a = b /\ f = h.
Proof.
  intros Hf Hh E. change (chars "/") with ["/"%char] in E. cbn [app] in E.
  apply app_eq_inv in E as [(x & -> & E) | (x & -> & E)]; destruct x as [|y x]; cbn in E;
    simplify_eq; rewrite ?app_nil_r; try done; exfalso; set_solver.
Qed.

Lemma role_chars (suf : string) (c : ascii) :
  forallb alnum (chars suf) = true -> alnum c = false -> c ∉ chars suf.
Proof.
  rewrite forallb_forall. intros H Hc Hin. apply list_elem_of_In in Hin. rewrite (H c Hin) in Hc. done.
Qed.

Lemma name_no_slash (n : string) : name_valid (Some n) = true -> "/"%char ∉ chars n.
Proof.
  intros H Hin. apply name_valid_pattern in H as (c & rest & -> & Hc & _ & Hr & _).
  cbn in Hin. apply elem_of_cons in Hin as [<- | Hin]; [done |].
  rewrite Forall_forall in Hr. by apply Hr in Hin.
Qed.

Lemma role_file_base (n : string) (k : role) :
  name_valid (Some n) = true -> role_ok k -> "/"%char ∉ chars (role_file n k).
Proof.
  intros Hn%name_no_slash Hk. unfold role_file, tmp_file, state_file, lock_file.
  destruct k as [| |suf]; rewrite !chars_app, ?not_elem_of_app; cbn [role_ok] in Hk;
    repeat split; try done; try (clear; unfold chars; simpl; set_solver).
  apply role_chars; [apply Hk | done].
Qed.

(** A temporary name is neither a data nor a lock name. *)
Lemma tmp_file_apart (n m suf : string) :
  role_ok (Tmp suf) -> tmp_file n suf <> state_file m /\ tmp_file n suf <> lock_file m.
Proof.
  intros [Hl Hs]. rewrite <- length_chars in Hl.
  assert (Hd : "."%char ∉ chars suf) by (by apply role_chars).
  unfold tmp_file, lock_file. split; intros E; apply (f_equal chars) in E.
  - unfold state_file in E. rewrite !chars_app, !app_assoc in E.
    apply suffix6_inj in E as [_ E]; [| done | done]. apply Hd. rewrite E. by left.
  - rewrite !chars_app, !app_assoc in E. by apply lock_suffix in E.
Qed.

Lemma state_file_inj (m n : string) : state_file m = state_file n -> m = n.
Proof.
  intros H. apply (f_equal chars) in H. unfold state_file in H. rewrite !chars_app in H.
  apply app_inj_1 in H as [_ H]; [| done]. apply app_inj_2 in H as [H _]; [| done].
  by apply chars_inj.
Qed.

Lemma lock_file_inj (m n : string) : lock_file m = lock_file n -> m = n.
Proof.
  intros H. apply (f_equal chars) in H. unfold lock_file in H. rewrite !chars_app in H.
  apply app_inj_1 in H as [_ H]; [| done]. apply app_inj_2 in H as [H _]; [| done].
  by apply chars_inj.
Qed.

Lemma state_not_lock (m n : string) : state_file m <> lock_file n.
Proof.
  intros H. apply (f_equal (fun s => reverse (chars s))) in H.
  unfold state_file, lock_file in H. rewrite !chars_app, !reverse_app in H. discriminate H.
Qed.

Lemma tmp_file_inj (m n s t : string) :
  role_ok (Tmp s) -> role_ok (Tmp t) -> tmp_file m s = tmp_file n t -> m = n /\ s = t.
Proof.
  intros [Hs _] [Ht _] E. rewrite <- length_chars in Hs, Ht.
  apply (f_equal chars) in E. unfold tmp_file in E. rewrite !chars_app in E.
  rewrite !app_assoc in E. apply suffix6_inj in E as [E1 E2]; [| done | done].
  apply app_inj_2 in E1 as [E1 _]; [| done].
  apply chars_inj in E1, E2. split; [by apply state_file_inj | done].
Qed.

Lemma role_file_inj (m n : string) (k l : role) :
  role_ok k -> role_ok l -> role_file m k = role_file n l -> m = n /\ k = l.
Proof.
  intros Hk Hl E. destruct k as [| |s], l as [| |t]; cbn [role_file] in E;
    try (by apply state_not_lock in E); try (by symmetry in E; apply state_not_lock in E);
    try (by apply tmp_file_apart in E); try (by symmetry in E; apply tmp_file_apart in E).
  - split; [by apply state_file_inj | done].
  - split; [by apply lock_file_inj | done].
  - destruct (tmp_file_inj m n s t Hk Hl E) as [-> ->]. done.
Qed.

(** ** Properties *)


(** C34. [paths_init] computes its one allocation exactly: for every directory and
    name without NULs every [memcpy] stays inside the block, the copies leave
    no byte unwritten, and the strings of the four members are
    the directory, its data path, its lock path and the data file's base name. *)
Theorem paths_init_strings (dir name : string) (blk : Z) :
  cstring dir -> cstring name ->
  (exists content : list ascii,
     paths_copy dir name (paths_size dir name) = Some (Some <$> content) /\
     length content = paths_size dir name) /\
  paths_fill dir name (paths_size dir name) blk =
  Some {| pt_block := blk; pt_dir := dir;
          pt_data := dir ++ "/" ++ state_file name;
          pt_lock := dir ++ "/" ++ lock_file name;
          pt_data_base := state_file name |}%string.
Proof.
  intros Hd Hn. split; [| by apply paths_fill_spec].
  exists ((chars dir ++ [NUL]) ++
    (chars dir ++ chars "/psmsgr." ++ chars name ++ chars ".state" ++ [NUL]) ++
    (chars dir ++ chars "/psmsgr." ++ chars name ++ chars ".lock" ++ [NUL])).
  split.
  - rewrite paths_copies. unfold paths_content. by rewrite !fmap_app.
  - rewrite !length_app, !length_chars. unfold paths_size. cbn [length String.length]. lia.
Qed.

Lemma paths_init_strings_witness :
  paths_fill "/dev/shm" "motor" (paths_size "/dev/shm" "motor") 7 =
  Some {| pt_block := 7; pt_dir := "/dev/shm"; pt_data := "/dev/shm/psmsgr.motor.state";
          pt_lock := "/dev/shm/psmsgr.motor.lock"; pt_data_base := "psmsgr.motor.state" |}.
Proof.
  refine (proj2 (paths_init_strings "/dev/shm" "motor" 7 _ _)); by apply cstring_lit.
Defined.

(** C35. Stale-file removal touches only the channel's own leftovers: a file it
    unlinks for channel [m] is never the data or lock file of any channel, and
    if it is a temporary file of a channel [n] then [n] is [m]; and it does
    recognise every temporary file [mkostemp] can make for [m]. *)
Theorem stale_tmp_only_own (m : string) :
  (forall n, stale_tmp (state_file m) (state_file n) = false) /\
  (forall n, stale_tmp (state_file m) (lock_file n) = false) /\
  (forall n suf, String.length suf = 6%nat ->
     stale_tmp (state_file m) (tmp_file n suf) = true -> n = m) /\
  (forall suf, String.length suf = 6%nat -> no_dot suf = true ->
     stale_tmp (state_file m) (tmp_file m suf) = true).
Proof.
  repeat split.
  - intros n. apply not_true_is_false. rewrite stale_tmp_spec. intros (suf & E & Hl & Hd).
    unfold state_file in E. rewrite !chars_app in E. rewrite !app_assoc in E.
    apply suffix6_inj in E as [_ E]; [| done | done]. subst suf. apply Hd. by left.
  - intros n. apply not_true_is_false. rewrite stale_tmp_spec. intros (suf & E & Hl & Hd).
    apply Hd. apply (f_equal reverse) in E.
    unfold lock_file in E. rewrite !chars_app, !reverse_app in E.
    change (reverse (chars ".lock")) with (chars "kcol.") in E.
    rewrite <- elem_of_reverse. rewrite <- (length_reverse suf) in Hl.
    destruct (reverse suf) as [|c0 [|c1 [|c2 [|c3 [|c4 [|c5 [|? ?]]]]]]]; try discriminate Hl.
    unfold chars in E; simpl in E. simplify_eq. set_solver.
  - intros n suf Hs H. apply stale_tmp_spec in H as (suf' & E & Hl & Hd).
    unfold tmp_file in E. rewrite !chars_app in E. rewrite !app_assoc in E.
    rewrite <- length_chars in Hs. apply suffix6_inj in E as [E _]; [| done | done].
    apply app_inj_2 in E as [E _]; [| done].
    unfold state_file in E. rewrite !chars_app in E. apply app_inj_1 in E as [_ E]; [| done].
    apply app_inj_2 in E as [E _]; [| done]. by apply chars_inj.
  - intros suf Hs Hd. apply stale_tmp_spec. exists (chars suf). repeat split.
    + unfold tmp_file. by rewrite !chars_app.
    + by rewrite length_chars.
    + by apply no_dot_spec.
Qed.

(** C36. No file belongs to two channels.  Take the paths [paths_init] computes
    for two channels with valid names, and with them the temporary names
    [mkostemp] makes of the template create_file builds from the data path: if
    a file of one - data, lock or temporary - has the path of a file of the
    other, then the directory and the name are the same, and so is the role of
    the file (and for temporary files the six random characters).  The roles
    of one channel's files differ in particular. *)
Theorem channel_files_disjoint (d e m n : string) (b c : Z) (p q : paths) (k l : role) :
  cstring d -> cstring e -> name_valid (Some m) = true -> name_valid (Some n) = true ->
  paths_fill d m (paths_size d m) b = Some p -> paths_fill e n (paths_size e n) c = Some q ->
  role_ok k -> role_ok l -> file_at p k = file_at q l ->
  d = e /\ m = n /\ k = l.
Proof.
  intros Hd He Hm Hn Hp Hq Hk Hl E.
  rewrite paths_fill_spec in Hp by (done || by apply name_valid_cstring).
  rewrite paths_fill_spec in Hq by (done || by apply name_valid_cstring).
  injection Hp as <-. injection Hq as <-. rewrite !file_at_paths in E.
  apply (f_equal chars) in E. rewrite !chars_app in E.
  apply base_inj in E as [Ed Ef]; [| by apply role_file_base | by apply role_file_base].
  apply chars_inj in Ed, Ef. split; [done | by apply role_file_inj].
Qed.

(** The lock file of one channel and a temporary file of another. *)
Lemma channel_files_disjoint_witness :
  exists p q,
    paths_fill "/dev/shm" "motor" (paths_size "/dev/shm" "motor") 1 = Some p /\
    paths_fill "/dev/shm" "motor.state" (paths_size "/dev/shm" "motor.state") 2 = Some q /\
    file_at p Lock <> file_at q (Tmp "a1B2c3") /\ file_at p Data <> file_at q Data.
Proof.
  eexists _, _. split; [vm_compute; reflexivity | split; [vm_compute; reflexivity |]].
  match goal with |- file_at ?p _ <> file_at ?q _ /\ _ => set (P := p); set (Q := q) end.
  split; intros E;
    apply (channel_files_disjoint "/dev/shm" "/dev/shm" "motor" "motor.state" 1 2 P Q) in E;
    try (vm_compute; reflexivity); try (by apply cstring_lit); try exact I; try (split; reflexivity);
    destruct E as (_ & E & _); discriminate E.
Defined.
