(* ===== verification/Options.v ===== *)
(** * Writer options (include/psmsgr/state.h, src/state.c "options")

    The versioned options struct: initialisation by the caller's size, loading
    by the caller's [struct_size], validation. *)
From S2P Require Import Prelude Prog Common Layout.
#[local] Open Scope string_scope.
#[local] Open Scope list_scope.
#[local] Open Scope Z_scope.

(** ** The struct *)

Definition PSMSGR_STATE_DEFAULT_SLOTS : Z := 3.
Definition PSMSGR_STATE_RECREATE : Z := 1.
Definition PSMSGR_STATE_NO_NOTIFY : Z := 2.

Record psmsgr_state_options := {
  o_struct_size : Z;
  o_capacity : Z;
  o_slot_count : Z;
  o_payload_type : Z;
  o_mode : Z;
  o_flags : Z;
  o_dir : option string
}.

(** [offsetof(psmsgr_state_options, f)]. *)
Module OOff.
Definition struct_size : Z := 0.
Definition capacity : Z := 4.
Definition slot_count : Z := 8.
Definition payload_type : Z := 12.
Definition mode : Z := 16.
Definition flags : Z := 20.
Definition dir : Z := 24.
End OOff.

Section options.
Context {C : Config}.

Definition sizeof_options : Z := 24 + sizeof_pointer.

(** The object representation of the struct with [dir == NULL]. *)
Definition encode_options (o : psmsgr_state_options) : list Z :=
  le_bytes 4 (o_struct_size o) ++ le_bytes 4 (o_capacity o) ++ le_bytes 4 (o_slot_count o) ++
  le_bytes 4 (o_payload_type o) ++ le_bytes 4 (o_mode o) ++ le_bytes 4 (o_flags o) ++
  le_bytes (Z.to_nat sizeof_pointer) 0.

Definition default_options (size : Z) : psmsgr_state_options := {|
  o_struct_size := size;
  o_capacity := 0;
  o_slot_count := PSMSGR_STATE_DEFAULT_SLOTS;
  o_payload_type := 0;
  o_mode := 420; (* 0644 *)
  o_flags := 0;
  o_dir := None
|}.

(** [psmsgr_state_options_init_sized(opt, size)] on the caller's memory
    [opt] ([None]: NULL); the result is that memory afterwards. *)
Definition psmsgr_state_options_init_sized (opt : option (list Z)) (size : Z)
    : option (list Z) :=
  match opt with
  | None => None
  | Some mem =>
      if size <? 4 then Some mem
      else
        let d := encode_options (default_options size) in
        if size <=? sizeof_options
        then Some (take (Z.to_nat size) d ++ drop (Z.to_nat size) mem)
        else Some (d ++ replicate (Z.to_nat (size - sizeof_options)) 0 ++
                   drop (Z.to_nat size) mem)
  end.

(** The inline wrapper of the public header, on a struct of the caller. *)
Definition psmsgr_state_options_init : psmsgr_state_options := default_options sizeof_options.

(** [OPT_HAS(opt, field)] for a field of [n] bytes at [off]. *)
Definition opt_has (opt : psmsgr_state_options) (off n : Z) : bool :=
  off + n <=? o_struct_size opt.

(** [load_options(opt, &o)]: the result code and the options. *)
Definition load_options (opt : option psmsgr_state_options) : Z * psmsgr_state_options :=
  let d := default_options sizeof_options in
  let check (o : psmsgr_state_options) : Z * psmsgr_state_options :=
    if (PSMSGR_STATE_MAX_CAPACITY <? o_capacity o) || (o_slot_count o <? PSMI_MIN_SLOTS) ||
       (PSMI_MAX_SLOTS <? o_slot_count o) ||
       negb (and_not32 (o_mode o) 0xFFF =? 0) || (* ~07777u *)
       negb (and_not32 (o_flags o)
               (Z.lor PSMSGR_STATE_RECREATE PSMSGR_STATE_NO_NOTIFY) =? 0) ||
       match o_dir o with Some s => (s =? "")%string | None => false end
    then (PSMSGR_E_INVAL, o)
    else (PSMSGR_OK, o) in
  match opt with
  | None => check d
  | Some opt =>
      if o_struct_size opt =? 0 then (PSMSGR_E_INVAL, d) (* not initialized *)
      else check {|
        o_struct_size := o_struct_size d;
        o_capacity := if opt_has opt OOff.capacity 4 then o_capacity opt else o_capacity d;
        o_slot_count :=
          if opt_has opt OOff.slot_count 4 then o_slot_count opt else o_slot_count d;
        o_payload_type :=
          if opt_has opt OOff.payload_type 4 then o_payload_type opt else o_payload_type d;
        o_mode := if opt_has opt OOff.mode 4 then o_mode opt else o_mode d;
        o_flags := if opt_has opt OOff.flags 4 then o_flags opt else o_flags d;
        o_dir := if opt_has opt OOff.dir sizeof_pointer then o_dir opt else o_dir d
      |}
  end.

(** [config_flags_of(o)]. *)
Definition config_flags_of (o : psmsgr_state_options) : Z :=
  if negb (Z.land (o_flags o) PSMSGR_STATE_NO_NOTIFY =? 0) then PSMI_CONFIG_NO_NOTIFY else 0.

(** ** Specifications *)

(** The options a writer may be opened with. *)
Definition options_valid (o : psmsgr_state_options) : Prop :=
  0 <= o_capacity o <= 16777216 /\ 2 <= o_slot_count o <= 16 /\ 0 <= o_mode o <= 0xFFF /\
  0 <= o_flags o <= 3 /\ o_dir o <> Some "" /\ 0 <= o_payload_type o < 4294967296.

(** The struct holds values of its C types. *)
Definition options_ok (o : psmsgr_state_options) : Prop :=
  0 <= o_struct_size o < 4294967296 /\ 0 <= o_capacity o < 4294967296 /\
  0 <= o_slot_count o < 4294967296 /\ 0 <= o_payload_type o < 4294967296 /\
  0 <= o_mode o < 4294967296 /\ 0 <= o_flags o < 4294967296.

(** Two callers' structs that agree on the fields [struct_size] covers. *)
Definition agree_on_covered (a b : psmsgr_state_options) : Prop :=
  o_struct_size a = o_struct_size b /\
  (opt_has a OOff.capacity 4 = true -> o_capacity a = o_capacity b) /\
  (opt_has a OOff.slot_count 4 = true -> o_slot_count a = o_slot_count b) /\
  (opt_has a OOff.payload_type 4 = true -> o_payload_type a = o_payload_type b) /\
  (opt_has a OOff.mode 4 = true -> o_mode a = o_mode b) /\
  (opt_has a OOff.flags 4 = true -> o_flags a = o_flags b) /\
  (opt_has a OOff.dir sizeof_pointer = true -> o_dir a = o_dir b).

(** ** Lemmas *)

Lemma and_not32_zero (x n : Z) :
  0 <= n <= 32 -> 0 <= x < 4294967296 -> and_not32 x (2 ^ n - 1) = 0 <-> x < 2 ^ n.
Proof.
  intros Hn Hx. rewrite and_not32_low by done.
  assert (Hpos : 0 < 2 ^ n) by lia. split; intros H.
  - pose proof (Z.mod_pos_bound x (2 ^ n)). lia.
  - rewrite Z.mod_small by lia. lia.
Qed.

Lemma length_encode_options (o : psmsgr_state_options) :
  0 <= sizeof_pointer -> Z.of_nat (length (encode_options o)) = sizeof_options.
Proof.
  intros H. unfold encode_options, sizeof_options.
  rewrite !length_app, !length_le_bytes. lia.
Qed.

(** The check of [load_options], as a proposition. *)
Lemma options_check (o : psmsgr_state_options) :
  options_ok o ->
  ((PSMSGR_STATE_MAX_CAPACITY <? o_capacity o) || (o_slot_count o <? PSMI_MIN_SLOTS) ||
   (PSMI_MAX_SLOTS <? o_slot_count o) ||
   negb (and_not32 (o_mode o) 0xFFF =? 0) ||
   negb (and_not32 (o_flags o) (Z.lor PSMSGR_STATE_RECREATE PSMSGR_STATE_NO_NOTIFY) =? 0) ||
   match o_dir o with Some s => (s =? "")%string | None => false end) = false <->
  options_valid o.
Proof.
  intros (H1 & H2 & H3 & H4 & H5 & H6). unfold options_valid.
  rewrite !orb_false_iff, !negb_false_iff, !Z.eqb_eq, !Z.ltb_ge.
  change (Z.lor PSMSGR_STATE_RECREATE PSMSGR_STATE_NO_NOTIFY) with (2 ^ 2 - 1).
  change 0xFFF with (2 ^ 12 - 1). rewrite !and_not32_zero by lia.
  change PSMSGR_STATE_MAX_CAPACITY with 16777216. unfold PSMI_MIN_SLOTS, PSMI_MAX_SLOTS.
  change (2 ^ 12) with 4096. change (2 ^ 2) with 4.
  assert (Hd : match o_dir o with Some s => (s =? "")%string | None => false end = false <->
               o_dir o <> Some "").
  { destruct (o_dir o) as [s|]; [| done]. rewrite String.eqb_neq. split; congruence. }
  rewrite Hd. split; intros; destr_and; repeat split; (done || lia).
Qed.
End options.

Section properties.
Context {C : Config}.

Lemma load_options_unfold (opt : psmsgr_state_options) :
  o_struct_size opt <> 0 ->
  options_ok opt -> 0 <= sizeof_pointer < 4294967000 ->
  exists o, options_ok o /\
    o_capacity o = (if opt_has opt OOff.capacity 4 then o_capacity opt else 0) /\
    o_slot_count o = (if opt_has opt OOff.slot_count 4 then o_slot_count opt else 3) /\
    o_payload_type o = (if opt_has opt OOff.payload_type 4 then o_payload_type opt else 0) /\
    o_mode o = (if opt_has opt OOff.mode 4 then o_mode opt else 420) /\
    o_flags o = (if opt_has opt OOff.flags 4 then o_flags opt else 0) /\
    o_dir o = (if opt_has opt OOff.dir sizeof_pointer then o_dir opt else None) /\
    snd (load_options (Some opt)) = o /\
    (fst (load_options (Some opt)) = PSMSGR_OK <-> options_valid o) /\
    (fst (load_options (Some opt)) = PSMSGR_OK \/ fst (load_options (Some opt)) = PSMSGR_E_INVAL).
Proof.
  intros H0 Hok Hp. unfold load_options. apply Z.eqb_neq in H0. rewrite H0.
  match goal with |- context [if ?b then (PSMSGR_E_INVAL, ?o) else _] => set (r := o) end.
  exists r. assert (Hr : options_ok r).
  { unfold options_ok in *. unfold r; cbn [o_struct_size o_capacity o_slot_count
      o_payload_type o_mode o_flags default_options]. unfold sizeof_options.
    unfold PSMSGR_STATE_DEFAULT_SLOTS.
    repeat split; try (case_if; lia); lia. }
  split; [done |]. do 6 (split; [reflexivity |]).
  pose proof (options_check r Hr) as Hc.
  match goal with |- context [if ?b then _ else _] => destruct b eqn:E end; cbn [fst snd].
  - split; [reflexivity |]. split; [| by right]. split; [done |]. intros Hv. apply Hc in Hv. congruence.
  - split; [reflexivity |]. split; [| by left]. split; [intros _; by apply Hc | done].
Qed.


(** ABI compatibility of [load_options]: its result depends only on the
    fields inside the caller's [struct_size] (a shorter, older struct is
    never read past its end). *)
Theorem load_options_covered_only (a b : psmsgr_state_options) :
  agree_on_covered a b -> load_options (Some a) = load_options (Some b).
Proof.
  intros (Hs & H1 & H2 & H3 & H4 & H5 & H6).
  assert (E : forall off n, opt_has a off n = opt_has b off n).
  { intros. unfold opt_has. by rewrite Hs. }
  unfold load_options. rewrite Hs.
  rewrite <- !E.
  destruct (opt_has a OOff.capacity 4), (opt_has a OOff.slot_count 4),
    (opt_has a OOff.payload_type 4), (opt_has a OOff.mode 4), (opt_has a OOff.flags 4),
    (opt_has a OOff.dir sizeof_pointer);
    rewrite ?H1, ?H2, ?H3, ?H4, ?H5, ?H6 by done; reflexivity.
Qed.

(** [psmsgr_state_options_init_sized] writes exactly the first [size]
    bytes of the caller's struct, whatever its size: the defaults as far as
    the library knows the struct, zeros beyond; the rest of the caller's
    memory is untouched, and a size below 4 writes nothing. *)
Theorem options_init_sized_bounds (mem : list Z) (size : Z) :
  0 <= sizeof_pointer -> 0 <= size <= Z.of_nat (length mem) ->
  exists out, psmsgr_state_options_init_sized (Some mem) size = Some out /\
    length out = length mem /\
    drop (Z.to_nat size) out = drop (Z.to_nat size) mem /\
    (size < 4 -> out = mem) /\
    (4 <= size -> take (Z.to_nat size) out =
       take (Z.to_nat size) (encode_options (default_options size) ++
                             replicate (Z.to_nat (size - sizeof_options)) 0)).
Proof.
  intros Hp Hs. unfold psmsgr_state_options_init_sized.
  pose proof (length_encode_options (default_options size) Hp) as Hl.
  set (d := encode_options (default_options size)) in *.
  destruct (Z.ltb_spec size 4); [by exists mem; repeat split; try lia |].
  destruct (Z.leb_spec size sizeof_options) as [Hle|Hgt]; eexists; (split; [reflexivity |]).
  - assert (Hd : length (take (Z.to_nat size) d) = Z.to_nat size)
      by (rewrite length_take; lia).
    split; [rewrite length_app, Hd, length_drop; lia |].
    split; [by rewrite drop_app_length' |]. split; [lia |]. intros _.
    rewrite take_app_length' by done. rewrite take_app_le by lia. done.
  - assert (Hd : length (d ++ replicate (Z.to_nat (size - sizeof_options)) 0) = Z.to_nat size).
    { rewrite length_app, length_replicate. lia. }
    rewrite app_assoc. split; [rewrite length_app, Hd, length_drop; lia |].
    split; [by rewrite drop_app_length' |]. split; [lia |]. intros _.
    rewrite take_app_length' by done. by rewrite take_ge by lia.
Qed.
End properties.

(** A 64-bit build with the test hooks off. *)
Definition config64 : Config :=
  {| sizeof_pointer := 8; sizeof_writer := 64; sizeof_reader := 120;
     psmi_test_lock_opened := false; psmi_test_skip_seq_recheck := false |}.


(** A caller built against a struct without [flags] and [dir]. *)
Lemma load_options_covered_only_witness :
  let old f d := {| o_struct_size := 20; o_capacity := 24; o_slot_count := 4; o_payload_type := 1;
                    o_mode := 420; o_flags := f; o_dir := d |} in
  load_options (C := config64) (Some (old 7 (Some ""))) =
  load_options (C := config64) (Some (old 0 None)).
Proof.
  intros old. apply (load_options_covered_only (C := config64)).
  unfold agree_on_covered. simpl. repeat split; discriminate.
Defined.

Lemma options_init_sized_bounds_witness :
  exists out, psmsgr_state_options_init_sized (C := config64) (Some (replicate 48 255)) 40 = Some out /\
    length out = 48%nat /\ drop 40 out = replicate 8 255.
Proof.
  destruct (options_init_sized_bounds (C := config64) (replicate 48 255) 40
    ltac:(simpl; lia) ltac:(rewrite length_replicate; lia)) as (out & H1 & H2 & H3 & _).
  exists out. split; [exact H1 | split; [exact H2 | exact H3]].
Defined.
