(* ===== verification/Writer.v ===== *)
(** * The writer on a mapped file (src/state.c, "writer": from [writer_slot]
    to [psmsgr_state_abort], and [retire])

    The handle, the seqlock publish split at its copy, and the zero-copy API.
    The handle is passed and returned: a C function that changes [*w] returns
    the new value of the handle. *)
From S2P Require Import Prelude Prog Common Layout.

(** ** The handle *)

Record psmsgr_state_writer := {
  w_block : Z;        (* the allocation of the handle itself *)
  w_hdr : ptr;
  w_map_size : Z;
  w_slot_count : Z;
  w_slot_stride : Z;
  w_capacity : Z;
  w_notify : bool;
  w_latest : Z;       (* last committed slot, or NONE *)
  w_gen : Z;          (* generation of the next publish *)
  w_open_slot : Z;    (* slot of an open begin, or NONE *)
  w_open_seq : Z;     (* its (even) seq before the begin *)
  w_lock_fd : Z
}.

(** Assignments to the fields that change after attaching. *)
Definition w_set_open (w : psmsgr_state_writer) (slot seq : Z) : psmsgr_state_writer := {|
  w_block := w_block w; w_hdr := w_hdr w; w_map_size := w_map_size w;
  w_slot_count := w_slot_count w; w_slot_stride := w_slot_stride w; w_capacity := w_capacity w;
  w_notify := w_notify w; w_latest := w_latest w; w_gen := w_gen w;
  w_open_slot := slot; w_open_seq := seq; w_lock_fd := w_lock_fd w |}.

Definition w_set_latest_gen (w : psmsgr_state_writer) (latest gen : Z) : psmsgr_state_writer := {|
  w_block := w_block w; w_hdr := w_hdr w; w_map_size := w_map_size w;
  w_slot_count := w_slot_count w; w_slot_stride := w_slot_stride w; w_capacity := w_capacity w;
  w_notify := w_notify w; w_latest := latest; w_gen := gen;
  w_open_slot := w_open_slot w; w_open_seq := w_open_seq w; w_lock_fd := w_lock_fd w |}.

Definition w_set_lock (w : psmsgr_state_writer) (fd : Z) : psmsgr_state_writer := {|
  w_block := w_block w; w_hdr := w_hdr w; w_map_size := w_map_size w;
  w_slot_count := w_slot_count w; w_slot_stride := w_slot_stride w; w_capacity := w_capacity w;
  w_notify := w_notify w; w_latest := w_latest w; w_gen := w_gen w;
  w_open_slot := w_open_slot w; w_open_seq := w_open_seq w; w_lock_fd := fd |}.

(** ** Small helpers *)

(** 0 is never a valid generation. *)
Definition next_generation (gen : Z) : Z := if gen =? UINT32_MAX then 1 else u32 (gen + 1).

(** [syscall(SYS_futex, addr, FUTEX_WAKE, INT_MAX, ..)], result ignored. *)
Definition futex_wake_all (addr : ptr) : prog unit :=
  let* _ := call (SysFutexWake addr) in ret tt.

(** Tells attached readers and waiters to reattach. *)
Definition retire (h : ptr) : prog unit :=
  let* _ := call (FetchOr32 Release (ptr_add h HOff.state) PSMI_STATE_RETIRED) in
  let* _ := call (FetchAdd32 Release (ptr_add h HOff.notify) 1) in
  futex_wake_all (ptr_add h HOff.notify).

Definition writer_slot (w : psmsgr_state_writer) (i : Z) : ptr :=
  ptr_add (w_hdr w) (slot_offset (w_slot_stride w) i).

(** [geom] is the validated (or just written) header copy. *)
Definition writer_attach (w : psmsgr_state_writer) (map : ptr) (map_size : Z)
    (geom : psmi_header) (latest gen : Z) : psmsgr_state_writer := {|
  w_block := w_block w;
  w_hdr := map;
  w_map_size := map_size;
  w_slot_count := h_slot_count geom;
  w_slot_stride := h_slot_stride geom;
  w_capacity := h_capacity geom;
  w_notify := Z.land (h_config_flags geom) PSMI_CONFIG_NO_NOTIFY =? 0;
  w_latest := latest;
  w_gen := gen;
  w_open_slot := PSMI_LATEST_NONE;
  w_open_seq := w_open_seq w;
  w_lock_fd := w_lock_fd w
|}.

Definition psmsgr_state_writer_capacity (w : option psmsgr_state_writer) : Z :=
  match w with Some w => w_capacity w | None => 0 end.

Definition psmi_writer_set_generation (w : psmsgr_state_writer) (next : Z)
    : psmsgr_state_writer := w_set_latest_gen w (w_latest w) next.

(** ** Publish *)

(** Up to and including the release fence; the payload pointer and the handle. *)
Definition begin_slot (w : psmsgr_state_writer) : prog (ptr * psmsgr_state_writer) :=
  let i := if w_latest w =? PSMI_LATEST_NONE then 0
           else u32 (w_latest w + 1) mod w_slot_count w in
  let s := writer_slot w i in
  let* q0 := call (Load32 Relaxed (ptr_add s SOff.seq)) in
  let q := and_not32 q0 1 in
  let* _ := call (Store32 Relaxed (ptr_add s SOff.seq) (u32 (q + 1))) in
  let* _ := call (Fence Release) in
  ret (ptr_add s PSMI_SLOT_HEADER_SIZE, w_set_open w i q).

(** From the slot header fields on; the generation and the handle. *)
Definition commit_slot (w : psmsgr_state_writer) (len : Z) : prog (Z * psmsgr_state_writer) :=
  let i := w_open_slot w in
  let s := writer_slot w i in
  let gen := w_gen w in
  plain_store (ptr_add s SOff.generation) 4 gen ;;;
  plain_store (ptr_add s SOff.length) 4 len ;;;
  let* now := psmi_clock_ns CLOCK_MONOTONIC in
  plain_store (ptr_add s SOff.timestamp_ns) 8 now ;;;
  let* _ := call (Store32 Release (ptr_add s SOff.seq) (u32 (w_open_seq w + 2))) in
  let* _ := call (Store32 Release (ptr_add (w_hdr w) HOff.latest)
                    (psmi_latest i (u32 (w_open_seq w + 2)))) in
  let w := w_set_open (w_set_latest_gen w i (w_gen w)) PSMI_LATEST_NONE (w_open_seq w) in
  (if w_notify w then
     let* _ := call (FetchAdd32 Release (ptr_add (w_hdr w) HOff.notify) 1) in
     futex_wake_all (ptr_add (w_hdr w) HOff.notify)
   else ret tt) ;;;
  ret (gen, w_set_latest_gen w (w_latest w) (next_generation gen)).

(** The result code, the handle, and [*generation] if it was assigned. *)
Definition wresult : Type := Z * option psmsgr_state_writer * option Z.

(** [data]: the caller's memory, [None] for NULL. *)
Definition psmsgr_state_publish (w : option psmsgr_state_writer) (data : option (list Z))
    (len : Z) : prog wresult :=
  match w with
  | None => ret (PSMSGR_E_INVAL, None, None)
  | Some w =>
      if match data with None => negb (len =? 0) | Some _ => false end
      then ret (PSMSGR_E_INVAL, Some w, None)
      else if negb (w_open_slot w =? PSMI_LATEST_NONE) then ret (PSMSGR_E_STATE, Some w, None)
      else if w_capacity w <? len then ret (PSMSGR_E_TOOBIG, Some w, None)
      else
        let* (dst, w) := begin_slot w in
        psmi_seq_copy_to dst (default [] data) len ;;;
        let* (gen, w) := commit_slot w len in
        ret (PSMSGR_OK, Some w, Some gen)
  end.

(** [*buf] is the pointer returned; [buf_null]: the caller passed NULL. *)
Definition psmsgr_state_begin (w : option psmsgr_state_writer) (buf_null : bool)
    : prog (Z * option psmsgr_state_writer * option ptr) :=
  match w with
  | None => ret (PSMSGR_E_INVAL, None, None)
  | Some w =>
      if buf_null then ret (PSMSGR_E_INVAL, Some w, None)
      else if negb (w_open_slot w =? PSMI_LATEST_NONE) then ret (PSMSGR_E_STATE, Some w, None)
      else
        let* (p, w) := begin_slot w in
        ret (PSMSGR_OK, Some w, Some p)
  end.

Definition psmsgr_state_commit (w : option psmsgr_state_writer) (len : Z) : prog wresult :=
  match w with
  | None => ret (PSMSGR_E_INVAL, None, None)
  | Some w =>
      if w_open_slot w =? PSMI_LATEST_NONE then ret (PSMSGR_E_STATE, Some w, None)
      else if w_capacity w <? len then ret (PSMSGR_E_TOOBIG, Some w, None) (* stays open *)
      else
        let* (gen, w) := commit_slot w len in
        ret (PSMSGR_OK, Some w, Some gen)
  end.

Definition psmsgr_state_abort (w : option psmsgr_state_writer)
    : Z * option psmsgr_state_writer :=
  match w with
  | None => (PSMSGR_E_INVAL, None)
  | Some w =>
      if w_open_slot w =? PSMI_LATEST_NONE then (PSMSGR_E_STATE, Some w)
      else (PSMSGR_OK, Some (w_set_open w PSMI_LATEST_NONE (w_open_seq w)))
  end.

(** Unmaps the file, closes (and so releases) the lock, frees the handle. *)
Definition psmsgr_state_writer_close (w : option psmsgr_state_writer) : prog unit :=
  match w with
  | None => ret tt
  | Some w =>
      let* _ := call (SysMunmap (p_blk (w_hdr w)) (w_map_size w)) in
      let* _ := call (SysClose (w_lock_fd w)) in
      let* _ := call (Free (w_block w)) in
      ret tt
  end.

(** ** Lemmas *)

Lemma next_generation_spec (g : Z) :
  0 < g < 4294967296 ->
  0 < next_generation g < 4294967296 /\ next_generation g = g mod 4294967295 + 1.
Proof.
  intros H. unfold next_generation, UINT32_MAX. destruct (Z.eqb_spec g 4294967295) as [->|Hne].
  - done.
  - rewrite u32_small, Z.mod_small by lia. lia.
Qed.
