(* ===== verification/Reader.v ===== *)
(** * The reader (src/state.c, "reader")

    Attach and detach, the retire and identity checks, the seqlock read with
    its retries, [read], [peek], [describe], [wait] and [writer_alive]. *)
From S2P Require Import Prelude Prog Common Layout Names Options Writer.
#[local] Open Scope list_scope.
#[local] Open Scope Z_scope.

Definition READ_RETRIES : nat := 64.
Definition ATTACH_RETRIES : nat := 2.
Definition WAIT_SLICE_NS : Z := 1000000000.
Definition UNATTACHED_POLL_NS : Z := 10000000.
Definition NS_PER_MS : Z := 1000000.
Definition PSMSGR_INFO_ATTACHED : Z := 1.

(** ** Data *)

Record psmsgr_state_info := {
  i_generation : Z;
  i_length : Z;
  i_timestamp_ns : Z;
  i_flags : Z;
  i_reserved : Z
}.

Record psmsgr_state_reader := {
  r_block : Z;            (* the allocation of the handle itself *)
  r_hdr : option ptr;     (* None (NULL) while unattached *)
  r_map_size : Z;
  r_slot_count : Z;
  r_slot_stride : Z;
  r_capacity : Z;
  r_payload_type : Z;
  r_config_flags : Z;
  r_announce : bool;      (* next info carries PSMSGR_INFO_ATTACHED *)
  r_dev : Z;
  r_ino : Z;
  r_paths : paths
}.

(** Dereferencing an unattached handle's [hdr] is an access of block 0. *)
Definition NULL_PTR : ptr := {| p_blk := 0; p_off := 0 |}.
Definition hdr_of (r : psmsgr_state_reader) : ptr := default NULL_PTR (r_hdr r).

(** [r->hdr = NULL], and [r->announce = false]. *)
Definition r_set_hdr (r : psmsgr_state_reader) (h : option ptr) : psmsgr_state_reader := {|
  r_block := r_block r; r_hdr := h; r_map_size := r_map_size r;
  r_slot_count := r_slot_count r; r_slot_stride := r_slot_stride r;
  r_capacity := r_capacity r; r_payload_type := r_payload_type r;
  r_config_flags := r_config_flags r; r_announce := r_announce r;
  r_dev := r_dev r; r_ino := r_ino r; r_paths := r_paths r |}.

Definition r_set_announce (r : psmsgr_state_reader) (b : bool) : psmsgr_state_reader := {|
  r_block := r_block r; r_hdr := r_hdr r; r_map_size := r_map_size r;
  r_slot_count := r_slot_count r; r_slot_stride := r_slot_stride r;
  r_capacity := r_capacity r; r_payload_type := r_payload_type r;
  r_config_flags := r_config_flags r; r_announce := b;
  r_dev := r_dev r; r_ino := r_ino r; r_paths := r_paths r |}.

(** The assignments of a successful [attach]. *)
Definition r_attached (r : psmsgr_state_reader) (m : ptr) (size : Z) (h : psmi_header)
    (st : stat) : psmsgr_state_reader := {|
  r_block := r_block r;
  r_hdr := Some m;
  r_map_size := size;
  r_slot_count := h_slot_count h;
  r_slot_stride := h_slot_stride h;
  r_capacity := h_capacity h;
  r_payload_type := h_payload_type h;
  r_config_flags := h_config_flags h;
  r_announce := true;
  r_dev := st_dev st;
  r_ino := st_ino st;
  r_paths := r_paths r |}.

(** ** Opening a data file *)

(** Reads the header of an open data file: OK with both, FORMAT (not a regular
    file, too short) or SYS. *)
Definition read_header (fd : Z) : prog (Z * option (stat * psmi_header)) :=
  let* st := call (SysFstat fd) in
  match st with
  | inr _ => ret (PSMSGR_E_SYS, None)
  | inl st =>
      if negb (st_isreg st) || (st_size st <? PSMI_HEADER_SIZE) then ret (PSMSGR_E_FORMAT, None)
      else
        let* n := call (SysPread fd PSMI_HEADER_SIZE 0) in
        match n with
        | inr _ => ret (PSMSGR_E_SYS, None)
        | inl bs =>
            if Z.of_nat (length bs) =? PSMI_HEADER_SIZE
            then ret (PSMSGR_OK, Some (st, decode_header bs))
            else ret (PSMSGR_E_FORMAT, None)
        end
  end.

(** ** Attaching *)

Definition data_open_flags : list oflag := [O_RDONLY; O_CLOEXEC; O_NOFOLLOW; O_NONBLOCK].

Definition detach (r : psmsgr_state_reader) : prog psmsgr_state_reader :=
  let* _ := call (SysMunmap (p_blk (hdr_of r)) (r_map_size r)) in
  ret (r_set_hdr r None).

(** An attached reader holds no file descriptor. *)
Definition attach (r : psmsgr_state_reader) : prog (Z * psmsgr_state_reader) :=
  let* fd := call (SysOpen (pt_data (r_paths r)) data_open_flags 0) in
  match fd with
  | inr _ =>
      let* e := get_errno in
      ret (if e =? ENOENT then PSMSGR_E_NODATA else PSMSGR_E_SYS, r)
  | inl fd =>
      let* (rc, sh) := read_header fd in
      let* (rc, r) :=
        match sh with
        | None => ret (rc, r)
        | Some (st, h) =>
            if negb (header_valid h (st_size st)) then ret (PSMSGR_E_FORMAT, r)
            else
              let size := psmi_file_size (h_slot_count h) (h_slot_stride h) in
              let* m := call (SysMmap fd size false true) in
              match m with
              | inr _ => ret (PSMSGR_E_SYS, r)
              | inl blk =>
                  ret (PSMSGR_OK, r_attached r {| p_blk := blk; p_off := 0 |} size h st)
              end
        end in
      close_keep_errno fd ;;;
      ret (rc, r)
  end.

Definition retired (r : psmsgr_state_reader) : prog bool :=
  let* s := call (Load32 Acquire (ptr_add (hdr_of r) HOff.state)) in
  ret (negb (Z.land s PSMI_STATE_RETIRED =? 0)).

(** The [for] loop of [reader_sync], [n] attempts left. *)
Fixpoint attach_retry (n : nat) (r : psmsgr_state_reader) : prog (Z * psmsgr_state_reader) :=
  match n with
  | O => ret (PSMSGR_E_NODATA, r)
  | S n' =>
      let* (rc, r) := attach r in
      if negb (rc =? PSMSGR_OK) then ret (rc, r)
      else
        let* dead := retired r in
        if negb dead then ret (PSMSGR_OK, r)
        else let* r := detach r in attach_retry n' r
  end.

(** Retire check, plus a lazy attach while unattached. *)
Definition reader_sync (r : psmsgr_state_reader) : prog (Z * psmsgr_state_reader) :=
  match r_hdr r with
  | Some _ =>
      let* dead := retired r in
      if negb dead then ret (PSMSGR_OK, r)
      else let* r := detach r in attach_retry ATTACH_RETRIES r
  | None => attach_retry ATTACH_RETRIES r
  end.

(** Orphan check: detaches if the path no longer names the mapped file. *)
Definition identity_check (r : psmsgr_state_reader) : prog (Z * psmsgr_state_reader) :=
  match r_hdr r with
  | None => ret (PSMSGR_OK, r)
  | Some _ =>
      let* st := call (SysLstat (pt_data (r_paths r))) in
      match st with
      | inl st =>
          if (st_dev st =? r_dev r) && (st_ino st =? r_ino r) then ret (PSMSGR_OK, r)
          else let* r := detach r in ret (PSMSGR_OK, r)
      | inr _ =>
          let* e := get_errno in
          if negb (e =? ENOENT) then ret (PSMSGR_E_SYS, r)
          else let* r := detach r in ret (PSMSGR_OK, r)
      end
  end.

Section reader.
Context {C : Config}.

(** ** Opening and closing a handle *)

Definition bad_dir (dir : option string) : bool :=
  match dir with Some s => (s =? "")%string | None => false end.

(** The result code and [*out]; [None] as [out] is NULL. *)
Definition psmsgr_state_reader_open (name dir : option string) (out_null : bool)
    : prog (Z * option psmsgr_state_reader) :=
  if out_null then ret (PSMSGR_E_INVAL, None)
  else if negb (name_valid name) || bad_dir dir then ret (PSMSGR_E_INVAL, None)
  else
    let* b := call (Malloc sizeof_reader) in
    match b with
    | None => ret (PSMSGR_E_SYS, None)
    | Some b =>
        let* (_, p) := paths_init dir (default "" name) in
        match p with
        | None =>
            let* _ := call (Free b) in
            set_errno ENOMEM ;;;
            ret (PSMSGR_E_SYS, None)
        | Some p =>
            ret (PSMSGR_OK, Some {| r_block := b; r_hdr := None; r_map_size := 0;
              r_slot_count := 0; r_slot_stride := 0; r_capacity := 0; r_payload_type := 0;
              r_config_flags := 0; r_announce := false; r_dev := 0; r_ino := 0;
              r_paths := p |})
        end
    end.

Definition psmsgr_state_reader_close (r : option psmsgr_state_reader) : prog unit :=
  match r with
  | None => ret tt
  | Some r =>
      let* r := match r_hdr r with Some _ => detach r | None => ret r end in
      paths_free (r_paths r) ;;;
      let* _ := call (Free (r_block r)) in
      ret tt
  end.

(** ** The seqlock read *)

(** [memcpy] over the front of the caller's buffer. *)
Definition overwrite (buf d : list Z) : list Z := d ++ drop (length d) buf.

(** The result code, the caller's buffer, and [*info] if it was assigned. *)
Definition rresult : Type := Z * list Z * option psmsgr_state_info.

(** One pass of the loop of [read_latest]: [inl] to retry, with the caller's
    buffer as the failed attempt left it. *)
Definition read_attempt (r : psmsgr_state_reader) (size : Z) (copy : bool) (buf : list Z)
    : prog (list Z + rresult) :=
  let* latest := call (Load32 Acquire (ptr_add (hdr_of r) HOff.latest)) in
  if latest =? PSMI_LATEST_NONE then ret (inr (PSMSGR_E_NODATA, buf, None))
  else if negb (psmi_latest_valid latest (r_slot_count r))
  then ret (inr (PSMSGR_E_FORMAT, buf, None))
  else
    let i := psmi_latest_slot latest in
    let s := ptr_add (hdr_of r) (slot_offset (r_slot_stride r) i) in
    let* q1 := call (Load32 Acquire (ptr_add s SOff.seq)) in
    if (Z.land q1 1 =? 0) && (psmi_latest i q1 =? latest) then
      let* mb := psmi_seq_copy_from s SOff.reserved in
      let m := decode_slot mb in
      let fits := s_length m <=? size in
      let* buf :=
        if copy && fits && (s_length m <=? r_capacity r)
        then let* d := psmi_seq_copy_from (ptr_add s PSMI_SLOT_HEADER_SIZE) (s_length m) in
             ret (overwrite buf d)
        else ret buf in
      let* _ := call (Fence Acquire) in
      let* q2 := call (Load32 Relaxed (ptr_add s SOff.seq)) in
      if (q2 =? q1) || psmi_test_skip_seq_recheck then
        if r_capacity r <? s_length m then ret (inr (PSMSGR_E_FORMAT, buf, None))
        else
          let info := {| i_generation := s_generation m; i_length := s_length m;
                         i_timestamp_ns := s_timestamp_ns m; i_flags := 0;
                         i_reserved := 0 |} in
          ret (inr (if negb copy || fits then PSMSGR_OK else PSMSGR_E_TOOSMALL,
                    buf, Some info))
      else ret (inl buf)
    else ret (inl buf).

(** The loop from [attempt], [n] attempts left; [sched_yield] from the
    fourth failed attempt on. *)
Fixpoint read_retry (r : psmsgr_state_reader) (size : Z) (copy : bool) (n : nat)
    (attempt : Z) (buf : list Z) : prog rresult :=
  match n with
  | O => ret (PSMSGR_E_BUSY, buf, None)
  | S n' =>
      let* x := read_attempt r size copy buf in
      match x with
      | inr res => ret res
      | inl buf =>
          (if 3 <=? attempt then call SysSchedYield else ret tt) ;;;
          read_retry r size copy n' (attempt + 1) buf
      end
  end.

Definition read_latest (r : psmsgr_state_reader) (buf : list Z) (size : Z) (copy : bool)
    : prog rresult :=
  read_retry r size copy READ_RETRIES 0 buf.

(** [PSMSGR_INFO_ATTACHED]: once per attach, on the first result. *)
Definition announce (r : psmsgr_state_reader) (info : option psmsgr_state_info)
    : psmsgr_state_reader * option psmsgr_state_info :=
  if r_announce r then
    (r_set_announce r false,
     match info with
     | None => None
     | Some i => Some {| i_generation := i_generation i; i_length := i_length i;
                         i_timestamp_ns := i_timestamp_ns i;
                         i_flags := Z.lor (i_flags i) PSMSGR_INFO_ATTACHED;
                         i_reserved := i_reserved i |}
     end)
  else (r, info).

(** [psmsgr_state_read(r, buf, size, info)]; [info_null]: NULL was passed. *)
Definition psmsgr_state_read (r : option psmsgr_state_reader) (buf : option (list Z))
    (size : Z) (info_null : bool)
    : prog (option psmsgr_state_reader * rresult) :=
  match r with
  | None => ret (None, (PSMSGR_E_INVAL, default [] buf, None))
  | Some r =>
      if info_null || match buf with None => negb (size =? 0) | Some _ => false end
      then ret (Some r, (PSMSGR_E_INVAL, default [] buf, None))
      else
        let* (rc, r) := reader_sync r in
        if negb (rc =? PSMSGR_OK) then ret (Some r, (rc, default [] buf, None))
        else
          let* (rc, buf, info) := read_latest r (default [] buf) size true in
          if (rc =? PSMSGR_OK) || (rc =? PSMSGR_E_TOOSMALL)
          then let (r, info) := announce r info in ret (Some r, (rc, buf, info))
          else ret (Some r, (rc, buf, info))
  end.

Definition psmsgr_state_peek (r : option psmsgr_state_reader) (info_null : bool)
    : prog (option psmsgr_state_reader * (Z * option psmsgr_state_info)) :=
  match r with
  | None => ret (None, (PSMSGR_E_INVAL, None))
  | Some r =>
      if info_null then ret (Some r, (PSMSGR_E_INVAL, None))
      else
        let* (rc, r) := reader_sync r in
        if negb (rc =? PSMSGR_OK) then ret (Some r, (rc, None))
        else
          let* (rc, _, info) := read_latest r [] 0 false in
          if rc =? PSMSGR_OK
          then let (r, info) := announce r info in ret (Some r, (rc, info))
          else ret (Some r, (rc, info))
  end.

(** ** Channel properties *)

(** The bytes of [psmsgr_state_desc]. *)
Definition encode_desc (r : psmsgr_state_reader) : list Z :=
  le_bytes 4 (r_capacity r) ++ le_bytes 4 (r_slot_count r) ++ le_bytes 4 (r_payload_type r) ++
  le_bytes 4 (if negb (Z.land (r_config_flags r) PSMI_CONFIG_NO_NOTIFY =? 0)
              then PSMSGR_STATE_NO_NOTIFY else 0).

Definition sizeof_desc : Z := 16.

(** [desc]: the caller's memory; the result is that memory afterwards. *)
Definition psmsgr_state_describe_sized (r : option psmsgr_state_reader)
    (desc : option (list Z)) (size : Z)
    : prog (option psmsgr_state_reader * (Z * list Z)) :=
  match r, desc with
  | Some r, Some mem =>
      if size =? 0 then ret (Some r, (PSMSGR_E_INVAL, mem))
      else
        let* (rc, r) := reader_sync r in
        if negb (rc =? PSMSGR_OK) then ret (Some r, (rc, mem))
        else
          let d := encode_desc r in
          if size <=? sizeof_desc
          then ret (Some r, (PSMSGR_OK,
                 take (Z.to_nat size) d ++ drop (Z.to_nat size) mem))
          else ret (Some r, (PSMSGR_OK,
                 d ++ replicate (Z.to_nat (size - sizeof_desc)) 0 ++ drop (Z.to_nat size) mem))
  | _, _ => ret (r, (PSMSGR_E_INVAL, default [] desc))
  end.

(** The inline wrapper of the public header. *)
Definition psmsgr_state_describe (r : option psmsgr_state_reader) (desc : option (list Z))
    : prog (option psmsgr_state_reader * (Z * list Z)) :=
  psmsgr_state_describe_sized r desc sizeof_desc.

(** ** Waiting *)

(** Relative timeout; true if the wait failed. *)
Definition futex_wait (addr : ptr) (expected timeout_ns : Z) : prog bool :=
  let* x := call (SysFutexWait addr expected (timeout_ns / 1000000000)
                    (timeout_ns mod 1000000000)) in
  ret (match x with inl _ => false | inr _ => true end).

(** Looks for news: the counter of the waiters as it was before, and what
    [read_latest] finds; [None] if the file is retired. *)
Definition wait_look (r : psmsgr_state_reader) : prog (Z * option rresult) :=
  let* n := call (Load32 Acquire (ptr_add (hdr_of r) HOff.notify)) in
  let* dead := retired r in
  if dead then ret (n, None)
  else let* x := read_latest r [] 0 false in ret (n, Some x).

(** One pass of the loop of [psmsgr_state_wait]. *)
Definition wait_body (last_generation deadline : Z) (r : psmsgr_state_reader)
    : prog (psmsgr_state_reader + (Z * psmsgr_state_reader)) :=
  let* (rc, r) := reader_sync r in
  if negb (rc =? PSMSGR_OK) && negb (rc =? PSMSGR_E_NODATA) then ret (inr (rc, r))
  else if rc =? PSMSGR_E_NODATA then (* unattached: poll the attach *)
    let* now := psmi_clock_ns CLOCK_MONOTONIC in
    if deadline <=? now then ret (inr (PSMSGR_E_TIMEOUT, r))
    else
      let ns := if deadline - now <? UNATTACHED_POLL_NS then deadline - now
                else UNATTACHED_POLL_NS in
      let* e := call (SysNanosleep 0 ns) in
      if e =? EINTR then ret (inr (PSMSGR_E_INTR, r)) else ret (inl r)
  else if negb (Z.land (r_config_flags r) PSMI_CONFIG_NO_NOTIFY =? 0)
  then ret (inr (PSMSGR_E_NOTSUP, r))
  else
    let* (n, look) := wait_look r in
    match look with
    | None => ret (inl r)
    | Some (rc, _, info) =>
      if (rc =? PSMSGR_OK) &&
         match info with Some i => negb (i_generation i =? last_generation) | None => false end
      then ret (inr (PSMSGR_OK, r))
      else if rc =? PSMSGR_E_FORMAT then ret (inr (rc, r))
      else
        let* now := psmi_clock_ns CLOCK_MONOTONIC in
        if deadline <=? now then ret (inr (PSMSGR_E_TIMEOUT, r))
        else
          let slice := if deadline - now <? WAIT_SLICE_NS then deadline - now
                       else WAIT_SLICE_NS in
          let* failed := futex_wait (ptr_add (hdr_of r) HOff.notify) n slice in
          if failed then
            let* e := get_errno in
            if e =? EINTR then ret (inr (PSMSGR_E_INTR, r))
            else if e =? ETIMEDOUT then
              let* (rc, r) := identity_check r in
              if negb (rc =? PSMSGR_OK) then ret (inr (rc, r)) else ret (inl r)
            else if negb (e =? EAGAIN) then ret (inr (PSMSGR_E_SYS, r))
            else ret (inl r)
          else ret (inl r)
    end.

Definition psmsgr_state_wait (fuel : nat) (r : option psmsgr_state_reader)
    (last_generation timeout_ms : Z) : prog (Z * option psmsgr_state_reader) :=
  match r with
  | None => ret (PSMSGR_E_INVAL, None)
  | Some r =>
      let* deadline :=
        if timeout_ms <? 0 then ret UINT64_MAX
        else let* now := psmi_clock_ns CLOCK_MONOTONIC in
             ret (u64 (now + u64 (u64 timeout_ms * NS_PER_MS))) in
      let* (rc, r) := loop fuel (wait_body last_generation deadline) r in
      ret (rc, Some r)
  end.

(** ** Liveness *)

(** 1, 0 or an error code. *)
Definition psmsgr_state_writer_alive (r : option psmsgr_state_reader)
    : prog (Z * option psmsgr_state_reader) :=
  match r with
  | None => ret (PSMSGR_E_INVAL, None)
  | Some r =>
      let* (rc, r) := identity_check r in
      if negb (rc =? PSMSGR_OK) then ret (rc, Some r)
      else
        let* (_, r) := reader_sync r in
        let* fd := call (SysOpen (pt_lock (r_paths r)) data_open_flags 0) in
        match fd with
        | inr _ =>
            let* e := get_errno in
            ret (if e =? ENOENT then 0 else PSMSGR_E_SYS, Some r)
        | inl fd =>
            let* l := call (SysGetlk fd) in
            close_keep_errno fd ;;;
            match l with
            | inr _ => ret (PSMSGR_E_SYS, Some r)
            | inl held => ret (if held then 1 else 0, Some r)
            end
        end
  end.
End reader.
