(* ===== verification/Channel.v ===== *)
(** * Opening, creating and deleting channels (src/state.c, "writer lock",
    "writer" up to [psmsgr_state_writer_open], and "management")

    The lock file and its identity check, the data file built under a
    temporary name, the reuse/recreate/refuse decision, and unlink. *)
From S2P Require Import Prelude Prog Common Layout Names Options Writer Reader.
#[local] Open Scope string_scope.
#[local] Open Scope list_scope.
#[local] Open Scope Z_scope.

(** ** The writer lock *)

Definition same_file (a b : stat) : bool := (st_dev a =? st_dev b) && (st_ino a =? st_ino b).

(** True if [path] still names the inode open as [fd]; and [*err]. *)
Definition names_inode (path : string) (fd : Z) : prog (bool * Z) :=
  let* fs := call (SysFstat fd) in
  match fs with
  | inr _ => ret (false, PSMSGR_E_SYS)
  | inl fs =>
      let* ps := call (SysLstat path) in
      match ps with
      | inr _ =>
          let* e := get_errno in
          ret (false, if negb (e =? ENOENT) then PSMSGR_E_SYS else PSMSGR_OK)
      | inl ps => ret (same_file fs ps, PSMSGR_OK)
      end
  end.

Definition lock_create_flags : list oflag := [O_RDWR; O_CREAT; O_EXCL; O_CLOEXEC; O_NOFOLLOW].
Definition rdwr_open_flags : list oflag := [O_RDWR; O_CLOEXEC; O_NOFOLLOW; O_NONBLOCK].

Section channel.
Context {C : Config}.

(** The part of an iteration after the lock file is open as [fd]: [inl] to
    start over, else the result code and the locked descriptor. *)
Definition lock_opened (path : string) (fd : Z) : prog (unit + (Z * Z)) :=
  (if psmi_test_lock_opened then call HookLockOpened else ret tt) ;;;
  let* l := call (SysSetlk fd) in
  match l with
  | inr _ =>
      let* e := get_errno in
      if negb (e =? EAGAIN) && negb (e =? EACCES) then
        close_keep_errno fd ;;; ret (inr (PSMSGR_E_SYS, -1))
      else
        (* held by someone; if the path moved on, not by a writer of this channel *)
        let* (current, err) := names_inode path fd in
        close_keep_errno fd ;;;
        if negb (err =? PSMSGR_OK) then ret (inr (err, -1))
        else if current then ret (inr (PSMSGR_E_WRITER_EXISTS, -1))
        else ret (inl tt)
  | inl _ =>
      let* (current, err) := names_inode path fd in
      if current then ret (inr (PSMSGR_OK, fd))
      else
        close_keep_errno fd ;;;
        if negb (err =? PSMSGR_OK) then ret (inr (err, -1)) else ret (inl tt)
  end.

(** One iteration of [lock_channel]. *)
Definition lock_body (path : string) (mode : Z) (_ : unit) : prog (unit + (Z * Z)) :=
  let* fd := call (SysOpen path lock_create_flags 0x180 (* 0600 *)) in
  match fd with
  | inl fd => (* created *)
      let* m := call (SysFchmod fd mode) in
      match m with
      | inr _ => close_keep_errno fd ;;; ret (inr (PSMSGR_E_SYS, -1))
      | inl _ => lock_opened path fd
      end
  | inr _ =>
      let* e := get_errno in
      if e =? EEXIST then
        let* fd := call (SysOpen path rdwr_open_flags 0) in
        match fd with
        | inr _ =>
            let* e := get_errno in
            if e =? ENOENT then ret (inl tt) (* unlinked in between *)
            else ret (inr (PSMSGR_E_SYS, -1))
        | inl fd => lock_opened path fd
        end
      else ret (inr (PSMSGR_E_SYS, -1))
  end.

Definition lock_channel (fuel : nat) (path : string) (mode : Z) : prog (Z * Z) :=
  loop fuel (lock_body path mode) tt.

(** ** Generations of a file with no value yet *)

(** The fallback for kernels without [GRND_INSECURE]: the clocks and the pid
    mixed. *)
Definition mix64 (mono real pid : Z) : Z :=
  let x := Z.lxor (Z.lxor mono (u64 (Z.shiftl real 17))) (u64 pid) in
  let x := Z.lxor x (Z.shiftr x 33) in
  let x := u64 (x * 0xff51afd7ed558ccd) in
  Z.lxor x (Z.shiftr x 33).

Definition random_generation : prog Z :=
  let mix : prog Z :=
    let* mono := psmi_clock_ns CLOCK_MONOTONIC in
    let* real := psmi_clock_ns CLOCK_REALTIME in
    let* pid := call SysGetpid in
    ret (u32 (mix64 mono real pid)) in
  let* x := call (SysGetrandom 4) in
  let* g := match x with
            | inl bs => if (length bs =? 4)%nat then ret (le_val bs) else mix
            | inr _ => mix
            end in
  ret (if negb (g =? 0) then g else 1).

(** Generation following the latest value of a mapped file. *)
Definition carried_generation (map : ptr) (stride latest : Z) : prog Z :=
  if latest =? PSMI_LATEST_NONE then random_generation
  else
    let s := ptr_add map (slot_offset stride latest) in
    let* g := plain_load (ptr_add s SOff.generation) 4 in
    ret (next_generation g).

(** ** Creating the data file *)

(** The [fail] label of [create_file]. *)
Definition create_fail (fd tmp_block : Z) (tmp : string) (map : option Z) (size : Z)
    (w : psmsgr_state_writer) : prog (Z * psmsgr_state_writer) :=
  let* e := get_errno in
  (match map with
   | Some blk => let* _ := call (SysMunmap blk size) in ret tt
   | None => ret tt
   end) ;;;
  let* _ := call (SysClose fd) in
  let* _ := call (SysUnlink tmp) in
  let* _ := call (Free tmp_block) in
  set_errno e ;;;
  ret (PSMSGR_E_SYS, w).

(** The header the stores of [create_file] leave in the fresh (zero) file. *)
Definition fresh_header (o : psmsgr_state_options) (now : Z) : psmi_header := {|
  h_magic := PSMI_MAGIC;
  h_version_major := PSMI_VERSION_MAJOR;
  h_version_minor := PSMI_VERSION_MINOR;
  h_header_size := PSMI_HEADER_SIZE;
  h_slot_header_size := PSMI_SLOT_HEADER_SIZE;
  h_slot_count := o_slot_count o;
  h_slot_stride := psmi_slot_stride (o_capacity o);
  h_capacity := o_capacity o;
  h_payload_type := o_payload_type o;
  h_config_flags := config_flags_of o;
  h_state := 0;
  h_latest := PSMI_LATEST_NONE;
  h_notify := 0;
  h_writer_pid := 0;
  h_reserved0 := 0;
  h_created_realtime_ns := now;
  h_reserved1 := replicate 64 0
|}.

(** The header stores of [create_file]. *)
Definition store_header (h : ptr) (o : psmsgr_state_options) : prog unit :=
  plain_store (ptr_add h HOff.magic) 4 PSMI_MAGIC ;;;
  plain_store (ptr_add h HOff.version_major) 2 PSMI_VERSION_MAJOR ;;;
  plain_store (ptr_add h HOff.version_minor) 2 PSMI_VERSION_MINOR ;;;
  plain_store (ptr_add h HOff.header_size) 4 PSMI_HEADER_SIZE ;;;
  plain_store (ptr_add h HOff.slot_header_size) 4 PSMI_SLOT_HEADER_SIZE ;;;
  plain_store (ptr_add h HOff.slot_count) 4 (o_slot_count o) ;;;
  plain_store (ptr_add h HOff.slot_stride) 4 (psmi_slot_stride (o_capacity o)) ;;;
  plain_store (ptr_add h HOff.capacity) 4 (o_capacity o) ;;;
  plain_store (ptr_add h HOff.payload_type) 4 (o_payload_type o) ;;;
  plain_store (ptr_add h HOff.config_flags) 4 (config_flags_of o) ;;;
  plain_store (ptr_add h HOff.latest) 4 PSMI_LATEST_NONE ;;;
  let* now := psmi_clock_ns CLOCK_REALTIME in
  plain_store (ptr_add h HOff.created_realtime_ns) 8 now ;;;
  ret tt.

(** A header of which only the geometry and the flags are known. *)
Definition geom_header (slot_count slot_stride capacity config_flags : Z) : psmi_header := {|
  h_magic := 0; h_version_major := 0; h_version_minor := 0; h_header_size := 0;
  h_slot_header_size := 0; h_slot_count := slot_count; h_slot_stride := slot_stride;
  h_capacity := capacity; h_payload_type := 0; h_config_flags := config_flags;
  h_state := 0; h_latest := 0; h_notify := 0; h_writer_pid := 0; h_reserved0 := 0;
  h_created_realtime_ns := 0; h_reserved1 := [] |}.

(** The header of a mapped file, as [writer_attach] reads it through the
    mapping: the fields it uses. *)
Definition load_geom (h : ptr) : prog psmi_header :=
  let* slot_count := plain_load (ptr_add h HOff.slot_count) 4 in
  let* slot_stride := plain_load (ptr_add h HOff.slot_stride) 4 in
  let* capacity := plain_load (ptr_add h HOff.capacity) 4 in
  let* config_flags := plain_load (ptr_add h HOff.config_flags) 4 in
  ret (geom_header slot_count slot_stride capacity config_flags).

(** Builds a complete file under a temporary name and renames it into place;
    retires [old] (a mapping of the replaced file's header) on success. *)
Definition create_file (w : psmsgr_state_writer) (o : psmsgr_state_options) (p : paths)
    (old : option ptr) (gen : Z) : prog (Z * psmsgr_state_writer) :=
  let* tb := call (Malloc (Z.of_nat (String.length (pt_data p)) + 12)) in
  match tb with
  | None => ret (PSMSGR_E_SYS, w)
  | Some tb =>
      let* t := call (SysMkostemp (pt_data p ++ ".tmp.XXXXXX")%string) in
      match t with
      | inr _ => let* _ := call (Free tb) in ret (PSMSGR_E_SYS, w)
      | inl (fd, tmp) =>
          let stride := psmi_slot_stride (o_capacity o) in
          let size := psmi_file_size (o_slot_count o) stride in
          let* m := call (SysFchmod fd (o_mode o)) in
          match m with
          | inr _ => create_fail fd tb tmp None size w
          | inl _ =>
              let* e := call (SysFallocate fd 0 size) in
              if negb (e =? 0) then set_errno e ;;; create_fail fd tb tmp None size w
              else
                let* map := call (SysMmap fd size true true) in
                match map with
                | inr _ => create_fail fd tb tmp None size w
                | inl blk =>
                    let h := {| p_blk := blk; p_off := 0 |} in
                    store_header h o ;;;
                    let* rn := call (SysRename tmp (pt_data p)) in
                    match rn with
                    | inr _ => create_fail fd tb tmp (Some blk) size w
                    | inl _ =>
                        let* _ := call (SysClose fd) in
                        let* _ := call (Free tb) in
                        (match old with Some old => retire old | None => ret tt end) ;;;
                        let* geom := load_geom h in
                        ret (PSMSGR_OK, writer_attach w h size geom PSMI_LATEST_NONE gen)
                    end
                end
          end
      end
  end.

(** ** Create, reuse, recreate or refuse *)

(** The decision of [open_data] on a mapped file, [old]; [valid] and [latest]
    are the outcome of its validation, [h] the header copy. *)
Definition open_decide (w : psmsgr_state_writer) (o : psmsgr_state_options) (p : paths)
    (old : option ptr) (map_size : Z) (valid : bool) (h : psmi_header) (latest : Z)
    : prog (Z * psmsgr_state_writer) :=
  let recreate := negb (Z.land (o_flags o) PSMSGR_STATE_RECREATE =? 0) in
  let oldp := default NULL_PTR old in
  let* gen := if valid then carried_generation oldp (h_slot_stride h) latest
              else random_generation in
  let finish (m : prog (Z * psmsgr_state_writer)) : prog (Z * psmsgr_state_writer) :=
    let* (rc, w) := m in
    (match old with
     | Some q => let* _ := call (SysMunmap (p_blk q) map_size) in ret tt
     | None => ret tt
     end) ;;;
    ret (rc, w) in
  if negb valid then
    finish (if recreate then create_file w o p old gen else ret (PSMSGR_E_FORMAT, w))
  else
    let* s := call (Load32 Acquire (ptr_add oldp HOff.state)) in
    if negb (Z.land s PSMI_STATE_RETIRED =? 0) then finish (create_file w o p old gen)
    else if negb (h_capacity h =? o_capacity o) || negb (h_slot_count h =? o_slot_count o) ||
            negb (h_payload_type h =? o_payload_type o) ||
            negb (h_config_flags h =? config_flags_of o)
    then finish (if recreate then create_file w o p old gen else ret (PSMSGR_E_MISMATCH, w))
    else if negb (h_version_minor h =? PSMI_VERSION_MINOR)
    then finish (create_file w o p old gen)
    else ret (PSMSGR_OK, writer_attach w oldp map_size h latest gen).

Definition zero_header : psmi_header := decode_header (replicate 128 0).

Definition open_data (w : psmsgr_state_writer) (o : psmsgr_state_options) (p : paths)
    : prog (Z * psmsgr_state_writer) :=
  let* fd := call (SysOpen (pt_data p) rdwr_open_flags 0) in
  match fd with
  | inr _ =>
      let* e := get_errno in
      if e =? ENOENT
      then let* g := random_generation in create_file w o p None g
      else ret (PSMSGR_E_SYS, w)
  | inl fd =>
      let* (rc, sh) := read_header fd in
      if rc =? PSMSGR_E_SYS then close_keep_errno fd ;;; ret (rc, w)
      else
        (* [h] is only read below when [read_header] filled it in *)
        let h := match sh with Some (_, h) => h | None => zero_header end in
        let valid := match sh with
                     | Some (st, h) => header_valid h (st_size st)
                     | None => false
                     end in
        let map_size :=
          if valid then psmi_file_size (h_slot_count h) (h_slot_stride h)
          else if (rc =? PSMSGR_OK) && (h_magic h =? PSMI_MAGIC) then PSMI_HEADER_SIZE
          else 0 in
        let* m := if negb (map_size =? 0)
                  then let* m := call (SysMmap fd map_size true false) in
                       match m with
                       | inr _ => ret None
                       | inl blk => ret (Some (Some {| p_blk := blk; p_off := 0 |}))
                       end
                  else ret (Some None) in
        match m with
        | None => close_keep_errno fd ;;; ret (PSMSGR_E_SYS, w)
        | Some old =>
            let* _ := call (SysClose fd) in
            let* latest := if valid
              then call (Load32 Acquire (ptr_add (default NULL_PTR old) HOff.latest))
              else ret PSMI_LATEST_NONE in
            let valid := valid && psmi_latest_valid latest (h_slot_count h) in
            let latest := if negb (latest =? PSMI_LATEST_NONE) then psmi_latest_slot latest
                          else latest in
            open_decide w o p old map_size valid h latest
        end
  end.

(** The handle as [calloc] leaves it. *)
Definition zero_writer (b : Z) : psmsgr_state_writer := {|
  w_block := b; w_hdr := NULL_PTR; w_map_size := 0; w_slot_count := 0; w_slot_stride := 0;
  w_capacity := 0; w_notify := false; w_latest := 0; w_gen := 0; w_open_slot := 0;
  w_open_seq := 0; w_lock_fd := 0 |}.

(** The result code and [*out]. *)
Definition psmsgr_state_writer_open (fuel : nat) (name : option string)
    (opt : option psmsgr_state_options) (out_null : bool)
    : prog (Z * option psmsgr_state_writer) :=
  if out_null then ret (PSMSGR_E_INVAL, None)
  else
    let (rc, o) := load_options opt in
    if negb (rc =? PSMSGR_OK) then ret (rc, None)
    else if negb (name_valid name) then ret (PSMSGR_E_INVAL, None)
    else
      let* (rc, p) := paths_init (o_dir o) (default "" name) in
      match p with
      | None => ret (rc, None)
      | Some p =>
          let* b := call (Malloc sizeof_writer) in
          match b with
          | None => paths_free p ;;; ret (PSMSGR_E_SYS, None)
          | Some b =>
              let w := zero_writer b in
              let* (rc, fd) := lock_channel fuel (pt_lock p) (o_mode o) in
              let w := w_set_lock w fd in
              let* (rc, w) :=
                if rc =? PSMSGR_OK then
                  remove_stale_tmp fuel p ;;;
                  let* (rc, w) := open_data w o p in
                  (if negb (rc =? PSMSGR_OK) then close_keep_errno (w_lock_fd w)
                   else ret tt) ;;;
                  ret (rc, w)
                else ret (rc, w) in
              paths_free p ;;;
              if negb (rc =? PSMSGR_OK) then
                let* e := get_errno in
                let* _ := call (Free (w_block w)) in
                set_errno e ;;;
                ret (rc, None)
              else
                let* pid := call SysGetpid in
                plain_store (ptr_add (w_hdr w) HOff.writer_pid) 4 (u32 pid) ;;;
                ret (PSMSGR_OK, Some w)
          end
      end.

(** ** Unlink *)

Definition psmsgr_state_unlink (fuel : nat) (name dir : option string) : prog Z :=
  if negb (name_valid name) || bad_dir dir then ret PSMSGR_E_INVAL
  else
    let* (rc, p) := paths_init dir (default "" name) in
    match p with
    | None => ret rc
    | Some p =>
        let* (rc, lock_fd) := lock_channel fuel (pt_lock p) 0x180 (* 0600 *) in
        if negb (rc =? PSMSGR_OK) then paths_free p ;;; ret rc
        else
          remove_stale_tmp fuel p ;;;
          let* fd := call (SysOpen (pt_data p) rdwr_open_flags 0) in
          let* rc :=
            match fd with
            | inl fd =>
                let* (hrc, sh) := read_header fd in
                let* old :=
                  if (hrc =? PSMSGR_OK) &&
                     match sh with Some (_, h) => h_magic h =? PSMI_MAGIC | None => false end
                  then let* m := call (SysMmap fd PSMI_HEADER_SIZE true false) in
                       match m with
                       | inl blk => ret (Some {| p_blk := blk; p_off := 0 |})
                       | inr _ => ret None
                       end
                  else ret None in
                let* _ := call (SysClose fd) in
                (* unlink first, then retire *)
                let* u := call (SysUnlink (pt_data p)) in
                let* rc := match u with
                           | inl _ => ret PSMSGR_OK
                           | inr _ => let* e := get_errno in
                                      ret (if negb (e =? ENOENT) then PSMSGR_E_SYS
                                           else PSMSGR_E_NODATA)
                           end in
                (match old with
                 | Some q =>
                     (if rc =? PSMSGR_OK then retire q else ret tt) ;;;
                     let* _ := call (SysMunmap (p_blk q) PSMI_HEADER_SIZE) in
                     ret tt
                 | None => ret tt
                 end) ;;;
                ret rc
            | inr _ =>
                let* e := get_errno in
                ret (if negb (e =? ENOENT) then PSMSGR_E_SYS else PSMSGR_E_NODATA)
            end in
          (* remove the lock file while still holding it *)
          let* rc :=
            if negb (rc =? PSMSGR_E_SYS) then
              let* u := call (SysUnlink (pt_lock p)) in
              match u with
              | inl _ => ret rc
              | inr _ => let* e := get_errno in
                         ret (if negb (e =? ENOENT) then PSMSGR_E_SYS else rc)
              end
            else ret rc in
          close_keep_errno lock_fd ;;;
          paths_free p ;;;
          ret rc
    end.

(** ** Parts of the calls, as the proofs take them *)

(** What [psmsgr_state_writer_open] ends with. *)
Definition open_finish (p : paths) (rc : Z) (w : psmsgr_state_writer)
    : prog (Z * option psmsgr_state_writer) :=
  paths_free p ;;;
  if negb (rc =? PSMSGR_OK) then
    let* e := get_errno in
    let* _ := call (Free (w_block w)) in
    set_errno e ;;;
    ret (rc, None)
  else
    let* pid := call SysGetpid in
    plain_store (ptr_add (w_hdr w) HOff.writer_pid) 4 (u32 pid) ;;;
    ret (PSMSGR_OK, Some w).

(** The part of [psmsgr_state_unlink] between opening the data file and
    removing the lock file. *)
Definition unlink_open (p : paths) (fd : Z) : prog Z :=
  let* (hrc, sh) := read_header fd in
  let* old :=
    if (hrc =? PSMSGR_OK) &&
       match sh with Some (_, h) => h_magic h =? PSMI_MAGIC | None => false end
    then let* m := call (SysMmap fd PSMI_HEADER_SIZE true false) in
         match m with
         | inl blk => ret (Some {| p_blk := blk; p_off := 0 |})
         | inr _ => ret None
         end
    else ret None in
  let* _ := call (SysClose fd) in
  let* u := call (SysUnlink (pt_data p)) in
  let* rc := match u with
             | inl _ => ret PSMSGR_OK
             | inr _ => let* e := get_errno in
                        ret (if negb (e =? ENOENT) then PSMSGR_E_SYS
                             else PSMSGR_E_NODATA)
             end in
  (match old with
   | Some q =>
       (if rc =? PSMSGR_OK then retire q else ret tt) ;;;
       let* _ := call (SysMunmap (p_blk q) PSMI_HEADER_SIZE) in
       ret tt
   | None => ret tt
   end) ;;;
  ret rc.

(** The end of [psmsgr_state_unlink], from the removal of the lock file. *)
Definition unlink_finish (p : paths) (lock_fd rc : Z) : prog Z :=
  let* rc :=
    if negb (rc =? PSMSGR_E_SYS) then
      let* u := call (SysUnlink (pt_lock p)) in
      match u with
      | inl _ => ret rc
      | inr _ => let* e := get_errno in
                 ret (if negb (e =? ENOENT) then PSMSGR_E_SYS else rc)
      end
    else ret rc in
  close_keep_errno lock_fd ;;;
  paths_free p ;;;
  ret rc.
End channel.

(** ** The geometry read back *)

(** The geometry the options ask for. *)
Definition new_geometry (o : psmsgr_state_options) : geometry :=
  {| g_slots := o_slot_count o; g_stride := psmi_slot_stride (o_capacity o);
     g_cap := o_capacity o |}.

(** The fields [load_geom] reads, as [store_header] leaves them. *)
Definition geom_fields (o : psmsgr_state_options) : list (Z * Z) :=
  [(HOff.slot_count, o_slot_count o); (HOff.slot_stride, psmi_slot_stride (o_capacity o));
   (HOff.capacity, o_capacity o); (HOff.config_flags, config_flags_of o)].

Definition new_geom (o : psmsgr_state_options) : psmi_header :=
  geom_header (o_slot_count o) (psmi_slot_stride (o_capacity o)) (o_capacity o) (config_flags_of o).

Lemma config_flags_range (o : psmsgr_state_options) : 0 <= config_flags_of o <= 1.
Proof. unfold config_flags_of. destruct (negb _); unfold PSMI_CONFIG_NO_NOTIFY; lia. Qed.

(** An environment in which these fields are what was stored. *)
Lemma wp_load_geom {S : Type} `{HS : Sem S} (h : ptr) (o : psmsgr_state_options) (en : Z) (s : S)
    (Q : psmi_header -> Z -> S -> Prop) :
  geometry_ok (new_geometry o) ->
  (forall off v, In (off, v) (geom_fields o) -> bytes_are s (ptr_add h off) (le_bytes 4 v)) ->
  Q (new_geom o) en s -> wp (load_geom h) en s Q.
Proof.
  intros (Hn & Hc & _) H HQ. cbn [new_geometry g_slots g_cap] in Hn, Hc.
  pose proof (psmi_slot_stride_bounds _ Hc) as [Hst _]. pose proof (config_flags_range o) as Hf.
  assert (Hl : forall off v Q, In (off, v) (geom_fields o) -> 0 <= v < 4294967296 -> Q v en s ->
    wp (plain_load (ptr_add h off) 4) en s Q).
  { intros off v Q' Hi Hv HQ'. apply (wp_plain_load_is 4 v); [done | by apply H | done]. }
  unfold load_geom.
  do 4 (apply wp_bind; eapply Hl; [cbn; by eauto 6 | lia |]). by apply wp_ret.
Qed.
