(* ===== verification/Memory.v ===== *)
(** * The shared mapping under the C11 memory model

    All stores to a data file are made by the holder of its writer lock, one
    holder at a time, and the readers map the file read-only: the memory of a
    file is the single sequence of its writers' stores and fences, the log.
    Position [t] of the log stands for its first [t] events.

    The writer reads its own latest stores.  A reader's load may return the
    content as of any position not before the reader's view, independently for
    every byte of a plain access, and regardless of what it read before: this
    allows every behaviour of C11 release/acquire atomics and fences with plain
    accesses taken as bytewise relaxed ones, and more (loads of one location
    need not even be coherent).  The view grows only where C11 makes the
    writer's earlier events happen before the reader's later ones: an acquire
    load of a release store, and an acquire fence after a load of a release
    store or of a store made after a release fence. *)
From S2P Require Import Prelude Prog.

(** ** Logs *)

Inductive wev :=
  | WStore (o : mo) (off : Z) (bs : list Z)
  | WFence (o : mo).

Definition mem : Type := Z -> Z.

Definition write (m : mem) (off : Z) (bs : list Z) : mem :=
  fun a => if (off <=? a) && (a <? off + Z.of_nat (length bs))
           then bs !!! Z.to_nat (a - off) else m a.

Definition apply_wev (m : mem) (e : wev) : mem :=
  match e with
  | WStore _ off bs => write m off bs
  | WFence _ => m
  end.

(** Memory as of position [t]. *)
Definition mem_at (init : mem) (log : list wev) (t : nat) : mem :=
  foldl apply_wev init (take t log).

Definition read_bytes (m : mem) (off : Z) (n : nat) : list Z :=
  (fun k => m (off + Z.of_nat k)) <$> seq 0 n.

Definition word (m : mem) (off : Z) : Z := le_val (read_bytes m off 4).

(** ** Happens-before *)

Definition covers (e : wev) (a : Z) : bool :=
  match e with
  | WStore _ off bs => (off <=? a) && (a <? off + Z.of_nat (length bs))
  | WFence _ => false
  end.

(** The store that made the content of [a] as of [t]. *)
Fixpoint last_write (log : list wev) (t : nat) (a : Z) : option nat :=
  match t with
  | O => None
  | S k => match log !! k with
           | Some e => if covers e a then Some k else last_write log k a
           | None => last_write log k a
           end
  end.

Definition is_release_fence (e : wev) : bool :=
  match e with WFence Release => true | _ => false end.

(** The position after the last release fence among the first [t] events. *)
Fixpoint last_fence (log : list wev) (t : nat) : nat :=
  match t with
  | O => O
  | S k => match log !! k with
           | Some e => if is_release_fence e then t else last_fence log k
           | None => last_fence log k
           end
  end.

(** What a reader of the store at [k] synchronizes with. *)
Definition msg_view (log : list wev) (k : nat) : nat :=
  match log !! k with
  | Some (WStore Release _ _) => S k
  | Some (WStore _ _ _) => last_fence log k
  | _ => O
  end.

Definition sync (log : list wev) (t : nat) (a : Z) : nat :=
  match last_write log t a with
  | Some k => msg_view log k
  | None => O
  end.

(** ** The reader's machine *)

Record rstate := {
  rs_log : list wev;   (* the file's log so far *)
  rs_cur : nat;        (* the reader's view *)
  rs_acq : nat         (* what an acquire fence would add to it *)
}.

Definition rs_load (o : mo) (log : list wev) (v : nat) (s : rstate) : rstate :=
  match o with
  | Acquire => {| rs_log := log; rs_cur := Nat.max (rs_cur s) v; rs_acq := Nat.max (rs_acq s) v |}
  | _ => {| rs_log := log; rs_cur := rs_cur s; rs_acq := Nat.max (rs_acq s) v |}
  end.

Section machine.
(** The file as created, the mapping's block and size. *)
Context (init : mem) (blk size : Z).

Definition in_map (p : ptr) (n : Z) : Prop :=
  p_blk p = blk /\ 0 <= p_off p /\ p_off p + n <= size.

Definition aligned (p : ptr) (n : Z) : Prop := p_off p mod n = 0.

(** [grow]: what the writers may do between two steps of the reader. *)
Definition reader_step (grow : list wev -> list wev -> Prop) (e : ev) (s : rstate)
    : resp e -> rstate -> Prop :=
  match e return resp e -> rstate -> Prop with
  | Load32 o p => fun r s' => exists log t,
      grow (rs_log s) log /\ (rs_cur s <= t <= length log)%nat /\
      r = word (mem_at init log t) (p_off p) /\
      s' = rs_load o log (sync log t (p_off p)) s
  | Load8 p => fun r s' => exists log t,
      grow (rs_log s) log /\ (rs_cur s <= t <= length log)%nat /\
      r = mem_at init log t (p_off p) /\
      s' = rs_load Relaxed log (sync log t (p_off p)) s
  | Fence Acquire => fun _ s' => exists log,
      grow (rs_log s) log /\
      s' = {| rs_log := log; rs_cur := Nat.max (rs_cur s) (rs_acq s); rs_acq := rs_acq s |}
  | _ => fun _ s' => exists log,
      grow (rs_log s) log /\
      s' = {| rs_log := log; rs_cur := rs_cur s; rs_acq := rs_acq s |}
  end.

(** A reader stays inside its mapping, aligned, and never stores to it. *)
Definition reader_pre (e : ev) (s : rstate) : Prop :=
  match e with
  | Load32 _ p => in_map p 4 /\ aligned p 4
  | Load8 p => in_map p 1
  | Store32 _ _ _ | Store8 _ _ | FetchOr32 _ _ _ | FetchAdd32 _ _ _ => False
  | _ => True
  end.

Definition reader_sem (grow : list wev -> list wev -> Prop) : Sem rstate := {|
  sem_pre := reader_pre;
  sem_step := reader_step grow;
  sem_out := False
|}.

(** ** The writer's machine: its state is the log. *)

Definition wev_of (e : ev) (log : list wev) : option wev :=
  match e with
  | Store32 o p v => Some (WStore o (p_off p) (le_bytes 4 v))
  | Store8 p v => Some (WStore Relaxed (p_off p) [v])
  | FetchOr32 o p v =>
      Some (WStore o (p_off p)
              (le_bytes 4 (Z.lor (word (mem_at init log (length log)) (p_off p)) v)))
  | FetchAdd32 o p v =>
      Some (WStore o (p_off p)
              (le_bytes 4 (word (mem_at init log (length log)) (p_off p) + v)))
  | Fence o => Some (WFence o)
  | _ => None
  end.

Definition writer_resp (e : ev) (log : list wev) : resp e -> Prop :=
  match e return resp e -> Prop with
  | Load32 _ p | FetchOr32 _ p _ | FetchAdd32 _ p _ =>
      fun r => r = word (mem_at init log (length log)) (p_off p)
  | Load8 p => fun r => r = mem_at init log (length log) (p_off p)
  | _ => fun _ => True
  end.

Definition append (log : list wev) (x : option wev) : list wev :=
  match x with Some e => log ++ [e] | None => log end.

(** [accept]: the writer's protocol; every event it appends must keep the
    log in it. *)
Definition writer_pre (accept : list wev -> Prop) (e : ev) (log : list wev) : Prop :=
  match e with
  | Load32 _ p | Store32 _ p _ | FetchOr32 _ p _ | FetchAdd32 _ p _ => in_map p 4 /\ aligned p 4
  | Load8 p | Store8 p _ => in_map p 1
  | _ => True
  end /\ accept (append log (wev_of e log)).

(** [env]: what the system answers to the other events. *)
Definition writer_sem (env : list wev -> forall e : ev, resp e -> Prop)
    (accept : list wev -> Prop) : Sem (list wev) := {|
  sem_pre := writer_pre accept;
  sem_step := fun e log r log' =>
    (writer_resp e log r /\ env log e r) /\ log' = append log (wev_of e log);
  sem_out := False
|}.
End machine.

(** ** Lemmas: memory contents *)

Lemma write_in (m : mem) (off a : Z) (bs : list Z) :
  off <= a < off + Z.of_nat (length bs) -> write m off bs a = bs !!! Z.to_nat (a - off).
Proof.
  intros H. unfold write.
  destruct (Z.leb_spec off a), (Z.ltb_spec a (off + Z.of_nat (length bs))); simpl; done || lia.
Qed.

Lemma write_out (m : mem) (off a : Z) (bs : list Z) :
  a < off \/ off + Z.of_nat (length bs) <= a -> write m off bs a = m a.
Proof.
  intros H. unfold write.
  destruct (Z.leb_spec off a), (Z.ltb_spec a (off + Z.of_nat (length bs))); simpl; done || lia.
Qed.

Lemma write_cons (m : mem) (off b a : Z) (bs : list Z) :
  write m off (b :: bs) a = write (write m off [b]) (off + 1) bs a.
Proof.
  destruct (decide (off <= a < off + Z.of_nat (length (b :: bs)))) as [H|H]; simpl in H.
  - rewrite write_in by (simpl; lia). destruct (decide (a = off)) as [->|Hne].
    + rewrite write_out by lia. rewrite write_in by (simpl; lia). by rewrite Z.sub_diag.
    + rewrite write_in by lia. replace (Z.to_nat (a - off)) with (S (Z.to_nat (a - (off + 1)))) by lia.
      done.
  - rewrite !write_out by (simpl; lia). done.
Qed.

Lemma length_read_bytes (m : mem) (off : Z) (n : nat) : length (read_bytes m off n) = n.
Proof. unfold read_bytes. by rewrite length_fmap, length_seq. Qed.

Lemma lookup_read_bytes (m : mem) (off : Z) (n k : nat) :
  (k < n)%nat -> read_bytes m off n !! k = Some (m (off + Z.of_nat k)).
Proof.
  intros H. unfold read_bytes. rewrite list_lookup_fmap, lookup_seq_lt by done. done.
Qed.

(** Reading depends only on the bytes read. *)
Lemma read_bytes_ext (m m' : mem) (off : Z) (n : nat) :
  (forall a, off <= a < off + Z.of_nat n -> m a = m' a) -> read_bytes m off n = read_bytes m' off n.
Proof.
  intros H. apply list_eq. intros k.
  destruct (decide (k < n)%nat) as [Hk|Hk].
  - rewrite !lookup_read_bytes by done. f_equal. apply H. lia.
  - rewrite !lookup_ge_None_2 by (rewrite length_read_bytes; lia). done.
Qed.

Lemma read_write_same (m : mem) (off : Z) (bs : list Z) :
  read_bytes (write m off bs) off (length bs) = bs.
Proof.
  apply list_eq. intros k. destruct (decide (k < length bs)%nat) as [Hk|Hk].
  - rewrite lookup_read_bytes, write_in by lia.
    replace (Z.to_nat (off + Z.of_nat k - off)) with k by lia.
    symmetry. by apply list_lookup_lookup_total_lt.
  - rewrite !lookup_ge_None_2; [done | lia | rewrite length_read_bytes; lia].
Qed.

Lemma read_write_disjoint (m : mem) (off a : Z) (bs : list Z) (n : nat) :
  a + Z.of_nat n <= off \/ off + Z.of_nat (length bs) <= a ->
  read_bytes (write m off bs) a n = read_bytes m a n.
Proof. intros H. apply read_bytes_ext. intros x Hx. apply write_out. lia. Qed.

Lemma word_write_same (m : mem) (off v : Z) : word (write m off (le_bytes 4 v)) off = u32 v.
Proof.
  unfold word. rewrite <- (length_le_bytes 4 v) at 2.
  rewrite read_write_same. apply le_val_bytes4.
Qed.

Lemma word_write_disjoint (m : mem) (off a : Z) (bs : list Z) :
  a + 4 <= off \/ off + Z.of_nat (length bs) <= a -> word (write m off bs) a = word m a.
Proof. intros H. unfold word. rewrite read_write_disjoint; [done | lia]. Qed.

Lemma read_bytes_app (m : mem) (off : Z) (n k : nat) :
  read_bytes m off (n + k) = read_bytes m off n ++ read_bytes m (off + Z.of_nat n) k.
Proof.
  unfold read_bytes. rewrite seq_app, fmap_app. f_equal.
  replace (0 + n)%nat with (n + 0)%nat by lia.
  rewrite <- (fmap_add_seq n 0 k), <- list_fmap_compose. apply list_fmap_ext.
  intros i x _. simpl. f_equal. lia.
Qed.

Lemma read_bytes_S (m : mem) (off : Z) (n : nat) :
  read_bytes m off (S n) = m off :: read_bytes m (off + 1) n.
Proof.
  change (S n) with (1 + n)%nat. rewrite read_bytes_app. change (Z.of_nat 1) with 1.
  unfold read_bytes at 1. cbn [seq fmap list_fmap app Z.of_nat]. by rewrite Z.add_0_r.
Qed.

(** ** Lemmas: positions *)

Lemma mem_at_0 (init : mem) (log : list wev) : mem_at init log 0 = init.
Proof. done. Qed.

Lemma mem_at_S (init : mem) (log : list wev) (t : nat) (e : wev) :
  log !! t = Some e -> mem_at init log (S t) = apply_wev (mem_at init log t) e.
Proof. intros H. unfold mem_at. by rewrite (take_S_r _ _ _ H), foldl_snoc. Qed.

Lemma mem_at_app (init : mem) (log ext : list wev) (t : nat) :
  (t <= length log)%nat -> mem_at init (log ++ ext) t = mem_at init log t.
Proof. intros H. unfold mem_at. by rewrite take_app_le. Qed.

Lemma last_write_app (log ext : list wev) (t : nat) (a : Z) :
  (t <= length log)%nat -> last_write (log ++ ext) t a = last_write log t a.
Proof.
  induction t as [|t IH]; intros Ht; simpl; [done |].
  rewrite lookup_app_l by lia. rewrite IH by lia. done.
Qed.

Lemma last_fence_app (log ext : list wev) (t : nat) :
  (t <= length log)%nat -> last_fence (log ++ ext) t = last_fence log t.
Proof.
  induction t as [|t IH]; intros Ht; simpl; [done |].
  rewrite lookup_app_l by lia. rewrite IH by lia. done.
Qed.

Lemma last_write_lt (log : list wev) (t k : nat) (a : Z) :
  last_write log t a = Some k -> (k < t)%nat /\ exists e, log !! k = Some e /\ covers e a = true.
Proof.
  induction t as [|t IH]; simpl; [done |].
  destruct (log !! t) as [e|] eqn:E; [| intros H; apply IH in H as [? ?]; auto with lia].
  destruct (covers e a) eqn:Ec; [| intros H; apply IH in H as [? ?]; auto with lia].
  intros [= <-]. eauto with lia.
Qed.

(** Between its last write and [t], a byte does not change. *)
Lemma mem_at_last_write (init : mem) (log : list wev) (t u : nat) (a : Z) :
  (t <= length log)%nat ->
  match last_write log t a with Some k => (k < u)%nat | None => True end ->
  (u <= t)%nat -> mem_at init log t a = mem_at init log u a.
Proof.
  induction t as [|t IH]; intros Ht Hl Hu; [by replace u with 0%nat by lia |].
  destruct (decide (u = S t)) as [->|Hne]; [done |].
  destruct (lookup_lt_is_Some_2 log t ltac:(lia)) as [e E].
  rewrite (mem_at_S _ _ _ _ E). simpl in Hl. rewrite E in Hl.
  destruct (covers e a) eqn:Ec; [lia |].
  rewrite <- IH by (done || lia).
  destruct e as [o off bs|o]; simpl in *; [| done].
  apply andb_false_iff in Ec as [Ec|Ec]; bool_hyps; apply write_out; lia.
Qed.

Lemma last_fence_le (log : list wev) (t : nat) : (last_fence log t <= t)%nat.
Proof.
  induction t as [|t IH]; simpl; [done |].
  destruct (log !! t) as [e|]; [destruct (is_release_fence e) |]; lia.
Qed.

Lemma sync_le (log : list wev) (t : nat) (a : Z) : (sync log t a <= t)%nat.
Proof.
  unfold sync. destruct (last_write log t a) as [k|] eqn:E; [| lia].
  apply last_write_lt in E as [Hk (e & He & _)]. unfold msg_view. rewrite He.
  pose proof (last_fence_le log k). destruct e as [[] ? ?|]; lia.
Qed.
