(* ===== verification/Protocol.v ===== *)
(** * The seqlock protocol of a data file

    An abstract specification of what writers may do to a file: an automaton
    over the log of Memory.v.  A slot that is not [latest] may be opened by
    making its [seq] odd; after a release fence its bytes may be written; a
    release store of the next even [seq] commits it; a release store of
    [latest] with the committed version publishes it.  A slot opened and never
    committed (an abort or a crash) stays odd until it is opened again.

    The lemmas here are about every accepted log; Seqlock.v shows that readers
    of such a log see published values only, WriterProof.v that the code of
    the writer produces such logs. *)
From S2P Require Import Prelude Prog Layout Memory.

(** ** The automaton *)

Record ghost := {
  gh_cnt : Z -> Z;             (* commits of a slot *)
  gh_odd : Z -> bool;          (* its seq is odd *)
  gh_latest : option Z;        (* the slot [latest] names *)
  gh_open : option (Z * bool); (* the slot being written; a release fence followed *)
  gh_pending : option Z        (* a slot committed and not published yet *)
}.

Definition fset {A : Type} (f : Z -> A) (i : Z) (v : A) : Z -> A :=
  fun j => if j =? i then v else f j.

Definition ghost0 : ghost := {|
  gh_cnt := fun _ => 0; gh_odd := fun _ => false;
  gh_latest := None; gh_open := None; gh_pending := None |}.

(** The generation after [gen]: 1, 2, .., 2^32 - 1, 1, .. *)
Definition gen_succ (gen : Z) : Z := gen mod UINT32_MAX + 1.

Definition opt_eqb (x : option Z) (i : Z) : bool :=
  match x with Some j => j =? i | None => false end.

Definition bytes_eqb (a b : list Z) : bool := bool_decide (a = b).

Definition is_release (o : mo) : bool := match o with Release => true | _ => false end.

Definition open_fenced (x : option (Z * bool)) (i : Z) : bool :=
  match x with Some (j, b) => (j =? i) && b | None => false end.

Section protocol.
Context (g : geometry).

(** The [seq] word of slot [i]: two per commit, one more while odd. *)
Definition seq_of (gh : ghost) (i : Z) : Z :=
  u32 (2 * gh_cnt gh i + (if gh_odd gh i then 1 else 0)).

Definition step_begin (gh : ghost) (i : Z) : option ghost :=
  if opt_eqb (gh_latest gh) i then None
  else Some {| gh_cnt := gh_cnt gh; gh_odd := fset (gh_odd gh) i true;
               gh_latest := gh_latest gh; gh_open := Some (i, false); gh_pending := None |}.

Definition step_commit (gh : ghost) (o : mo) (i : Z) : option ghost :=
  if is_release o && open_fenced (gh_open gh) i
  then Some {| gh_cnt := fset (gh_cnt gh) i (gh_cnt gh i + 1);
               gh_odd := fset (gh_odd gh) i false;
               gh_latest := gh_latest gh; gh_open := None; gh_pending := Some i |}
  else None.

(** What a slot must hold to be published: a length within the capacity and
    a generation, which is never 0. *)
Definition publishable (m : mem) (i : Z) : bool :=
  (word m (slot_offset (g_stride g) i + SOff.length) <=? g_cap g) &&
  (0 <? word m (slot_offset (g_stride g) i + SOff.generation)) &&
  (word m (slot_offset (g_stride g) i + SOff.generation) <=? UINT32_MAX).

(** Its generation follows the one published last. *)
Definition follows (m : mem) (latest : option Z) (i : Z) : bool :=
  match latest with
  | Some l => word m (slot_offset (g_stride g) i + SOff.generation) =?
              gen_succ (word m (slot_offset (g_stride g) l + SOff.generation))
  | None => true
  end.

Definition step_publish (m : mem) (gh : ghost) (o : mo) (bs : list Z) : option ghost :=
  match gh_pending gh with
  | Some i =>
      if is_release o && bytes_eqb bs (le_bytes 4 (psmi_latest i (seq_of gh i))) &&
         publishable m i && follows m (gh_latest gh) i
      then Some {| gh_cnt := gh_cnt gh; gh_odd := gh_odd gh;
                   gh_latest := Some i; gh_open := gh_open gh; gh_pending := None |}
      else None
  | None => None
  end.

Definition step_fence (gh : ghost) (o : mo) : option ghost :=
  Some {| gh_cnt := gh_cnt gh; gh_odd := gh_odd gh; gh_latest := gh_latest gh;
          gh_open := match gh_open gh with
                     | Some (i, b) => Some (i, b || is_release o)
                     | None => None
                     end;
          gh_pending := gh_pending gh |}.

(** A store of [n] bytes at [d] inside slot [i]. *)
Definition step_slot (gh : ghost) (o : mo) (i d : Z) (bs : list Z) : option ghost :=
  if d =? 0 then
    if bytes_eqb bs (le_bytes 4 (u32 (2 * gh_cnt gh i + 1))) then step_begin gh i
    else if bytes_eqb bs (le_bytes 4 (u32 (2 * gh_cnt gh i + 2))) then step_commit gh o i
    else None
  else if (4 <=? d) && (d + Z.of_nat (length bs) <=? g_stride g) && open_fenced (gh_open gh) i
  then Some gh
  else None.

(** The counter of the waiters is only ever incremented. *)
Definition is_notify (m : mem) (o : mo) (off : Z) (bs : list Z) : bool :=
  (off =? HOff.notify) && is_release o && bytes_eqb bs (le_bytes 4 (word m HOff.notify + 1)).

(** One event, in memory [m]. Of the header only [state], [latest], [notify]
    and [writer_pid] are ever written. *)
Definition gstep (m : mem) (gh : ghost) (e : wev) : option ghost :=
  match e with
  | WFence o => step_fence gh o
  | WStore o off bs =>
      if off =? HOff.latest then step_publish m gh o bs
      else if off <? PSMI_HEADER_SIZE then
        if ((HOff.state <=? off) && (off + Z.of_nat (length bs) <=? HOff.latest)) ||
           ((HOff.writer_pid <=? off) && (off + Z.of_nat (length bs) <=? 52)) ||
           is_notify m o off bs
        then Some gh else None
      else
        let i := (off - PSMI_HEADER_SIZE) / g_stride g in
        if i <? g_slots g
        then step_slot gh o i ((off - PSMI_HEADER_SIZE) mod g_stride g) bs
        else None
  end.

(** A fresh data file as [create_file] leaves it: no slot used, nothing
    published. *)
Definition fresh_file (m : mem) : Prop :=
  word m HOff.latest = PSMI_LATEST_NONE /\
  (forall i, 0 <= i < g_slots g -> word m (slot_offset (g_stride g) i) = 0).

Context (init : mem).

(** The ghost state after the first [t] events; [None] if one is refused. *)
Fixpoint ghost_at (log : list wev) (t : nat) : option ghost :=
  match t with
  | O => Some ghost0
  | S k => match ghost_at log k, log !! k with
           | Some gh, Some e => gstep (mem_at init log k) gh e
           | _, _ => None
           end
  end.

Definition accepted (log : list wev) : Prop := is_Some (ghost_at log (length log)).

(** ** What a reader can learn from an accepted log *)

(** A published value, as the slot holds it. *)
Record value := {
  v_slot : Z;
  v_generation : Z;
  v_length : Z;
  v_timestamp_ns : Z;
  v_data : list Z
}.

(** The value in slot [i] of memory [m]. *)
Definition slot_value (m : mem) (i : Z) : value :=
  let s := slot_offset (g_stride g) i in
  let d := decode_slot (read_bytes m s 20) in
  {| v_slot := i; v_generation := s_generation d; v_length := s_length d;
     v_timestamp_ns := s_timestamp_ns d;
     v_data := read_bytes m (s + PSMI_SLOT_HEADER_SIZE) (Z.to_nat (s_length d)) |}.

(** The value published by event [j] of the log, if it is a store of
    [latest]. *)
Definition published (log : list wev) (j : nat) : option value :=
  match log !! j with
  | Some (WStore _ off bs) =>
      if off =? HOff.latest
      then Some (slot_value (mem_at init log j) (psmi_latest_slot (le_val bs)))
      else None
  | _ => None
  end.

(** Commits of slot [i] among the events: stores of an even [seq]. *)
Definition is_commit (i : Z) (e : wev) : bool :=
  match e with
  | WStore _ off bs => (off =? slot_offset (g_stride g) i) && (le_val bs mod 2 =? 0)
  | WFence _ => false
  end.

Definition commits (i : Z) (log : list wev) : Z :=
  Z.of_nat (length (List.filter (is_commit i) log)).

(** Commits of slot [i] after event [j]. *)
Definition commits_since (log : list wev) (j : nat) (i : Z) : Z := commits i (drop (S j) log).
End protocol.

(** ** Reading a slot *)

Lemma field_read (m : mem) (off : Z) (n a k : nat) :
  (a + k <= n)%nat -> field (read_bytes m off n) a k = le_val (read_bytes m (off + Z.of_nat a) k).
Proof.
  intros H. unfold field. replace n with (a + (k + (n - a - k)))%nat by lia.
  rewrite read_bytes_app, drop_app_length' by (by rewrite length_read_bytes).
  rewrite read_bytes_app, take_app_length' by (by rewrite length_read_bytes). done.
Qed.

Lemma slot_value_eq (g : geometry) (m : mem) (i : Z) :
  let s := slot_offset (g_stride g) i in
  slot_value g m i =
    {| v_slot := i;
       v_generation := word m (s + SOff.generation);
       v_length := word m (s + SOff.length);
       v_timestamp_ns := le_val (read_bytes m (s + SOff.timestamp_ns) 8);
       v_data := read_bytes m (s + PSMI_SLOT_HEADER_SIZE) (Z.to_nat (word m (s + SOff.length))) |}.
Proof.
  intros s. unfold slot_value, decode_slot. cbn [s_generation s_length s_timestamp_ns].
  by rewrite !field_read by lia.
Qed.

(** ** Steps, case by case *)

Section facts.
Context (g : geometry) (Hg : geometry_ok g).

Abbreviation slot i := (slot_offset (g_stride g) i).
Abbreviation in_slots i := (0 <= i < g_slots g).

Inductive gs (m : mem) (gh : ghost) : wev -> ghost -> Prop :=
  | gs_begin o i gh' :
      in_slots i -> gh_latest gh <> Some i ->
      gh' = {| gh_cnt := gh_cnt gh; gh_odd := fset (gh_odd gh) i true;
               gh_latest := gh_latest gh; gh_open := Some (i, false); gh_pending := None |} ->
      gs m gh (WStore o (slot i) (le_bytes 4 (u32 (2 * gh_cnt gh i + 1)))) gh'
  | gs_commit i gh' :
      in_slots i -> gh_open gh = Some (i, true) ->
      gh' = {| gh_cnt := fset (gh_cnt gh) i (gh_cnt gh i + 1);
               gh_odd := fset (gh_odd gh) i false;
               gh_latest := gh_latest gh; gh_open := None; gh_pending := Some i |} ->
      gs m gh (WStore Release (slot i) (le_bytes 4 (u32 (2 * gh_cnt gh i + 2)))) gh'
  | gs_publish i gh' :
      gh_pending gh = Some i -> publishable g m i = true ->
      follows g m (gh_latest gh) i = true ->
      gh' = {| gh_cnt := gh_cnt gh; gh_odd := gh_odd gh;
               gh_latest := Some i; gh_open := gh_open gh; gh_pending := None |} ->
      gs m gh (WStore Release HOff.latest (le_bytes 4 (psmi_latest i (seq_of gh i)))) gh'
  | gs_fence o gh' :
      gh' = {| gh_cnt := gh_cnt gh; gh_odd := gh_odd gh; gh_latest := gh_latest gh;
               gh_open := match gh_open gh with
                          | Some (i, b) => Some (i, b || is_release o)
                          | None => None
                          end;
               gh_pending := gh_pending gh |} ->
      gs m gh (WFence o) gh'
  | gs_data o i d bs :
      in_slots i -> 4 <= d < g_stride g -> d + Z.of_nat (length bs) <= g_stride g ->
      gh_open gh = Some (i, true) ->
      gs m gh (WStore o (slot i + d) bs) gh
  | gs_header o off bs :
      off + Z.of_nat (length bs) <= HOff.latest \/ HOff.notify <= off ->
      HOff.state <= off -> off + Z.of_nat (length bs) <= 52 -> off <> HOff.latest ->
      gs m gh (WStore o off bs) gh.

Lemma stride_bounds : 32 + g_cap g <= g_stride g /\ 0 <= g_cap g /\ g_stride g mod 64 = 0.
Proof.
  destruct Hg as (_ & Hc & E). pose proof (psmi_slot_stride_bounds _ Hc). rewrite E. lia.
Qed.

Lemma slot_div (i d : Z) :
  0 <= d < g_stride g ->
  (slot i + d - PSMI_HEADER_SIZE) / g_stride g = i /\
  (slot i + d - PSMI_HEADER_SIZE) mod g_stride g = d.
Proof.
  intros Hd. unfold slot_offset.
  replace (PSMI_HEADER_SIZE + i * g_stride g + d - PSMI_HEADER_SIZE)
    with (d + i * g_stride g) by lia.
  rewrite Z.div_add, Z_mod_plus_full by lia.
  rewrite Z.div_small, Z.mod_small by lia. lia.
Qed.

Lemma slot_undiv (off : Z) :
  off = slot ((off - PSMI_HEADER_SIZE) / g_stride g) + (off - PSMI_HEADER_SIZE) mod g_stride g.
Proof.
  unfold slot_offset. pose proof stride_bounds.
  pose proof (Z.div_mod (off - PSMI_HEADER_SIZE) (g_stride g)). lia.
Qed.

(** Slots lie past the header, in order, without overlap. *)
Lemma slot_ge (i : Z) : 0 <= i -> 128 <= slot i.
Proof. intros Hi. unfold slot_offset, PSMI_HEADER_SIZE. pose proof stride_bounds. nia. Qed.

Lemma slot_lt (i j : Z) : i < j -> slot i + g_stride g <= slot j.
Proof.
  intros Hij. unfold slot_offset. pose proof stride_bounds.
  pose proof (Z.mul_le_mono_nonneg_r (i + 1) j (g_stride g)). lia.
Qed.

Lemma slot_apart (i j : Z) :
  i <> j -> slot i + g_stride g <= slot j \/ slot j + g_stride g <= slot i.
Proof.
  intros H. destruct (decide (i < j)); [left; by apply slot_lt | right; apply slot_lt; lia].
Qed.

Lemma bytes_eqb_spec (a b : list Z) : bytes_eqb a b = true <-> a = b.
Proof. apply bool_decide_eq_true. Qed.

Lemma opt_eqb_spec (x : option Z) (i : Z) : opt_eqb x i = true <-> x = Some i.
Proof. destruct x as [j|]; simpl; [rewrite Z.eqb_eq |]; split; congruence. Qed.

Lemma open_fenced_spec (x : option (Z * bool)) (i : Z) :
  open_fenced x i = true <-> x = Some (i, true).
Proof.
  destruct x as [[j b]|]; simpl; [| split; congruence].
  rewrite andb_true_iff, Z.eqb_eq. split; [intros [-> ->]; done | intros [= -> ->]; done].
Qed.

Lemma is_release_spec (o : mo) : is_release o = true <-> o = Release.
Proof. destruct o; split; done. Qed.

Lemma is_notify_spec (m : mem) (o : mo) (off : Z) (bs : list Z) :
  is_notify m o off bs = true <->
  off = HOff.notify /\ o = Release /\ bs = le_bytes 4 (word m HOff.notify + 1).
Proof.
  unfold is_notify. rewrite !andb_true_iff, Z.eqb_eq, is_release_spec, bytes_eqb_spec. tauto.
Qed.

Lemma gstep_gs (m : mem) (gh gh' : ghost) (e : wev) :
  gstep g m gh e = Some gh' -> gs m gh e gh'.
Proof.
  unfold gstep. destruct e as [o off bs|o].
  2: { unfold step_fence. intros [= <-]. by constructor. }
  destruct (Z.eqb_spec off HOff.latest) as [->|Hl].
  { unfold step_publish. destruct (gh_pending gh) as [i|] eqn:Ep; [| done].
    case_if; [| done]. intros [= <-]. bool_hyps.
    match goal with H : is_release _ = true |- _ => apply is_release_spec in H; subst o end.
    match goal with H : bytes_eqb _ _ = true |- _ => apply bytes_eqb_spec in H; subst bs end.
    by apply gs_publish. }
  destruct (Z.ltb_spec off PSMI_HEADER_SIZE) as [Hh|Hh].
  { case_if; [| done]. intros [= <-]. rewrite !orb_true_iff in Heqb.
    unfold HOff.state, HOff.latest, HOff.notify, HOff.writer_pid in *.
    destruct Heqb as [[Hb | Hb] | Hb]; [| | apply is_notify_spec in Hb as (-> & -> & ->)];
      bool_hyps; apply gs_header; rewrite ?length_le_bytes;
      unfold HOff.state, HOff.latest, HOff.notify; lia. }
  set (i := (off - PSMI_HEADER_SIZE) / g_stride g).
  set (d := (off - PSMI_HEADER_SIZE) mod g_stride g).
  pose proof stride_bounds. pose proof (slot_undiv off) as Eoff. fold i d in Eoff.
  assert (Hi0 : 0 <= i) by (apply Z.div_pos; lia).
  destruct (Z.ltb_spec i (g_slots g)) as [Hi|Hi]; [| done].
  unfold step_slot. destruct (Z.eqb_spec d 0) as [Hd|Hd].
  - rewrite Hd, Z.add_0_r in Eoff. rewrite Eoff.
    destruct (bytes_eqb bs (le_bytes 4 (u32 (2 * gh_cnt gh i + 1)))) eqn:E1.
    + apply bytes_eqb_spec in E1 as ->. unfold step_begin. case_if; [done |].
      intros [= <-]. apply gs_begin; [lia | | done].
      intros El. apply opt_eqb_spec in El. congruence.
    + destruct (bytes_eqb bs (le_bytes 4 (u32 (2 * gh_cnt gh i + 2)))) eqn:E2; [| done].
      apply bytes_eqb_spec in E2 as ->. unfold step_commit. case_if; [| done].
      bool_hyps. intros [= <-].
      match goal with H : is_release _ = true |- _ => apply is_release_spec in H; subst o end.
      match goal with H : open_fenced _ _ = true |- _ => apply open_fenced_spec in H end.
      by apply gs_commit.
  - case_if; [| done]. intros [= <-]. bool_hyps. rewrite Eoff.
    match goal with H : open_fenced _ _ = true |- _ => apply open_fenced_spec in H end.
    pose proof (Z.mod_pos_bound (off - PSMI_HEADER_SIZE) (g_stride g)).
    apply gs_data; try done; lia.
Qed.

(** ** The invariant of an accepted log *)

Record ginv (m : mem) (gh : ghost) : Prop := {
  gi_cnt : forall i, 0 <= gh_cnt gh i;
  gi_seq : forall i, in_slots i -> word m (slot i) = seq_of gh i;
  gi_word : word m HOff.latest =
    match gh_latest gh with
    | Some i => psmi_latest i (seq_of gh i)
    | None => PSMI_LATEST_NONE
    end;
  gi_latest : forall i, gh_latest gh = Some i ->
    in_slots i /\ gh_odd gh i = false /\ 1 <= gh_cnt gh i /\
    (forall b, gh_open gh <> Some (i, b)) /\ publishable g m i = true;
  gi_open : forall i b, gh_open gh = Some (i, b) -> in_slots i /\ gh_odd gh i = true;
  gi_pending : forall i, gh_pending gh = Some i ->
    in_slots i /\ gh_odd gh i = false /\ 1 <= gh_cnt gh i /\ gh_open gh = None
}.

Lemma fset_eq {A : Type} (f : Z -> A) (i : Z) (v : A) : fset f i v i = v.
Proof. unfold fset. by rewrite Z.eqb_refl. Qed.

Lemma fset_ne {A : Type} (f : Z -> A) (i j : Z) (v : A) : j <> i -> fset f i v j = f j.
Proof. intros H. unfold fset. apply Z.eqb_neq in H. by rewrite H. Qed.

Lemma slot_odd_seq (i : Z) (gh : ghost) :
  gh_odd gh i = false -> seq_of gh i = u32 (2 * gh_cnt gh i).
Proof. intros H. unfold seq_of. rewrite H. f_equal. lia. Qed.

(** A store to a slot leaves the words of the header and the [seq] and
    [length] words of the other slots alone. *)
Lemma word_other_slot (m : mem) (i j d k : Z) (bs : list Z) :
  in_slots i -> in_slots j -> i <> j -> 0 <= d -> d + Z.of_nat (length bs) <= g_stride g ->
  0 <= k <= 28 -> word (write m (slot i + d) bs) (slot j + k) = word m (slot j + k).
Proof.
  intros Hi Hj Hij Hd Hlen Hk. apply word_write_disjoint. pose proof stride_bounds.
  destruct (slot_apart i j Hij); lia.
Qed.

Lemma word_header_slot (m : mem) (i d a : Z) (bs : list Z) :
  in_slots i -> 0 <= d -> a <= 124 -> word (write m (slot i + d) bs) a = word m a.
Proof. intros Hi Hd Ha. apply word_write_disjoint. pose proof (slot_ge i). lia. Qed.

Lemma publishable_ext (m m' : mem) (i : Z) :
  (forall k, 4 <= k <= 28 -> word m' (slot i + k) = word m (slot i + k)) ->
  publishable g m i = true -> publishable g m' i = true.
Proof.
  intros H Hp. unfold publishable in *. rewrite !H; [done | |];
    unfold SOff.length, SOff.generation; lia.
Qed.

Lemma publishable_spec (m : mem) (i : Z) :
  publishable g m i = true <->
  word m (slot i + SOff.length) <= g_cap g /\
  0 < word m (slot i + SOff.generation) < 4294967296.
Proof. unfold publishable, UINT32_MAX. rewrite !andb_true_iff, Z.ltb_lt, !Z.leb_le. lia. Qed.

Lemma slot_word_begin (m : mem) (i v : Z) :
  word (write m (slot i) (le_bytes 4 v)) (slot i) = u32 v.
Proof. apply word_write_same. Qed.

(** The [seq] store of a begin or a commit touches no word the invariant
    constrains but the slot's own [seq]. *)
Lemma seq_store_others (m : mem) (i j k v : Z) :
  in_slots i -> in_slots j -> 0 <= k <= 28 -> i <> j \/ 4 <= k ->
  word (write m (slot i) (le_bytes 4 v)) (slot j + k) = word m (slot j + k).
Proof.
  intros Hi Hj Hk [Hne|Hge].
  - replace (slot i) with (slot i + 0) by lia.
    apply word_other_slot; try done; pose proof stride_bounds; rewrite ?length_le_bytes; lia.
  - destruct (decide (i = j)) as [->|Hne].
    + apply word_write_disjoint. rewrite length_le_bytes. lia.
    + replace (slot i) with (slot i + 0) by lia.
      apply word_other_slot; try done; pose proof stride_bounds; rewrite ?length_le_bytes; lia.
Qed.

Lemma seq_store_header (m : mem) (i a v : Z) :
  in_slots i -> a <= 124 -> word (write m (slot i) (le_bytes 4 v)) a = word m a.
Proof.
  intros Hi Ha. replace (slot i) with (slot i + 0) by lia. by apply word_header_slot.
Qed.

Lemma ginv_begin (m : mem) (gh : ghost) (i : Z) :
  ginv m gh -> in_slots i -> gh_latest gh <> Some i ->
  ginv (write m (slot i) (le_bytes 4 (u32 (2 * gh_cnt gh i + 1))))
    {| gh_cnt := gh_cnt gh; gh_odd := fset (gh_odd gh) i true;
       gh_latest := gh_latest gh; gh_open := Some (i, false); gh_pending := None |}.
Proof.
  intros [H1 H2 H3 H4 H5 H6] Hi Hl. split; cbn [gh_cnt gh_odd gh_latest gh_open gh_pending].
  - done.
  - intros j Hj. unfold seq_of; cbn [gh_cnt gh_odd]. destruct (decide (i = j)) as [->|Hne].
    + by rewrite slot_word_begin, fset_eq, u32_idemp.
    + rewrite <- (Z.add_0_r (slot j)) at 1. rewrite seq_store_others by (auto || lia).
      rewrite Z.add_0_r, H2, fset_ne by done. done.
  - rewrite seq_store_header by (done || (unfold HOff.latest; lia)). rewrite H3.
    destruct (gh_latest gh) as [j|] eqn:E; [| done].
    unfold seq_of; cbn [gh_cnt gh_odd]. rewrite fset_ne by congruence. done.
  - intros j Ej. destruct (H4 j Ej) as (Hj & Ho & Hc & Hop & Hlen).
    assert (i <> j) by congruence. rewrite fset_ne by done.
    split; [done | split; [done | split; [done | split]]]; [congruence |].
    eapply publishable_ext; [| exact Hlen]. intros k Hk. apply seq_store_others; auto; lia.
  - intros j b [= <- <-]. by rewrite fset_eq.
  - done.
Qed.

Lemma ginv_commit (m : mem) (gh : ghost) (i : Z) :
  ginv m gh -> in_slots i -> gh_open gh = Some (i, true) ->
  ginv (write m (slot i) (le_bytes 4 (u32 (2 * gh_cnt gh i + 2))))
    {| gh_cnt := fset (gh_cnt gh) i (gh_cnt gh i + 1); gh_odd := fset (gh_odd gh) i false;
       gh_latest := gh_latest gh; gh_open := None; gh_pending := Some i |}.
Proof.
  intros [H1 H2 H3 H4 H5 H6] Hi Ho. split; cbn [gh_cnt gh_odd gh_latest gh_open gh_pending].
  - intros j. destruct (decide (i = j)) as [->|Hne]; [rewrite fset_eq | rewrite fset_ne by done];
      [specialize (H1 j); lia | done].
  - intros j Hj. unfold seq_of; cbn [gh_cnt gh_odd]. destruct (decide (i = j)) as [->|Hne].
    + rewrite slot_word_begin, !fset_eq, u32_idemp. f_equal. lia.
    + rewrite <- (Z.add_0_r (slot j)) at 1. rewrite seq_store_others by (auto || lia).
      rewrite Z.add_0_r, H2, !fset_ne by done. done.
  - rewrite seq_store_header by (done || (unfold HOff.latest; lia)). rewrite H3.
    destruct (gh_latest gh) as [j|] eqn:E; [| done].
    destruct (H4 j eq_refl) as (_ & _ & _ & Hop & _). specialize (Hop true).
    unfold seq_of; cbn [gh_cnt gh_odd]. rewrite !fset_ne by congruence. done.
  - intros j Ej. destruct (H4 j Ej) as (Hj & Hod & Hc & Hop & Hlen). specialize (Hop true).
    assert (i <> j) by congruence. rewrite !fset_ne by done.
    split; [done | split; [done | split; [done | split]]]; [congruence |].
    eapply publishable_ext; [| exact Hlen]. intros k Hk. apply seq_store_others; auto; lia.
  - done.
  - intros j [= <-]. rewrite !fset_eq. specialize (H1 i). destruct Hi. repeat split; (done || lia).
Qed.

Lemma ginv_publish (m : mem) (gh : ghost) (i : Z) :
  ginv m gh -> gh_pending gh = Some i -> publishable g m i = true ->
  ginv (write m HOff.latest (le_bytes 4 (psmi_latest i (seq_of gh i))))
    {| gh_cnt := gh_cnt gh; gh_odd := gh_odd gh;
       gh_latest := Some i; gh_open := gh_open gh; gh_pending := None |}.
Proof.
  intros [H1 H2 H3 H4 H5 H6] Hp Hlen.
  destruct (H6 i Hp) as (Hi & Hod & Hc & Hop).
  assert (Hout : forall j k bs, length bs = 4%nat -> in_slots j -> 0 <= k ->
    word (write m HOff.latest bs) (slot j + k) = word m (slot j + k)).
  { intros j k bs Hb Hj Hk. apply word_write_disjoint. pose proof (slot_ge j).
    rewrite Hb. unfold HOff.latest. lia. }
  split; cbn [gh_cnt gh_odd gh_latest gh_open gh_pending].
  - done.
  - intros j Hj. rewrite <- (Z.add_0_r (slot j)) at 1. rewrite Hout by done.
    rewrite Z.add_0_r, H2 by done. done.
  - rewrite word_write_same. etransitivity; [apply u32_small | reflexivity].
    assert (Hq : 0 <= seq_of gh i < 4294967296) by apply u32_range.
    destruct Hg as (Hn & _). pose proof (psmi_latest_range i (seq_of gh i) ltac:(lia) Hq). lia.
  - intros j [= <-]. split; [done | split; [done | split; [done | split]]].
    + rewrite Hop. done.
    + eapply publishable_ext; [| exact Hlen]. intros k Hk. apply Hout; done || lia.
  - rewrite Hop. done.
  - done.
Qed.

Lemma ginv_fence (m : mem) (gh : ghost) (o : mo) :
  ginv m gh ->
  ginv m {| gh_cnt := gh_cnt gh; gh_odd := gh_odd gh; gh_latest := gh_latest gh;
            gh_open := match gh_open gh with
                       | Some (i, b) => Some (i, b || is_release o)
                       | None => None
                       end;
            gh_pending := gh_pending gh |}.
Proof.
  intros [H1 H2 H3 H4 H5 H6]. split; cbn [gh_cnt gh_odd gh_latest gh_open gh_pending]; try done.
  - intros i Hi. destruct (H4 i Hi) as (? & ? & ? & Hop & ?).
    repeat split; try done; try lia. intros b.
    destruct (gh_open gh) as [[j b']|]; [| done]. specialize (Hop b'). congruence.
  - intros i b Hi. destruct (gh_open gh) as [[j b']|]; [| done].
    apply (H5 i b'). congruence.
  - intros i Hi. destruct (H6 i Hi) as (? & ? & ? & Hop). by rewrite Hop.
Qed.

Lemma ginv_data (m : mem) (gh : ghost) (i d : Z) (bs : list Z) :
  ginv m gh -> in_slots i -> 4 <= d < g_stride g -> d + Z.of_nat (length bs) <= g_stride g ->
  gh_open gh = Some (i, true) -> ginv (write m (slot i + d) bs) gh.
Proof.
  intros [H1 H2 H3 H4 H5 H6] Hi Hd Hlen Ho. split; try done.
  - intros j Hj. destruct (decide (i = j)) as [->|Hne].
    + rewrite word_write_disjoint by lia. by apply H2.
    + rewrite <- (Z.add_0_r (slot j)) at 1. rewrite word_other_slot by (done || lia).
      rewrite Z.add_0_r. by apply H2.
  - rewrite word_header_slot by (done || (unfold HOff.latest; lia)). done.
  - intros j Ej. destruct (H4 j Ej) as (Hj & Hod & Hc & Hop & Hl).
    assert (i <> j) by (specialize (Hop true); congruence).
    do 4 (split; [done |]). eapply publishable_ext; [| exact Hl]. intros k Hk.
    apply word_other_slot; try done; lia.
Qed.

Lemma ginv_header (m : mem) (gh : ghost) (off : Z) (bs : list Z) :
  ginv m gh -> off + Z.of_nat (length bs) <= HOff.latest \/ HOff.notify <= off ->
  off + Z.of_nat (length bs) <= 52 -> ginv (write m off bs) gh.
Proof.
  intros [H1 H2 H3 H4 H5 H6] Hd Hlen. unfold HOff.latest, HOff.notify in *. split; try done.
  - intros j Hj. rewrite word_write_disjoint by (pose proof (slot_ge j); lia). by apply H2.
  - unfold HOff.latest. rewrite word_write_disjoint by lia. done.
  - intros j Ej. destruct (H4 j Ej) as (Hj & Hod & Hc & Hop & Hl).
    do 4 (split; [done |]). eapply publishable_ext; [| exact Hl]. intros k Hk.
    apply word_write_disjoint. pose proof (slot_ge j). lia.
Qed.

Lemma ginv_step (m : mem) (gh gh' : ghost) (e : wev) :
  ginv m gh -> gs m gh e gh' -> ginv (apply_wev m e) gh'.
Proof.
  intros Hi Hs. destruct Hs; subst; cbn [apply_wev];
    eauto using ginv_begin, ginv_commit, ginv_publish, ginv_fence, ginv_data, ginv_header.
Qed.

(** ** One step: what it can change *)

Lemma gs_cnt (m : mem) (gh gh' : ghost) (e : wev) (i : Z) :
  ginv m gh -> gs m gh e gh' -> in_slots i ->
  gh_cnt gh' i = gh_cnt gh i + (if is_commit g i e then 1 else 0).
Proof.
  intros Hinv Hs Hi. pose proof stride_bounds as Hst. pose proof (slot_ge i).
  destruct Hs as [o j gh' Hj Hl -> | j gh' Hj Ho -> | j gh' Hp Hlen Hfol -> | o gh' -> |
                  o j d bs Hj Hd Hlen Ho | o off bs Hd Hs Hlen Hne40]; cbn [gh_cnt is_commit].
  - destruct (Z.eqb_spec (slot j) (slot i)) as [E|E]; [| simpl; lia].
    rewrite le_val_bytes4, u32_idemp. cbn [andb].
    rewrite u32_mod2. destruct (Z.eqb_spec ((2 * gh_cnt gh j + 1) mod 2) 0) as [Hz|Hz];
      [exfalso; clear - Hz; div_lia | cbn [gh_cnt]; lia].
  - destruct (decide (j = i)) as [->|Hne].
    + rewrite fset_eq, Z.eqb_refl, le_val_bytes4, u32_idemp, u32_mod2. cbn [andb].
      destruct (Z.eqb_spec ((2 * gh_cnt gh i + 2) mod 2) 0) as [Hz|Hz];
        [lia | exfalso; clear - Hz; div_lia].
    + rewrite fset_ne by done. destruct (Z.eqb_spec (slot j) (slot i)); [| simpl; lia].
      destruct (slot_apart j i Hne); lia.
  - destruct (Z.eqb_spec HOff.latest (slot i)) as [E|E]; [| simpl; lia].
    unfold HOff.latest in E. lia.
  - lia.
  - destruct (Z.eqb_spec (slot j + d) (slot i)) as [E|E]; [| simpl; lia].
    destruct (decide (j = i)) as [->|Hne]; [lia |].
    destruct (slot_apart j i Hne); lia.
  - destruct (Z.eqb_spec off (slot i)) as [E|E]; [| simpl; lia]. lia.
Qed.

(** While no commit happens and the slot ends up even, it was even and none
    of its bytes changed. *)
Lemma gs_stable (m : mem) (gh gh' : ghost) (e : wev) (i : Z) :
  ginv m gh -> gs m gh e gh' -> in_slots i ->
  gh_cnt gh' i = gh_cnt gh i -> gh_odd gh' i = false ->
  gh_odd gh i = false /\
  (forall a, slot i <= a < slot i + g_stride g -> apply_wev m e a = m a).
Proof.
  intros Hinv Hs Hi. pose proof stride_bounds as Hst. pose proof (slot_ge i) as Hge.
  destruct Hs as [o j gh' Hj Hl -> | j gh' Hj Ho -> | j gh' Hp Hlen Hfol -> | o gh' -> |
                  o j d bs Hj Hd Hlen Ho | o off bs Hd Hs Hlen Hne40]; cbn [gh_cnt gh_odd apply_wev].
  - destruct (decide (j = i)) as [->|Hne]; [by rewrite fset_eq |].
    rewrite fset_ne by done. intros _ E. split; [done |]. intros a Ha.
    apply write_out. rewrite length_le_bytes. destruct (slot_apart j i Hne); lia.
  - destruct (decide (j = i)) as [->|Hne]; [rewrite fset_eq; lia |].
    rewrite !fset_ne by done. intros _ E. split; [done |]. intros a Ha.
    apply write_out. rewrite length_le_bytes. destruct (slot_apart j i Hne); lia.
  - intros _ E. split; [done |]. intros a Ha. apply write_out. rewrite length_le_bytes.
    unfold HOff.latest. lia.
  - done.
  - intros _ E. split; [done |]. intros a Ha. apply write_out.
    destruct (decide (j = i)) as [->|Hne].
    + apply (gi_open _ _ Hinv) in Ho as [_ Ho]. congruence.
    + destruct (slot_apart j i Hne); lia.
  - intros _ E. split; [done |]. intros a Ha. apply write_out. lia.
Qed.
End facts.

(** ** Accesses inside the mapping *)

Section mapping.
Context (g : geometry) (Hg : geometry_ok g).
Context (blk size : Z) (Hsize : size = psmi_file_size (g_slots g) (g_stride g)).

Definition map_ptr (off : Z) : ptr := {| p_blk := blk; p_off := off |}.

Lemma in_map_at (a n : Z) : 0 <= a -> a + n <= 128 + g_slots g * g_stride g ->
  in_map blk size (map_ptr a) n.
Proof.
  intros H1 H2. split; [done |]. rewrite Hsize, (psmi_file_size_arith g Hg).
  cbn [map_ptr p_off]. lia.
Qed.

Lemma slot_in_map (i d n : Z) : 0 <= i < g_slots g -> 0 <= d -> d + n <= g_stride g ->
  in_map blk size (map_ptr (slot_offset (g_stride g) i + d)) n.
Proof.
  intros Hi Hd Hn. pose proof (stride_bounds g Hg).
  apply in_map_at; unfold slot_offset, PSMI_HEADER_SIZE; nia.
Qed.

Lemma slot_aligned (i d : Z) : d mod 4 = 0 ->
  aligned (map_ptr (slot_offset (g_stride g) i + d)) 4.
Proof.
  intros Hd. unfold aligned, slot_offset, PSMI_HEADER_SIZE, map_ptr. cbn [p_off].
  destruct (stride_bounds g Hg) as (_ & _ & Hs).
  apply Z.mod_divide in Hs as [k ->]; [| lia].
  replace (128 + i * (k * 64) + d) with (d + (32 + 16 * i * k) * 4) by lia.
  by rewrite Z_mod_plus_full.
Qed.

Lemma header_in_map (d n : Z) : 0 <= d -> d + n <= 128 -> in_map blk size (map_ptr d) n.
Proof.
  intros H1 H2. pose proof (stride_bounds g Hg). destruct Hg as (Hn & _).
  apply in_map_at; nia.
Qed.
End mapping.
