(* ===== verification/History.v ===== *)
(** * Facts about the positions of an accepted log

    How the state of the protocol at one position of a file's log constrains
    the others: commit counts only grow, a slot that is even and not committed
    again has not changed, every store to a slot's payload follows a release
    fence that follows its odd [seq], and the [latest] word names the last
    publish. *)
From S2P Require Import Prelude Prog Layout Memory Protocol.

Section history.
Context (g : geometry) (Hg : geometry_ok g) (init : mem) (Hfresh : fresh_file g init).

Abbreviation slot i := (slot_offset (g_stride g) i).
Abbreviation in_slots i := (0 <= i < g_slots g).
Abbreviation accepted := (accepted g init).
Abbreviation mem_at := (mem_at init).

(** The protocol state at a position. *)
Definition gat (log : list wev) (t : nat) : ghost := default ghost0 (ghost_at g init log t).

Lemma ghost_at_app (log ext : list wev) (t : nat) :
  (t <= length log)%nat -> ghost_at g init (log ++ ext) t = ghost_at g init log t.
Proof.
  induction t as [|t IH]; intros Ht; simpl; [done |].
  rewrite IH, lookup_app_l, mem_at_app by lia. done.
Qed.

Lemma ghost_at_down (log : list wev) (t u : nat) :
  (u <= t)%nat -> is_Some (ghost_at g init log t) -> is_Some (ghost_at g init log u).
Proof.
  induction 1 as [|t Hle IH]; [done |]. intros [gh H]. apply IH. simpl in H.
  destruct (ghost_at g init log t); [eauto | done].
Qed.

Lemma gat_some (log : list wev) (t : nat) :
  accepted log -> (t <= length log)%nat -> ghost_at g init log t = Some (gat log t).
Proof.
  intros Ha Ht. unfold gat. destruct (ghost_at_down _ _ _ Ht Ha) as [gh ->]. done.
Qed.

Lemma gat_app (log ext : list wev) (t : nat) :
  (t <= length log)%nat -> gat (log ++ ext) t = gat log t.
Proof. intros H. unfold gat. by rewrite ghost_at_app. Qed.

Lemma accepted_prefix (log ext : list wev) : accepted (log ++ ext) -> accepted log.
Proof.
  intros Ha. unfold Protocol.accepted. rewrite <- (ghost_at_app log ext) by done.
  eapply ghost_at_down; [| exact Ha]. rewrite length_app. lia.
Qed.

Lemma accepted_nil : accepted [].
Proof. by exists ghost0. Qed.

(** Accepting one more event. *)
Lemma accepted_snoc (log : list wev) (e : wev) (gh : ghost) :
  accepted log -> gstep g (mem_at log (length log)) (gat log (length log)) e = Some gh ->
  accepted (log ++ [e]) /\ gat (log ++ [e]) (length (log ++ [e])) = gh.
Proof.
  intros Ha Hs.
  assert (E : ghost_at g init (log ++ [e]) (S (length log)) = Some gh).
  { simpl. rewrite ghost_at_app, (gat_some log) by done.
    rewrite lookup_app_r, Nat.sub_diag by lia. simpl. by rewrite mem_at_app. }
  rewrite length_app; simpl. rewrite Nat.add_1_r. split.
  - unfold Protocol.accepted. rewrite length_app; simpl. rewrite Nat.add_1_r. eauto.
  - unfold gat. by rewrite E.
Qed.

Section one_log.
Context (log : list wev) (Hlog : accepted log).

Lemma gat_step (k : nat) :
  (k < length log)%nat ->
  exists e, log !! k = Some e /\ gs g (mem_at log k) (gat log k) e (gat log (S k)).
Proof.
  intros Hk. destruct (lookup_lt_is_Some_2 log k Hk) as [e E]. exists e. split; [done |].
  pose proof (gat_some log (S k) Hlog ltac:(lia)) as H. simpl in H.
  rewrite (gat_some log k Hlog ltac:(lia)), E in H. by apply (gstep_gs g Hg).
Qed.

Lemma ginv_fresh : ginv g init ghost0.
Proof.
  destruct Hfresh as [H1 H2]. by split.
Qed.

Lemma gat_inv (t : nat) : (t <= length log)%nat -> ginv g (mem_at log t) (gat log t).
Proof.
  induction t as [|t IH]; intros Ht; [exact ginv_fresh |].
  destruct (gat_step t ltac:(lia)) as (e & He & Hs).
  rewrite (mem_at_S _ _ _ _ He). eapply (ginv_step g Hg); [apply IH; lia | done].
Qed.

Lemma cnt_step (k : nat) (i : Z) (e : wev) :
  in_slots i -> log !! k = Some e ->
  gh_cnt (gat log (S k)) i = gh_cnt (gat log k) i + (if is_commit g i e then 1 else 0).
Proof.
  intros Hi He. pose proof (lookup_lt_Some _ _ _ He) as Hk.
  destruct (gat_step k Hk) as (e' & He' & Hs). simplify_eq.
  eapply (gs_cnt g Hg); eauto. apply gat_inv. lia.
Qed.

Lemma cnt_mono (t u : nat) (i : Z) :
  (t <= u <= length log)%nat -> in_slots i ->
  gh_cnt (gat log t) i <= gh_cnt (gat log u) i.
Proof.
  intros [Htu Hu] Hi. induction Htu as [|u Htu IH]; [lia |].
  destruct (lookup_lt_is_Some_2 log u ltac:(lia)) as [e He].
  rewrite (cnt_step u i e Hi He). specialize (IH ltac:(lia)). case_if; lia.
Qed.

(** The count of the protocol state is the number of commits so far. *)
Lemma cnt_commits (t : nat) (i : Z) :
  (t <= length log)%nat -> in_slots i -> gh_cnt (gat log t) i = commits g i (take t log).
Proof.
  intros Ht Hi. induction t as [|t IH]; [done |].
  destruct (lookup_lt_is_Some_2 log t ltac:(lia)) as [e He].
  rewrite (cnt_step t i e Hi He), IH by lia. unfold commits.
  rewrite (take_S_r _ _ _ He), List.filter_app, length_app. simpl.
  destruct (is_commit g i e); simpl; lia.
Qed.

Lemma cnt_since (j : nat) (i : Z) :
  (j < length log)%nat -> in_slots i ->
  commits_since g log j i = gh_cnt (gat log (length log)) i - gh_cnt (gat log (S j)) i.
Proof.
  intros Hj Hi. rewrite !cnt_commits by (done || lia). unfold commits_since, commits.
  rewrite take_ge by lia. rewrite <- (take_drop (S j) log) at 2.
  rewrite List.filter_app, length_app. lia.
Qed.

Lemma stable (t u : nat) (i : Z) :
  (t <= u <= length log)%nat -> in_slots i ->
  gh_cnt (gat log u) i = gh_cnt (gat log t) i -> gh_odd (gat log u) i = false ->
  gh_odd (gat log t) i = false /\
  (forall a, slot i <= a < slot i + g_stride g -> mem_at log t a = mem_at log u a).
Proof.
  intros [Htu Hu] Hi. induction Htu as [|u Htu IH]; intros Hc Ho; [done |].
  destruct (gat_step u ltac:(lia)) as (e & He & Hs).
  pose proof (cnt_mono t u i ltac:(lia) Hi). pose proof (cnt_step u i e Hi He) as Hcs.
  assert (Hcu : gh_cnt (gat log (S u)) i = gh_cnt (gat log u) i)
    by (destruct (is_commit g i e); lia).
  destruct (gs_stable g Hg _ _ _ _ i (gat_inv u ltac:(lia)) Hs Hi Hcu Ho) as [Hou Hm].
  destruct (IH ltac:(lia) ltac:(lia) Hou) as [Hot Hmt]. split; [done |].
  intros a Ha. rewrite (mem_at_S _ _ _ _ He), Hm by done. by apply Hmt.
Qed.

(** While a slot is being written, the last release fence came after its
    [seq] went odd. *)
Lemma open_fence (t : nat) (i : Z) :
  (t <= length log)%nat -> gh_open (gat log t) = Some (i, true) ->
  gh_odd (gat log (last_fence log t)) i = true /\
  gh_cnt (gat log (last_fence log t)) i = gh_cnt (gat log t) i.
Proof.
  induction t as [|t IH]; intros Ht Ho; [done |].
  destruct (gat_step t ltac:(lia)) as (e & He & Hs).
  pose proof (gat_inv (S t) Ht) as Hinv.
  pose proof (gi_open _ _ _ Hinv i true Ho) as [Hi Hodd].
  pose proof (cnt_step t i e Hi He) as Hc.
  cbn [last_fence]. rewrite He.
  destruct (is_release_fence e) eqn:Ef; [done |].
  assert (gh_open (gat log t) = Some (i, true) /\ is_commit g i e = false) as [Hot Hnc].
  { inversion Hs as [o j gh' Hj Hl E1 E2 | j gh' Hj Hop E1 E2 | j gh' Hp Hlen Hfol E1 E2 |
                     o gh' E1 E2 | o j d bs Hj Hd Hlen Hop E1 E2 | o off bs Hd Hsz Hlen Hn40 E1 E2];
      subst; try rewrite E2 in Ho; try rewrite E1 in Ho; cbn [gh_open] in Ho; try congruence.
    - split; [done |]. cbn [is_commit]. pose proof (slot_ge g Hg i).
      destruct (Z.eqb_spec HOff.latest (slot i)); [unfold HOff.latest in *; lia | done].
    - split; [| done]. destruct (gh_open (gat log t)) as [[j b]|]; [| done].
      destruct o; [| | done]; cbn in Ho; by rewrite orb_false_r in Ho.
    - assert (j = i) as -> by congruence. split; [done |]. cbn [is_commit].
      destruct (Z.eqb_spec (slot i + d) (slot i)); [lia | done].
    - split; [congruence |]. cbn [is_commit]. pose proof (slot_ge g Hg i).
      destruct (Z.eqb_spec off (slot i)); [lia | done]. }
  rewrite Hnc in Hc. destruct (IH ltac:(lia) Hot) as [H1 H2]. split; [done | lia].
Qed.

(** What a reader of a payload or slot-header byte synchronizes with: a
    position where the slot was odd, with the count of the write. *)
Lemma byte_sync (t k : nat) (a i : Z) :
  (t <= length log)%nat -> in_slots i -> slot i + 4 <= a < slot i + g_stride g ->
  last_write log t a = Some k ->
  (k < t)%nat /\ (sync log t a <= t)%nat /\
  gh_odd (gat log (sync log t a)) i = true /\
  gh_cnt (gat log (sync log t a)) i = gh_cnt (gat log k) i.
Proof.
  intros Ht Hi Ha Hl. pose proof (last_write_lt _ _ _ _ Hl) as [Hk (e & He & Hcov)].
  split; [done | split; [apply sync_le |]].
  destruct (gat_step k ltac:(lia)) as (e' & He' & Hs). simplify_eq.
  pose proof (slot_ge g Hg i). unfold sync. rewrite Hl. unfold msg_view. rewrite He.
  inversion Hs as [o j gh' Hj Hla E1 E2 | j gh' Hj Hop E1 E2 | j gh' Hp Hlen Hfol E1 E2 |
                   o gh' E1 E2 | o j d bs Hj Hd Hlen Hop E1 E2 | o off bs Hd Hsz Hlen Hn40 E1 E2];
    subst; cbn [covers] in Hcov; bool_hyps; rewrite ?length_le_bytes in *; try done.
  - exfalso. destruct (decide (j = i)) as [->|Hne]; [lia |].
    destruct (slot_apart g Hg j i Hne); lia.
  - exfalso. destruct (decide (j = i)) as [->|Hne]; [lia |].
    destruct (slot_apart g Hg j i Hne); lia.
  - exfalso. unfold HOff.latest in *. lia.
  - assert (j = i) as ->.
    { destruct (decide (j = i)) as [|Hne]; [done |]. destruct (slot_apart g Hg j i Hne); lia. }
    pose proof (gi_open _ _ _ (gat_inv k ltac:(lia)) i true Hop) as [_ Hodd].
    pose proof (open_fence k i ltac:(lia) Hop) as [Hf1 Hf2].
    destruct o; [done | done |]. rewrite <- E2. done.
  - exfalso. lia.
Qed.

(** ** Publishes *)

Definition is_publish (j : nat) : Prop := is_Some (published g init log j).

Lemma published_step (k : nat) (e : wev) :
  log !! k = Some e -> is_publish k -> exists o bs, e = WStore o HOff.latest bs.
Proof.
  intros He [v Hv]. unfold published in Hv. rewrite He in Hv.
  destruct e as [o off bs|]; [| done]. destruct (Z.eqb_spec off HOff.latest); [| done].
  subst. eauto.
Qed.

Lemma covers_latest (k : nat) (e : wev) :
  log !! k = Some e -> covers e HOff.latest = false ->
  gh_latest (gat log (S k)) = gh_latest (gat log k) /\ ~ is_publish k.
Proof.
  intros He Hc. pose proof (lookup_lt_Some _ _ _ He) as Hk.
  destruct (gat_step k Hk) as (e' & He' & Hs). simplify_eq. split.
  - inversion Hs as [o j gh' Hj Hla E1 E2 | j gh' Hj Hop E1 E2 | j gh' Hp Hlen Hfol E1 E2 |
                     o gh' E1 E2 | o j d bs Hj Hd Hlen Hop E1 E2 | o off bs Hd Hsz Hlen Hn40 E1 E2];
      subst; try rewrite E2; try rewrite E1; try done.
  - intros Hp. destruct (published_step k e He Hp) as (o & bs & ->).
    inversion Hs as [o' j gh' Hj Hla E1 E2 | j gh' Hj Hop E1 E2 | j gh' Hpe Hlen Hfol E1 E2 |
                   o' gh' E1 E2 | o' j d bs' Hj Hd Hlen Hop E1 E2 | o' off bs' Hd Hsz Hlen Hn40 E1 E2];
      subst.
    + pose proof (slot_ge g Hg j). unfold HOff.latest in *. lia.
    + pose proof (slot_ge g Hg j). unfold HOff.latest in *. lia.
    + done.
    + pose proof (slot_ge g Hg j). unfold HOff.latest in *. lia.
    + done.
Qed.

(** The slot [latest] names is not committed again before another publish. *)
Lemma latest_no_commit (k : nat) (i : Z) (e : wev) :
  log !! k = Some e -> gh_latest (gat log k) = Some i -> is_commit g i e = false.
Proof.
  intros He Hl. pose proof (lookup_lt_Some _ _ _ He) as Hk.
  destruct (gat_step k Hk) as (e' & He' & Hs). simplify_eq.
  destruct (gi_latest _ _ _ (gat_inv k ltac:(lia)) i Hl) as (Hi & Hodd & _ & Hop & _).
  pose proof (slot_ge g Hg i).
  inversion Hs as [o j gh' Hj Hla E1 E2 | j gh' Hj Ho E1 E2 | j gh' Hp Hlen Hfol E1 E2 |
                   o gh' E1 E2 | o j d bs Hj Hd Hlen Ho E1 E2 | o off bs Hd Hsz Hlen Hn40 E1 E2];
    subst; cbn [is_commit]; [| | | done | |];
    match goal with |- (?x =? ?y) && _ = false => destruct (Z.eqb_spec x y) as [E|E] end;
    try done; exfalso.
  - destruct (decide (j = i)) as [->|Hne]; [done |].
    pose proof (stride_bounds g Hg). destruct (slot_apart g Hg j i Hne); lia.
  - destruct (decide (j = i)) as [->|Hne]; [by apply (Hop true) |].
    pose proof (stride_bounds g Hg). destruct (slot_apart g Hg j i Hne); lia.
  - unfold HOff.latest in *. lia.
  - destruct (decide (j = i)) as [->|Hne]; [by apply (Hop true) |].
    destruct (slot_apart g Hg j i Hne); lia.
  - lia.
Qed.

(** The publish behind the [latest] word as of [t]. *)
Record latest_of (t j : nat) (i : Z) : Prop := {
  lo_write : last_write log t HOff.latest = Some j;
  lo_event : log !! j =
    Some (WStore Release HOff.latest (le_bytes 4 (psmi_latest i (seq_of (gat log j) i))));
  lo_slot : in_slots i;
  lo_even : gh_odd (gat log j) i = false;
  lo_cnt : gh_cnt (gat log j) i = gh_cnt (gat log t) i;
  lo_last : forall j', (j' < t)%nat -> is_publish j' -> (j' <= j)%nat;
  lo_length : publishable g (mem_at log j) i = true
}.

Lemma publish_event (k : nat) (e : wev) :
  log !! k = Some e -> covers e HOff.latest = true ->
  exists i, gh_latest (gat log (S k)) = Some i /\ gh_pending (gat log k) = Some i /\
    e = WStore Release HOff.latest (le_bytes 4 (psmi_latest i (seq_of (gat log k) i))) /\
    gh_cnt (gat log (S k)) = gh_cnt (gat log k) /\
    publishable g (mem_at log k) i = true /\
    follows g (mem_at log k) (gh_latest (gat log k)) i = true.
Proof.
  intros He Hc. pose proof (lookup_lt_Some _ _ _ He) as Hk.
  destruct (gat_step k Hk) as (e' & He' & Hs). simplify_eq.
  inversion Hs as [o j gh' Hj Hla E1 E2 | j gh' Hj Ho E1 E2 | j gh' Hp Hlen Hfol E1 E2 |
                   o gh' E1 E2 | o j d bs Hj Hd Hlen Ho E1 E2 | o off bs Hd Hsz Hlen Hn40 E1 E2];
    subst; cbn [covers] in Hc; bool_hyps; unfold HOff.latest, HOff.notify in *;
    try (pose proof (slot_ge g Hg j); lia); try done; [| lia].
  exists j. match goal with H : gat log (S k) = _ |- _ => rewrite H end. done.
Qed.

(** The publish itself commits nothing. *)
Lemma publish_cnt (t j : nat) (i : Z) :
  latest_of t j i -> gh_cnt (gat log (S j)) i = gh_cnt (gat log j) i.
Proof.
  intros Hj. rewrite (cnt_step j i _ (lo_slot _ _ _ Hj) (lo_event _ _ _ Hj)).
  cbn [is_commit]. pose proof (lo_slot _ _ _ Hj). pose proof (slot_ge g Hg i).
  destruct (Z.eqb_spec HOff.latest (slot i)); [unfold HOff.latest in *; lia | cbn [andb]; lia].
Qed.

Lemma latest_history (t : nat) :
  (t <= length log)%nat ->
  match gh_latest (gat log t) with
  | None => last_write log t HOff.latest = None /\ forall j, (j < t)%nat -> ~ is_publish j
  | Some i => exists j, latest_of t j i
  end.
Proof.
  induction t as [|t IH]; intros Ht; [split; [done | lia] |].
  specialize (IH ltac:(lia)).
  destruct (lookup_lt_is_Some_2 log t ltac:(lia)) as [e He].
  destruct (covers e HOff.latest) eqn:Ec.
  - destruct (publish_event t e He Ec) as (i & El & Ep & -> & Ecnt & Hlen & _).
    destruct (gi_pending _ _ _ (gat_inv t ltac:(lia)) i Ep) as (Hi & Ho & _ & _).
    rewrite El. exists t. split; try done.
    + cbn [last_write]. by rewrite He, Ec.
    + by rewrite Ecnt.
    + lia.
  - destruct (covers_latest t e He Ec) as [El Hnp]. rewrite El.
    destruct (gh_latest (gat log t)) as [i|] eqn:Elt.
    + destruct IH as [j [H1 H2 H3 H4 H5 H6 H7]]. exists j. split; try done.
      * cbn [last_write]. by rewrite He, Ec.
      * rewrite (cnt_step t i e H3 He), (latest_no_commit t i e He Elt). lia.
      * intros j' Hj' Hp. apply H6; [| done].
        destruct (decide (j' = t)) as [->|]; [done | lia].
    + destruct IH as [H1 H2]. split; [cbn [last_write]; by rewrite He, Ec |].
      intros j Hj. destruct (decide (j = t)) as [->|]; [done | apply H2; lia].
Qed.

(** A publish hands out the value its slot holds at that moment. *)
Lemma published_latest (t j : nat) (i : Z) :
  latest_of t j i -> published g init log j = Some (slot_value g (mem_at log j) i).
Proof.
  intros [H1 H2 H3 H4 H5 H6 H7]. unfold published. rewrite H2, Z.eqb_refl.
  rewrite le_val_bytes4. destruct Hg as (Hn & _).
  assert (Hq : 0 <= seq_of (gat log j) i < 4294967296) by apply u32_range.
  pose proof (psmi_latest_range i (seq_of (gat log j) i) ltac:(lia) Hq).
  rewrite u32_small by lia. by rewrite psmi_latest_slot_latest by lia.
Qed.

(** ** The seqlock argument *)

(** A byte of slot [i] read as of [t] after the publish [j], when the slot
    is found even with the count of [j] at a position [u] after everything
    the read synchronized with: the byte is the published one. *)
Lemma untorn_byte (j t u : nat) (i a : Z) (t0 : nat) :
  latest_of t0 j i -> (j < t <= length log)%nat ->
  (sync log t a <= u <= length log)%nat -> (j < u)%nat ->
  slot i + 4 <= a < slot i + g_stride g ->
  gh_cnt (gat log u) i = gh_cnt (gat log j) i -> gh_odd (gat log u) i = false ->
  mem_at log t a = mem_at log j a.
Proof.
  intros Hj Ht Hu Hju Ha Hc Ho. destruct Hj as [H1 H2 H3 H4 H5 H6 H7].
  pose proof (slot_ge g Hg i).
  destruct (last_write log t a) as [k|] eqn:El.
  - destruct (byte_sync t k a i ltac:(lia) H3 Ha El) as (Hk & _ & Hf1 & Hf2).
    destruct (decide (k < j)%nat) as [Hkj|Hkj].
    { apply mem_at_last_write; [lia | by rewrite El | lia]. }
    destruct (decide (k = j)) as [->|Hne].
    { apply last_write_lt in El as [_ (e & He & Hcov)]. simplify_eq.
      cbn [covers] in Hcov. bool_hyps. rewrite length_le_bytes in *.
      unfold HOff.latest in *. lia. }
    exfalso. pose proof (cnt_mono j k i ltac:(lia) H3).
    pose proof (cnt_mono (sync log t a) u i ltac:(lia) H3).
    destruct (stable (sync log t a) u i ltac:(lia) H3 ltac:(lia) Ho). congruence.
  - apply mem_at_last_write; [lia | by rewrite El | lia].
Qed.

Lemma untorn_bytes (j u : nat) (i off : Z) (ts : list nat) (t0 : nat) :
  latest_of t0 j i ->
  (j < u <= length log)%nat -> slot i + 4 <= off -> off + Z.of_nat (length ts) <= slot i + g_stride g ->
  (forall k t, ts !! k = Some t ->
     (j < t <= length log)%nat /\ (sync log t (off + Z.of_nat k) <= u)%nat) ->
  gh_cnt (gat log u) i = gh_cnt (gat log j) i -> gh_odd (gat log u) i = false ->
  imap (fun k t => mem_at log t (off + Z.of_nat k)) ts = read_bytes (mem_at log j) off (length ts).
Proof.
  intros Hj Hu Ho1 Ho2 Hts Hc Ho. apply list_eq. intros k. rewrite list_lookup_imap.
  destruct (ts !! k) as [t|] eqn:E; simpl.
  - pose proof (lookup_lt_Some _ _ _ E). destruct (Hts k t E) as [Ht Hs].
    rewrite lookup_read_bytes by done. f_equal.
    apply (untorn_byte j t u i _ t0); try done; lia.
  - apply lookup_ge_None_1 in E.
    symmetry. apply lookup_ge_None_2. by rewrite length_read_bytes.
Qed.

(** ** The version check *)

Lemma seq_even (gh : ghost) (i : Z) :
  Z.land (seq_of gh i) 1 = 0 -> gh_odd gh i = false.
Proof.
  intros H. change 1 with (Z.ones 1) in H. rewrite Z.land_ones in H by lia.
  change (2 ^ 1) with 2 in H. unfold seq_of in H. rewrite u32_mod2 in H.
  destruct (gh_odd gh i); [exfalso; div_lia | done].
Qed.

Lemma tag_count (c : Z) : (u32 (2 * c) / 2) mod 134217728 = c mod 134217728.
Proof.
  unfold u32. change 4294967296 with (2 * 2147483648).
  rewrite Z.mul_mod_distr_l by lia. rewrite Z.mul_comm, Z.div_mul by lia.
  apply Z.mod_mod_divide. by exists 16.
Qed.

(** An even [seq] that matches the [latest] word stored by publish [j] is
    the published version, unless the slot was committed 2^27 times. *)
Lemma same_version (j t : nat) (i : Z) (t0 : nat) :
  latest_of t0 j i -> (j < t <= length log)%nat ->
  Z.land (seq_of (gat log t) i) 1 = 0 ->
  psmi_latest i (seq_of (gat log t) i) = psmi_latest i (seq_of (gat log j) i) ->
  gh_cnt (gat log t) i - gh_cnt (gat log j) i < 134217728 ->
  gh_cnt (gat log t) i = gh_cnt (gat log j) i /\ gh_odd (gat log t) i = false.
Proof.
  intros [H1 H2 H3 H4 H5 H6 H7] Ht He Heq Hc.
  apply seq_even in He. split; [| done].
  pose proof (cnt_mono j t i ltac:(lia) H3). destruct Hg as (Hn & _).
  apply psmi_latest_eq_iff in Heq as [_ Heq]; try lia; try apply u32_range.
  rewrite !slot_odd_seq, !tag_count in Heq by done. clear - H Hc Heq. div_lia.
Qed.

(** The second look at [seq] found the same value. *)
Lemma same_seq (t u : nat) (i : Z) :
  (t <= u <= length log)%nat -> in_slots i ->
  gh_odd (gat log t) i = false -> seq_of (gat log u) i = seq_of (gat log t) i ->
  gh_cnt (gat log u) i - gh_cnt (gat log t) i < 134217728 ->
  gh_cnt (gat log u) i = gh_cnt (gat log t) i /\ gh_odd (gat log u) i = false.
Proof.
  intros Htu Hi Ho Heq Hc. pose proof (cnt_mono t u i Htu Hi).
  unfold seq_of in Heq. rewrite Ho in Heq.
  apply u32_eq_iff in Heq as [k Hk]. destruct (gh_odd (gat log u) i); lia.
Qed.
End one_log.
End history.
