(* ===== verification/Published.v ===== *)
(** * The published values of a file

    The abstract state of a file: the list of the values published in it, in
    order.  The [latest] word names the last one and its slot holds it; every
    value fits its slot and carries the generation after the one before. *)
From S2P Require Import Prelude Prog Layout Memory Protocol History.
#[local] Open Scope list_scope.
#[local] Open Scope Z_scope.

Section published.
Context (g : geometry) (Hg : geometry_ok g) (init : mem) (Hfresh : fresh_file g init).

Abbreviation slot i := (slot_offset (g_stride g) i).
Abbreviation accepted := (accepted g init).

(** The file and the protocol state at the end of the log. *)
Definition now (log : list wev) : mem := mem_at init log (length log).
Definition cur (log : list wev) : ghost := gat g init log (length log).

Lemma now_snoc (log : list wev) (x : wev) : now (log ++ [x]) = apply_wev (now log) x.
Proof.
  unfold now. rewrite length_app. simpl. rewrite Nat.add_1_r.
  rewrite (mem_at_S _ _ _ x) by (by rewrite lookup_app_r, Nat.sub_diag).
  by rewrite mem_at_app.
Qed.

Lemma cur_inv (log : list wev) : accepted log -> ginv g (now log) (cur log).
Proof. intros Ha. by apply gat_inv. Qed.

Lemma cur_snoc (log : list wev) (x : wev) (gh : ghost) :
  accepted log -> gstep g (now log) (cur log) x = Some gh ->
  accepted (log ++ [x]) /\ cur (log ++ [x]) = gh.
Proof. intros Ha Hs. by apply accepted_snoc. Qed.

(** ** The published values of a file, in order *)

Definition event_value (m : mem) (x : wev) : option value :=
  match x with
  | WStore _ off bs =>
      if off =? HOff.latest then Some (slot_value g m (psmi_latest_slot (le_val bs))) else None
  | WFence _ => None
  end.

Definition publications (log : list wev) : list value :=
  omap (published g init log) (seq 0 (length log)).

Lemma publications_snoc (log : list wev) (x : wev) :
  publications (log ++ [x]) =
    publications log ++ (match event_value (now log) x with Some v => [v] | None => [] end).
Proof.
  unfold publications. rewrite length_app. simpl. rewrite seq_app, omap_app. f_equal.
  - apply list_omap_ext, Forall2_same_length_lookup. split; [done |].
    intros k a b H1 H2. rewrite H1 in H2. injection H2 as <-.
    apply lookup_seq in H1 as [-> Hk]. unfold published.
    rewrite lookup_app_l, mem_at_app by lia. done.
  - simpl. unfold published. rewrite lookup_app_r, Nat.sub_diag by lia. simpl.
    rewrite mem_at_app by lia. unfold event_value, now.
    destruct x as [o off bs|]; [| done]. by destruct (off =? HOff.latest).
Qed.

(** ** The last published value *)

Lemma slot_value_ext (m m' : mem) (i : Z) :
  0 <= i < g_slots g -> publishable g m i = true ->
  (forall a, slot i + 4 <= a < slot i + g_stride g -> m' a = m a) ->
  slot_value g m' i = slot_value g m i.
Proof.
  intros Hi [Hl _]%publishable_spec H. pose proof (stride_bounds g Hg). rewrite !slot_value_eq. cbv zeta.
  unfold word, SOff.generation, SOff.length, SOff.timestamp_ns, PSMI_SLOT_HEADER_SIZE in *.
  assert (E : forall d n, 4 <= d -> d + Z.of_nat n <= g_stride g ->
    read_bytes m' (slot i + d) n = read_bytes m (slot i + d) n).
  { intros d n Hd Hn. apply read_bytes_ext. intros a Ha. apply H. lia. }
  rewrite !E by lia. done.
Qed.

(** What one more event does to the slot [latest] names. *)
Lemma latest_snoc (log : list wev) (x : wev) :
  accepted (log ++ [x]) ->
  match event_value (now log) x with
  | Some v => exists i, gh_latest (cur (log ++ [x])) = Some i /\
                        v = slot_value g (now (log ++ [x])) i
  | None => gh_latest (cur (log ++ [x])) = gh_latest (cur log) /\
            forall i, gh_latest (cur log) = Some i ->
                      slot_value g (now (log ++ [x])) i = slot_value g (now log) i
  end.
Proof.
  intros Ha. pose proof (accepted_prefix g init log [x] Ha) as Ha'.
  pose proof (cur_inv log Ha') as Hinv0.
  assert (Hx : (log ++ [x]) !! length log = Some x) by (by rewrite lookup_app_r, Nat.sub_diag).
  assert (Hk : S (length log) = length (log ++ [x])) by (rewrite length_app; simpl; lia).
  assert (Ec' : gat g init (log ++ [x]) (length log) = cur log) by (by rewrite gat_app).
  assert (Em : mem_at init (log ++ [x]) (length log) = now log) by (by apply mem_at_app).
  destruct (gat_step g Hg init _ Ha (length log) ltac:(lia)) as (e & He & Hs).
  rewrite Hx in He. injection He as <-. rewrite Em, Ec', Hk in Hs.
  fold (cur (log ++ [x])) in Hs. rewrite now_snoc.
  destruct (covers x HOff.latest) eqn:Ecov.
  - destruct (publish_event g Hg init _ Ha _ _ Hx Ecov) as (i & El & Hp & E & _ & Hl & _).
    rewrite Ec' in *. rewrite Em, Hk in *. subst x.
    destruct (gi_pending _ _ _ Hinv0 i Hp) as (Hi & _).
    cbn [event_value apply_wev]. rewrite Z.eqb_refl, le_val_bytes4. destruct Hg as (Hn & _).
    assert (0 <= seq_of (cur log) i < 4294967296) by apply u32_range.
    pose proof (psmi_latest_range i (seq_of (cur log) i) ltac:(lia) ltac:(lia)).
    rewrite u32_small, psmi_latest_slot_latest by lia. exists i. split; [done |]. symmetry.
    apply slot_value_ext; [done | done |]. intros a Hin. apply write_out.
    pose proof (slot_ge g Hg i ltac:(lia)). rewrite length_le_bytes. unfold HOff.latest. lia.
  - destruct (covers_latest g Hg init _ Ha _ _ Hx Ecov) as [El Hnp]. rewrite Ec', Hk in El.
    destruct (event_value (now log) x) as [v|] eqn:Ev.
    { exfalso. apply Hnp. unfold is_publish, published. rewrite Hx. unfold event_value in Ev.
      destruct x as [o off bs|]; [| done]. by destruct (off =? HOff.latest). }
    split; [exact El |]. intros i Elt.
    destruct (gi_latest _ _ _ Hinv0 i Elt) as (Hi & _ & _ & _ & Hl).
    apply slot_value_ext; [done | done |]. intros a Hin.
    pose proof (latest_no_commit g Hg init Hfresh _ Ha _ i _ Hx ltac:(by rewrite Ec')) as Hnc.
    pose proof (cnt_step g Hg init Hfresh _ Ha _ i _ Hi Hx) as Hcnt.
    rewrite Hnc, Hk, Ec' in Hcnt. pose proof (cur_inv _ Ha) as Hinv.
    destruct (gi_latest _ _ _ Hinv i ltac:(unfold cur; congruence)) as (_ & Ho & _).
    eapply (gs_stable g Hg _ _ _ _ i); [exact Hinv0 | exact Hs | done | | exact Ho | lia].
    unfold cur in *. lia.
Qed.

Lemma last_publication (log : list wev) :
  accepted log ->
  match gh_latest (cur log) with
  | None => publications log = []
  | Some i => last (publications log) = Some (slot_value g (now log) i)
  end.
Proof.
  induction log as [|x log IH] using rev_ind; intros Ha; [done |].
  specialize (IH (accepted_prefix g init log [x] Ha)).
  pose proof (latest_snoc log x Ha) as H. rewrite publications_snoc.
  destruct (event_value (now log) x) as [v|].
  - destruct H as (i & -> & ->). by rewrite last_snoc.
  - destruct H as [-> H]. rewrite app_nil_r. destruct (gh_latest (cur log)) as [i|]; [| done].
    by rewrite H.
Qed.

(** Every published value has a generation the library hands out, and fits. *)
Lemma publications_ok (log : list wev) :
  accepted log ->
  Forall (fun v => 0 < v_generation v < 4294967296 /\ v_length v <= g_cap g) (publications log).
Proof.
  induction log as [|x log IH] using rev_ind; intros Ha; [constructor |].
  rewrite publications_snoc. apply Forall_app. split; [by apply IH, (accepted_prefix g init log [x]) |].
  pose proof (latest_snoc log x Ha) as H.
  destruct (event_value (now log) x) as [v|]; [| constructor].
  destruct H as (i & El & ->). constructor; [| constructor].
  destruct (gi_latest _ _ _ (cur_inv _ Ha) i El) as (_ & _ & _ & _ & Hp).
  apply publishable_spec in Hp. rewrite slot_value_eq. cbn [v_generation v_length]. tauto.
Qed.


(** ** Generations *)

Lemma generation_snoc (log : list wev) (x : wev) (v : value) :
  accepted (log ++ [x]) -> event_value (now log) x = Some v ->
  match last (publications log) with
  | Some u => v_generation v = gen_succ (v_generation u)
  | None => True
  end.
Proof.
  intros Ha Hv. pose proof (accepted_prefix g init log [x] Ha) as Ha'.
  assert (Hx : (log ++ [x]) !! length log = Some x) by (by rewrite lookup_app_r, Nat.sub_diag).
  assert (Hc : covers x HOff.latest = true).
  { destruct (covers x HOff.latest) eqn:E; [done |]. exfalso.
    destruct (covers_latest g Hg init _ Ha _ _ Hx E) as [_ Hnp]. apply Hnp.
    unfold is_publish, published. rewrite Hx, mem_at_app by lia. fold (now log).
    unfold event_value in Hv. destruct x as [o off bs|]; [| done].
    destruct (off =? HOff.latest); [by eexists | done]. }
  destruct (publish_event g Hg init _ Ha _ _ Hx Hc) as (i & El & Hp & E & _ & Hl & Hf).
  rewrite gat_app in * by lia. rewrite mem_at_app in * by lia. fold (now log) in *.
  fold (cur log) in *. subst x.
  pose proof (last_publication log Ha') as H. unfold follows in Hf.
  destruct (gh_latest (cur log)) as [l|]; [| by rewrite H]. rewrite H.
  cbn [event_value] in Hv. rewrite Z.eqb_refl, le_val_bytes4 in Hv. injection Hv as <-.
  destruct (gi_pending _ _ _ (cur_inv log Ha') i Hp) as (Hi & _). destruct Hg as (Hn & _).
  assert (0 <= seq_of (cur log) i < 4294967296) by apply u32_range.
  pose proof (psmi_latest_range i (seq_of (cur log) i) ltac:(lia) ltac:(lia)).
  rewrite u32_small, psmi_latest_slot_latest by lia. rewrite !slot_value_eq.
  cbn [v_generation]. by apply Z.eqb_eq in Hf.
Qed.

Lemma publications_chain (log : list wev) (k : nat) (u v : value) :
  accepted log -> publications log !! k = Some u -> publications log !! S k = Some v ->
  v_generation v = gen_succ (v_generation u).
Proof.
  revert k u v. induction log as [|x log IH] using rev_ind; intros k u v Ha Hu Hv; [done |].
  pose proof (IH k u v (accepted_prefix g init log [x] Ha)) as IH'.
  rewrite publications_snoc in Hu, Hv.
  destruct (event_value (now log) x) as [y|] eqn:Ex; [| rewrite app_nil_r in Hu, Hv; auto].
  pose proof (generation_snoc log x y Ha Ex) as Hg'.
  destruct (decide (S k < length (publications log))%nat) as [Hlt|Hge].
  - rewrite lookup_app_l in Hu by lia. rewrite lookup_app_l in Hv by lia. auto.
  - apply lookup_lt_Some in Hv as Hb. rewrite length_app in Hb. simpl in Hb.
    assert (E : S k = length (publications log)) by lia.
    rewrite E, lookup_app_r, Nat.sub_diag in Hv by lia. injection Hv as <-.
    rewrite lookup_app_l in Hu by lia. rewrite last_lookup, <- E in Hg'. simpl in Hg'.
    by rewrite Hu in Hg'.
Qed.
End published.
