(* ===== verification/Seqlock.v ===== *)
(** * The seqlock: what a reader of a live file returns

    The reader's code, step by step on the reader's machine of Memory.v, while
    the file's log grows under it by any writers that follow the protocol. *)
From S2P Require Import Prelude Prog Common Layout Reader Memory Protocol History.
#[local] Open Scope list_scope.
#[local] Open Scope Z_scope.

Lemma sync_app (log ext : list wev) (t : nat) (a : Z) :
  (t <= length log)%nat -> sync (log ++ ext) t a = sync log t a.
Proof.
  intros Ht. unfold sync. rewrite last_write_app by done.
  destruct (last_write log t a) as [k|] eqn:E; [| done].
  apply last_write_lt in E as [Hk _]. unfold msg_view. rewrite lookup_app_l by lia.
  by rewrite last_fence_app by lia.
Qed.

(** ** Generic facts about copies *)

Lemma imap_drop {A B : Type} (f : nat -> A -> B) (l : list A) (n : nat) :
  drop n (imap f l) = imap (fun k => f (n + k)%nat) (drop n l).
Proof.
  apply list_eq. intros k. rewrite lookup_drop, !list_lookup_imap, lookup_drop. done.
Qed.

(** A slot's description does not depend on the [seq] bytes of the copy. *)
Lemma decode_slot_tail (a b : list Z) :
  drop 4 a = drop 4 b ->
  s_generation (decode_slot a) = s_generation (decode_slot b) /\
  s_timestamp_ns (decode_slot a) = s_timestamp_ns (decode_slot b) /\
  s_length (decode_slot a) = s_length (decode_slot b).
Proof.
  intros H. unfold decode_slot, field. cbn [s_generation s_timestamp_ns s_length].
  replace (drop 8 a) with (drop 4 (drop 4 a)) by (by rewrite drop_drop).
  replace (drop 8 b) with (drop 4 (drop 4 b)) by (by rewrite drop_drop).
  replace (drop 16 a) with (drop 12 (drop 4 a)) by (by rewrite drop_drop).
  replace (drop 16 b) with (drop 12 (drop 4 b)) by (by rewrite drop_drop).
  by rewrite H.
Qed.

(** ** What a result means *)

(** A change of the caller's buffer that stays inside its [size] bytes. *)
Definition buf_ok (size : Z) (b b' : list Z) : Prop :=
  length b' = length b /\ drop (Z.to_nat size) b' = drop (Z.to_nat size) b.

Lemma buf_ok_overwrite (size : Z) (b d : list Z) :
  size <= Z.of_nat (length b) -> Z.of_nat (length d) <= size -> buf_ok size b (overwrite b d).
Proof.
  intros Hb Hd. unfold buf_ok, overwrite. rewrite length_app, length_drop. split; [lia |].
  rewrite drop_app_ge by lia. rewrite drop_drop. f_equal. lia.
Qed.

Definition names_value (i : psmsgr_state_info) (v : value) : Prop :=
  i_generation i = v_generation v /\ i_length i = v_length v /\
  i_timestamp_ns i = v_timestamp_ns v.

(** No store happened between the two states, and the first saw all stores. *)
Definition quiet (s s' : rstate) : Prop :=
  rs_log s' = rs_log s /\ rs_cur s = length (rs_log s).

Lemma seq_land_even (gh : ghost) (i : Z) : gh_odd gh i = false -> Z.land (seq_of gh i) 1 = 0.
Proof.
  intros H. rewrite (land_ones_mod _ 1 1) by (reflexivity || lia). change (2 ^ 1) with 2.
  unfold seq_of. rewrite H, u32_mod2, Z.add_0_r, Z.mul_comm. apply Z_mod_mult.
Qed.

Section outcome.
Context (g : geometry) (init : mem) (copy : bool) (size flags : Z).

(** The results a read may have that starts in [s] and ends in [s']:
    nothing was published before the read began; or a value [v] published by
    event [j], not older than any publish the reader knew of, delivered whole
    unless its slot was committed 2^27 times since; or the reader gave up
    because a writer kept interfering. *)
Inductive read_outcome (s s' : rstate) : rresult -> Prop :=
  | ro_nodata buf' :
      (forall j, (j < rs_cur s)%nat -> ~ is_Some (published g init (rs_log s') j)) ->
      read_outcome s s' (PSMSGR_E_NODATA, buf', None)
  | ro_value rc buf' info j v :
      published g init (rs_log s') j = Some v -> (j < rs_cur s')%nat ->
      (forall j', (j' < rs_cur s)%nat -> is_Some (published g init (rs_log s') j') ->
                  (j' <= j)%nat) ->
      rc = PSMSGR_OK \/ rc = PSMSGR_E_TOOSMALL \/ rc = PSMSGR_E_FORMAT ->
      (commits_since g (rs_log s') j (v_slot v) < 134217728 ->
         exists i, info = Some i /\ names_value i v /\ i_flags i = flags /\
           if copy && negb (v_length v <=? size) then rc = PSMSGR_E_TOOSMALL
           else rc = PSMSGR_OK /\
                (copy = true -> take (Z.to_nat (v_length v)) buf' = v_data v)) ->
      read_outcome s s' (rc, buf', info)
  | ro_busy buf' :
      ~ quiet s s' -> read_outcome s s' (PSMSGR_E_BUSY, buf', None).

Lemma read_outcome_later (s s1 s' : rstate) (x : rresult) :
  (rs_cur s <= rs_cur s1)%nat -> (quiet s s' -> quiet s1 s') ->
  read_outcome s1 s' x -> read_outcome s s' x.
Proof.
  intros Hc Hq [b H | rc b i j v H1 H2 H3 H4 H5 | b H].
  - apply ro_nodata. intros j Hj. apply H. lia.
  - eapply ro_value; eauto. intros j' Hj'. apply H3. lia.
  - apply ro_busy. auto.
Qed.
End outcome.

Section seqlock.
Context {C : Config}.
Context (g : geometry) (Hg : geometry_ok g) (init : mem) (Hfresh : fresh_file g init).
Context (blk size : Z) (Hsize : size = psmi_file_size (g_slots g) (g_stride g)).
(** What the writers may do between two steps of the reader. *)
Context (grow : list wev -> list wev -> Prop).
Context (Hgrow : forall log log', grow log log' ->
           exists ext, log' = log ++ ext /\ accepted g init log').
Context (Hhook : psmi_test_skip_seq_recheck = false).

Abbreviation slot i := (slot_offset (g_stride g) i).
Abbreviation in_slots i := (0 <= i < g_slots g).
Abbreviation gat := (gat g init).
Abbreviation slot_in_map := (slot_in_map g Hg blk size Hsize).
Abbreviation header_in_map := (header_in_map g Hg blk size Hsize).
Abbreviation slot_aligned := (slot_aligned g Hg blk).
#[local] Instance rsem : Sem rstate := reader_sem init blk size grow.

(** ** States *)

Definition rinv (s : rstate) : Prop :=
  accepted g init (rs_log s) /\ (rs_cur s <= length (rs_log s))%nat /\
  (rs_acq s <= length (rs_log s))%nat.

(** What one or more steps do to the reader's state. *)
Definition rext (s s' : rstate) : Prop :=
  rinv s' /\ (exists ext, rs_log s' = rs_log s ++ ext) /\
  (rs_cur s <= rs_cur s')%nat /\ (rs_acq s <= rs_acq s')%nat.

Lemma rext_refl (s : rstate) : rinv s -> rext s s.
Proof. intros H. split; [done | split; [by exists []; rewrite app_nil_r | done]]. Qed.

Lemma rext_trans (s1 s2 s3 : rstate) : rext s1 s2 -> rext s2 s3 -> rext s1 s3.
Proof.
  intros (_ & [e1 E1] & Hc1 & Ha1) (Hi & [e2 E2] & Hc2 & Ha2).
  split; [done | split; [| lia]]. exists (e1 ++ e2). by rewrite E2, E1, app_assoc.
Qed.

Lemma rext_cur (s s' : rstate) : rext s s' -> (rs_cur s <= rs_cur s')%nat.
Proof. by intros (_ & _ & H & _). Qed.

Lemma rext_acq (s s' : rstate) : rext s s' -> (rs_acq s <= rs_acq s')%nat.
Proof. by intros (_ & _ & _ & H). Qed.

Lemma rext_length (s s' : rstate) : rext s s' -> (length (rs_log s) <= length (rs_log s'))%nat.
Proof. intros (_ & [e E] & _). rewrite E, length_app. lia. Qed.

(** An event that is neither a load nor an acquire fence only lets time pass. *)
Lemma grow_rext (s : rstate) (log : list wev) (cur acq : nat) :
  rinv s -> grow (rs_log s) log -> (rs_cur s <= cur <= length log)%nat ->
  (rs_acq s <= acq <= length log)%nat ->
  rext s {| rs_log := log; rs_cur := cur; rs_acq := acq |}.
Proof.
  intros (Ha & Hc & Hq) Hgr H1 H2. destruct (Hgrow _ _ Hgr) as (ext & -> & Hacc).
  split; [split; [done | simpl; lia] | split; [by exists ext | simpl; lia]].
Qed.

(** ** Single steps *)

Lemma rs_load_log (o : mo) (log : list wev) (v : nat) (s : rstate) :
  rs_log (rs_load o log v s) = log.
Proof. by destruct o. Qed.

Lemma wp_load32 (o : mo) (p : ptr) (en : Z) (s : rstate) (Q : Z -> Z -> rstate -> Prop) :
  rinv s -> in_map blk size p 4 -> aligned p 4 ->
  (forall t s', rext s s' -> (rs_cur s <= t <= length (rs_log s'))%nat ->
     (o = Acquire -> (sync (rs_log s') t (p_off p) <= rs_cur s')%nat) ->
     (sync (rs_log s') t (p_off p) <= rs_acq s')%nat ->
     Q (word (mem_at init (rs_log s') t) (p_off p)) en s') ->
  wp (call (Load32 o p)) en s Q.
Proof.
  intros Hi Hm Hal HQ. apply wp_call; [done |]. intros r s' Hs.
  destruct Hs as (log & t & Hgr & Ht & -> & ->).
  pose proof (sync_le log t (p_off p)) as Hsy. destruct Hi as (Ha & Hc & Hq).
  destruct (Hgrow _ _ Hgr) as (ext & E & _).
  assert (length (rs_log s) <= length log)%nat by (rewrite E, length_app; lia).
  specialize (HQ t (rs_load o log (sync log t (p_off p)) s)).
  rewrite rs_load_log in HQ.
  apply HQ; destruct o; cbn [rs_load rs_cur rs_acq];
    first [done | apply grow_rext; [done | done | lia | lia] | lia].
Qed.

Lemma wp_load8 (p : ptr) (en : Z) (s : rstate) (Q : Z -> Z -> rstate -> Prop) :
  rinv s -> in_map blk size p 1 ->
  (forall t s', rext s s' -> rs_cur s' = rs_cur s -> (rs_cur s <= t <= length (rs_log s'))%nat ->
     (sync (rs_log s') t (p_off p) <= rs_acq s')%nat ->
     Q (mem_at init (rs_log s') t (p_off p)) en s') ->
  wp (call (Load8 p)) en s Q.
Proof.
  intros Hi Hm HQ. apply wp_call; [done |]. intros r s' Hs.
  destruct Hs as (log & t & Hgr & Ht & -> & ->).
  pose proof (sync_le log t (p_off p)) as Hsy. destruct Hi as (Ha & Hc & Hq).
  destruct (Hgrow _ _ Hgr) as (ext & E & _).
  assert (length (rs_log s) <= length log)%nat by (rewrite E, length_app; lia).
  refine (HQ t (rs_load Relaxed log (sync log t (p_off p)) s) _ _ _ _);
    cbn [rs_load rs_log rs_cur rs_acq];
    [apply grow_rext; [done | done | lia | lia] | lia | lia | lia].
Qed.

Lemma wp_acquire_fence (en : Z) (s : rstate) (Q : unit -> Z -> rstate -> Prop) :
  rinv s -> (forall s', rext s s' -> (rs_acq s <= rs_cur s')%nat -> Q tt en s') ->
  wp (call (Fence Acquire)) en s Q.
Proof.
  intros Hi HQ. apply wp_call; [done |]. intros [] s' Hs.
  destruct Hs as (log & Hgr & ->). destruct Hi as (Ha & Hc & Hq).
  destruct (Hgrow _ _ Hgr) as (ext & E & _).
  assert (length (rs_log s) <= length log)%nat by (rewrite E, length_app; lia).
  apply HQ; cbn [rs_cur]; [apply grow_rext; [done | done | lia | lia] | lia].
Qed.

Lemma wp_yield (en : Z) (s : rstate) (Q : unit -> Z -> rstate -> Prop) :
  rinv s -> (forall s', rext s s' -> Q tt en s') -> wp (call SysSchedYield) en s Q.
Proof.
  intros Hi HQ. apply wp_call; [done |]. intros [] s' Hs.
  destruct Hs as (log & Hgr & ->). destruct Hi as (Ha & Hc & Hq).
  destruct (Hgrow _ _ Hgr) as (ext & E & _).
  assert (length (rs_log s) <= length log)%nat by (rewrite E, length_app; lia).
  apply HQ. apply grow_rext; [done | done | lia | lia].
Qed.

(** ** Copies *)

(** The bytes of a copy: each as of a position of its own not before [lo],
    with nothing it synchronizes with after [hi]. *)
Definition copied (lo hi : nat) (log : list wev) (off : Z) (ts : list nat) (bs : list Z) : Prop :=
  bs = imap (fun k t => mem_at init log t (off + Z.of_nat k)) ts /\
  forall k t, ts !! k = Some t ->
    (lo <= t <= length log)%nat /\ (sync log t (off + Z.of_nat k) <= hi)%nat.

Lemma copied_ext (lo lo' hi hi' : nat) (log ext : list wev) (off : Z) (ts : list nat) (bs : list Z) :
  copied lo hi log off ts bs -> (lo' <= lo)%nat -> (hi <= hi')%nat ->
  copied lo' hi' (log ++ ext) off ts bs.
Proof.
  intros [-> Hts] Hlo Hhi. split.
  - apply imap_ext. intros k t Hk. destruct (Hts k t Hk) as [Ht _].
    by rewrite mem_at_app by lia.
  - intros k t Hk. destruct (Hts k t Hk) as [Ht Hsy]. rewrite length_app.
    rewrite sync_app by lia. lia.
Qed.

Lemma wp_load_bytes (n : nat) (p : ptr) (en : Z) (s : rstate)
    (Q : list Z -> Z -> rstate -> Prop) :
  rinv s -> in_map blk size p (Z.of_nat n) ->
  (forall ts bs s', rext s s' -> rs_cur s' = rs_cur s -> length ts = n ->
     copied (rs_cur s) (rs_acq s') (rs_log s') (p_off p) ts bs -> Q bs en s') ->
  wp (load_bytes p n) en s Q.
Proof.
  revert p en s Q. induction n as [|n IH]; intros p en s Q Hi Hm HQ; cbn [load_bytes].
  - apply wp_ret. by apply (HQ []); [apply rext_refl | | | split].
  - destruct Hm as (Hb & H0 & Hs). apply wp_bind, wp_load8; [done | split; [done | lia] |].
    intros t s1 Hx1 Hc1 Ht1 Hy1. apply wp_bind, IH; [apply Hx1 | |].
    { split; [done | cbn [ptr_add p_off]; lia]. }
    intros ts bs s2 Hx2 Hc2 Hl [-> Hts]. apply wp_ret.
    apply (HQ (t :: ts)); [by eapply rext_trans | congruence | by rewrite <- Hl |].
    pose proof (rext_length _ _ Hx2). destruct Hx2 as (_ & [ext E] & _ & Ha2).
    split.
    + cbn [imap]. f_equal.
      * rewrite E, mem_at_app, Z.add_0_r by lia. done.
      * apply imap_ext. intros k u _. unfold compose. f_equal. cbn [ptr_add p_off]. lia.
    + intros [|k] u; cbn [lookup list_lookup].
      * intros [= <-]. rewrite Z.add_0_r, E, length_app, sync_app by lia. lia.
      * intros Hk. destruct (Hts k u Hk) as [Hu Hsy]. rewrite Hc1 in Hu. split; [done |].
        cbn [ptr_add p_off] in Hsy.
        by replace (p_off p + Z.of_nat (S k)) with (p_off p + 1 + Z.of_nat k) by lia.
Qed.

Lemma wp_seq_copy_from (n : Z) (p : ptr) (en : Z) (s : rstate)
    (Q : list Z -> Z -> rstate -> Prop) :
  rinv s -> in_map blk size p (Z.max 0 n) ->
  (forall ts bs s', rext s s' -> rs_cur s' = rs_cur s -> length ts = Z.to_nat n ->
     copied (rs_cur s) (rs_acq s') (rs_log s') (p_off p) ts bs -> Q bs en s') ->
  wp (psmi_seq_copy_from p n) en s Q.
Proof.
  intros Hi Hm HQ. unfold psmi_seq_copy_from. destruct (Z.eqb_spec n 0) as [->|Hn]; cbn [negb].
  - apply wp_ret. by apply (HQ []); [apply rext_refl | | | split].
  - apply wp_load_bytes; [done | | done].
    by replace (Z.of_nat (Z.to_nat n)) with (Z.max 0 n) by lia.
Qed.

(** Positions keep their meaning as the log grows. *)
Lemma latest_of_app (log ext : list wev) (t j : nat) (i : Z) :
  (t <= length log)%nat -> latest_of g init log t j i -> latest_of g init (log ++ ext) t j i.
Proof.
  intros Ht [H1 H2 H3 H4 H5 H6 H7]. pose proof (last_write_lt _ _ _ _ H1) as [Hj _].
  split; try done.
  - by rewrite last_write_app.
  - by rewrite lookup_app_l, gat_app by lia.
  - by rewrite gat_app by lia.
  - by rewrite !gat_app by lia.
  - intros j' Hj' Hp. apply H6; [done |]. unfold is_publish, published in *.
    rewrite lookup_app_l, mem_at_app in Hp by lia. done.
  - by rewrite mem_at_app by lia.
Qed.

(** ** One attempt *)

(** A copy of part of the slot [latest] named, when the slot was found
    unchanged afterwards, is part of the published value. *)
Lemma attempt_untorn (log : list wev) (t0 j t2 : nat) (i off : Z) (ts : list nat) :
  accepted g init log -> latest_of g init log t0 j i -> (j < t2 <= length log)%nat ->
  Z.land (seq_of (gat log t2) i) 1 = 0 ->
  psmi_latest i (seq_of (gat log t2) i) = psmi_latest i (seq_of (gat log j) i) ->
  commits_since g log j i < 134217728 ->
  slot i + 4 <= off -> off + Z.of_nat (length ts) <= slot i + g_stride g ->
  (forall k t, ts !! k = Some t ->
     (j < t <= length log)%nat /\ (sync log t (off + Z.of_nat k) <= t2)%nat) ->
  imap (fun k t => mem_at init log t (off + Z.of_nat k)) ts =
    read_bytes (mem_at init log j) off (length ts).
Proof.
  intros Ha Hj Ht2 Hev Heq Hc Ho1 Ho2 Hts.
  pose proof (lo_slot _ _ _ _ _ _ Hj) as Hi.
  pose proof (publish_cnt g Hg init Hfresh log Ha t0 j i Hj) as Hcnt.
  rewrite (cnt_since g Hg init Hfresh) in Hc by (done || lia).
  pose proof (cnt_mono g Hg init Hfresh log Ha t2 (length log) i ltac:(lia) Hi).
  destruct (same_version g Hg init Hfresh log Ha j t2 i t0 Hj Ht2 Hev Heq ltac:(lia)).
  by apply (untorn_bytes g Hg init Hfresh log Ha j t2 i off ts t0).
Qed.

(** The copy of the slot's header describes the published value. *)
Lemma attempt_header (m : mem) (f : nat -> nat -> Z) (ts : list nat) (i : Z) (bs : list Z) :
  length ts = 20%nat -> bs = imap f ts ->
  imap (fun k => f (4 + k)%nat) (drop 4 ts) = read_bytes m (slot i + 4) 16 ->
  s_generation (decode_slot bs) = v_generation (slot_value g m i) /\
  s_timestamp_ns (decode_slot bs) = v_timestamp_ns (slot_value g m i) /\
  s_length (decode_slot bs) = v_length (slot_value g m i).
Proof.
  intros Hl -> H. unfold slot_value. cbn [v_generation v_timestamp_ns v_length].
  apply decode_slot_tail. rewrite imap_drop, H.
  change 20%nat with (4 + 16)%nat. rewrite read_bytes_app.
  by rewrite drop_app_length' by (by rewrite length_read_bytes).
Qed.

(** An attempt at publish [j] of slot [i] found the slot unchanged at [t2]. *)
Record unchanged (log : list wev) (t0 j t2 : nat) (i : Z) : Prop := {
  un_log : accepted g init log;
  un_latest : latest_of g init log t0 j i;
  un_after : (j < t2 <= length log)%nat;
  un_even : Z.land (seq_of (gat log t2) i) 1 = 0;
  un_tag : psmi_latest i (seq_of (gat log t2) i) = psmi_latest i (seq_of (gat log j) i);
  un_window : commits_since g log j i < 134217728
}.

Lemma attempt_header_copied (log : list wev) (t0 j t2 : nat) (i : Z) (ts : list nat) (bs : list Z) :
  unchanged log t0 j t2 i -> length ts = 20%nat -> copied (S j) t2 log (slot i) ts bs ->
  s_generation (decode_slot bs) = v_generation (slot_value g (mem_at init log j) i) /\
  s_timestamp_ns (decode_slot bs) = v_timestamp_ns (slot_value g (mem_at init log j) i) /\
  s_length (decode_slot bs) = v_length (slot_value g (mem_at init log j) i).
Proof.
  intros [Ha Hj Ht2 Hev Heq Hc] Hl [-> Hts].
  eapply attempt_header; [done | done |].
  pose proof (stride_bounds g Hg).
  rewrite (imap_ext _ (fun k t => mem_at init log t (slot i + 4 + Z.of_nat k))).
  2: { intros k t _. f_equal. lia. }
  rewrite (attempt_untorn log t0 j t2 i); rewrite ?length_drop, ?Hl; try done; try lia.
  intros k t Hk. rewrite lookup_drop in Hk. destruct (Hts _ _ Hk) as [H1 H2].
  replace (slot i + 4 + Z.of_nat k) with (slot i + Z.of_nat (4 + k)) by lia. lia.
Qed.

Lemma attempt_payload_copied (log : list wev) (t0 j t2 : nat) (i len : Z) (ts : list nat) (bs : list Z) :
  unchanged log t0 j t2 i -> len <= g_cap g -> length ts = Z.to_nat len ->
  copied (S j) t2 log (slot i + PSMI_SLOT_HEADER_SIZE) ts bs ->
  bs = read_bytes (mem_at init log j) (slot i + PSMI_SLOT_HEADER_SIZE) (Z.to_nat len).
Proof.
  intros [Ha Hj Ht2 Hev Heq Hc] Hlen Hl [-> Hts].
  pose proof (stride_bounds g Hg). unfold PSMI_SLOT_HEADER_SIZE in *.
  rewrite (attempt_untorn log t0 j t2 i); rewrite ?Hl; done || lia.
Qed.

(** ** The attempt as a whole *)

Definition attached_to (r : psmsgr_state_reader) : Prop :=
  r_hdr r = Some {| p_blk := blk; p_off := 0 |} /\ r_slot_count r = g_slots g /\
  r_slot_stride r = g_stride g /\ r_capacity r = g_cap g.

Lemma hdr_off (r : psmsgr_state_reader) (d : Z) :
  attached_to r -> ptr_add (hdr_of r) d = {| p_blk := blk; p_off := d |}.
Proof. intros (H & _). unfold hdr_of. by rewrite H. Qed.

Lemma seq_word (log : list wev) (t : nat) (i : Z) :
  accepted g init log -> (t <= length log)%nat -> in_slots i ->
  word (mem_at init log t) (slot i) = seq_of (gat log t) i.
Proof. intros Ha Ht Hi. by apply (gi_seq _ _ _ (gat_inv g Hg init Hfresh log Ha t Ht)). Qed.

(** The word behind a load of [latest]. *)
Lemma latest_word (log : list wev) (t : nat) :
  accepted g init log -> (t <= length log)%nat ->
  (word (mem_at init log t) HOff.latest = PSMI_LATEST_NONE /\
   gh_latest (gat log t) = None /\
   forall j, (j < t)%nat -> ~ is_publish g init log j) \/
  (exists i j, gh_latest (gat log t) = Some i /\ latest_of g init log t j i /\
     word (mem_at init log t) HOff.latest = psmi_latest i (seq_of (gat log t) i) /\
     seq_of (gat log t) i = seq_of (gat log j) i /\ gh_odd (gat log t) i = false /\
     sync log t HOff.latest = S j).
Proof.
  intros Ha Ht. pose proof (gat_inv g Hg init Hfresh log Ha t Ht) as Hinv.
  pose proof (gi_word _ _ _ Hinv) as Hw.
  pose proof (latest_history g Hg init Hfresh log Ha t Ht) as Hh.
  destruct (gh_latest (gat log t)) as [i|] eqn:El; [right | left; by destruct Hh].
  destruct Hh as [j Hj]. destruct (gi_latest _ _ _ Hinv i El) as (Hi & Ho & _).
  exists i, j. split; [done | split; [done | split; [done | split; [| split; [done |]]]]].
  - unfold seq_of. by rewrite Ho, (lo_even _ _ _ _ _ _ Hj), (lo_cnt _ _ _ _ _ _ Hj).
  - unfold sync. rewrite (lo_write _ _ _ _ _ _ Hj). unfold msg_view.
    by rewrite (lo_event _ _ _ _ _ _ Hj).
Qed.

(** The second half of an attempt: an even [seq] of the published version was
    seen, the slot is copied and checked again. *)
Definition attempt_check (r : psmsgr_state_reader) (sz : Z) (copy : bool) (buf : list Z)
    (i q1 : Z) : prog (list Z + rresult) :=
  let s := ptr_add (hdr_of r) (slot_offset (r_slot_stride r) i) in
  let* mb := psmi_seq_copy_from s SOff.reserved in
  let m := decode_slot mb in
  let fits := s_length m <=? sz in
  let* buf :=
    if copy && fits && (s_length m <=? r_capacity r)
    then let* d := psmi_seq_copy_from (ptr_add s PSMI_SLOT_HEADER_SIZE) (s_length m) in
         ret (overwrite buf d)
    else ret buf in
  let* _ := call (Fence Acquire) in
  let* q2 := call (Load32 Relaxed (ptr_add s SOff.seq)) in
  if (q2 =? q1) || psmi_test_skip_seq_recheck then
    if r_capacity r <? s_length m then ret (inr (PSMSGR_E_FORMAT, buf, None))
    else ret (inr (if negb copy || fits then PSMSGR_OK else PSMSGR_E_TOOSMALL, buf,
                   Some {| i_generation := s_generation m; i_length := s_length m;
                           i_timestamp_ns := s_timestamp_ns m; i_flags := 0; i_reserved := 0 |}))
  else ret (inl buf).

Lemma read_attempt_eq (r : psmsgr_state_reader) (sz : Z) (copy : bool) (buf : list Z) :
  read_attempt r sz copy buf =
    bind (call (Load32 Acquire (ptr_add (hdr_of r) HOff.latest))) (fun latest =>
      if latest =? PSMI_LATEST_NONE then ret (inr (PSMSGR_E_NODATA, buf, None))
      else if negb (psmi_latest_valid latest (r_slot_count r))
      then ret (inr (PSMSGR_E_FORMAT, buf, None))
      else
        let i := psmi_latest_slot latest in
        bind (call (Load32 Acquire
                (ptr_add (ptr_add (hdr_of r) (slot_offset (r_slot_stride r) i)) SOff.seq)))
          (fun q1 => if (Z.land q1 1 =? 0) && (psmi_latest i q1 =? latest)
                     then attempt_check r sz copy buf i q1
                     else ret (inl buf))).
Proof. reflexivity. Qed.

(** The postcondition of an attempt: a result, or a retry that only
    interference explains. *)
Definition attempt_post (copy : bool) (sz : Z) (s s' : rstate) (buf : list Z)
    (x : list Z + rresult) : Prop :=
  match x with
  | inl b => buf_ok sz buf b /\ ~ quiet s s'
  | inr res => buf_ok sz buf (snd (fst res)) /\ read_outcome g init copy sz 0 s s' res
  end.

(** The copy of the payload. *)
Lemma wp_payload (r : psmsgr_state_reader) (sz len i : Z) (copy : bool) (buf : list Z) (en : Z)
    (s : rstate) (Q : list Z -> Z -> rstate -> Prop) :
  attached_to r -> rinv s -> in_slots i -> (copy = true -> sz <= Z.of_nat (length buf)) ->
  0 <= sz ->
  (forall s' b, rext s s' -> rs_cur s' = rs_cur s -> buf_ok sz buf b ->
     (copy = true -> len <= sz -> len <= g_cap g -> exists ts d,
        length ts = Z.to_nat len /\ length d = Z.to_nat len /\
        copied (rs_cur s) (rs_acq s') (rs_log s') (slot i + PSMI_SLOT_HEADER_SIZE) ts d /\ b = overwrite buf d) ->
     Q b en s') ->
  wp (if copy && (len <=? sz) && (len <=? r_capacity r)
      then let* d := psmi_seq_copy_from (ptr_add (ptr_add (hdr_of r)
                       (slot_offset (r_slot_stride r) i)) PSMI_SLOT_HEADER_SIZE) len in
           ret (overwrite buf d)
      else ret buf) en s Q.
Proof.
  intros Hr Hinv Hi Hb Hsz HQ. pose proof (stride_bounds g Hg).
  pose proof Hr as (Hh & Hn & Hst & Hcap). rewrite Hcap, Hst.
  destruct (copy && (len <=? sz) && (len <=? g_cap g)) eqn:E.
  - bool_hyps. apply wp_bind. unfold ptr_add at 1. rewrite (hdr_off r) by done.
    cbn [p_blk p_off].
    apply wp_seq_copy_from; [done | apply slot_in_map; unfold PSMI_SLOT_HEADER_SIZE; lia |].
    intros ts d s' Hx Hc Hl Hcp. cbn [p_off] in Hcp.
    assert (length d = Z.to_nat len) by (destruct Hcp as [-> _]; by rewrite length_imap).
    apply wp_ret, HQ; [done | done | apply buf_ok_overwrite; [by apply Hb | lia] |].
    intros _ _ _. by exists ts, d.
  - apply wp_ret, HQ; [by apply rext_refl | done | done |].
    intros -> H1 H2. exfalso. apply andb_false_iff in E as [E|E]; bool_hyps; lia || done.
Qed.

(** What an attempt that found [seq] unchanged at [t2] delivers. *)
Lemma attempt_delivers (copy : bool) (sz : Z) (s0 s4 : rstate) (buf : list Z)
    (t0 j t2 : nat) (i : Z) (hts : list nat) (mb : list Z) :
  let m := decode_slot mb in
  let log := rs_log s4 in
  (forall j', (j' < rs_cur s0)%nat -> is_publish g init log j' -> (j' <= j)%nat) ->
  latest_of g init log t0 j i -> (j < rs_cur s4)%nat ->
  (commits_since g log j i < 134217728 -> unchanged log t0 j t2 i) ->
  length hts = 20%nat -> copied (S j) t2 log (slot i) hts mb ->
  (copy = true -> s_length m <= sz -> s_length m <= g_cap g -> exists ts d buf0,
     length ts = Z.to_nat (s_length m) /\ length d = Z.to_nat (s_length m) /\
     copied (S j) t2 log (slot i + PSMI_SLOT_HEADER_SIZE) ts d /\ buf = overwrite buf0 d) ->
  read_outcome g init copy sz 0 s0 s4
    (if g_cap g <? s_length m then (PSMSGR_E_FORMAT, buf, None)
     else (if negb copy || (s_length m <=? sz) then PSMSGR_OK else PSMSGR_E_TOOSMALL, buf,
           Some {| i_generation := s_generation m; i_length := s_length m;
                   i_timestamp_ns := s_timestamp_ns m; i_flags := 0; i_reserved := 0 |})).
Proof.
  intros m log Hlast Hj Hjc Hun Hlh Hcp Hpay.
  pose proof (published_latest g Hg init log t0 j i Hj) as Hpub.
  assert (Hd : commits_since g log j i < 134217728 ->
    s_generation m = v_generation (slot_value g (mem_at init log j) i) /\
    s_timestamp_ns m = v_timestamp_ns (slot_value g (mem_at init log j) i) /\
    s_length m = v_length (slot_value g (mem_at init log j) i)).
  { intros Hc. by apply (attempt_header_copied log t0 j t2 i hts mb); [apply Hun | |]. }
  destruct (Z.ltb_spec (g_cap g) (s_length m)) as [Hcap|Hcap].
  - eapply ro_value; [exact Hpub | done | done | tauto |].
    cbn [v_slot slot_value]. intros Hc. exfalso. destruct (Hd Hc) as (_ & _ & E).
    pose proof (proj1 (proj1 (publishable_spec g _ _) (lo_length _ _ _ _ _ _ Hj))). rewrite slot_value_eq in E. cbn [v_length] in E. lia.
  - eapply ro_value; [exact Hpub | done | done | destruct (negb copy || _); auto |].
    cbn [v_slot slot_value]. intros Hc. destruct (Hd Hc) as (E1 & E2 & E3).
    eexists. split; [done | split; [done | split; [done |]]]. rewrite <- E3.
    destruct copy; cbn [negb andb orb]; [| done].
    destruct (Z.leb_spec (s_length m) sz) as [Hf|Hf]; cbn [negb]; [| done].
    split; [done |]. intros _. destruct (Hpay eq_refl Hf Hcap) as (ts & d & b0 & H1 & H2 & H3 & ->).
    unfold overwrite. rewrite take_app_length' by done.
    rewrite (attempt_payload_copied log t0 j t2 i (s_length m) ts d); [| auto | done | done | done].
    cbn [v_data slot_value]. by rewrite E3.
Qed.

Lemma rinv_len (s s' : rstate) : rext s s' -> rinv s'.
Proof. by intros [H _]. Qed.

Lemma latest_of_ext (s s' : rstate) (t j : nat) (i : Z) :
  rext s s' -> (t <= length (rs_log s))%nat ->
  latest_of g init (rs_log s) t j i -> latest_of g init (rs_log s') t j i.
Proof. intros (_ & [ext ->] & _) Ht. by apply latest_of_app. Qed.

Lemma gat_ext (s s' : rstate) (t : nat) :
  rext s s' -> (t <= length (rs_log s))%nat -> gat (rs_log s') t = gat (rs_log s) t.
Proof. intros (_ & [ext ->] & _) Ht. by apply gat_app. Qed.

Lemma copied_rext (s s' : rstate) (lo lo' hi hi' : nat) (off : Z) (ts : list nat) (bs : list Z) :
  copied lo hi (rs_log s) off ts bs -> rext s s' -> (lo' <= lo)%nat -> (hi <= hi')%nat ->
  copied lo' hi' (rs_log s') off ts bs.
Proof. intros Hc (_ & [ext ->] & _). by apply copied_ext. Qed.

Lemma quiet_ext (s0 s1 s2 : rstate) :
  rext s0 s1 -> rext s1 s2 -> quiet s0 s2 -> quiet s0 s1 /\ rs_log s2 = rs_log s1.
Proof.
  intros (_ & [e1 E1] & _) (_ & [e2 E2] & _) [El Ec].
  assert (e1 = [] /\ e2 = []) as [-> ->].
  { rewrite E2, E1 in El. apply (f_equal length) in El. rewrite !length_app in El.
    split; apply length_zero_iff_nil; lia. }
  rewrite app_nil_r in *. by rewrite E2.
Qed.

(** The reader's view never runs ahead of the log. *)
Lemma quiet_sub (s0 s1 s2 : rstate) :
  rext s0 s1 -> rext s1 s2 -> quiet s0 s2 -> quiet s1 s2.
Proof.
  intros Hx1 Hx2 Hq. destruct (quiet_ext _ _ _ Hx1 Hx2 Hq) as [[El Ec] E2].
  split; [done |]. pose proof (rext_cur _ _ Hx1). destruct Hx1 as ((_ & Hle & _) & _).
  rewrite El in *. lia.
Qed.

Lemma if_inr_ret {A B : Type} (b : bool) (x y : B) :
  ret (inr (A := A) (if b then x else y)) = if b then ret (inr x) else ret (inr y).
Proof. by destruct b. Qed.

(** The state [s1] in which a publish [j] of slot [i] with the version [q1]
    has been seen. *)
Lemma wp_attempt_check (r : psmsgr_state_reader) (sz : Z) (copy : bool) (buf : list Z)
    (i q1 en : Z) (s0 s1 : rstate) (t0 j : nat) :
  attached_to r -> 0 <= sz -> (copy = true -> sz <= Z.of_nat (length buf)) ->
  rext s0 s1 -> (t0 <= length (rs_log s1))%nat -> latest_of g init (rs_log s1) t0 j i ->
  (rs_cur s0 <= t0)%nat ->
  (j < rs_cur s1)%nat -> Z.land q1 1 = 0 ->
  psmi_latest i q1 = psmi_latest i (seq_of (gat (rs_log s1) j) i) ->
  (quiet s0 s1 -> q1 = seq_of (gat (rs_log s1) (length (rs_log s1))) i) ->
  wp (attempt_check r sz copy buf i q1) en s1
    (fun x en' s' => en' = en /\ rext s0 s' /\ attempt_post copy sz s0 s' buf x).
Proof.
  intros Hr Hsz Hb Hx1 Ht0 Hj Hct Hjc Hev Htag Hquiet.
  pose proof (lo_slot _ _ _ _ _ _ Hj) as Hi. pose proof (stride_bounds g Hg) as Hst.
  pose proof Hr as (_ & _ & Est & Ecap).
  unfold attempt_check. rewrite Est, (hdr_off r) by done.
  apply wp_bind, wp_seq_copy_from; [apply Hx1 | |].
  { rewrite <- (Z.add_0_r (slot i)). apply slot_in_map; unfold SOff.reserved; lia. }
  intros hts mb s2 Hx2 Hc2 Hhl Hh. cbv zeta.
  apply wp_bind. rewrite <- (hdr_off r), <- Est by done.
  apply wp_payload; [done | apply Hx2 | done | done | done |].
  intros s3 b Hx3 Hc3 Hbok Hpay. rewrite Est, (hdr_off r) by done.
  apply wp_bind, wp_acquire_fence; [apply Hx3 |]. intros s4 Hx4 Hacq.
  apply wp_bind. unfold ptr_add, SOff.seq. cbn [p_blk p_off].
  apply wp_load32; [apply Hx4 | apply slot_in_map; lia | by apply slot_aligned |].
  intros t2 s5 Hx5 Ht2 _ _. cbn [p_off]. rewrite Z.add_0_r.
  assert (Hx15 : rext s1 s5) by eauto using rext_trans.
  assert (Hx25 : rext s2 s5) by eauto using rext_trans.
  assert (Hx35 : rext s3 s5) by eauto using rext_trans.
  assert (Hin : accepted g init (rs_log s5)) by apply Hx15.
  rewrite (seq_word _ t2 i) by (done || lia). rewrite Hhook, orb_false_r.
  pose proof (rext_cur _ _ Hx2). pose proof (rext_cur _ _ Hx3). pose proof (rext_cur _ _ Hx4).
  pose proof (latest_of_ext _ _ _ _ _ Hx15 Ht0 Hj) as Hj5.
  assert (Hjl : (j < length (rs_log s1))%nat)
    by (pose proof (last_write_lt _ _ _ _ (lo_write _ _ _ _ _ _ Hj)); lia).
  rewrite <- (gat_ext _ _ j Hx15) in Htag by lia.
  destruct (Z.eqb_spec (seq_of (gat (rs_log s5) t2) i) q1) as [E|E]; cycle 1.
  { apply wp_ret. split; [done | split; [by eapply rext_trans |]]. split; [done |].
    intros Hq. destruct (quiet_ext _ _ _ Hx1 Hx15 Hq) as [Hq1 El]. apply E.
    rewrite (Hquiet Hq1), <- El. destruct Hq as [El0 Ec0].
    pose proof (rext_cur _ _ Hx1). do 2 f_equal. rewrite El0 in *. lia. }
  pose proof (attempt_delivers copy sz s0 s5 b t0 j t2 i hts mb) as Hdel. cbv zeta in Hdel.
  rewrite Ecap. rewrite <- (if_inr_ret (g_cap g <? s_length (decode_slot mb))).
  apply wp_ret. split; [done | split; [by eapply rext_trans |]].
  pose proof (rext_cur _ _ Hx5).
  split; [by destruct (_ <? _) | apply Hdel]; clear Hdel; try done; try lia.
  - intros j' Hj' Hp. apply (lo_last _ _ _ _ _ _ Hj5); [lia | done].
  - intros Hc. subst q1. split; try done. lia.
  - eapply copied_rext; [exact Hh | done | lia | pose proof (rext_acq _ _ Hx3); lia].
  - intros -> Hf Hc. destruct (Hpay eq_refl Hf Hc) as (ts & d & L1 & L2 & L3 & L4).
    exists ts, d, buf. split; [done | split; [done | split; [| done]]].
    eapply copied_rext; [exact L3 | done | lia | lia].
Qed.

Lemma buf_ok_refl (sz : Z) (b : list Z) : buf_ok sz b b.
Proof. done. Qed.

Lemma latest_aligned : aligned {| p_blk := blk; p_off := HOff.latest |} 4.
Proof. done. Qed.

Lemma wp_read_attempt (r : psmsgr_state_reader) (sz : Z) (copy : bool) (buf : list Z) (en : Z)
    (s : rstate) :
  attached_to r -> rinv s -> 0 <= sz -> (copy = true -> sz <= Z.of_nat (length buf)) ->
  wp (read_attempt r sz copy buf) en s
    (fun x en' s' => en' = en /\ rext s s' /\ attempt_post copy sz s s' buf x).
Proof.
  intros Hr Hinv Hsz Hb. pose proof Hr as (_ & En & Est & _). pose proof Hg as (Hn & _).
  pose proof (stride_bounds g Hg) as Hst. rewrite read_attempt_eq, (hdr_off r) by done. apply wp_bind, wp_load32; [done | | done |].
  { apply header_in_map; unfold HOff.latest; lia. }
  cbn [p_off]. intros t0 s1 Hx1 Ht0 Hacq _. specialize (Hacq eq_refl).
  assert (Hin : accepted g init (rs_log s1)) by apply Hx1.
  destruct (latest_word (rs_log s1) t0 Hin ltac:(lia))
    as [(-> & _ & Hnp) | (i & j & El & Hj & -> & Eseq & Hodd & Hsy)].
  { apply wp_ret. split; [done | split; [done | split; [done |]]].
    apply ro_nodata. intros j Hj. apply Hnp. lia. }
  pose proof (lo_slot _ _ _ _ _ _ Hj) as Hi.
  assert (Hq : 0 <= seq_of (gat (rs_log s1) t0) i < 4294967296) by apply u32_range.
  pose proof (psmi_latest_not_none i _ ltac:(lia) Hq) as Hnn. apply Z.eqb_neq in Hnn.
  rewrite Hnn, psmi_latest_valid_latest, En by lia.
  destruct (Z.ltb_spec i (g_slots g)) as [_|]; [cbn [negb] | lia].
  rewrite psmi_latest_slot_latest by lia. cbv zeta. rewrite Est.
  rewrite (hdr_off r) by done. unfold ptr_add. cbn [p_blk p_off].
  apply wp_bind, wp_load32; [apply Hx1 | apply slot_in_map; unfold SOff.seq; lia
                            | by apply slot_aligned |].
  intros t1 s2 Hx2 Ht1 _ _. cbn [p_off]. unfold SOff.seq. rewrite Z.add_0_r.
  assert (Hin2 : accepted g init (rs_log s2)) by apply Hx2.
  rewrite (seq_word _ t1 i) by (done || lia). rewrite Eseq, <- (gat_ext _ _ j Hx2).
  2: { pose proof (proj1 (last_write_lt _ _ _ _ (lo_write _ _ _ _ _ _ Hj))). lia. }
  assert (Hqs : quiet s s2 -> seq_of (gat (rs_log s2) t1) i = seq_of (gat (rs_log s2) j) i /\
                              gh_odd (gat (rs_log s2) t1) i = false /\ t1 = length (rs_log s2)).
  { intros Hqu. destruct (quiet_ext _ _ _ Hx1 Hx2 Hqu) as [_ E2].
    destruct Hqu as [E Ec]. pose proof (rext_cur _ _ Hx1).
    assert (t1 = t0 /\ t1 = length (rs_log s2)) as [-> <-] by (rewrite E, E2 in *; lia).
    rewrite E2. by rewrite Eseq. }
  pose proof (rext_length _ _ Hx2).
  destruct (_ && _) eqn:E.
  - bool_hyps. eapply wp_mono; [apply (wp_attempt_check r sz copy buf i _ en s s2 t0 j) |];
      try done; try lia.
    + by eapply rext_trans.
    + apply (latest_of_ext s1); [done | lia | done].
    + pose proof (rext_cur _ _ Hx2). lia.
    + intros Hqu. by destruct (Hqs Hqu) as (_ & _ & <-).
  - apply wp_ret. split; [done | split; [by eapply rext_trans |]]. split; [done |].
    intros Hqu. destruct (Hqs Hqu) as (E1 & Ho & _). rewrite E1, Z.eqb_refl, andb_true_r in E.
    apply Z.eqb_neq in E. apply E. rewrite <- E1. by apply seq_land_even.
Qed.

(** ** The retries *)

Definition latest_post (copy : bool) (sz : Z) (s s' : rstate) (buf : list Z) (x : rresult) : Prop :=
  buf_ok sz buf (snd (fst x)) /\ read_outcome g init copy sz 0 s s' x.

Lemma buf_ok_trans (sz : Z) (a b c : list Z) : buf_ok sz a b -> buf_ok sz b c -> buf_ok sz a c.
Proof. unfold buf_ok. intros [] []. split; congruence. Qed.

Lemma wp_read_retry (n : nat) (r : psmsgr_state_reader) (sz attempt : Z) (copy : bool)
    (buf : list Z) (en : Z) (s0 s : rstate) :
  attached_to r -> 0 <= sz -> (copy = true -> sz <= Z.of_nat (length buf)) ->
  rext s0 s -> (n = 0%nat -> ~ quiet s0 s) ->
  wp (read_retry r sz copy n attempt buf) en s
    (fun x en' s' => en' = en /\ rext s0 s' /\ latest_post copy sz s0 s' buf x).
Proof.
  revert attempt buf s. induction n as [|n IH]; intros attempt buf s Hr Hsz Hb Hx Hq;
    cbn [read_retry].
  { apply wp_ret. split; [done | split; [done | split; [done |]]]. apply ro_busy. auto. }
  apply wp_bind. eapply wp_mono; [apply wp_read_attempt; [done | apply Hx | done | done] |].
  intros x en1 s1 (-> & Hx1 & Hp). assert (Hx01 : rext s0 s1) by (by eapply rext_trans).
  destruct x as [b | res]; destruct Hp as [Hbok Hout].
  - assert (Hnext : forall s2, rext s1 s2 ->
      wp (read_retry r sz copy n (attempt + 1) b) en s2
        (fun x en' s' => en' = en /\ rext s0 s' /\ latest_post copy sz s0 s' buf x)).
    { intros s2 Hx2. eapply wp_mono; [apply (IH (attempt + 1) b s2 Hr Hsz) |].
      - intros Hc. destruct Hbok as [-> _]. by apply Hb.
      - by eapply rext_trans.
      - intros _ Hqu. destruct (quiet_ext _ _ _ Hx01 Hx2 Hqu) as [Hq1 _].
        apply Hout. by apply (quiet_sub _ _ _ Hx Hx1).
      - intros y en' s' (-> & Hx' & Hb' & Ho'). split; [done | split; [done |]].
        split; [by eapply buf_ok_trans | done]. }
    apply wp_bind. destruct (3 <=? attempt).
    + apply wp_yield; [apply Hx1 |]. intros s2 Hx2. by apply Hnext.
    + apply wp_ret. apply Hnext. apply rext_refl. apply Hx1.
  - apply wp_ret. split; [done | split; [done | split; [done |]]].
    apply (read_outcome_later g init copy sz 0 s0 s); [by apply rext_cur | | done].
    by apply quiet_sub.
Qed.

Lemma wp_read_latest (r : psmsgr_state_reader) (sz : Z) (copy : bool) (buf : list Z) (en : Z)
    (s : rstate) :
  attached_to r -> rinv s -> 0 <= sz -> (copy = true -> sz <= Z.of_nat (length buf)) ->
  wp (read_latest r buf sz copy) en s
    (fun x en' s' => en' = en /\ rext s s' /\ latest_post copy sz s s' buf x).
Proof.
  intros Hr Hi Hsz Hb. apply wp_read_retry; try done. by apply rext_refl.
Qed.

(** ** The calls of the API, on a handle attached to a file not retired *)

Section live.
Context (Hlive : forall log log' t, grow log log' -> (t <= length log')%nat ->
           Z.land (word (mem_at init log' t) HOff.state) PSMI_STATE_RETIRED = 0).

Lemma wp_reader_sync (r : psmsgr_state_reader) (en : Z) (s : rstate) :
  attached_to r -> rinv s ->
  wp (reader_sync r) en s (fun x en' s' => x = (PSMSGR_OK, r) /\ en' = en /\ rext s s').
Proof.
  intros Hr Hi. unfold reader_sync. pose proof Hr as (-> & _). unfold retired.
  apply wp_bind, wp_bind, wp_call.
  { rewrite (hdr_off r) by done. split; [apply header_in_map; unfold HOff.state; lia | done]. }
  intros x s' (log & t & Hgr & Ht & -> & ->). rewrite (hdr_off r) by done. cbn [p_off].
  apply wp_ret. rewrite (Hlive _ _ _ Hgr) by lia. cbn [negb Z.eqb]. apply wp_ret.
  split; [done | split; [done |]].
  pose proof (sync_le log t HOff.state). pose proof Hi as (_ & Hc & Ha).
  destruct (Hgrow _ _ Hgr) as (ext & E & _).
  assert (length (rs_log s) <= length log)%nat by (rewrite E, length_app; lia).
  apply grow_rext; done || lia.
Qed.

(** The flags of the first result after an attach. *)
Definition info_flags (r : psmsgr_state_reader) : Z :=
  if r_announce r then PSMSGR_INFO_ATTACHED else 0.

Lemma announce_outcome (r : psmsgr_state_reader) (copy : bool) (sz : Z) (s s' : rstate)
    (rc : Z) (b : list Z) (info : option psmsgr_state_info) :
  read_outcome g init copy sz 0 s s' (rc, b, info) ->
  read_outcome g init copy sz (info_flags r) s s' (rc, b, snd (announce r info)).
Proof.
  unfold info_flags, announce. destruct (r_announce r); [| done]. cbn [snd].
  intros H. inversion H as [b' Hn | rc' b' i j v H1 H2 H3 H4 H5 | b' Hn]; subst.
  - by apply ro_nodata.
  - eapply ro_value; eauto. intros Hc. destruct (H5 Hc) as (i' & -> & Hi & Hf & Hr).
    eexists. split; [done |]. cbn [i_flags]. rewrite Hf. by split.
  - by apply ro_busy.
Qed.

Lemma attached_announce (r : psmsgr_state_reader) (info : option psmsgr_state_info) :
  attached_to r -> attached_to (fst (announce r info)).
Proof. unfold announce. by destruct (r_announce r). Qed.

(** Nothing else an outcome with another code says depends on the flags. *)
Lemma outcome_flags (copy : bool) (sz flags : Z) (s s' : rstate) (rc : Z) (b : list Z)
    (info : option psmsgr_state_info) :
  rc <> PSMSGR_OK -> (copy = true -> rc <> PSMSGR_E_TOOSMALL) ->
  read_outcome g init copy sz 0 s s' (rc, b, info) ->
  read_outcome g init copy sz flags s s' (rc, b, info).
Proof.
  intros Hok Htoo H. inversion H as [b' Hn | rc' b' i j v H1 H2 H3 H4 H5 | b' Hn]; subst.
  - by apply ro_nodata.
  - eapply ro_value; eauto. intros Hc. exfalso. destruct (H5 Hc) as (i' & _ & _ & _ & Hr).
    destruct copy; cbn [andb] in Hr; [destruct (negb _) | ]; intuition.
  - by apply ro_busy.
Qed.

Definition api_post (copy : bool) (sz flags : Z) (buf : list Z) (en : Z) (s : rstate)
    (x : option psmsgr_state_reader * rresult) (en' : Z) (s' : rstate) : Prop :=
  exists r', fst x = Some r' /\ attached_to r' /\ en' = en /\ rext s s' /\
    buf_ok sz buf (snd (fst (snd x))) /\ read_outcome g init copy sz flags s s' (snd x).

Lemma wp_state_read (r : psmsgr_state_reader) (buf : list Z) (sz en : Z) (s : rstate) :
  attached_to r -> rinv s -> 0 <= sz <= Z.of_nat (length buf) ->
  wp (psmsgr_state_read (Some r) (Some buf) sz false) en s
    (api_post true sz (info_flags r) buf en s).
Proof.
  intros Hr Hi Hsz. unfold psmsgr_state_read. cbn [orb].
  change (default [] (Some buf)) with buf.
  apply wp_bind. eapply wp_mono; [by apply wp_reader_sync |].
  intros x en1 s1 (-> & -> & Hx1). cbn [Z.eqb negb PSMSGR_OK].
  apply wp_bind. eapply wp_mono; [apply wp_read_latest; [done | apply Hx1 | lia | intros _; lia] |].
  intros [[rc b] info] en2 s2 (-> & Hx2 & Hb & Ho).
  assert (Hx : rext s s2) by (by eapply rext_trans).
  apply (read_outcome_later g init true sz 0 s s1) in Ho;
    [| by apply rext_cur | by apply quiet_sub].
  destruct ((rc =? PSMSGR_OK) || (rc =? PSMSGR_E_TOOSMALL)) eqn:E.
  - pose proof (attached_announce r info Hr). pose proof (announce_outcome r _ _ _ _ _ _ _ Ho).
    destruct (announce r info) as [r' info']. apply wp_ret. by exists r'.
  - apply wp_ret. apply orb_false_iff in E as [E1 E2]. apply Z.eqb_neq in E1, E2.
    exists r. do 5 (split; [done |]). by apply outcome_flags.
Qed.

Lemma wp_state_peek (r : psmsgr_state_reader) (en : Z) (s : rstate) :
  attached_to r -> rinv s ->
  wp (psmsgr_state_peek (Some r) false) en s
    (fun x => api_post false 0 (info_flags r) [] en s (fst x, (fst (snd x), [], snd (snd x)))).
Proof.
  intros Hr Hi. unfold psmsgr_state_peek.
  apply wp_bind. eapply wp_mono; [by apply wp_reader_sync |].
  intros x en1 s1 (-> & -> & Hx1). cbn [Z.eqb negb PSMSGR_OK].
  apply wp_bind. eapply wp_mono; [apply wp_read_latest; [done | apply Hx1 | done | done] |].
  intros [[rc b] info] en2 s2 (-> & Hx2 & Hb & Ho).
  assert (b = []) as -> by (apply length_zero_iff_nil; by destruct Hb).
  assert (Hx : rext s s2) by (by eapply rext_trans).
  apply (read_outcome_later g init false 0 0 s s1) in Ho;
    [| by apply rext_cur | by apply quiet_sub].
  destruct (Z.eqb_spec rc PSMSGR_OK) as [E|E].
  - pose proof (attached_announce r info Hr). pose proof (announce_outcome r _ _ _ _ _ _ _ Ho).
    destruct (announce r info) as [r' info']. apply wp_ret. by exists r'.
  - apply wp_ret. exists r. do 5 (split; [done |]). by apply outcome_flags.
Qed.
End live.
End seqlock.
