(* ===== verification/WriterProof.v ===== *)
(** * The writer follows the protocol

    The code of Writer.v on the writer's machine of Memory.v: whatever it is
    asked to do and wherever it stops, the log of the file stays an accepted
    one (Protocol.v); and a completed publish adds exactly one value, the
    caller's, under the next generation. *)
From S2P Require Import Prelude Prog Common Layout Writer Memory Protocol History Published.
#[local] Open Scope list_scope.
#[local] Open Scope Z_scope.

Section writer.
Context {C : Config}.
Context (g : geometry) (Hg : geometry_ok g) (init : mem) (Hfresh : fresh_file g init).
Context (blk size : Z) (Hsize : size = psmi_file_size (g_slots g) (g_stride g)).

Abbreviation slot i := (slot_offset (g_stride g) i).
Abbreviation in_slots i := (0 <= i < g_slots g).
Abbreviation accepted := (accepted g init).
Abbreviation now := (now init).
Abbreviation cur := (cur g init).
Abbreviation publications := (publications g init).
Abbreviation event_value := (event_value g).
Abbreviation map_ptr := (map_ptr blk).
Abbreviation slot_in_map := (slot_in_map g Hg blk size Hsize).
Abbreviation header_in_map := (header_in_map g Hg blk size Hsize).
Abbreviation slot_aligned := (slot_aligned g Hg blk).
Context (env : list wev -> forall e : ev, resp e -> Prop).
#[local] Instance wsem : Sem (list wev) := writer_sem init blk size env accepted.

(** ** Events *)

Lemma seq_mapped (i : Z) :
  in_slots i -> in_map blk size (map_ptr (slot i)) 4 /\ aligned (map_ptr (slot i)) 4.
Proof.
  intros Hi. pose proof (stride_bounds g Hg). rewrite <- (Z.add_0_r (slot i)).
  split; [apply slot_in_map; lia | by apply slot_aligned].
Qed.

(** What one event of the writer does: nothing to the log, or an accepted
    event more. *)
Lemma wp_store (e : ev) (x : wev) (gh : ghost) (en : Z) (log : list wev)
    (Q : resp e -> Z -> list wev -> Prop) :
  accepted log -> wev_of init e log = Some x ->
  gstep g (now log) (cur log) x = Some gh ->
  match e with
  | Load32 _ p | Store32 _ p _ | FetchOr32 _ p _ | FetchAdd32 _ p _ =>
      in_map blk size p 4 /\ aligned p 4
  | Load8 p | Store8 p _ => in_map blk size p 1
  | _ => True
  end ->
  (forall r, accepted (log ++ [x]) -> cur (log ++ [x]) = gh ->
     now (log ++ [x]) = apply_wev (now log) x ->
     Q r (resp_errno e r en) (log ++ [x])) ->
  wp (call e) en log Q.
Proof.
  intros Ha Hx Hs Hm HQ. destruct (cur_snoc g init log x gh Ha Hs) as [Ha' Hc'].
  apply wp_call.
  - split; [done |]. by rewrite Hx.
  - intros r log' [_ ->]. rewrite Hx. cbn [append]. apply HQ; [done | done | apply now_snoc].
Qed.

Lemma wp_quiet (e : ev) (en : Z) (log : list wev) (Q : resp e -> Z -> list wev -> Prop) :
  accepted log -> wev_of init e log = None ->
  match e with
  | Load32 _ p | Store32 _ p _ | FetchOr32 _ p _ | FetchAdd32 _ p _ =>
      in_map blk size p 4 /\ aligned p 4
  | Load8 p | Store8 p _ => in_map blk size p 1
  | _ => True
  end ->
  (forall r, writer_resp init e log r -> env log e r -> Q r (resp_errno e r en) log) ->
  wp (call e) en log Q.
Proof.
  intros Ha Hx Hm HQ. apply wp_call.
  - split; [done |]. by rewrite Hx.
  - intros r log' [[Hr He] ->]. rewrite Hx. by apply HQ.
Qed.

(** ** The automaton on the stores of the code *)

Lemma gstep_slot (m : mem) (gh : ghost) (o : mo) (i d : Z) (bs : list Z) :
  in_slots i -> 0 <= d < g_stride g ->
  gstep g m gh (WStore o (slot i + d) bs) = step_slot g gh o i d bs.
Proof.
  intros Hi Hd. cbn [gstep]. pose proof (slot_ge g Hg i ltac:(lia)).
  destruct (slot_div g i d Hd) as [E1 E2].
  destruct (Z.eqb_spec (slot i + d) HOff.latest); [unfold HOff.latest in *; lia |].
  destruct (Z.ltb_spec (slot i + d) PSMI_HEADER_SIZE); [unfold PSMI_HEADER_SIZE in *; lia |].
  rewrite E1, E2. destruct (Z.ltb_spec i (g_slots g)); [done | lia].
Qed.

Lemma gstep_data (m : mem) (gh : ghost) (o : mo) (i d : Z) (bs : list Z) :
  in_slots i -> 4 <= d < g_stride g -> d + Z.of_nat (length bs) <= g_stride g ->
  gh_open gh = Some (i, true) -> gstep g m gh (WStore o (slot i + d) bs) = Some gh.
Proof.
  intros Hi Hd Hl Ho. rewrite gstep_slot by lia. unfold step_slot.
  destruct (Z.eqb_spec d 0); [lia |]. rewrite Ho. cbn [open_fenced]. rewrite Z.eqb_refl.
  destruct (Z.leb_spec 4 d); [| lia]. by destruct (Z.leb_spec (d + Z.of_nat (length bs)) (g_stride g)); [| lia].
Qed.

Lemma gstep_header (m : mem) (gh : ghost) (o : mo) (off : Z) (bs : list Z) :
  HOff.state <= off /\ off + Z.of_nat (length bs) <= HOff.latest \/
  HOff.writer_pid <= off /\ off + Z.of_nat (length bs) <= 52 ->
  (0 < length bs)%nat -> gstep g m gh (WStore o off bs) = Some gh.
Proof.
  intros Hd Hl. cbn [gstep]. unfold HOff.state, HOff.latest, HOff.writer_pid, PSMI_HEADER_SIZE in *.
  destruct (Z.eqb_spec off 40); [lia |]. destruct (Z.ltb_spec off 128); [| lia].
  destruct (Z.leb_spec 36 off), (Z.leb_spec (off + Z.of_nat (length bs)) 40),
    (Z.leb_spec 48 off), (Z.leb_spec (off + Z.of_nat (length bs)) 52); done || lia.
Qed.

Lemma gstep_notify (m : mem) (gh : ghost) :
  gstep g m gh (WStore Release HOff.notify (le_bytes 4 (word m HOff.notify + 1))) = Some gh.
Proof.
  cbn [gstep]. rewrite (proj2 (is_notify_spec _ _ _ _)) by done. by rewrite orb_true_r.
Qed.

Lemma gstep_begin (m : mem) (gh : ghost) (o : mo) (i v : Z) :
  in_slots i -> gh_latest gh <> Some i -> v = u32 (2 * gh_cnt gh i + 1) ->
  gstep g m gh (WStore o (slot i) (le_bytes 4 v)) =
    Some {| gh_cnt := gh_cnt gh; gh_odd := fset (gh_odd gh) i true;
            gh_latest := gh_latest gh; gh_open := Some (i, false); gh_pending := None |}.
Proof.
  intros Hi Hl ->. pose proof (stride_bounds g Hg).
  rewrite <- (Z.add_0_r (slot i)), gstep_slot by lia. unfold step_slot. rewrite Z.eqb_refl.
  rewrite (proj2 (bytes_eqb_spec _ _) eq_refl). unfold step_begin.
  destruct (opt_eqb (gh_latest gh) i) eqn:E; [| done]. apply opt_eqb_spec in E. done.
Qed.

Lemma gstep_commit (m : mem) (gh : ghost) (i v : Z) :
  in_slots i -> gh_open gh = Some (i, true) -> v = u32 (2 * gh_cnt gh i + 2) ->
  gstep g m gh (WStore Release (slot i) (le_bytes 4 v)) =
    Some {| gh_cnt := fset (gh_cnt gh) i (gh_cnt gh i + 1);
            gh_odd := fset (gh_odd gh) i false;
            gh_latest := gh_latest gh; gh_open := None; gh_pending := Some i |}.
Proof.
  intros Hi Ho ->. pose proof (stride_bounds g Hg).
  rewrite <- (Z.add_0_r (slot i)), gstep_slot by lia. unfold step_slot. rewrite Z.eqb_refl.
  destruct (bytes_eqb (le_bytes 4 (u32 (2 * gh_cnt gh i + 2)))
              (le_bytes 4 (u32 (2 * gh_cnt gh i + 1)))) eqn:E.
  { exfalso. apply bytes_eqb_spec in E. apply (f_equal le_val) in E.
    rewrite !le_val_bytes4, !u32_idemp in E. apply u32_eq_iff in E as [k Hk]. lia. }
  rewrite (proj2 (bytes_eqb_spec _ _) eq_refl). unfold step_commit. rewrite Ho.
  cbn [is_release open_fenced]. by rewrite Z.eqb_refl.
Qed.

Lemma gstep_publish (m : mem) (gh : ghost) (i v : Z) :
  gh_pending gh = Some i -> v = psmi_latest i (seq_of gh i) ->
  publishable g m i = true -> follows g m (gh_latest gh) i = true ->
  gstep g m gh (WStore Release HOff.latest (le_bytes 4 v)) =
    Some {| gh_cnt := gh_cnt gh; gh_odd := gh_odd gh;
            gh_latest := Some i; gh_open := gh_open gh; gh_pending := None |}.
Proof.
  intros Hp -> Hl Hf. cbn [gstep]. rewrite Z.eqb_refl. unfold step_publish. rewrite Hp.
  rewrite (proj2 (bytes_eqb_spec _ _) eq_refl). cbn [is_release andb].
  by rewrite Hl, Hf.
Qed.

(** ** Copies into the mapping *)

(** From [log] to [log'] the bytes [bs] were stored at [off], and nothing
    else happened that the protocol or a reader can tell. *)
Record wrote (log log' : list wev) (off : Z) (bs : list Z) : Prop := {
  wr_acc : accepted log';
  wr_cur : cur log' = cur log;
  wr_pub : publications log' = publications log;
  wr_now : forall a, now log' a = write (now log) off bs a
}.

Lemma wrote_read (log log' : list wev) (off : Z) (bs : list Z) :
  wrote log log' off bs -> read_bytes (now log') off (length bs) = bs.
Proof.
  intros [_ _ _ Hn]. rewrite (read_bytes_ext _ (write (now log) off bs)) by done.
  apply read_write_same.
Qed.

Lemma wrote_other (log log' : list wev) (off a : Z) (bs : list Z) (n : nat) :
  wrote log log' off bs -> a + Z.of_nat n <= off \/ off + Z.of_nat (length bs) <= a ->
  read_bytes (now log') a n = read_bytes (now log) a n.
Proof.
  intros [_ _ _ Hn] Hd. rewrite (read_bytes_ext _ (write (now log) off bs)) by done.
  by apply read_write_disjoint.
Qed.

(** Bytes that may be stored whatever the log: [ok] of an offset. *)
Lemma wp_store_bytes (ok : Z -> Prop) (bs : list Z) (off en : Z) (log : list wev)
    (Q : unit -> Z -> list wev -> Prop) :
  accepted log ->
  (forall log' a b, ok a -> accepted log' -> cur log' = cur log ->
     gstep g (now log') (cur log') (WStore Relaxed a [b]) = Some (cur log) /\
     event_value (now log') (WStore Relaxed a [b]) = None /\
     in_map blk size (map_ptr a) 1) ->
  (forall a, off <= a < off + Z.of_nat (length bs) -> ok a) ->
  (forall log', wrote log log' off bs -> Q tt en log') ->
  wp (store_bytes (map_ptr off) bs) en log Q.
Proof.
  revert off en log Q. induction bs as [|b bs IH]; intros off en log Q Ha Hok Hr HQ;
    cbn [store_bytes].
  - apply wp_ret, HQ. split; try done. intros a. symmetry. apply write_out. simpl. lia.
  - destruct (Hok log off b (Hr off ltac:(simpl; lia)) Ha eq_refl) as (Hs & Hv & Hm).
    apply wp_bind.
    apply (wp_store (Store8 (map_ptr off) b) (WStore Relaxed off [b]) (cur log));
      [done | done | done | done |].
    intros [] Ha1 Hc1 Hn1. apply (IH (off + 1)); [done | | |].
    + intros log' a b' Ho Ha' Hc'. rewrite Hc1 in *. by apply Hok.
    + intros a Hin. apply Hr. simpl. lia.
    + intros log' [H1 H2 H3 H4]. apply HQ. split; [done | congruence | |].
      * rewrite H3, publications_snoc, Hv. by rewrite app_nil_r.
      * intros a. rewrite H4, Hn1. by rewrite write_cons.
Qed.

(** The caller's bytes, and the fields of a slot, while it is open. *)
Lemma wp_slot_bytes (i d : Z) (bs : list Z) (en : Z) (log : list wev)
    (Q : unit -> Z -> list wev -> Prop) :
  accepted log -> in_slots i -> gh_open (cur log) = Some (i, true) ->
  4 <= d -> d + Z.of_nat (length bs) <= g_stride g ->
  (forall log', wrote log log' (slot i + d) bs -> Q tt en log') ->
  wp (store_bytes (map_ptr (slot i + d)) bs) en log Q.
Proof.
  intros Ha Hi Ho Hd Hl HQ.
  apply (wp_store_bytes (fun a => slot i + 4 <= a < slot i + g_stride g)); try done; [| lia].
  intros log' a b Hin Ha' Hc'. replace a with (slot i + (a - slot i)) by lia. split; [| split].
  - rewrite Hc'. apply gstep_data; try done; simpl; lia.
  - cbn [event_value]. pose proof (slot_ge g Hg i ltac:(lia)).
    destruct (Z.eqb_spec (slot i + (a - slot i)) HOff.latest); [unfold HOff.latest in *; lia | done].
  - apply slot_in_map; [done | lia | lia].
Qed.

(** [writer_pid]. *)
Lemma wp_pid_bytes (v en : Z) (log : list wev) (Q : unit -> Z -> list wev -> Prop) :
  accepted log -> (forall log', wrote log log' HOff.writer_pid (le_bytes 4 v) -> Q tt en log') ->
  wp (plain_store (map_ptr HOff.writer_pid) 4 v) en log Q.
Proof.
  intros Ha HQ. unfold plain_store.
  apply (wp_store_bytes (fun a => 48 <= a < 52)); try done.
  - intros log' a b Hin Ha' Hc'. split; [| split].
    + rewrite Hc'. apply gstep_header; [right; unfold HOff.writer_pid; simpl; lia | simpl; lia].
    + cbn [event_value]. destruct (Z.eqb_spec a HOff.latest); [unfold HOff.latest in *; lia | done].
    + apply header_in_map; lia.
Qed.

(** ** The handle and the file *)

(** What the handle knows of the file it is attached to. *)
Record winv (w : psmsgr_state_writer) (log : list wev) : Prop := {
  wi_acc : accepted log;
  wi_hdr : w_hdr w = map_ptr 0;
  wi_count : w_slot_count w = g_slots g;
  wi_stride : w_slot_stride w = g_stride g;
  wi_cap : w_capacity w = g_cap g;
  wi_latest : w_latest w =
    match gh_latest (cur log) with Some i => i | None => PSMI_LATEST_NONE end;
  wi_gen : 0 < w_gen w < 4294967296;
  wi_next : match last (publications log) with
            | Some v => w_gen w = gen_succ (v_generation v)
            | None => True
            end;
  wi_open : w_open_slot w = PSMI_LATEST_NONE \/
    in_slots (w_open_slot w) /\ gh_open (cur log) = Some (w_open_slot w, true) /\
    w_open_seq w = u32 (2 * gh_cnt (cur log) (w_open_slot w))
}.

(** The open buffer of the handle is the open slot of the file. *)
Definition open_ok (w : psmsgr_state_writer) (log : list wev) : Prop :=
  w_open_slot w = PSMI_LATEST_NONE \/
  in_slots (w_open_slot w) /\ gh_open (cur log) = Some (w_open_slot w, true) /\
  w_open_seq w = u32 (2 * gh_cnt (cur log) (w_open_slot w)).

(** Steps that publish nothing. *)
Lemma winv_step (w w' : psmsgr_state_writer) (log log' : list wev) :
  winv w log -> accepted log' -> publications log' = publications log ->
  gh_latest (cur log') = gh_latest (cur log) ->
  (w_hdr w', w_slot_count w', w_slot_stride w', w_capacity w', w_latest w', w_gen w') =
    (w_hdr w, w_slot_count w, w_slot_stride w, w_capacity w, w_latest w, w_gen w) ->
  open_ok w' log' -> winv w' log'.
Proof.
  intros [H1 H2 H3 H4 H5 H6 H7 H8 H9] Ha Hp Hl [= E1 E2 E3 E4 E5 E6] Ho.
  split; rewrite ?Hp, ?Hl, ?E1, ?E2, ?E3, ?E4, ?E5, ?E6; done.
Qed.

(** The slot of the next publish: round robin, never [latest]. *)
Definition target (w : psmsgr_state_writer) : Z :=
  if w_latest w =? PSMI_LATEST_NONE then 0 else u32 (w_latest w + 1) mod w_slot_count w.

Lemma target_ok (w : psmsgr_state_writer) (log : list wev) :
  winv w log -> in_slots (target w) /\ gh_latest (cur log) <> Some (target w).
Proof.
  intros H. pose proof Hg as (Hn & _). unfold target.
  rewrite (wi_latest _ _ H), (wi_count _ _ H).
  destruct (gh_latest (cur log)) as [i|] eqn:E; [| rewrite Z.eqb_refl; split; [lia | done]].
  destruct (gi_latest _ _ _ (cur_inv g Hg init Hfresh log (wi_acc _ _ H)) i E) as (Hi & _).
  change PSMI_LATEST_NONE with 4294967295. destruct (Z.eqb_spec i 4294967295) as [E1|_]; [lia |].
  rewrite u32_small by lia. pose proof (Z.mod_pos_bound (i + 1) (g_slots g)).
  split; [lia |]. intros [= E1]. clear - E1 Hi Hn.
  destruct (decide (i + 1 = g_slots g)) as [E|E].
  - rewrite E, Z_mod_same_full in E1. lia.
  - rewrite Z.mod_small in E1; lia.
Qed.

Lemma seq_without_odd (gh : ghost) (i : Z) :
  and_not32 (seq_of gh i) 1 = u32 (2 * gh_cnt gh i).
Proof.
  assert (Hr : 0 <= seq_of gh i < 4294967296) by apply u32_range.
  change 1 with (2 ^ 1 - 1). rewrite and_not32_low by lia. change (2 ^ 1) with 2.
  unfold seq_of. rewrite u32_mod2. destruct (gh_odd gh i).
  - replace ((2 * gh_cnt gh i + 1) mod 2) with 1 by (clear; div_lia).
    unfold u32. clear. div_lia.
  - rewrite Z.add_0_r. replace ((2 * gh_cnt gh i) mod 2) with 0 by (clear; div_lia). lia.
Qed.

Lemma ptr_at (w : psmsgr_state_writer) (log : list wev) (d : Z) :
  winv w log -> ptr_add (w_hdr w) d = map_ptr d.
Proof. intros H. rewrite (wi_hdr _ _ H). done. Qed.

Lemma slot_ptr (w : psmsgr_state_writer) (log : list wev) (i d : Z) :
  winv w log -> ptr_add (writer_slot w i) d = map_ptr (slot i + d).
Proof.
  intros H. unfold writer_slot. rewrite (ptr_at w log), (wi_stride _ _ H) by done. done.
Qed.

Lemma wp_begin_slot (w : psmsgr_state_writer) (en : Z) (log : list wev)
    (Q : ptr * psmsgr_state_writer -> Z -> list wev -> Prop) :
  winv w log ->
  (forall w' log', winv w' log' -> publications log' = publications log ->
     w_open_slot w' = target w -> w_gen w' = w_gen w -> in_slots (target w) ->
     Q (map_ptr (slot (target w) + PSMI_SLOT_HEADER_SIZE), w') en log') ->
  wp (begin_slot w) en log Q.
Proof.
  intros Hw HQ. destruct (target_ok w log Hw) as [Hi Hl]. pose proof (stride_bounds g Hg).
  unfold begin_slot. fold (target w). cbv zeta. rewrite !(slot_ptr w log) by done.
  unfold SOff.seq. rewrite !Z.add_0_r.
  apply wp_bind, wp_quiet; [apply Hw | done | |].
  { by apply seq_mapped. }
  intros q0 -> _. cbn [map_ptr p_off].
  pose proof (gi_seq _ _ _ (cur_inv g Hg init Hfresh log (wi_acc _ _ Hw)) (target w) Hi) as Eseq.
  unfold now in Eseq. rewrite Eseq, seq_without_odd. rewrite u32_add_l.
  apply wp_bind.
  eapply (wp_store (Store32 Relaxed (map_ptr (slot (target w))) _));
    [apply Hw | done | by apply gstep_begin | |].
  { by apply seq_mapped. }
  intros [] Ha1 Hc1 Hn1. apply wp_bind.
  eapply (wp_store (Fence Release)); [done | done | rewrite Hc1; done | done |].
  intros [] Ha2 Hc2 Hn2. apply wp_ret.
  assert (Hp2 : publications ((log ++ [WStore Relaxed (slot (target w))
    (le_bytes 4 (u32 (2 * gh_cnt (cur log) (target w) + 1)))]) ++ [WFence Release]) =
    publications log).
  { rewrite !publications_snoc. cbn [event_value].
    pose proof (slot_ge g Hg (target w) ltac:(lia)).
    destruct (Z.eqb_spec (slot (target w)) HOff.latest); [unfold HOff.latest in *; lia |].
    by rewrite !app_nil_r. }
  apply HQ; try done.
  apply (winv_step w _ log); try done; [by rewrite Hc2 |].
  right. rewrite Hc2. done.
Qed.

Lemma wrote_word (log log' : list wev) (off v : Z) :
  wrote log log' off (le_bytes 4 v) -> word (now log') off = u32 v.
Proof.
  intros H. unfold word. pose proof (wrote_read _ _ _ _ H) as E. rewrite length_le_bytes in E.
  by rewrite E, le_val_bytes4.
Qed.

Lemma wrote_winv (w : psmsgr_state_writer) (log log' : list wev) (off : Z) (bs : list Z) :
  winv w log -> wrote log log' off bs -> winv w log'.
Proof.
  intros Hw [H1 H2 H3 _]. apply (winv_step w _ log); try done; [by rewrite H2 |].
  unfold open_ok. rewrite H2. apply Hw.
Qed.

Lemma wp_clock (c : clockid) (en : Z) (log : list wev) (Q : Z -> Z -> list wev -> Prop) :
  accepted log -> (forall ts, 0 <= ts < 18446744073709551616 -> Q ts en log) ->
  wp (psmi_clock_ns c) en log Q.
Proof.
  intros Ha HQ. unfold psmi_clock_ns. apply wp_bind, wp_quiet; [done | done | done |].
  intros [sec nsec] _ _. apply wp_ret, HQ. apply u64_range.
Qed.

(** The counter of the waiters, the [state] bits: never part of the protocol. *)
Lemma wp_notify (e : ev) (off en : Z) (bs : list Z) (log : list wev) (w : psmsgr_state_writer)
    (Q : resp e -> Z -> list wev -> Prop) :
  winv w log -> wev_of init e log = Some (WStore Release off bs) -> length bs = 4%nat ->
  off = HOff.state \/
    off = HOff.notify /\ bs = le_bytes 4 (word (now log) HOff.notify + 1) ->
  match e with
  | FetchOr32 _ p _ | FetchAdd32 _ p _ => p = map_ptr off
  | _ => False
  end ->
  (forall r log', winv w log' -> publications log' = publications log -> cur log' = cur log ->
     Q r (resp_errno e r en) log') ->
  wp (call e) en log Q.
Proof.
  intros Hw Hx Hl Hoff Hm HQ.
  assert (Hs : gstep g (now log) (cur log) (WStore Release off bs) = Some (cur log)).
  { destruct Hoff as [-> | [-> ->]]; [| apply gstep_notify].
    apply gstep_header; [| lia]. rewrite Hl. unfold HOff.state, HOff.latest. lia. }
  eapply (wp_store e); [apply Hw | exact Hx | exact Hs | |].
  { destruct e; try done; subst p; (split; [apply header_in_map; unfold HOff.state, HOff.notify in *; lia |]);
      destruct Hoff as [-> | [-> _]]; done. }
  intros r Ha Hc Hn.
  assert (Hp : publications (log ++ [WStore Release off bs]) = publications log).
  { rewrite publications_snoc. cbn [event_value].
    destruct (Z.eqb_spec off HOff.latest); [| by rewrite app_nil_r].
    unfold HOff.state, HOff.notify, HOff.latest in *. lia. }
  apply HQ; [| done | done]. apply (winv_step w _ log); try done; [by rewrite Hc |].
  unfold open_ok. rewrite Hc. apply Hw.
Qed.

Lemma wrote_open (log log' : list wev) (off : Z) (bs : list Z) (i : Z) :
  wrote log log' off bs -> gh_open (cur log) = Some (i, true) -> gh_open (cur log') = Some (i, true).
Proof. by intros [_ -> _ _]. Qed.

(** The header fields of the open slot; its payload stays. *)
Lemma wp_slot_fields {A : Type} (k : prog A) (w : psmsgr_state_writer) (i gen len en : Z)
    (log : list wev) (Q : A -> Z -> list wev -> Prop) :
  winv w log -> in_slots i -> gh_open (cur log) = Some (i, true) ->
  (forall log' ts, accepted log' -> cur log' = cur log -> publications log' = publications log ->
     0 <= ts < 18446744073709551616 ->
     word (now log') (slot i + SOff.generation) = u32 gen ->
     word (now log') (slot i + SOff.length) = u32 len ->
     le_val (read_bytes (now log') (slot i + SOff.timestamp_ns) 8) = ts ->
     (forall n, read_bytes (now log') (slot i + PSMI_SLOT_HEADER_SIZE) n =
                read_bytes (now log) (slot i + PSMI_SLOT_HEADER_SIZE) n) ->
     wp k en log' Q) ->
  wp (plain_store (map_ptr (slot i + SOff.generation)) 4 gen ;;;
      plain_store (map_ptr (slot i + SOff.length)) 4 len ;;;
      let* ts := psmi_clock_ns CLOCK_MONOTONIC in
      plain_store (map_ptr (slot i + SOff.timestamp_ns)) 8 ts ;;; k) en log Q.
Proof.
  intros Hw Hi Ho HQ. pose proof (stride_bounds g Hg).
  unfold plain_store, SOff.generation, SOff.length, SOff.timestamp_ns, PSMI_SLOT_HEADER_SIZE in *.
  apply wp_bind, wp_slot_bytes; [apply Hw | done | done | lia | rewrite length_le_bytes; lia |].
  intros log1 W1. apply wp_bind, wp_slot_bytes;
    [apply W1 | done | by eapply wrote_open | lia | rewrite length_le_bytes; lia |].
  intros log2 W2. apply wp_bind, wp_clock; [apply W2 |]. intros ts Hts.
  apply wp_bind, wp_slot_bytes; [apply W2 | done | do 2 (eapply wrote_open; [done |]); done | lia
                       | rewrite length_le_bytes; lia |].
  intros log3 W3. apply (HQ log3 ts); try done.
  - apply W3.
  - by rewrite (wr_cur _ _ _ _ W3), (wr_cur _ _ _ _ W2), (wr_cur _ _ _ _ W1).
  - by rewrite (wr_pub _ _ _ _ W3), (wr_pub _ _ _ _ W2), (wr_pub _ _ _ _ W1).
  - unfold word. rewrite (wrote_other _ _ _ _ _ _ W3), (wrote_other _ _ _ _ _ _ W2)
      by (rewrite ?length_le_bytes; lia). by apply (wrote_word log).
  - unfold word. rewrite (wrote_other _ _ _ _ _ _ W3) by (rewrite ?length_le_bytes; lia).
    by apply (wrote_word log1).
  - pose proof (wrote_read _ _ _ _ W3) as E. rewrite length_le_bytes in E.
    rewrite E, le_val_bytes8. by apply u64_small.
  - intros n. rewrite (wrote_other _ _ _ _ _ _ W3), (wrote_other _ _ _ _ _ _ W2),
      (wrote_other _ _ _ _ _ _ W1) by (rewrite ?length_le_bytes; lia). done.
Qed.

Lemma seq_store_follows (log : list wev) (i v : Z) :
  accepted log -> in_slots i -> follows g (now log) (gh_latest (cur log)) i = true ->
  follows g (write (now log) (slot i) (le_bytes 4 v)) (gh_latest (cur log)) i = true.
Proof.
  intros Ha Hi Hf. destruct (gh_latest (cur log)) as [l|] eqn:E; [| done].
  destruct (gi_latest _ _ _ (cur_inv g Hg init Hfresh log Ha) l E) as (Hl & _).
  unfold follows in *. rewrite !(seq_store_others g Hg); try done; unfold SOff.generation; lia.
Qed.

(** The release stores of [seq] and [latest]: the values a publish of slot
    [i] adds. *)
Lemma wp_release {A : Type} (k : prog A) (i c en : Z) (log : list wev)
    (Q : A -> Z -> list wev -> Prop) :
  accepted log -> in_slots i -> gh_open (cur log) = Some (i, true) -> c = gh_cnt (cur log) i ->
  publishable g (now log) i = true -> follows g (now log) (gh_latest (cur log)) i = true ->
  (forall log', accepted log' -> gh_latest (cur log') = Some i ->
     publications log' = publications log ++ [slot_value g (now log) i] ->
     wp k en log' Q) ->
  wp (let* _ := call (Store32 Release (map_ptr (slot i)) (u32 (u32 (2 * c) + 2))) in
      let* _ := call (Store32 Release (map_ptr HOff.latest)
                        (psmi_latest i (u32 (u32 (2 * c) + 2)))) in k) en log Q.
Proof.
  intros Ha Hi Ho -> Hlen Hfol HQ. pose proof (stride_bounds g Hg). pose proof Hg as (Hn & _).
  pose proof (slot_ge g Hg i ltac:(lia)). rewrite u32_add_l.
  apply wp_bind. eapply wp_store; [done | done | by apply gstep_commit | by apply seq_mapped |].
  intros [] Ha1 Hc1 Hn1. cbn [map_ptr p_off] in *.
  set (log1 := log ++ _) in *.
  assert (Hword : forall d n, 4 <= d -> read_bytes (now log1) (slot i + d) n =
                                       read_bytes (now log) (slot i + d) n).
  { intros d n Hd. rewrite Hn1. apply read_write_disjoint. rewrite length_le_bytes. lia. }
  assert (Eseq : seq_of (cur log1) i = u32 (2 * gh_cnt (cur log) i + 2)).
  { rewrite Hc1. unfold seq_of. cbn [gh_cnt gh_odd]. rewrite !fset_eq. f_equal. lia. }
  apply wp_bind. eapply wp_store; [done | done | | split; [by apply header_in_map | done] |].
  { eapply gstep_publish; [by rewrite Hc1 | by rewrite Eseq | |].
    - eapply publishable_ext; [| exact Hlen]. intros d Hd. unfold word. rewrite Hword; [done | lia].
    - rewrite Hc1, Hn1. cbn [gh_latest apply_wev]. by apply seq_store_follows. }
  intros [] Ha2 Hc2 Hn2. cbn [map_ptr p_off] in *. apply HQ; [done | by rewrite Hc2 |].
  rewrite publications_snoc. cbn [event_value]. rewrite Z.eqb_refl.
  unfold log1 at 1. rewrite publications_snoc. cbn [event_value].
  destruct (Z.eqb_spec (slot i) HOff.latest); [unfold HOff.latest in *; lia |].
  rewrite app_nil_r, le_val_bytes4. do 2 f_equal.
  assert (0 <= u32 (2 * gh_cnt (cur log) i + 2) < 4294967296) by apply u32_range.
  pose proof (psmi_latest_range i (u32 (2 * gh_cnt (cur log) i + 2)) ltac:(lia) ltac:(lia)).
  rewrite u32_small, psmi_latest_slot_latest by lia.
  rewrite !slot_value_eq. unfold word, SOff.generation, SOff.length, SOff.timestamp_ns, PSMI_SLOT_HEADER_SIZE.
  by rewrite !Hword by lia.
Qed.

(** The generation the handle puts into a slot follows the last one. *)
Lemma writer_follows (w : psmsgr_state_writer) (log log1 : list wev) (i : Z) :
  winv w log -> accepted log1 -> publications log1 = publications log ->
  gh_latest (cur log1) = gh_latest (cur log) ->
  word (now log1) (slot i + SOff.generation) = w_gen w ->
  follows g (now log1) (gh_latest (cur log)) i = true.
Proof.
  intros Hw Ha Hp Hl Hgen. unfold follows.
  pose proof (last_publication g Hg init Hfresh log1 Ha) as H. rewrite Hl, Hp in H.
  destruct (gh_latest (cur log)) as [l|]; [| done].
  pose proof (wi_next _ _ Hw) as Hn. rewrite H, slot_value_eq in Hn. cbn [v_generation] in Hn.
  by rewrite Hgen, Hn, Z.eqb_refl.
Qed.

Lemma wp_commit_slot (w : psmsgr_state_writer) (len en : Z) (log : list wev)
    (Q : Z * psmsgr_state_writer -> Z -> list wev -> Prop) :
  winv w log -> w_open_slot w <> PSMI_LATEST_NONE -> 0 <= len <= w_capacity w ->
  (forall w' log' ts en', winv w' log' -> w_open_slot w' = PSMI_LATEST_NONE ->
     w_gen w' = next_generation (w_gen w) -> 0 <= ts < 18446744073709551616 ->
     publications log' = publications log ++
       [{| v_slot := w_open_slot w; v_generation := w_gen w; v_length := len;
           v_timestamp_ns := ts;
           v_data := read_bytes (now log) (slot (w_open_slot w) + PSMI_SLOT_HEADER_SIZE)
                       (Z.to_nat len) |}] ->
     Q (w_gen w, w') en' log') ->
  wp (commit_slot w len) en log Q.
Proof.
  intros Hw Hno Hlen HQ.
  destruct (wi_open _ _ Hw) as [|(Hi & Ho & Eseq)]; [done |].
  rewrite (wi_cap _ _ Hw) in Hlen. destruct Hg as (_ & Hcap & _).
  pose proof (wi_gen _ _ Hw) as Hgen.
  unfold commit_slot. cbv zeta. rewrite !(slot_ptr w log) by done.
  rewrite (ptr_at w log HOff.latest), Eseq by done.
  set (i := w_open_slot w) in *. unfold SOff.seq. rewrite Z.add_0_r.
  apply (wp_slot_fields _ w i); [done | done | done |].
  intros log1 ts Ha1 Hc1 Hp1 Hts H1 H2 H3 H4. rewrite u32_small in H1, H2 by lia.
  apply wp_release; [done | done | by rewrite Hc1 | by rewrite Hc1 | | |].
  { apply publishable_spec. rewrite H1, H2. lia. }
  { rewrite Hc1. apply (writer_follows w log log1 i); try done; by rewrite Hc1. }
  intros log2 Ha2 Hl2 Hp2.
  assert (Hval : slot_value g (now log1) i =
    {| v_slot := i; v_generation := w_gen w; v_length := len; v_timestamp_ns := ts;
       v_data := read_bytes (now log) (slot i + PSMI_SLOT_HEADER_SIZE) (Z.to_nat len) |}).
  { by rewrite slot_value_eq, H1, H2, H3, H4. }
  rewrite Hp1, Hval in Hp2. destruct (next_generation_spec _ Hgen) as [Hng Hsucc].
  match goal with |- context [w_notify ?x] => set (w1 := x) end.
  set (w2 := w_set_latest_gen w1 (w_latest w1) (next_generation (w_gen w))).
  assert (Hw2 : winv w2 log2).
  { destruct Hw. split; try done; [by rewrite Hl2 | by rewrite Hp2, last_snoc | by left]. }
  assert (Hfin : forall log' en', winv w2 log' -> publications log' = publications log2 ->
    wp (ret (w_gen w, w2)) en' log' Q).
  { intros log' en' Hw' Hp'. apply wp_ret. apply (HQ _ log' ts); try done. by rewrite Hp', Hp2. }
  apply wp_bind. change (w_notify w1) with (w_notify w). destruct (w_notify w).
  - change (w_hdr w1) with (w_hdr w2). rewrite !(ptr_at w2 log2) by done.
    apply wp_bind. eapply (wp_notify (FetchAdd32 _ _ _) HOff.notify);
      [exact Hw2 | reflexivity | by rewrite length_le_bytes | by right; split | done |].
    intros r log3 Hw3 Hp3 _. unfold futex_wake_all. apply wp_bind, wp_quiet;
      [apply Hw3 | done | done |].
    intros r' _ _. apply wp_ret. by apply Hfin.
  - apply wp_ret. by apply Hfin.
Qed.

(** ** The calls of the API *)

(** The value a publish of [data] by [w] adds. *)
Definition new_value (w : psmsgr_state_writer) (slot_ ts : Z) (data : list Z) : value := {|
  v_slot := slot_; v_generation := w_gen w; v_length := Z.of_nat (length data);
  v_timestamp_ns := ts; v_data := data |}.

Lemma wp_state_publish (w : psmsgr_state_writer) (data : list Z) (en : Z) (log : list wev)
    (Q : wresult -> Z -> list wev -> Prop) :
  winv w log -> w_open_slot w = PSMI_LATEST_NONE -> Z.of_nat (length data) <= w_capacity w ->
  (forall w' log' ts en', winv w' log' -> w_open_slot w' = PSMI_LATEST_NONE ->
     w_gen w' = next_generation (w_gen w) -> 0 <= ts < 18446744073709551616 ->
     publications log' = publications log ++ [new_value w (target w) ts data] ->
     Q (PSMSGR_OK, Some w', Some (w_gen w)) en' log') ->
  wp (psmsgr_state_publish (Some w) (Some data) (Z.of_nat (length data))) en log Q.
Proof.
  intros Hw Hno Hlen HQ. unfold psmsgr_state_publish. rewrite Hno, Z.eqb_refl. cbn [negb].
  destruct (Z.ltb_spec (w_capacity w) (Z.of_nat (length data))) as [|_]; [lia |].
  pose proof (stride_bounds g Hg) as Hst. pose proof (wi_cap _ _ Hw) as Hcap.
  apply wp_bind, wp_begin_slot; [done |]. intros w1 log1 Hw1 Hp1 Ho1 Hg1 Hi.
  assert (Hopen : gh_open (cur log1) = Some (target w, true)).
  { destruct (wi_open _ _ Hw1) as [E|(_ & E & _)]; [| by rewrite Ho1 in E].
    rewrite Ho1 in E. destruct Hg as (Hn & _). unfold PSMI_LATEST_NONE in E. lia. }
  assert (Hcopy : forall Q', (forall log2, wrote log1 log2 (slot (target w) + PSMI_SLOT_HEADER_SIZE) data ->
      Q' tt en log2) ->
    wp (psmi_seq_copy_to (map_ptr (slot (target w) + PSMI_SLOT_HEADER_SIZE)) data
          (Z.of_nat (length data))) en log1 Q').
  { intros Q' HQ'. unfold psmi_seq_copy_to. destruct (Z.eqb_spec (Z.of_nat (length data)) 0) as [E|E]; cbn [negb].
    - apply wp_ret, HQ'. destruct data; [| done]. split; try done; [apply Hw1 |].
      intros a. symmetry. apply write_out. simpl. lia.
    - rewrite Nat2Z.id, take_ge by lia. apply wp_slot_bytes; try done; [apply Hw1 |].
      unfold PSMI_SLOT_HEADER_SIZE. lia. }
  apply wp_bind. change (default [] (Some data)) with data. apply Hcopy. intros log2 W2.
  apply wp_bind, wp_commit_slot; [by eapply wrote_winv | | |].
  { rewrite Ho1. destruct Hg as (Hn & _). unfold PSMI_LATEST_NONE. lia. }
  { rewrite (wi_cap _ _ Hw1). lia. }
  intros w' log' ts en' Hw' Hno' Hg' Hts Hp'. rewrite Hg1 in *. apply wp_ret.
  apply (HQ w' log' ts en'); try done.
  rewrite Hp', (wr_pub _ _ _ _ W2), Hp1, Ho1, Nat2Z.id, (wrote_read _ _ _ _ W2). done.
Qed.

Lemma wp_state_begin (w : psmsgr_state_writer) (en : Z) (log : list wev)
    (Q : Z * option psmsgr_state_writer * option ptr -> Z -> list wev -> Prop) :
  winv w log -> w_open_slot w = PSMI_LATEST_NONE ->
  (forall w' log', winv w' log' -> publications log' = publications log ->
     w_open_slot w' = target w -> w_gen w' = w_gen w -> in_slots (target w) ->
     Q (PSMSGR_OK, Some w', Some (map_ptr (slot (target w) + PSMI_SLOT_HEADER_SIZE))) en log') ->
  wp (psmsgr_state_begin (Some w) false) en log Q.
Proof.
  intros Hw Hno HQ. unfold psmsgr_state_begin. rewrite Hno, Z.eqb_refl. cbn [negb].
  apply wp_bind, wp_begin_slot; [done |]. intros w1 log1 Hw1 Hp1 Ho1 Hg1 Hi. by apply wp_ret, HQ.
Qed.

Lemma wp_state_commit (w : psmsgr_state_writer) (len en : Z) (log : list wev)
    (Q : wresult -> Z -> list wev -> Prop) :
  winv w log -> w_open_slot w <> PSMI_LATEST_NONE -> 0 <= len <= w_capacity w ->
  (forall w' log' ts en', winv w' log' -> w_open_slot w' = PSMI_LATEST_NONE ->
     w_gen w' = next_generation (w_gen w) -> 0 <= ts < 18446744073709551616 ->
     publications log' = publications log ++
       [{| v_slot := w_open_slot w; v_generation := w_gen w; v_length := len;
           v_timestamp_ns := ts;
           v_data := read_bytes (now log) (slot (w_open_slot w) + PSMI_SLOT_HEADER_SIZE)
                       (Z.to_nat len) |}] ->
     Q (PSMSGR_OK, Some w', Some (w_gen w)) en' log') ->
  wp (psmsgr_state_commit (Some w) len) en log Q.
Proof.
  intros Hw Hno Hlen HQ. unfold psmsgr_state_commit.
  destruct (Z.eqb_spec (w_open_slot w) PSMI_LATEST_NONE) as [|_]; [done |].
  destruct (Z.ltb_spec (w_capacity w) len) as [|_]; [lia |].
  apply wp_bind, wp_commit_slot; [done | done | done |].
  intros w' log' ts en' Hw' Hno' Hg' Hts Hp'. by eapply wp_ret, HQ.
Qed.

Lemma abort_winv (w w' : psmsgr_state_writer) (rc : Z) (log : list wev) :
  winv w log -> psmsgr_state_abort (Some w) = (rc, Some w') -> winv w' log.
Proof.
  intros Hw. unfold psmsgr_state_abort.
  destruct (_ =? _); intros [= <- <-]; [done |]. apply (winv_step w _ log); try done; [apply Hw | by left].
Qed.

Lemma wp_retire (w : psmsgr_state_writer) (en : Z) (log : list wev)
    (Q : unit -> Z -> list wev -> Prop) :
  winv w log ->
  (forall log' en', winv w log' -> publications log' = publications log -> Q tt en' log') ->
  wp (retire (w_hdr w)) en log Q.
Proof.
  intros Hw HQ. unfold retire. rewrite !(ptr_at w log) by done.
  apply wp_bind. eapply (wp_notify (FetchOr32 _ _ _) HOff.state);
    [exact Hw | done | by rewrite length_le_bytes | by left | done |].
  intros r log1 Hw1 Hp1 _. apply wp_bind. eapply (wp_notify (FetchAdd32 _ _ _) HOff.notify);
    [exact Hw1 | done | by rewrite length_le_bytes | by right; split | done |].
  intros r2 log2 Hw2 Hp2 _. unfold futex_wake_all.
  apply wp_bind, wp_quiet; [apply Hw2 | done | done |].
  intros r3 _ _. apply wp_ret, HQ; [done | congruence].
Qed.
End writer.
