(* ===== verification/Session.v ===== *)
(** * Writer sessions

    A file outlives its writers: any number of them, one at a time, attach to
    it, make calls and stop, cleanly or in the middle of a call.  Here: what a
    new writer finds (the last published value, its generation), that reopening
    attaches to the same file with the next generation, and that every log
    such sessions produce is an accepted one. *)
From S2P Require Import Prelude Prog Common Layout Options Names Writer Reader Channel.
From S2P Require Import Memory Protocol History Published WriterProof.
#[local] Open Scope list_scope.
#[local] Open Scope Z_scope.

Section session.
Context {C : Config}.
Context (g : geometry) (Hg : geometry_ok g) (init : mem) (Hfresh : fresh_file g init).

Abbreviation slot i := (slot_offset (g_stride g) i).
Abbreviation accepted := (accepted g init).
Abbreviation cur := (cur g init).
Abbreviation now := (now init).
Abbreviation publications := (publications g init).

(** ** The static part of the header *)

Lemma static_byte (log : list wev) (a : Z) :
  accepted log -> a < HOff.state -> now log a = init a.
Proof.
  induction log as [|x log IH] using rev_ind; intros Ha Hlt; [done |].
  pose proof (accepted_prefix g init log [x] Ha) as Ha'. rewrite <- (IH Ha' Hlt), now_snoc.
  destruct (gat_step g Hg init _ Ha (length log)) as (e & He & Hs); [rewrite length_app; simpl; lia |].
  rewrite lookup_app_r, Nat.sub_diag in He by lia. injection He as <-.
  unfold HOff.state in *.
  destruct Hs as [o i gh' Hi | i gh' Hi Ho | i gh' Hp | o gh' | o i d bs Hi Hd | o off bs Hd Hs];
    cbn [apply_wev]; try done; apply write_out; unfold HOff.latest in *;
    try (pose proof (slot_ge g Hg i ltac:(lia))); unfold HOff.state in *; lia.
Qed.

Lemma static_field (log : list wev) (off n : nat) :
  accepted log -> (off + n <= 36)%nat ->
  field (read_bytes (now log) 0 128) off n = field (read_bytes init 0 128) off n.
Proof.
  intros Ha Hn. rewrite !field_read by lia. f_equal. apply read_bytes_ext. intros a Hin.
  apply static_byte; [done | unfold HOff.state; lia].
Qed.

(** The header as created. *)
Definition header0 : psmi_header := decode_header (read_bytes init 0 128).
Definition header_now (log : list wev) : psmi_header := decode_header (read_bytes (now log) 0 128).

(** Every field the validation and the comparison with the options look at. *)
Lemma header_static (log : list wev) (n : Z) :
  accepted log ->
  header_valid (header_now log) n = header_valid header0 n /\
  h_slot_count (header_now log) = h_slot_count header0 /\
  h_slot_stride (header_now log) = h_slot_stride header0 /\
  h_capacity (header_now log) = h_capacity header0 /\
  h_payload_type (header_now log) = h_payload_type header0 /\
  h_config_flags (header_now log) = h_config_flags header0 /\
  h_version_minor (header_now log) = h_version_minor header0.
Proof.
  intros Ha. unfold header_valid, header_now, header0, decode_header.
  cbn [h_magic h_version_major h_version_minor h_header_size h_slot_header_size h_slot_count
       h_slot_stride h_capacity h_payload_type h_config_flags].
  rewrite !(static_field log) by (done || lia). done.
Qed.

(** ** A new writer *)

Context (blk size : Z) (Hsize : size = psmi_file_size (g_slots g) (g_stride g)).

(** The path names this file; its size, bytes and mappings are this file's. *)
Definition file_env (log : list wev) (e : ev) : resp e -> Prop :=
  match e return resp e -> Prop with
  | SysOpen _ _ _ => fun r => r <> inr ENOENT
  | SysFstat _ => fun r => match r with
                           | inl st => st_isreg st = true /\ st_size st = size
                           | inr _ => True
                           end
  | SysPread _ n off => fun r => match r with
                                 | inl bs => bs = read_bytes (now log) off (Z.to_nat n)
                                 | inr _ => True
                                 end
  | SysMmap _ _ _ _ => fun r => match r with inl b => b = blk | inr _ => True end
  | SysGetrandom _ => fun r => match r with inl bs => Forall is_byte bs | inr _ => True end
  | _ => fun _ => True
  end.

#[local] Instance fsem : Sem (list wev) := writer_sem init blk size file_env accepted.
Abbreviation winv := (winv g init blk).

Lemma wp_random_generation (en : Z) (log : list wev) (Q : Z -> Z -> list wev -> Prop) :
  accepted log -> (forall x en', 0 < x < 4294967296 -> Q x en' log) ->
  wp random_generation en log Q.
Proof.
  intros Ha HQ. unfold random_generation. cbv zeta.
  set (mix := bind (psmi_clock_ns CLOCK_MONOTONIC) _).
  assert (Hend : forall (x en' : Z), 0 <= x < 4294967296 ->
    wp (ret (if negb (x =? 0) then x else 1)) en' log Q).
  { intros x en' Hx. apply wp_ret, HQ. destruct (Z.eqb_spec x 0); cbn [negb]; lia. }
  assert (Hmix : forall en', wp (bind mix (fun g => ret (if negb (g =? 0) then g else 1))) en' log Q).
  { intros en'. apply wp_bind. unfold mix. apply wp_bind, wp_clock; [done |]. intros t1 _.
    apply wp_bind, wp_clock; [done |]. intros t2 _.
    apply wp_bind, wp_quiet; [done | done | done |]. intros pid _ _.
    apply wp_ret, Hend, u32_range. }
  apply wp_bind, wp_quiet; [done | done | done |].
  intros [bs|e] _ Hb; [| apply Hmix].
  destruct (Nat.eqb_spec (length bs) 4) as [E|E]; [| apply Hmix].
  apply wp_bind, wp_ret, Hend. pose proof (le_val_range bs Hb) as H. rewrite E in H. exact H.
Qed.

(** Loads of plain integers by the writer. *)
Lemma wp_plain_load (off en : Z) (n : nat) (log : list wev) (Q : Z -> Z -> list wev -> Prop) :
  accepted log -> in_map blk size (map_ptr blk off) (Z.of_nat n) ->
  Q (le_val (read_bytes (now log) off n)) en log ->
  wp (plain_load (map_ptr blk off) n) en log Q.
Proof.
  intros Ha Hm HQ. unfold plain_load. apply wp_bind.
  enough (H : wp (load_bytes (map_ptr blk off) n) en log
                (fun bs en' log' => bs = read_bytes (now log) off n /\ en' = en /\ log' = log)).
  { eapply wp_mono; [exact H |]. intros bs en' log' (-> & -> & ->). by apply wp_ret. }
  clear HQ. revert off Hm. induction n as [|n IH]; intros off Hm; cbn [load_bytes].
  - by apply wp_ret.
  - destruct Hm as (_ & H0 & H1). cbn [map_ptr p_off] in *. apply wp_bind, wp_quiet;
      [done | done | split; [done | cbn [map_ptr p_off]; lia] |].
    intros b Hb _. change (b = now log off) in Hb. subst b. apply wp_bind.
    eapply wp_mono; [apply (IH (off + 1)); split; [done | cbn [map_ptr p_off]; lia] |].
    intros bs en' log' (-> & -> & ->). apply wp_ret. split; [| done].
    rewrite read_bytes_S. reflexivity.
Qed.

(** What [open_data] computes from the file for the new writer. *)
Definition next_of (log : list wev) (gen : Z) : Prop :=
  match last (publications log) with
  | Some v => gen = gen_succ (v_generation v)
  | None => 0 < gen < 4294967296
  end.

Lemma next_of_range (log : list wev) (gen : Z) :
  accepted log -> next_of log gen -> 0 < gen < 4294967296.
Proof.
  unfold next_of. intros Ha. destruct (last (publications log)) as [v|]; [| done].
  intros ->. unfold gen_succ, UINT32_MAX.
  pose proof (Z.mod_pos_bound (v_generation v) 4294967295). lia.
Qed.

Lemma wp_carried_generation (en : Z) (log : list wev) (Q : Z -> Z -> list wev -> Prop) :
  accepted log ->
  (forall gen en', next_of log gen -> Q gen en' log) ->
  wp (carried_generation (map_ptr blk 0) (g_stride g)
        match gh_latest (cur log) with Some i => i | None => PSMI_LATEST_NONE end) en log Q.
Proof.
  intros Ha HQ. unfold carried_generation.
  pose proof (last_publication g Hg init Hfresh log Ha) as Hl. unfold next_of in HQ.
  pose proof Hg as (Hn & _). pose proof (stride_bounds g Hg).
  destruct (gh_latest (cur log)) as [i|] eqn:E.
  - destruct (gi_latest _ _ _ (cur_inv g Hg init Hfresh log Ha) i E) as (Hi & _).
    destruct (Z.eqb_spec i PSMI_LATEST_NONE) as [E'|_]; [unfold PSMI_LATEST_NONE in E'; lia |].
    rewrite Hl in HQ. unfold ptr_add. cbn [map_ptr p_blk p_off Z.add].
    fold (map_ptr blk (slot i + SOff.generation)).
    apply wp_bind, wp_plain_load; [done | |].
    { apply (slot_in_map g Hg blk size Hsize); unfold SOff.generation; lia. }
    apply wp_ret, HQ. apply last_Some_elem_of in Hl.
    pose proof (publications_ok g Hg init Hfresh log Ha) as Hok. rewrite Forall_forall in Hok.
    destruct (Hok _ Hl) as [Hr _]. rewrite slot_value_eq in *. cbn [v_generation] in *.
    exact (proj2 (next_generation_spec _ Hr)).
  - rewrite Z.eqb_refl. rewrite Hl in HQ. by apply wp_random_generation.
Qed.

Context (Hheader : header_valid header0 size = true) (Hgeom : geometry_of header0 = g).

(** The file is one the options ask for. *)
Definition same_options (o : psmsgr_state_options) : Prop :=
  h_capacity header0 = o_capacity o /\ h_slot_count header0 = o_slot_count o /\
  h_payload_type header0 = o_payload_type o /\ h_config_flags header0 = config_flags_of o /\
  h_version_minor header0 = PSMI_VERSION_MINOR.

(** A complete result of [open_data] on this file. *)
Definition reopened (w0 : psmsgr_state_writer) (log : list wev)
    (x : Z * psmsgr_state_writer) (log' : list wev) : Prop :=
  log' = log /\
  (x = (PSMSGR_E_SYS, w0) \/
   exists w, x = (PSMSGR_OK, w) /\ winv w log /\ next_of log (w_gen w) /\
     w_open_slot w = PSMI_LATEST_NONE /\ w_lock_fd w = w_lock_fd w0).

Lemma wp_open_decide (w0 : psmsgr_state_writer) (o : psmsgr_state_options) (p : paths)
    (en : Z) (log : list wev) :
  accepted log -> same_options o ->
  Z.land (word (now log) HOff.state) PSMI_STATE_RETIRED = 0 ->
  wp (open_decide w0 o p (Some (map_ptr blk 0)) size true (header_now log)
        match gh_latest (cur log) with Some i => i | None => PSMI_LATEST_NONE end) en log
    (fun x _ log' => reopened w0 log x log').
Proof.
  intros Ha (O1 & O2 & O3 & O4 & O5) Hret.
  destruct (header_static log 0 Ha) as (_ & E1 & E2 & E3 & E4 & E5 & E6).
  assert (Est : h_slot_stride header0 = g_stride g) by (by rewrite <- Hgeom).
  unfold open_decide. cbn [default negb]. rewrite E1, E2, E3, E4, E5, E6, Est.
  change (default NULL_PTR (Some (map_ptr blk 0))) with (map_ptr blk 0).
  apply wp_bind, wp_carried_generation; [done |]. intros gen en' Hgen. cbv zeta.
  apply wp_bind, wp_quiet; [done | done | |].
  { split; [by apply (header_in_map g Hg blk size Hsize) | done]. }
  intros s Hs _. change (s = word (now log) HOff.state) in Hs. subst s.
  rewrite Hret, Z.eqb_refl. cbn [negb].
  rewrite O1, O2, O3, O4, O5, !Z.eqb_refl. cbn [negb orb].
  apply wp_ret. split; [done | right]. eexists. split; [done |].
  split; [| by split; [| done]].
  split; try done; unfold writer_attach;
    cbn [w_hdr w_slot_count w_slot_stride w_capacity w_latest w_gen w_open_slot].
  - by rewrite E1, <- Hgeom.
  - by rewrite E2.
  - by rewrite E3, <- Hgeom.
  - by eapply next_of_range.
  - unfold next_of in Hgen. by destruct (last (publications log)).
  - by left.
Qed.

Lemma size_pos : 0 < size.
Proof. rewrite Hsize, (psmi_file_size_arith g Hg). pose proof (stride_bounds g Hg). destruct Hg. nia. Qed.

(** The slot a new writer takes from the [latest] word. *)
Lemma latest_decoded (log : list wev) :
  accepted log ->
  let l := word (now log) HOff.latest in
  psmi_latest_valid l (h_slot_count header0) = true /\
  (if negb (l =? PSMI_LATEST_NONE) then psmi_latest_slot l else l) =
    match gh_latest (cur log) with Some i => i | None => PSMI_LATEST_NONE end.
Proof.
  intros Ha. pose proof (cur_inv g Hg init Hfresh log Ha) as Hinv. cbv zeta.
  rewrite (gi_word _ _ _ Hinv). pose proof Hg as (Hn & _).
  destruct (gh_latest (cur log)) as [i|] eqn:E; [| done].
  destruct (gi_latest _ _ _ Hinv i E) as (Hi & _).
  assert (0 <= seq_of (cur log) i < 4294967296) by apply u32_range.
  pose proof (psmi_latest_not_none i (seq_of (cur log) i) ltac:(lia) ltac:(lia)) as Hnn.
  apply Z.eqb_neq in Hnn. rewrite Hnn. cbn [negb].
  rewrite psmi_latest_valid_latest, psmi_latest_slot_latest by lia. split; [| done].
  apply Z.ltb_lt. replace (h_slot_count header0) with (g_slots g) by (by rewrite <- Hgeom). lia.
Qed.

Lemma wp_open_data (w0 : psmsgr_state_writer) (o : psmsgr_state_options) (p : paths)
    (en : Z) (log : list wev) :
  accepted log -> same_options o ->
  Z.land (word (now log) HOff.state) PSMI_STATE_RETIRED = 0 ->
  wp (open_data w0 o p) en log (fun x _ log' => reopened w0 log x log').
Proof.
  intros Ha Ho Hret. destruct (header_static log size Ha) as (Ev & E1 & E2 & _).
  assert (Hsys : forall en', wp (ret (PSMSGR_E_SYS, w0)) en' log (fun x _ log' => reopened w0 log x log')).
  { intros en'. apply wp_ret. split; [done | by left]. }
  assert (Hclose : forall fd en', wp (bind (close_keep_errno fd) (fun _ => ret (PSMSGR_E_SYS, w0))) en' log
                     (fun x _ log' => reopened w0 log x log')).
  { intros fd en'. unfold close_keep_errno. apply wp_bind, wp_bind, wp_get_errno, wp_bind, wp_quiet;
      [done | done | done |]. intros r _ _. by apply wp_set_errno, Hsys. }
  unfold open_data. apply wp_bind, wp_quiet; [done | done | done |]. intros [fd|e] _ Hopen.
  2: { apply wp_bind, wp_get_errno. cbn [resp_errno]. destruct (Z.eqb_spec e ENOENT) as [->|_];
       [by destruct Hopen | apply Hsys]. }
  apply wp_bind. unfold read_header. apply wp_bind, wp_quiet; [done | done | done |].
  intros [st|e] _ Hst; [| by apply wp_ret, Hclose].
  destruct Hst as [Hreg Hsz]. rewrite Hreg, Hsz. cbn [negb orb].
  pose proof (stride_bounds g Hg). pose proof size_pos.
  assert ((size <? PSMI_HEADER_SIZE) = false) as ->.
  { apply Z.ltb_ge. rewrite Hsize, (psmi_file_size_arith g Hg). unfold PSMI_HEADER_SIZE.
    destruct Hg. nia. }
  apply wp_bind, wp_quiet; [done | done | done |]. intros [bs|e] _ Hbs; [| by apply wp_ret, Hclose].
  cbn [file_env] in Hbs. subst bs. rewrite length_read_bytes.
  change (Z.of_nat (Z.to_nat PSMI_HEADER_SIZE) =? PSMI_HEADER_SIZE) with true.
  apply wp_ret. cbn [Z.eqb PSMSGR_OK PSMSGR_E_SYS]. rewrite Hsz.
  change (Z.to_nat PSMI_HEADER_SIZE) with 128%nat. fold (header_now log).
  rewrite Ev, Hheader, E1, E2. cbv zeta.
  assert (psmi_file_size (h_slot_count header0) (h_slot_stride header0) = size) as ->
    by (by rewrite Hsize, <- Hgeom).
  destruct (Z.eqb_spec size 0); [lia |]. cbn [negb].
  apply wp_bind, wp_bind, wp_quiet; [done | done | done |].
  intros [b|e] _ Hb; [| by apply wp_ret, Hclose]. cbn [file_env] in Hb. subst b.
  apply wp_ret, wp_bind, wp_quiet; [done | done | done |]. intros r _ _.
  apply wp_bind. change (default NULL_PTR (Some {| p_blk := blk; p_off := 0 |})) with (map_ptr blk 0).
  apply wp_quiet; [done | done | split; [by apply (header_in_map g Hg blk size Hsize) | done] |].
  intros l Hl _. change (l = word (now log) HOff.latest) in Hl.
  subst l. destruct (latest_decoded log Ha) as [-> ->]. cbn [andb]. by apply wp_open_decide.
Qed.

(** ** Any sequence of sessions *)

(** What the holder of the writer lock does with its handle; [APut]: the
    application writes to the buffer that [psmsgr_state_begin] handed out. *)
Inductive action :=
  | APublish (data : list Z)
  | ABegin
  | APut (d : Z) (bs : list Z)
  | ACommit (len : Z)
  | AAbort
  | APid (pid : Z)
  | ARetire.

Definition run_action (a : action) (w : psmsgr_state_writer) : prog psmsgr_state_writer :=
  match a with
  | APublish data =>
      let* (_, w', _) := psmsgr_state_publish (Some w) (Some data) (Z.of_nat (length data)) in
      ret (default w w')
  | ABegin => let* (_, w', _) := psmsgr_state_begin (Some w) false in ret (default w w')
  | APut d bs =>
      store_bytes (ptr_add (writer_slot w (w_open_slot w)) (PSMI_SLOT_HEADER_SIZE + d)) bs ;;; ret w
  | ACommit len => let* (_, w', _) := psmsgr_state_commit (Some w) len in ret (default w w')
  | AAbort => ret (default w (snd (psmsgr_state_abort (Some w))))
  | APid pid => plain_store (ptr_add (w_hdr w) HOff.writer_pid) 4 (u32 pid) ;;; ret w
  | ARetire => retire (w_hdr w) ;;; ret w
  end.

(** What the API asks of the application: to write into an open buffer only,
    and inside the capacity; lengths are unsigned. *)
Definition action_ok (w : psmsgr_state_writer) (a : action) : Prop :=
  match a with
  | APut d bs => w_open_slot w <> PSMI_LATEST_NONE /\ 0 <= d /\
                 d + Z.of_nat (length bs) <= w_capacity w
  | ACommit len => 0 <= len
  | _ => True
  end.

Lemma wp_action (a : action) (w : psmsgr_state_writer) (en : Z) (log : list wev) :
  winv w log -> action_ok w a -> wp (run_action a w) en log (fun w' _ log' => winv w' log').
Proof.
  intros Hw Hok. pose proof (wi_acc _ _ _ _ _ Hw) as Ha.
  destruct a as [data| |d bs|len| |pid|]; cbn [run_action action_ok] in *.
  - apply wp_bind. destruct (decide (w_open_slot w = PSMI_LATEST_NONE)) as [E|E];
      [destruct (decide (Z.of_nat (length data) <= w_capacity w)) |].
    + by apply wp_state_publish.
    + unfold psmsgr_state_publish. rewrite E. cbn [Z.eqb negb].
      destruct (Z.ltb_spec (w_capacity w) (Z.of_nat (length data))); [| lia]. by do 2 apply wp_ret.
    + unfold psmsgr_state_publish. apply Z.eqb_neq in E. rewrite E. by do 2 apply wp_ret.
  - apply wp_bind. destruct (decide (w_open_slot w = PSMI_LATEST_NONE)) as [E|E].
    + by apply wp_state_begin.
    + unfold psmsgr_state_begin. apply Z.eqb_neq in E. rewrite E. by do 2 apply wp_ret.
  - destruct Hok as (Hno & Hd & Hl). rewrite (slot_ptr g init blk w log) by done.
    destruct (wi_open _ _ _ _ _ Hw) as [|(Hi & Ho & _)]; [done |].
    rewrite (wi_cap _ _ _ _ _ Hw) in Hl. pose proof (stride_bounds g Hg).
    apply wp_bind, wp_slot_bytes; try done; try (unfold PSMI_SLOT_HEADER_SIZE; lia).
    intros log' W. apply wp_ret. by eapply wrote_winv.
  - apply wp_bind. destruct (decide (w_open_slot w = PSMI_LATEST_NONE)) as [E|E];
      [| destruct (decide (len <= w_capacity w))].
    + unfold psmsgr_state_commit. rewrite E. by do 2 apply wp_ret.
    + by apply wp_state_commit.
    + unfold psmsgr_state_commit. apply Z.eqb_neq in E. rewrite E.
      destruct (Z.ltb_spec (w_capacity w) len); [| lia]. by do 2 apply wp_ret.
  - apply wp_ret. destruct (psmsgr_state_abort (Some w)) as [rc [w'|]] eqn:E; [| done].
    by eapply abort_winv.
  - rewrite (ptr_at g init blk w log) by done. apply wp_bind. eapply wp_pid_bytes; try done.
    intros log' W. apply wp_ret. by eapply wrote_winv.
  - apply wp_bind. eapply wp_retire; try done.
Qed.

(** The logs of a file's life, and the handle of the writer attached to it:
    created by [w0]; reopened by another process through [open_data]; used;
    left by a writer that closed it, was killed or crashed anywhere inside a
    call ([steps] stops at any event). *)
Inductive written : list wev -> option psmsgr_state_writer -> Prop :=
  | written_created w0 gen :
      0 < gen < 4294967296 ->
      written [] (Some (writer_attach w0 (map_ptr blk 0) size header0 PSMI_LATEST_NONE gen))
  | written_reopened log ow w0 o p en tr w en' log' :
      written log ow -> same_options o ->
      Z.land (word (now log) HOff.state) PSMI_STATE_RETIRED = 0 ->
      exec (open_data w0 o p) en log tr (PSMSGR_OK, w) en' log' ->
      written log' (Some w)
  | written_action log w a en tr w' en' log' :
      written log (Some w) -> action_ok w a ->
      exec (run_action a w) en log tr w' en' log' ->
      written log' (Some w')
  | written_stopped log w a en tr p' log' :
      written log (Some w) -> action_ok w a ->
      steps (run_action a w en) log tr p' log' ->
      written log' None.

(** Every state a run passes through has an accepted log. *)
Lemma steps_accepted {A : Type} (p p' : free A) (log log' : list wev) (tr : list event)
    (Q : A -> list wev -> Prop) :
  accepted log -> wpf p log Q -> steps p log tr p' log' -> accepted log'.
Proof.
  intros Ha Hp Hs. induction Hs as [|e k log r log1 tr p' log' Hstep Hs IH]; [done |].
  destruct Hp as [[_ Hacc] Hk]. apply IH; [| by apply Hk].
  destruct Hstep as [_ ->]. done.
Qed.

Lemma created_winv (w0 : psmsgr_state_writer) (gen : Z) :
  0 < gen < 4294967296 ->
  winv (writer_attach w0 (map_ptr blk 0) size header0 PSMI_LATEST_NONE gen) [].
Proof.
  intros Hgen. split; unfold writer_attach;
    cbn [w_hdr w_slot_count w_slot_stride w_capacity w_latest w_gen w_open_slot]; try done.
  - apply accepted_nil.
  - by rewrite <- Hgeom.
  - by rewrite <- Hgeom.
  - by rewrite <- Hgeom.
  - by left.
Qed.

Lemma written_inv (log : list wev) (ow : option psmsgr_state_writer) :
  written log ow -> accepted log /\ match ow with Some w => winv w log | None => True end.
Proof.
  induction 1 as [w0 gen Hgen | log ow w0 o p en tr w en' log' _ [IH _] Ho Hr Hx |
                  log w a en tr w' en' log' _ [Ha Hw] Hok Hx |
                  log w a en tr p' log' _ [Ha Hw] Hok Hs].
  - split; [apply accepted_nil | by apply created_winv].
  - pose proof (wp_exec _ _ _ _ (wp_open_data w0 o p en log IH Ho Hr) _ _ _ _ Hx) as [-> H].
    split; [done |]. destruct H as [H | (w' & [= <-] & H & _)]; done.
  - pose proof (wp_exec _ _ _ _ (wp_action a w en log Hw Hok) _ _ _ _ Hx) as H.
    split; [apply H | done].
  - split; [| done]. eapply steps_accepted; [exact Ha | | exact Hs].
    exact (wp_action a w en log Hw Hok).
Qed.
End session.
