(* ===== verification/Delivery.v ===== *)
(** * What a channel promises

    The writers' side (Session.v) and the readers' side (Seqlock.v) put
    together: a reader attached to a file, while any sequence of writers, each
    free to crash inside any call, lives on it. *)
From S2P Require Import Prelude Prog Common Layout Options Names Writer Reader Channel.
From S2P Require Import Memory Protocol History Published Seqlock WriterProof Session.
#[local] Open Scope list_scope.
#[local] Open Scope Z_scope.

(** A data file as [create_file] renames it into place, mapped whole at [blk]. *)
Record data_file (g : geometry) (init : mem) (size : Z) : Prop := {
  df_geometry : geometry_ok g;
  df_fresh : fresh_file g init;
  df_size : size = psmi_file_size (g_slots g) (g_stride g);
  df_valid : header_valid (header0 init) size = true;
  df_header : geometry_of (header0 init) = g
}.

Section delivery.
Context {C : Config} (g : geometry) (init : mem) (blk size : Z).

Abbreviation written := (written g init blk size).
Abbreviation publications := (publications g init).
Abbreviation published := (published g init).

(** What can happen to a file that is not retired between two steps of a
    reader: its writers do some more of what writers do. *)
Definition later (log log' : list wev) : Prop :=
  (exists ext, log' = log ++ ext) /\ (exists ow, written log' ow) /\
  forall t, (t <= length log')%nat ->
    Z.land (word (mem_at init log' t) HOff.state) PSMI_STATE_RETIRED = 0.

(** The reader's machine on this file. *)
Definition reader_of_file : Sem rstate := reader_sem init blk size later.

(** A reader that has seen some of what the writers did so far. *)
Definition reader_state (s : rstate) : Prop :=
  (exists ow, written (rs_log s) ow) /\ (rs_cur s <= length (rs_log s))%nat /\
  (rs_acq s <= length (rs_log s))%nat.

(** The writer's machine on this file. *)
Definition writer_of_file : Sem (list wev) :=
  writer_sem init blk size (file_env init blk size) (accepted g init).

(** The value the file holds: what its [latest] word and slots say. *)
Definition holds (m : mem) (v : value) : Prop :=
  let seq := word m (slot_offset (g_stride g) (v_slot v)) in
  0 <= v_slot v < g_slots g /\ seq mod 2 = 0 /\
  word m HOff.latest = psmi_latest (v_slot v) seq /\ slot_value g m (v_slot v) = v.

Section lemmas.
Context (F : data_file g init size).

Lemma written_accepted (log : list wev) (ow : option psmsgr_state_writer) :
  written log ow -> accepted g init log.
Proof. intros H. by apply (written_inv g (df_geometry _ _ _ F) init (df_fresh _ _ _ F) blk size
  (df_size _ _ _ F) (df_valid _ _ _ F) (df_header _ _ _ F)) in H as [H _]. Qed.

Lemma later_grow (log log' : list wev) :
  later log log' -> exists ext, log' = log ++ ext /\ accepted g init log'.
Proof.
  intros ([ext E] & [ow H] & _). exists ext. split; [done |]. by eapply written_accepted.
Qed.

Lemma later_live (log log' : list wev) (t : nat) :
  later log log' -> (t <= length log')%nat ->
  Z.land (word (mem_at init log' t) HOff.state) PSMI_STATE_RETIRED = 0.
Proof. intros (_ & _ & H). apply H. Qed.

Lemma reader_state_rinv (s : rstate) : reader_state s -> rinv g init s.
Proof. intros ([ow H] & Hc & Ha). split; [by eapply written_accepted | done]. Qed.

Lemma wp_read (r : psmsgr_state_reader) (buf : list Z) (sz en : Z) (s : rstate) :
  psmi_test_skip_seq_recheck = false ->
  rinv g init s -> attached_to g blk r -> 0 <= sz <= Z.of_nat (length buf) ->
  wp (HS := reader_of_file) (psmsgr_state_read (Some r) (Some buf) sz false) en s
    (api_post g init blk true sz (info_flags r) buf en s).
Proof.
  intros Hh Hs Hr Hsz. destruct F. apply wp_state_read; try done.
  - apply later_grow.
  - apply later_live.
Qed.

Lemma holds_last (log : list wev) :
  accepted g init log ->
  match last (publications log) with
  | Some v => holds (now init log) v
  | None => word (now init log) HOff.latest = PSMI_LATEST_NONE
  end.
Proof.
  intros Ha. pose proof F as [Hg Hfresh _ _ _].
  pose proof (cur_inv g Hg init Hfresh log Ha) as Hinv.
  pose proof (last_publication g Hg init Hfresh log Ha) as Hl.
  pose proof (gi_word _ _ _ Hinv) as Hw.
  destruct (gh_latest (cur g init log)) as [i|] eqn:E; [| by rewrite Hl].
  rewrite Hl. destruct (gi_latest _ _ _ Hinv i E) as (Hi & Ho & _).
  unfold holds. cbn [v_slot slot_value]. rewrite (gi_seq _ _ _ Hinv i Hi), Hw.
  repeat split; try lia; try done.
  unfold seq_of. rewrite Ho, u32_mod2, Z.add_0_r, Z.mul_comm. apply Z_mod_mult.
Qed.

(** The last publish of a log is its last value. *)
Lemma publications_last (log : list wev) (j : nat) (v : value) :
  published log j = Some v ->
  (forall j', (j' < length log)%nat -> is_Some (published log j') -> (j' <= j)%nat) ->
  last (publications log) = Some v.
Proof.
  intros Hv Hlast.
  assert (Hj : (j < length log)%nat).
  { unfold Protocol.published in Hv. destruct (log !! j) eqn:E; [| done].
    by eapply lookup_lt_Some. }
  unfold Published.publications.
  replace (length log) with (j + (1 + (length log - S j)))%nat by lia.
  rewrite !seq_app, !omap_app. simpl. rewrite Hv.
  rewrite (omap_none _ (seq (j + 1) (length log - S j))).
  - by rewrite app_nil_r, last_snoc.
  - intros k Hk. apply elem_of_seq in Hk.
    destruct (published log k) eqn:E; [| done].
    specialize (Hlast k ltac:(lia) ltac:(by rewrite E)). lia.
Qed.

(** The slot of the last publish is not committed again. *)
Lemma last_not_committed (log : list wev) (j : nat) (v : value) :
  accepted g init log -> published log j = Some v ->
  (forall j', (j' < length log)%nat -> is_Some (published log j') -> (j' <= j)%nat) ->
  commits_since g log j (v_slot v) = 0.
Proof.
  intros Ha Hv Hlast. pose proof F as [Hg Hfresh _ _ _].
  assert (Hj : (j < length log)%nat).
  { unfold Protocol.published in Hv. destruct (log !! j) eqn:E; [| done].
    by eapply lookup_lt_Some. }
  pose proof (latest_history g Hg init Hfresh log Ha (length log) ltac:(lia)) as H.
  destruct (gh_latest _) as [i|].
  2: { exfalso. destruct H as [_ H]. apply (H j Hj). by exists v. }
  destruct H as [j0 H]. pose proof (published_latest g Hg init log _ _ _ H) as Hp.
  pose proof (last_write_lt _ _ _ _ (lo_write _ _ _ _ _ _ H)) as [Hj0 _].
  pose proof (lo_last _ _ _ _ _ _ H j Hj ltac:(by exists v)).
  pose proof (Hlast j0 Hj0 ltac:(by rewrite Hp)). assert (j0 = j) as -> by lia.
  rewrite Hp in Hv. injection Hv as <-. cbn [v_slot slot_value].
  pose proof (lo_slot _ _ _ _ _ _ H).
  rewrite (cnt_since g Hg init Hfresh log Ha j i) by done.
  rewrite (publish_cnt g Hg init Hfresh log Ha _ j i H), (lo_cnt _ _ _ _ _ _ H). lia.
Qed.
End lemmas.

(** ** Properties *)

(** C1. A read is never torn, stale or out of bounds.  While any writers live
    on the file - each started, stopped, killed or crashed anywhere - the
    complete [psmsgr_state_read] of an attached reader terminates, loads only
    aligned words and bytes of its mapping and never stores to it, leaves
    [errno], the handle's mapping and the caller's buffer beyond [size]
    alone, and returns: NODATA only if nothing had been published as far as
    the reader knew; else OK with the length, generation, timestamp and all
    bytes of one published value, or TOOSMALL with its description if it is
    longer than [size], the value being no older than the newest one the
    reader had seen, unless its slot was reused 2^27 times during the call;
    BUSY only if a writer stored to the file meanwhile. *)
Theorem read_delivers (r : psmsgr_state_reader) (buf : list Z) (sz en : Z) (s : rstate) :
  data_file g init size -> psmi_test_skip_seq_recheck = false ->
  reader_state s -> attached_to g blk r -> 0 <= sz <= Z.of_nat (length buf) ->
  wp (HS := reader_of_file) (psmsgr_state_read (Some r) (Some buf) sz false) en s
    (api_post g init blk true sz (info_flags r) buf en s).
Proof. intros F Hh Hs. apply wp_read; try done. by apply reader_state_rinv. Qed.

(** A peek reports the description of a published value under the same
    guarantees, and touches no buffer. *)
Theorem peek_describes (r : psmsgr_state_reader) (en : Z) (s : rstate) :
  data_file g init size -> psmi_test_skip_seq_recheck = false ->
  reader_state s -> attached_to g blk r ->
  wp (HS := reader_of_file) (psmsgr_state_peek (Some r) false) en s
    (fun x => api_post g init blk false 0 (info_flags r) [] en s
                (fst x, (fst (snd x), [], snd (snd x)))).
Proof.
  intros F Hh Hs Hr. pose proof F as []. apply wp_state_peek; try done.
  - by apply later_grow.
  - apply later_live.
  - by apply reader_state_rinv.
Qed.

(** C2. Reads of one handle never go back in time: after a read that returned
    a value, the next one does not report NODATA, and if it returns a value,
    that was published by the same event or a later one. *)
Theorem reads_never_go_back (r r1 r2 : option psmsgr_state_reader) (buf1 buf2 b1 b2 : list Z)
    (sz1 sz2 en en1 en2 rc1 rc2 : Z) (i1 i2 : option psmsgr_state_info) (s s1 s2 : rstate)
    (tr1 tr2 : list event) :
  data_file g init size -> psmi_test_skip_seq_recheck = false -> reader_state s ->
  (exists r0, r = Some r0 /\ attached_to g blk r0) ->
  0 <= sz1 <= Z.of_nat (length buf1) -> 0 <= sz2 <= Z.of_nat (length buf2) ->
  exec (H := reader_of_file) (psmsgr_state_read r (Some buf1) sz1 false) en s
    tr1 (r1, (rc1, b1, i1)) en1 s1 ->
  exec (H := reader_of_file) (psmsgr_state_read r1 (Some buf2) sz2 false) en1 s1
    tr2 (r2, (rc2, b2, i2)) en2 s2 ->
  rc1 = PSMSGR_OK \/ rc1 = PSMSGR_E_TOOSMALL ->
  rc2 <> PSMSGR_E_NODATA /\
  (rc2 = PSMSGR_OK \/ rc2 = PSMSGR_E_TOOSMALL -> exists j1 v1 j2 v2,
     published (rs_log s2) j1 = Some v1 /\ published (rs_log s2) j2 = Some v2 /\
     (j1 <= j2)%nat /\
     (commits_since g (rs_log s1) j1 (v_slot v1) < 134217728 ->
        exists i, i1 = Some i /\ names_value i v1) /\
     (commits_since g (rs_log s2) j2 (v_slot v2) < 134217728 ->
        exists i, i2 = Some i /\ names_value i v2)).
Proof.
  intros F Hh Hs (r0 & -> & Hr0) Hsz1 Hsz2 X1 X2 Hrc1.
  pose proof (reader_state_rinv F s Hs) as Hi.
  destruct (wp_exec _ _ _ _ (wp_read F r0 buf1 sz1 en s Hh Hi Hr0 Hsz1) _ _ _ _ X1)
    as (r1' & [= ->] & Hr1 & _ & Hx1 & _ & Ho1).
  destruct (wp_exec _ _ _ _ (wp_read F r1' buf2 sz2 en1 s1 Hh (proj1 Hx1) Hr1 Hsz2) _ _ _ _ X2)
    as (r2' & [= ->] & Hr2 & _ & Hx2 & _ & Ho2). cbn [snd] in Ho1, Ho2.
  inversion Ho1 as [b' Hn | rc' b' i' j1 v1 P1 P2 P3 P4 P5 | b' Hn]; subst;
    [by destruct Hrc1 | | by destruct Hrc1].
  assert (Hp1 : published (rs_log s2) j1 = Some v1).
  { destruct Hx2 as (_ & [ext ->] & _). pose proof (proj1 (proj2 (proj1 Hx1))).
    unfold Protocol.published. rewrite lookup_app_l, mem_at_app by lia. exact P1. }
  inversion Ho2 as [b'' Hn | rc'' b'' i'' j2 v2 Q1 Q2 Q3 Q4 Q5 | b'' Hn]; subst.
  - exfalso. apply (Hn j1 P2). by rewrite Hp1.
  - split; [by destruct Q4 as [-> | [-> | ->]] |]. intros _. exists j1, v1, j2, v2.
    do 2 (split; [done |]). split; [apply (Q3 j1 P2); by rewrite Hp1 |].
    split; intros Hc; [destruct (P5 Hc) as (i & H1 & H2 & _) | destruct (Q5 Hc) as (i & H1 & H2 & _)];
      by exists i.
  - split; [done |]. by intros [|].
Qed.

(** C5. Writers never block readers: when no writer stores during the call
    and the reader sees all stores - a writer may have died in the middle of
    anything before - a read does not fail and does not give up: it returns
    the last published value (or its description, if it does not fit), or
    NODATA if there is none. *)
Theorem quiet_read_succeeds (r : psmsgr_state_reader) (buf : list Z) (sz en : Z) (s : rstate) :
  data_file g init size -> psmi_test_skip_seq_recheck = false ->
  reader_state s -> attached_to g blk r -> 0 <= sz <= Z.of_nat (length buf) ->
  wp (HS := reader_of_file) (psmsgr_state_read (Some r) (Some buf) sz false) en s
    (fun '(_, (rc, buf', info)) _ s' => quiet s s' ->
       match last (publications (rs_log s)) with
       | None => rc = PSMSGR_E_NODATA /\ info = None
       | Some v => exists i, info = Some i /\ names_value i v /\
           if v_length v <=? sz
           then rc = PSMSGR_OK /\ take (Z.to_nat (v_length v)) buf' = v_data v
           else rc = PSMSGR_E_TOOSMALL
       end).
Proof.
  intros F Hh Hs Hr Hsz. pose proof (reader_state_rinv F s Hs) as Hi.
  eapply wp_mono; [by apply wp_read |].
  intros [r' [[rc buf'] info]] en' s' (r0 & _ & _ & _ & Hx & _ & Ho) Hq.
  pose proof Hq as [El Ec]. cbn [snd] in Ho.
  inversion Ho as [b' Hn | rc' b' i' j v P1 P2 P3 P4 P5 | b' Hn]; subst; [| | done].
  - rewrite El, Ec in Hn. enough (E : publications (rs_log s) = []) by (by rewrite E).
    apply omap_none. intros k Hk. apply elem_of_seq in Hk.
    destruct (published (rs_log s) k) eqn:E; [| done].
    exfalso. apply (Hn k); [lia | by rewrite E].
  - rewrite El in *. rewrite Ec in P3. rewrite (publications_last (rs_log s) j v) by done.
    rewrite (last_not_committed F (rs_log s) j v (proj1 Hi) P1 P3) in P5.
    destruct (P5 ltac:(lia)) as (i & -> & Hn & _ & Hc). exists i. do 2 (split; [done |]).
    cbn [andb] in Hc. destruct (v_length v <=? sz); cbn [negb] in Hc; [| done].
    destruct Hc as [-> Hd]. by split; [| apply Hd].
Qed.

(** C3. Crash safety.  Whatever writers did on the file and wherever they
    stopped, the [latest] word names the last value published in it, in a
    slot whose [seq] is even and matches it, and the slot still holds exactly
    that value. *)
Theorem crash_keeps_value (log : list wev) (ow : option psmsgr_state_writer) :
  data_file g init size -> written log ow ->
  match last (publications log) with
  | Some v => holds (now init log) v
  | None => word (now init log) HOff.latest = PSMI_LATEST_NONE
  end.
Proof. intros F H. apply (holds_last F). by apply (written_accepted F log ow). Qed.

(** C13. Generations are consecutive: over the whole life of a file, across
    writers, aborts and crashes, every published value carries the generation
    after the one before it (1 follows 2^32 - 1, 0 is never used), and fits
    the capacity. *)
Theorem generations_consecutive (log : list wev) (ow : option psmsgr_state_writer) :
  data_file g init size -> written log ow ->
  (forall v, v ∈ publications log -> 0 < v_generation v < 4294967296 /\ v_length v <= g_cap g) /\
  (forall k u v, publications log !! k = Some u -> publications log !! S k = Some v ->
     v_generation v = gen_succ (v_generation u)).
Proof.
  intros F H. pose proof (written_accepted F log ow H) as Ha. pose proof F as [Hg Hfresh _ _ _].
  split.
  - apply Forall_forall. by apply publications_ok.
  - intros k u v. by apply publications_chain.
Qed.

(** C4. Publish.  On an attached handle [psmsgr_state_publish] refuses with
    STATE while a begin is open and with TOOBIG beyond the capacity, changing
    nothing; otherwise it returns OK and the handle's generation, publishes
    exactly the caller's bytes under that generation, in the slot after the
    last one, and steps the handle to the next generation.  On the way it
    stores only where the protocol allows. *)
Theorem publish_adds_value (w : psmsgr_state_writer) (data : list Z) (en : Z) (log : list wev) :
  data_file g init size -> winv g init blk w log ->
  wp (HS := writer_of_file)
    (psmsgr_state_publish (Some w) (Some data) (Z.of_nat (length data))) en log
    (fun '(rc, w', gen) _ log' =>
       if negb (w_open_slot w =? PSMI_LATEST_NONE)
       then rc = PSMSGR_E_STATE /\ w' = Some w /\ gen = None /\ log' = log
       else if w_capacity w <? Z.of_nat (length data)
       then rc = PSMSGR_E_TOOBIG /\ w' = Some w /\ gen = None /\ log' = log
       else rc = PSMSGR_OK /\ gen = Some (w_gen w) /\ exists w1 ts,
         w' = Some w1 /\ winv g init blk w1 log' /\
         w_open_slot w1 = PSMI_LATEST_NONE /\ w_gen w1 = next_generation (w_gen w) /\
         0 <= ts < 18446744073709551616 /\
         publications log' = publications log ++ [new_value w (target w) ts data]).
Proof.
  intros [Hg Hfresh Hsize _ _] Hw.
  destruct (negb (w_open_slot w =? PSMI_LATEST_NONE)) eqn:Eo;
    [| destruct (w_capacity w <? Z.of_nat (length data)) eqn:Ec].
  - unfold psmsgr_state_publish. rewrite Eo. by apply wp_ret.
  - unfold psmsgr_state_publish. rewrite Eo, Ec. by apply wp_ret.
  - apply negb_false_iff in Eo. bool_hyps.
    apply (wp_state_publish g Hg init Hfresh blk size Hsize); [done | done | lia |].
    intros w' log' ts en' Hw' Ho' Hg' Hts Hp. do 2 (split; [done |]). by exists w', ts.
Qed.

(** The zero-copy publish of [data], as an application does it. *)
Definition zero_copy_publish (w : psmsgr_state_writer) (data : list Z) : prog wresult :=
  let* (_, w1, p) := psmsgr_state_begin (Some w) false in
  store_bytes (default NULL_PTR p) data ;;;
  psmsgr_state_commit w1 (Z.of_nat (length data)).

(** The copy of exactly the caller's bytes. *)
Lemma copy_to_all (dst : ptr) (data : list Z) :
  psmi_seq_copy_to dst data (Z.of_nat (length data)) = store_bytes dst data.
Proof. unfold psmi_seq_copy_to. rewrite Nat2Z.id, firstn_all. by destruct data. Qed.

(** [begin] opens a slot, for any handle with one. *)
Lemma begin_slot_opens {A : Type} (w : psmsgr_state_writer) (f f' : ptr * psmsgr_state_writer -> prog A) :
  0 < w_slot_count w < 4294967296 ->
  (forall p w1, w_open_slot w1 <> PSMI_LATEST_NONE -> w_capacity w1 = w_capacity w ->
     f (p, w1) ≈ f' (p, w1)) ->
  bind (begin_slot w) f ≈ bind (begin_slot w) f'.
Proof.
  intros Hn Hf. unfold begin_slot. cbv zeta.
  do 3 (apply bind_under; intros ?).
  rewrite !ret_bind. apply Hf; [| done]. cbn [w_open_slot w_set_open]. unfold PSMI_LATEST_NONE.
  destruct (_ =? _); [lia |]. pose proof (Z.mod_pos_bound (u32 (w_latest w + 1)) (w_slot_count w)). lia.
Qed.

Lemma zero_copy_same (w : psmsgr_state_writer) (data : list Z) :
  w_open_slot w = PSMI_LATEST_NONE -> 0 < w_slot_count w < 4294967296 ->
  Z.of_nat (length data) <= w_capacity w ->
  zero_copy_publish w data ≈
    psmsgr_state_publish (Some w) (Some data) (Z.of_nat (length data)).
Proof.
  intros Ho Hn Hlen. unfold zero_copy_publish, psmsgr_state_begin, psmsgr_state_publish.
  rewrite Ho, Z.eqb_refl. cbn [negb]. destruct (Z.ltb_spec (w_capacity w) (Z.of_nat (length data))); [lia |].
  rewrite bind_assoc. apply begin_slot_opens; [done |]. intros p w1 Ho1 Hc1.
  rewrite ret_bind. cbn [default from_option]. rewrite copy_to_all.
  apply bind_same; [reflexivity |]. intros [].
  unfold psmsgr_state_commit. apply Z.eqb_neq in Ho1 as ->. rewrite Hc1.
  destruct (Z.ltb_spec (w_capacity w) (Z.of_nat (length data))); [lia | reflexivity].
Qed.

(** C19. Begin, write, commit is publish.  On an attached handle with no begin
    open and for bytes that fit, the two are the same program: from the first
    load to the wake-up of the waiters they do the same events in the same
    order on the same addresses with the same values, whatever is answered, so
    in every environment (a memory model, a system) each run of one is a run
    of the other, with the same result, handle, generation and [errno].  So
    the zero-copy publish, too, returns OK and adds exactly the bytes as the
    next value, and nothing else. *)
Theorem zero_copy_is_publish (w : psmsgr_state_writer) (data : list Z) (en : Z) (log : list wev) :
  data_file g init size -> winv g init blk w log -> w_open_slot w = PSMI_LATEST_NONE ->
  Z.of_nat (length data) <= w_capacity w ->
  zero_copy_publish w data ≈
    psmsgr_state_publish (Some w) (Some data) (Z.of_nat (length data)) /\
  (forall (S : Type) (env : Sem S) (s s' : S) (tr : list event) (x : wresult) (en' : Z),
     exec (H := env) (zero_copy_publish w data) en s tr x en' s' <->
     exec (H := env) (psmsgr_state_publish (Some w) (Some data) (Z.of_nat (length data)))
       en s tr x en' s') /\
  wp (HS := writer_of_file) (zero_copy_publish w data) en log
    (fun '(rc, w', gen) _ log' =>
       rc = PSMSGR_OK /\ gen = Some (w_gen w) /\ exists w1 ts,
         w' = Some w1 /\ winv g init blk w1 log' /\
         w_open_slot w1 = PSMI_LATEST_NONE /\ w_gen w1 = next_generation (w_gen w) /\
         0 <= ts < 18446744073709551616 /\
         publications log' = publications log ++ [new_value w (target w) ts data]).
Proof.
  intros [Hg Hfresh Hsize _ _] Hw Hno Hlen.
  assert (Hn : 0 < w_slot_count w < 4294967296).
  { rewrite (wi_count _ _ _ _ _ Hw). destruct Hg as (H & _). lia. }
  pose proof (zero_copy_same w data Hno Hn Hlen) as Hsame.
  split; [done |]. split; [intros; by apply same_exec |].
  apply (same_wp _ _ _ _ _ (symmetry Hsame)).
  apply (wp_state_publish g Hg init Hfresh blk size Hsize); [done | done | lia |].
  intros w' log' ts en' Hw' Ho' Hg' Hts Hp. do 2 (split; [done |]). by exists w', ts.
Qed.

(** C14. A writer restarts where the last one stopped: opening the channel
    again with the same options, after a clean close or a crash anywhere,
    attaches to the same file without a store to it, with no begin open and
    with the generation after the last published one (a random one, not 0, if
    there is none); if a system call fails it returns SYS and the handle as
    it was. *)
Theorem reopen_continues (log : list wev) (ow : option psmsgr_state_writer)
    (w0 : psmsgr_state_writer) (o : psmsgr_state_options) (p : paths) (en : Z) :
  data_file g init size -> written log ow -> same_options init o ->
  Z.land (word (now init log) HOff.state) PSMI_STATE_RETIRED = 0 ->
  wp (HS := writer_of_file) (open_data w0 o p) en log
    (fun x _ log' => reopened g init blk w0 log x log').
Proof.
  intros F H Ho Hr. pose proof (written_accepted F log ow H) as Ha. destruct F.
  by apply wp_open_data.
Qed.
End delivery.
