(* ===== verification/Example.v ===== *)
(** * A file in use

    A concrete channel - two slots of 32 bytes - created, written to and read:
    the hypotheses of the theorems of Delivery.v hold of it, and its runs are
    computed. *)
From S2P Require Import Prelude Prog Common Layout Options Names Writer Reader Channel.
From S2P Require Import Memory Protocol History Published Seqlock WriterProof Session Delivery.
#[local] Open Scope list_scope.
#[local] Open Scope Z_scope.

#[local] Existing Instance config64.

Definition ex_geometry : geometry := {| g_slots := 2; g_stride := 64; g_cap := 32 |}.
Definition ex_size : Z := 256.

Definition ex_options : psmsgr_state_options := {|
  o_struct_size := 40; o_capacity := 32; o_payload_type := 7; o_slot_count := 2; o_flags := 0; o_mode := 0;
  o_dir := None |}.

Definition ex_init : mem := fun a =>
  if a <? 128 then encode_header (fresh_header ex_options 5) !!! Z.to_nat a else 0.

Lemma ex_data_file : data_file ex_geometry ex_init ex_size.
Proof.
  split.
  - split; [cbn; lia | split; [cbn; lia | reflexivity]].
  - split; [reflexivity |]. intros i Hi. simpl in Hi.
    assert (i = 0 \/ i = 1) as [-> | ->] by lia; reflexivity.
  - reflexivity.
  - reflexivity.
  - reflexivity.
Qed.

(** ** Answers of a system in which nothing fails *)

Definition calm (e : ev) : resp e :=
  match e return resp e with
  | Load32 _ _ | Load8 _ | FetchOr32 _ _ _ | FetchAdd32 _ _ _ => 0
  | Store32 _ _ _ | Store8 _ _ | Fence _ => tt
  | SysOpen _ _ _ => inl 3
  | SysClose _ | SysFchmod _ _ | SysSetlk _ => inl tt
  | SysFstat _ | SysLstat _ => inl {| st_dev := 1; st_ino := 2; st_size := 0; st_isreg := true |}
  | SysPread _ _ _ => inl []
  | SysGetlk _ => inl false
  | SysMkostemp t => inl (3, t)
  | SysFallocate _ _ _ => 0
  | SysMmap _ _ _ _ => inl 1
  | SysMunmap _ _ | SysRename _ _ | SysUnlink _ | SysUnlinkat _ _ => inl tt
  | SysOpendir _ => inl 4
  | SysReaddir _ => None
  | SysClosedir _ => inl tt
  | SysFutexWake _ => inl 0
  | SysFutexWait _ _ _ _ => inl tt
  | SysClockGettime _ => (1, 5)
  | SysNanosleep _ _ => 0
  | SysSleepUntil _ _ => 0
  | SysSchedYield => tt
  | SysGetpid | SysGetppid => 77
  | SysGetrandom n => inl (replicate (Z.to_nat n) 9)
  | SysPipe => inl (5, 6)
  | SysFork => inl 78
  | SysPrctlPdeathsig | SysRmdir _ => inl tt
  | SysMkdtemp t => (t, None)
  | SysUname => None
  | SysNprocs => 1
  | Fopen _ => inr ENOENT
  | Fgets _ _ => None
  | Fclose _ => tt
  | SysRead _ _ => inl []
  | SysWrite _ bs => inl (Z.of_nat (length bs))
  | SysWaitpid _ => inl (Some 0)
  | Getenv _ => None
  | Malloc _ => Some 8
  | Free _ => tt
  | Print _ _ => tt
  | ReadStop => false
  | HookLockOpened => tt
  end.

Definition writer_answer (e : ev) (log : list wev) : resp e * list wev :=
  let m := now ex_init log in
  (match e return resp e with
   | Load32 _ p | FetchOr32 _ p _ | FetchAdd32 _ p _ => word m (p_off p)
   | Load8 p => m (p_off p)
   | SysFstat _ => inl {| st_dev := 1; st_ino := 2; st_size := ex_size; st_isreg := true |}
   | SysPread _ n off => inl (read_bytes m off (Z.to_nat n))
   | e => calm e
   end, append log (wev_of ex_init e log)).

Definition reader_answer (e : ev) (s : rstate) : resp e * rstate :=
  let m := mem_at ex_init (rs_log s) (length (rs_log s)) in
  let view p := sync (rs_log s) (length (rs_log s)) (p_off p) in
  match e return resp e * rstate with
  | Load32 o p => (word m (p_off p), rs_load o (rs_log s) (view p) s)
  | Load8 p => (m (p_off p), rs_load Relaxed (rs_log s) (view p) s)
  | Fence Acquire =>
      (tt, {| rs_log := rs_log s; rs_cur := Nat.max (rs_cur s) (rs_acq s); rs_acq := rs_acq s |})
  | e => (calm e, s)
  end.

Abbreviation ex_writer_machine := (writer_of_file ex_geometry ex_init 1 ex_size).

Lemma writer_answer_ok (e : ev) (log : list wev) :
  True -> sem_step (Sem := ex_writer_machine) e log (fst (writer_answer e log)) (snd (writer_answer e log)) /\ True.
Proof.
  intros _. split; [| done]. split; [| done]. destruct e; (split; [done |]); try done.
  apply Forall_replicate. unfold is_byte. lia.
Qed.

(** ** A session *)

Definition ex_handle : psmsgr_state_writer :=
  writer_attach (w_set_lock (zero_writer 8) 5) (map_ptr 1 0) ex_size (header0 ex_init) PSMI_LATEST_NONE 41.

Definition ex_run (a : action) (x : psmsgr_state_writer * list wev) : psmsgr_state_writer * list wev :=
  match compute writer_answer (run_action a (fst x) 0) (snd x) with
  | Some ((w, _), log, _) => (w, log)
  | None => x
  end.

(** Two publishes, then a begin whose writer dies. *)
Definition ex1 := Eval vm_compute in ex_run (APublish [104; 105]) (ex_handle, []).
Definition ex2 := Eval vm_compute in ex_run (APublish [1; 2; 3]) ex1.
Definition ex3 := Eval vm_compute in ex_run ABegin ex2.

Definition ex_log : list wev := snd ex3.

Abbreviation ex_written := (written ex_geometry ex_init 1 ex_size).

Lemma ex_action (a : action) (x x' : psmsgr_state_writer * list wev) :
  ex_written (snd x) (Some (fst x)) -> action_ok (fst x) a ->
  match compute writer_answer (run_action a (fst x) 0) (snd x) with
  | Some ((w, _), log, _) => x' = (w, log)
  | None => False
  end -> ex_written (snd x') (Some (fst x')).
Proof.
  intros Hw Hok. destruct (compute writer_answer _ _) as [[[[w en'] log'] tr]|] eqn:E; [| done].
  intros ->. eapply (written_action _ _ _ _ (snd x) (fst x) a 0 tr w en'); [done | done |].
  by apply (compute_steps (HS := ex_writer_machine) _ (fun _ => True) _ _ _ _ _ writer_answer_ok I) in E.
Qed.

Lemma ex1_written : ex_written (snd ex1) (Some (fst ex1)).
Proof.
  apply (ex_action (APublish [104; 105]) (ex_handle, [])); [| done | by vm_compute].
  by apply written_created.
Qed.

Lemma ex2_written : ex_written (snd ex2) (Some (fst ex2)).
Proof. by apply (ex_action (APublish [1; 2; 3]) ex1 ex2 ex1_written); [| vm_compute]. Qed.

Lemma ex_log_written : ex_written ex_log None.
Proof.
  apply (written_stopped _ _ _ _ ex_log (fst ex3) AAbort 0 [] (run_action AAbort (fst ex3) 0));
    [| done | constructor].
  by apply (ex_action ABegin ex2 ex3 ex2_written); [| vm_compute].
Qed.

(** A reader that has seen everything. *)
Definition ex_state : rstate := {| rs_log := ex_log; rs_cur := length ex_log; rs_acq := 0 |}.

Definition ex_reader : psmsgr_state_reader := {|
  r_block := 9; r_hdr := Some {| p_blk := 1; p_off := 0 |}; r_map_size := ex_size;
  r_slot_count := 2; r_slot_stride := 64; r_capacity := 32; r_payload_type := 7;
  r_config_flags := 0; r_announce := true; r_dev := 1; r_ino := 2;
  r_paths := {| pt_block := 0; pt_dir := ""; pt_data := ""; pt_lock := ""; pt_data_base := "" |} |}.

Lemma ex_reader_state : reader_state ex_geometry ex_init 1 ex_size ex_state.
Proof. split; [exists None; exact ex_log_written | split; [done | cbn; lia]]. Qed.

Lemma ex_attached : attached_to ex_geometry 1 ex_reader.
Proof. done. Qed.

Lemma ex_later : later ex_geometry ex_init 1 ex_size ex_log ex_log.
Proof.
  split; [by exists []; rewrite app_nil_r | split; [exists None; exact ex_log_written |]].
  intros t Ht. assert (H : forallb (fun t => Z.land (word (mem_at ex_init ex_log t) HOff.state)
                                  PSMI_STATE_RETIRED =? 0) (seq 0 (S (length ex_log))) = true)
    by (by vm_compute).
  rewrite forallb_forall in H. apply Z.eqb_eq, H, in_seq. lia.
Qed.

Abbreviation ex_reader_machine := (reader_of_file ex_geometry ex_init 1 ex_size).

Lemma reader_answer_ok (e : ev) (s : rstate) :
  rs_log s = ex_log /\ (rs_cur s <= length ex_log)%nat /\ (rs_acq s <= length ex_log)%nat ->
  sem_step (Sem := ex_reader_machine) e s (fst (reader_answer e s)) (snd (reader_answer e s)) /\
  rs_log (snd (reader_answer e s)) = ex_log /\
  (rs_cur (snd (reader_answer e s)) <= length ex_log)%nat /\
  (rs_acq (snd (reader_answer e s)) <= length ex_log)%nat.
Proof.
  intros (E & Hc & Ha). destruct s as [log cur acq]. cbn [rs_log rs_cur rs_acq] in *. subst log.
  pose proof ex_later as Hl. pose proof (sync_le ex_log (length ex_log)) as Hs.
  destruct e; try (split; [exists ex_log; done | done]).
  - specialize (Hs (p_off p)). split; [exists ex_log, (length ex_log); done |].
    destruct o; cbn [reader_answer rs_load rs_log rs_cur rs_acq snd]; split; done || lia.
  - specialize (Hs (p_off p)). split; [exists ex_log, (length ex_log); done |].
    cbn [reader_answer rs_load rs_log rs_cur rs_acq snd]. split; done || lia.
  - destruct o; (split; [exists ex_log; done |]); cbn [reader_answer rs_log rs_cur rs_acq snd];
      split; done || lia.
Qed.

(** Reading into a buffer of 4 bytes. *)
Definition ex_read (r : option psmsgr_state_reader) (s : rstate) :=
  compute reader_answer (psmsgr_state_read r (Some [0; 0; 0; 0]) 4 false 0) s.

Lemma ex_read_exec (r r' : option psmsgr_state_reader) (s s' : rstate) (x : rresult) (en' : Z)
    (tr : list event) :
  rs_log s = ex_log /\ (rs_cur s <= length ex_log)%nat /\ (rs_acq s <= length ex_log)%nat ->
  ex_read r s = Some (r', x, en', s', tr) ->
  exec (H := ex_reader_machine) (psmsgr_state_read r (Some [0; 0; 0; 0]) 4 false) 0 s tr (r', x) en' s'.
Proof. intros Hs E. exact (compute_steps (HS := ex_reader_machine) _ _ _ _ _ _ _ reader_answer_ok Hs E). Qed.

Definition ex_read1 := Eval vm_compute in ex_read (Some ex_reader) ex_state.
Definition ex_reader1 : option psmsgr_state_reader := Eval vm_compute in
  match ex_read1 with Some (r, _, _, _, _) => r | None => None end.
Definition ex_state1 : rstate := Eval vm_compute in
  match ex_read1 with Some (_, _, _, s, _) => s | None => ex_state end.
Definition ex_read2 := Eval vm_compute in ex_read ex_reader1 ex_state1.

(** ** The theorems of Delivery.v on this file *)

Lemma read_delivers_witness :
  (exists r' info, match ex_read1 with
                   | Some (r, x, _, _, _) => r = Some r' /\ x = (PSMSGR_OK, [1; 2; 3; 0], Some info)
                   | None => False
                   end) /\
  wp (HS := ex_reader_machine) (psmsgr_state_read (Some ex_reader) (Some [0; 0; 0; 0]) 4 false) 0 ex_state
    (api_post ex_geometry ex_init 1 true 4 (info_flags ex_reader) [0; 0; 0; 0] 0 ex_state).
Proof.
  split; [by eexists _, _; vm_compute |].
  apply (read_delivers ex_geometry ex_init 1 ex_size);
    [exact ex_data_file | reflexivity | exact ex_reader_state | exact ex_attached | vm_compute; split; discriminate].
Defined.

Lemma peek_describes_witness :
  wp (HS := ex_reader_machine) (psmsgr_state_peek (Some ex_reader) false) 0 ex_state
    (fun x => api_post ex_geometry ex_init 1 false 0 1 [] 0 ex_state
                (fst x, (fst (snd x), [], snd (snd x)))).
Proof.
  apply (peek_describes ex_geometry ex_init 1 ex_size ex_reader);
    [exact ex_data_file | reflexivity | exact ex_reader_state | exact ex_attached].
Defined.

Lemma reads_never_go_back_witness :
  match ex_read1, ex_read2 with
  | Some (_, (rc1, _, _), _, _, _), Some (_, (rc2, _, _), _, s2, _) =>
      rc1 = PSMSGR_OK /\ rc2 = PSMSGR_OK /\ exists j1 v1 j2 v2,
        published ex_geometry ex_init (rs_log s2) j1 = Some v1 /\
        published ex_geometry ex_init (rs_log s2) j2 = Some v2 /\ (j1 <= j2)%nat
  | _, _ => False
  end.
Proof.
  split; [reflexivity | split; [reflexivity |]].
  assert (H1 : exists tr, exec (H := ex_reader_machine)
    (psmsgr_state_read (Some ex_reader) (Some [0; 0; 0; 0]) 4 false) 0 ex_state tr
    (match ex_read1 with Some (r, x, _, _, _) => (r, x) | None => (None, (0, [], None)) end) 0 ex_state1).
  { eexists. apply ex_read_exec; [by vm_compute; repeat constructor | vm_compute; reflexivity]. }
  assert (H2 : exists tr, exec (H := ex_reader_machine)
    (psmsgr_state_read ex_reader1 (Some [0; 0; 0; 0]) 4 false) 0 ex_state1 tr
    (match ex_read2 with Some (r, x, _, _, _) => (r, x) | None => (None, (0, [], None)) end) 0
    (match ex_read2 with Some (_, _, _, s, _) => s | None => ex_state end)).
  { eexists. apply ex_read_exec; [| vm_compute; reflexivity].
    split; [reflexivity | vm_compute; split; repeat constructor]. }
  destruct H1 as [tr1 X1], H2 as [tr2 X2].
  assert (Hz : 0 <= 4 <= Z.of_nat (length [0; 0; 0; 0])) by (vm_compute; split; discriminate).
  destruct (reads_never_go_back (C := config64) ex_geometry ex_init 1 ex_size (Some ex_reader) _ _ _ _ _ _ _ _ _ _ _ _ _ _
    _ _ _ _ _ _ ex_data_file eq_refl ex_reader_state (ex_intro _ _ (conj eq_refl ex_attached))
    Hz Hz X1 X2 (or_introl eq_refl))
    as [_ H].
  destruct (H (or_introl eq_refl)) as (j1 & v1 & j2 & v2 & P1 & P2 & P3 & _).
  exists j1, v1, j2, v2. split; [exact P1 | split; [exact P2 | exact P3]].
Defined.

Lemma quiet_read_succeeds_witness :
  last (publications ex_geometry ex_init ex_log) =
    Some {| v_slot := 1; v_generation := 42; v_length := 3; v_timestamp_ns := 1000000005;
            v_data := [1; 2; 3] |} /\
  wp (HS := ex_reader_machine) (psmsgr_state_read (Some ex_reader) (Some [0; 0; 0; 0]) 4 false) 0 ex_state
    (fun '(_, (rc, buf', info)) _ s' => quiet ex_state s' -> rc = PSMSGR_OK /\ take 3 buf' = [1; 2; 3]).
Proof.
  assert (E : last (publications ex_geometry ex_init ex_log) =
    Some {| v_slot := 1; v_generation := 42; v_length := 3; v_timestamp_ns := 1000000005;
            v_data := [1; 2; 3] |}) by (vm_compute; reflexivity).
  split; [exact E |].
  eapply wp_mono; [apply (quiet_read_succeeds ex_geometry ex_init 1 ex_size ex_reader);
    [exact ex_data_file | reflexivity | exact ex_reader_state | exact ex_attached | vm_compute; split; discriminate] |].
  intros [r' [[rc buf'] info]] en' s' H Hq. specialize (H Hq).
  change (rs_log ex_state) with ex_log in H. rewrite E in H. destruct H as (i & _ & _ & H). exact H.
Defined.

Lemma crash_keeps_value_witness :
  holds ex_geometry (now ex_init ex_log)
    {| v_slot := 1; v_generation := 42; v_length := 3; v_timestamp_ns := 1000000005; v_data := [1; 2; 3] |}.
Proof.
  pose proof (crash_keeps_value ex_geometry ex_init 1 ex_size ex_log None ex_data_file ex_log_written) as H.
  assert (E : last (publications ex_geometry ex_init ex_log) =
    Some {| v_slot := 1; v_generation := 42; v_length := 3; v_timestamp_ns := 1000000005;
            v_data := [1; 2; 3] |}) by (vm_compute; reflexivity).
  rewrite E in H. exact H.
Defined.

Lemma generations_consecutive_witness :
  map v_generation (publications ex_geometry ex_init ex_log) = [41; 42] /\ 42 = gen_succ 41.
Proof.
  assert (E : map v_generation (publications ex_geometry ex_init ex_log) = [41; 42])
    by (vm_compute; reflexivity).
  split; [exact E |].
  destruct (generations_consecutive ex_geometry ex_init 1 ex_size ex_log None ex_data_file ex_log_written)
    as [_ H].
  destruct (publications ex_geometry ex_init ex_log) as [|u [|v [|]]] eqn:P; try discriminate.
  specialize (H 0%nat u v eq_refl eq_refl). injection E as Eu Ev. rewrite <- Eu, <- Ev. exact H.
Defined.

Lemma ex2_winv : winv ex_geometry ex_init 1 (fst ex2) (snd ex2).
Proof.
  destruct ex_data_file. by apply (written_inv ex_geometry df_geometry ex_init df_fresh 1 ex_size
    df_size df_valid df_header _ _ ex2_written).
Qed.

Lemma publish_adds_value_witness :
  wp (HS := ex_writer_machine) (psmsgr_state_publish (Some (fst ex2)) (Some [9; 9]) 2) 0 (snd ex2)
    (fun '(rc, _, gen) _ log' => rc = PSMSGR_OK /\ gen = Some 43 /\ exists ts,
       publications ex_geometry ex_init log' = publications ex_geometry ex_init (snd ex2) ++
         [{| v_slot := 0; v_generation := 43; v_length := 2; v_timestamp_ns := ts; v_data := [9; 9] |}]).
Proof.
  eapply wp_mono; [exact (publish_adds_value ex_geometry ex_init 1 ex_size (fst ex2) [9; 9] 0 (snd ex2)
    ex_data_file ex2_winv) |].
  intros [[rc w'] gen] en' log' (H1 & H2 & w1 & ts & _ & _ & _ & _ & _ & H).
  split; [exact H1 | split; [exact H2 | exists ts; exact H]].
Defined.

Lemma zero_copy_is_publish_witness :
  zero_copy_publish (fst ex2) [9; 9] ≈ psmsgr_state_publish (Some (fst ex2)) (Some [9; 9]) 2 /\
  wp (HS := ex_writer_machine) (zero_copy_publish (fst ex2) [9; 9]) 0 (snd ex2)
    (fun '(rc, _, gen) _ log' => rc = PSMSGR_OK /\ gen = Some 43 /\ exists ts,
       publications ex_geometry ex_init log' = publications ex_geometry ex_init (snd ex2) ++
         [{| v_slot := 0; v_generation := 43; v_length := 2; v_timestamp_ns := ts; v_data := [9; 9] |}]).
Proof.
  destruct (zero_copy_is_publish ex_geometry ex_init 1 ex_size (fst ex2) [9; 9] 0 (snd ex2)
    ex_data_file ex2_winv eq_refl) as (Hsame & _ & Hwp); [vm_compute; discriminate |].
  split; [exact Hsame |]. eapply wp_mono; [exact Hwp |].
  intros [[rc w'] gen] en' log' (H1 & H2 & w1 & ts & _ & _ & _ & _ & _ & H).
  split; [exact H1 | split; [exact H2 | exists ts; exact H]].
Defined.

(** After the crash: the next writer continues with generation 43. *)
Lemma reopen_continues_witness :
  wp (HS := ex_writer_machine) (open_data (zero_writer 8) ex_options (r_paths ex_reader)) 0 ex_log
    (fun '(rc, w) _ log' => log' = ex_log /\ (rc = PSMSGR_E_SYS \/ rc = PSMSGR_OK /\ w_gen w = 43)).
Proof.
  assert (E : last (publications ex_geometry ex_init ex_log) =
    Some {| v_slot := 1; v_generation := 42; v_length := 3; v_timestamp_ns := 1000000005;
            v_data := [1; 2; 3] |}) by (vm_compute; reflexivity).
  eapply wp_mono; [apply (reopen_continues ex_geometry ex_init 1 ex_size ex_log None);
    [exact ex_data_file | exact ex_log_written | repeat split; reflexivity | vm_compute; reflexivity] |].
  intros [rc w] en' log' (El & [Ex | (w' & Ex & _ & Hn & _)]).
  - injection Ex as -> _. split; [exact El | left; reflexivity].
  - injection Ex as -> ->. unfold next_of in Hn. rewrite E in Hn.
    split; [exact El | right; split; [reflexivity | exact Hn]].
Defined.
