(* ===== verification/World.v ===== *)
(** * Resources of the process

    A monitor for the events of a program: the descriptors, mappings, heap
    blocks, directory streams and file streams it has open.  An event may only be issued on
    what is open, and memory only accessed inside a live mapping, aligned, and
    written only if it is mapped for writing.  The system answers anything it
    may answer: calls fail at will, memory and files hold arbitrary bytes.
    Only what the process itself stored in the constant part of a header (the
    fields before [state], which nobody writes once the file has its name) is
    read back as it was stored. *)
From S2P Require Import Prelude Prog Common Layout Names.
#[local] Open Scope Z_scope.

(** What the process itself stored in the constant part of the headers it has
    mapped: per mapping, the byte at each offset; what a store notes, and what
    is known of a byte. *)
Notation heads := (gmap Z (gmap Z Z)).

Definition note (p : ptr) (v : Z) (h : heads) : heads :=
  if p_off p <? HOff.state
  then <[p_blk p := <[p_off p := v]> (default ∅ (h !! p_blk p))]> h
  else h.

Definition noted (h : heads) (p : ptr) : option Z := h !! p_blk p ≫= (fun m => m !! p_off p).

(** A load gives the byte that was noted. *)
Definition as_noted (h : heads) (p : ptr) (r : Z) : Prop :=
  forall v, noted h p = Some v -> is_byte v -> r = v.

Record world := {
  wd_fds : gset Z;
  wd_maps : gmap Z (Z * bool);   (* size, writable *)
  wd_heap : gset Z;
  wd_dirs : gset Z;
  wd_files : gset Z;
  wd_head : heads
}.

Definition add_fd (fd : Z) (w : world) : world :=
  {| wd_fds := {[fd]} ∪ wd_fds w; wd_maps := wd_maps w; wd_heap := wd_heap w; wd_dirs := wd_dirs w;
     wd_files := wd_files w; wd_head := wd_head w |}.
Definition del_fd (fd : Z) (w : world) : world :=
  {| wd_fds := wd_fds w ∖ {[fd]}; wd_maps := wd_maps w; wd_heap := wd_heap w; wd_dirs := wd_dirs w;
     wd_files := wd_files w; wd_head := wd_head w |}.
Definition add_map (b size : Z) (wr : bool) (w : world) : world :=
  {| wd_fds := wd_fds w; wd_maps := <[b := (size, wr)]> (wd_maps w); wd_heap := wd_heap w;
     wd_dirs := wd_dirs w;
     wd_files := wd_files w; wd_head := wd_head w |}.
Definition del_map (b : Z) (w : world) : world :=
  {| wd_fds := wd_fds w; wd_maps := delete b (wd_maps w); wd_heap := wd_heap w; wd_dirs := wd_dirs w;
     wd_files := wd_files w; wd_head := delete b (wd_head w) |}.
Definition add_blk (b : Z) (w : world) : world :=
  {| wd_fds := wd_fds w; wd_maps := wd_maps w; wd_heap := {[b]} ∪ wd_heap w; wd_dirs := wd_dirs w;
     wd_files := wd_files w; wd_head := wd_head w |}.
Definition del_blk (b : Z) (w : world) : world :=
  {| wd_fds := wd_fds w; wd_maps := wd_maps w; wd_heap := wd_heap w ∖ {[b]}; wd_dirs := wd_dirs w;
     wd_files := wd_files w; wd_head := wd_head w |}.
Definition add_dir (d : Z) (w : world) : world :=
  {| wd_fds := wd_fds w; wd_maps := wd_maps w; wd_heap := wd_heap w; wd_dirs := {[d]} ∪ wd_dirs w;
     wd_files := wd_files w; wd_head := wd_head w |}.
Definition del_dir (d : Z) (w : world) : world :=
  {| wd_fds := wd_fds w; wd_maps := wd_maps w; wd_heap := wd_heap w; wd_dirs := wd_dirs w ∖ {[d]};
     wd_files := wd_files w; wd_head := wd_head w |}.
Definition add_file (f : Z) (w : world) : world :=
  {| wd_fds := wd_fds w; wd_maps := wd_maps w; wd_heap := wd_heap w; wd_dirs := wd_dirs w;
     wd_files := {[f]} ∪ wd_files w; wd_head := wd_head w |}.
Definition del_file (f : Z) (w : world) : world :=
  {| wd_fds := wd_fds w; wd_maps := wd_maps w; wd_heap := wd_heap w; wd_dirs := wd_dirs w;
     wd_files := wd_files w ∖ {[f]}; wd_head := wd_head w |}.

Definition set_head (h : heads) (w : world) : world :=
  {| wd_fds := wd_fds w; wd_maps := wd_maps w; wd_heap := wd_heap w; wd_dirs := wd_dirs w;
     wd_files := wd_files w; wd_head := h |}.

(** No mapping, and nothing noted, at [b]. *)
Definition free_blk (b : Z) (w : world) : Prop := wd_maps w !! b = None /\ wd_head w !! b = None.

(** ** Access to mappings *)

(** [n] bytes at [p] lie in a live mapping, writable if [wr]. *)
Definition mapped (w : world) (p : ptr) (n : Z) (wr : bool) : Prop :=
  exists size wr', wd_maps w !! p_blk p = Some (size, wr') /\ 0 <= p_off p /\ p_off p + n <= size /\
                   (wr = true -> wr' = true).

(** An aligned word; the words that change are not in the constant part. *)
Definition word_mapped (w : world) (p : ptr) (wr : bool) : Prop :=
  mapped w p 4 wr /\ p_off p mod 4 = 0 /\ (wr = true -> HOff.state <= p_off p).

(** ** The monitor *)

Definition world_pre (e : ev) (w : world) : Prop :=
  match e with
  | Load32 _ p => word_mapped w p false
  | Store32 _ p _ | FetchOr32 _ p _ | FetchAdd32 _ p _ => word_mapped w p true
  | Load8 p => mapped w p 1 false
  | Store8 p _ => mapped w p 1 true
  | SysFutexWake p | SysFutexWait p _ _ _ => word_mapped w p false
  | SysRead fd _ | SysWrite fd _ => fd ∈ wd_fds w
  | SysClose fd | SysFchmod fd _ | SysFstat fd | SysPread fd _ _ | SysSetlk fd | SysGetlk fd
  | SysFallocate fd _ _ => fd ∈ wd_fds w
  | SysMmap fd size _ _ => fd ∈ wd_fds w /\ 0 < size
  | SysMunmap b size => exists wr, wd_maps w !! b = Some (size, wr)
  | SysReaddir d | SysUnlinkat d _ | SysClosedir d => d ∈ wd_dirs w
  | Free b => b ∈ wd_heap w
  | Fgets f _ | Fclose f => f ∈ wd_files w
  | _ => True
  end.

Definition world_step (e : ev) (w : world) : resp e -> world -> Prop :=
  match e return resp e -> world -> Prop with
  | Load32 _ _ | FetchOr32 _ _ _ | FetchAdd32 _ _ _ => fun r w' => 0 <= r < 4294967296 /\ w' = w
  | Load8 p => fun r w' =>
      (is_byte r /\ as_noted (wd_head w) p r) /\ w' = w
  | Store8 p v => fun _ w' => w' = set_head (note p v (wd_head w)) w
  | SysOpen _ _ _ => fun r w' =>
      match r with inl fd => 0 <= fd /\ (fd ∉ wd_fds w) /\ w' = add_fd fd w | inr _ => w' = w end
  | SysMkostemp _ => fun r w' =>
      match r with inl (fd, _) => 0 <= fd /\ (fd ∉ wd_fds w) /\ w' = add_fd fd w | inr _ => w' = w end
  (* a descriptor is gone even if close reports an error *)
  | SysClose fd => fun _ w' => w' = del_fd fd w
  | SysPread _ n _ => fun r w' =>
      match r with inl bs => Forall is_byte bs /\ Z.of_nat (length bs) <= n | inr _ => True end /\ w' = w
  | SysPipe => fun r w' =>
      match r with
      | inl (a, b) => 0 <= a /\ 0 <= b /\ a <> b /\ (a ∉ wd_fds w) /\ (b ∉ wd_fds w) /\
                      w' = add_fd a (add_fd b w)
      | inr _ => w' = w
      end
  | SysRead _ n => fun r w' =>
      match r with inl bs => Forall is_byte bs /\ Z.of_nat (length bs) <= n | inr _ => True end /\ w' = w
  | SysGetrandom _ => fun r w' =>
      match r with inl bs => Forall is_byte bs | inr _ => True end /\ w' = w
  | SysMmap _ size wr _ => fun r w' =>
      match r with
      | inl b => free_blk b w /\ w' = add_map b size wr w
      | inr _ => w' = w
      end
  (* unmapping a mapping of this process whole cannot fail *)
  | SysMunmap b _ => fun r w' => r = inl tt /\ w' = del_map b w
  | Getenv _ => fun r w' => match r with Some s => cstring s | None => True end /\ w' = w
  | SysOpendir _ => fun r w' =>
      match r with inl d => (d ∉ wd_dirs w) /\ w' = add_dir d w | inr _ => w' = w end
  | SysClosedir d => fun _ w' => w' = del_dir d w
  | Fopen _ => fun r w' =>
      match r with inl f => (f ∉ wd_files w) /\ w' = add_file f w | inr _ => w' = w end
  | Fgets _ n => fun r w' =>
      match r with Some l => Z.of_nat (length l) < n | None => True end /\ w' = w
  | Fclose f => fun _ w' => w' = del_file f w
  | SysMkdtemp _ => fun r w' => cstring (fst r) /\ w' = w
  | Malloc _ => fun r w' =>
      match r with Some b => (b ∉ wd_heap w) /\ w' = add_blk b w | None => w' = w end
  | Free b => fun _ w' => w' = del_blk b w
  | _ => fun _ w' => w' = w
  end.

(** A loop that has not finished yet is fine: what holds, holds all along. *)
#[export] Instance world_sem : Sem world := {
  sem_pre := world_pre; sem_step := world_step; sem_out := True
}.

(** ** Lemmas *)

Lemma world_eq (w w' : world) :
  wd_fds w = wd_fds w' -> wd_maps w = wd_maps w' -> wd_heap w = wd_heap w' ->
  wd_dirs w = wd_dirs w' -> wd_files w = wd_files w' ->
  wd_head w = wd_head w' -> w = w'.
Proof. destruct w, w'; simpl. congruence. Qed.

Lemma del_add_fd (fd : Z) (w : world) : fd ∉ wd_fds w -> del_fd fd (add_fd fd w) = w.
Proof. intros H. apply world_eq; simpl; try done. clear - H. set_solver. Qed.

Lemma del_add_blk (b : Z) (w : world) : b ∉ wd_heap w -> del_blk b (add_blk b w) = w.
Proof. intros H. apply world_eq; simpl; try done. clear - H. set_solver. Qed.

Lemma del_add_dir (d : Z) (w : world) : d ∉ wd_dirs w -> del_dir d (add_dir d w) = w.
Proof. intros H. apply world_eq; simpl; try done. clear - H. set_solver. Qed.

Lemma del_add_file (f : Z) (w : world) : f ∉ wd_files w -> del_file f (add_file f w) = w.
Proof. intros H. apply world_eq; simpl; try done. clear - H. set_solver. Qed.

Lemma del_add_map (b size : Z) (wr : bool) (w : world) :
  free_blk b w -> del_map b (add_map b size wr w) = w.
Proof.
  intros [Hm Hh]. apply world_eq; simpl; try done; [by rewrite delete_insert_id | by apply delete_id].
Qed.

Lemma del_add_map_ne (b b' size : Z) (wr : bool) (w : world) :
  b <> b' -> del_map b (add_map b' size wr w) = add_map b' size wr (del_map b w).
Proof. intros H. apply world_eq; simpl; try done. by rewrite delete_insert_ne. Qed.

Lemma del_add_blk_ne (b b' : Z) (w : world) :
  b <> b' -> del_blk b (add_blk b' w) = add_blk b' (del_blk b w).
Proof. intros H. apply world_eq; simpl; try done. clear - H. set_solver. Qed.

Lemma del_add_fd_ne (fd fd' : Z) (w : world) :
  fd <> fd' -> del_fd fd (add_fd fd' w) = add_fd fd' (del_fd fd w).
Proof. intros H. apply world_eq; simpl; try done. clear - H. set_solver. Qed.

(** Nothing is noted of a block that is not mapped, so that a new mapping is
    always of a free one. *)
Definition heads_live (w : world) : Prop := forall b, wd_maps w !! b = None -> free_blk b w.

Lemma heads_live_step (e : ev) (w w' : world) (r : resp e) :
  heads_live w -> world_pre e w -> world_step e w r w' -> heads_live w'.
Proof.
  intros H Hp Hs b. destruct e; cbn [world_step] in Hs; destruct_and?; subst; try exact (H b).
  all: try (repeat case_match; destruct_and?; subst; exact (H b)).
  - destruct Hp as (size & wr & Hm & _). unfold note. intros Hb. cbn in Hb.
    split; [done |]. cbn in *.
    destruct (_ <? _); [| by apply H]. rewrite lookup_insert_ne by congruence. by apply H.
  - repeat case_match; destruct_and?; subst; [| exact (H b)]. intros Hb. split; [done |].
    cbn in *. apply lookup_insert_None in Hb as [Hb _]. by apply H.
  - intros Hb. split; [done |]. cbn in *. apply lookup_delete_None in Hb as [->|Hb].
    + apply lookup_delete_eq.
    + destruct (decide (blk = b)) as [->|]; [apply lookup_delete_eq |].
      rewrite lookup_delete_ne by done. by apply H.
Qed.

(** *** What is noted of one mapping *)

Definition with_head (b : Z) (hd : option (gmap Z Z)) (w : world) : world :=
  match hd with Some m => set_head (<[b := m]> (wd_head w)) w | None => w end.

Fixpoint head_put (off : Z) (bs : list Z) (m : gmap Z Z) : gmap Z Z :=
  match bs with
  | [] => m
  | b :: bs' => head_put (off + 1) bs' (<[off := b]> m)
  end.

Lemma head_put_out (bs : list Z) (off a : Z) (m : gmap Z Z) :
  a < off \/ off + Z.of_nat (length bs) <= a -> head_put off bs m !! a = m !! a.
Proof.
  revert off m. induction bs as [|b bs IH]; intros off m H; cbn [head_put]; [done |].
  simpl in H. rewrite IH by lia. apply lookup_insert_ne. lia.
Qed.

Lemma head_put_in (bs : list Z) (off x : Z) (i : nat) (m : gmap Z Z) :
  bs !! i = Some x -> head_put off bs m !! (off + Z.of_nat i) = Some x.
Proof.
  revert off m i. induction bs as [|b bs IH]; intros off m [|i] H; cbn [head_put]; try discriminate H.
  - injection H as ->. rewrite head_put_out by lia. rewrite Z.add_0_r. apply lookup_insert_eq.
  - replace (off + Z.of_nat (S i)) with ((off + 1) + Z.of_nat i) by lia. by apply IH.
Qed.

Lemma del_with_head (b : Z) (hd : option (gmap Z Z)) (w : world) :
  del_map b (with_head b hd w) = del_map b w.
Proof. destruct hd; [| done]. apply world_eq; simpl; try done. apply delete_insert_eq. Qed.

Lemma del_with_head_ne (b b' : Z) (hd : option (gmap Z Z)) (w : world) :
  b <> b' -> del_map b (with_head b' hd w) = with_head b' hd (del_map b w).
Proof. intros H. destruct hd; [| done]. apply world_eq; simpl; try done. by apply delete_insert_ne. Qed.

Lemma note_with_head (b off v : Z) (hd : option (gmap Z Z)) (w : world) :
  wd_head w !! b = None -> off < HOff.state ->
  set_head (note {| p_blk := b; p_off := off |} v (wd_head (with_head b hd w))) (with_head b hd w) =
  with_head b (Some (<[off := v]> (default ∅ hd))) w.
Proof.
  intros Hb Ho. unfold note. cbn [p_blk p_off]. destruct (Z.ltb_spec off HOff.state); [| lia].
  destruct hd as [m|]; apply world_eq; cbn; try done.
  - by rewrite lookup_insert_eq, insert_insert_eq.
  - by rewrite Hb.
Qed.

(** ** Rules *)

Section rules.
Context {C : Config}.

Lemma wp_os (e : ev) (en : Z) (w : world) (Q : resp e -> Z -> world -> Prop) :
  world_pre e w -> (forall r w', world_step e w r w' -> Q r (resp_errno e r en) w') ->
  wp (call e) en w Q.
Proof. intros Hp HQ. by apply wp_call. Qed.

(** Events that leave the world alone. *)
Lemma wp_os_same (e : ev) (en : Z) (w : world) (Q : resp e -> Z -> world -> Prop) :
  world_pre e w ->
  (forall r w', world_step e w r w' -> w' = w) ->
  (forall r, Q r (resp_errno e r en) w) ->
  wp (call e) en w Q.
Proof. intros Hp Hs HQ. apply wp_call; [done |]. intros r w' H. by rewrite (Hs _ _ H). Qed.

Lemma wp_os_close (fd en : Z) (w : world) (Q : unit -> Z -> world -> Prop) :
  fd ∈ wd_fds w -> Q tt en (del_fd fd w) -> wp (close_keep_errno fd) en w Q.
Proof.
  intros Hf HQ. unfold close_keep_errno. apply wp_bind, wp_get_errno, wp_bind, wp_os; [done |].
  intros r w' ->. by apply wp_set_errno.
Qed.

(** [paths_init]: one more block, or nothing. *)
Lemma wp_os_paths_init (dir : option string) (name : string) (en : Z) (w : world)
    (Q : Z * option paths -> Z -> world -> Prop) :
  match dir with Some d => cstring d | None => True end -> cstring name ->
  (forall en', Q (PSMSGR_E_SYS, None) en' w) ->
  (forall p en', pt_block p ∉ wd_heap w -> Q (PSMSGR_OK, Some p) en' (add_blk (pt_block p) w)) ->
  wp (paths_init dir name) en w Q.
Proof.
  intros Hd Hn Hbad Hok. unfold paths_init.
  assert (Hk : forall d, cstring d -> wp (let* buf := call (Malloc (Z.of_nat (paths_size d name))) in
    match buf with
    | None => ret (PSMSGR_E_SYS, None)
    | Some b => ret (PSMSGR_OK, paths_fill d name (paths_size d name) b)
    end) en w Q).
  { intros d Hcd. apply wp_bind, wp_os; [done |]. intros [b|] w' Hs; cbn [world_step] in Hs.
    - destruct Hs as [Hb ->]. rewrite paths_fill_spec by done.
      apply wp_ret, (Hok {| pt_block := b; pt_dir := d; pt_data := _; pt_lock := _;
                            pt_data_base := _ |}). done.
    - subst w'. apply wp_ret, Hbad. }
  destruct dir as [d|]; [by apply wp_bind, wp_ret, Hk |].
  apply wp_bind, wp_bind, wp_os; [done |]. intros env w' [He ->]. apply wp_ret, Hk.
  unfold default_dir. destruct env as [e|]; [| by apply cstring_lit].
  destruct (e =? "")%string; [by apply cstring_lit | done].
Qed.

Lemma wp_os_clock (c : clockid) (en : Z) (w : world) (Q : Z -> Z -> world -> Prop) :
  (forall t, 0 <= t < 18446744073709551616 -> Q t en w) -> wp (psmi_clock_ns c) en w Q.
Proof.
  intros HQ. unfold psmi_clock_ns. apply wp_bind, wp_os; [done |].
  intros [sec nsec] w' ->. apply wp_ret, HQ, u64_range.
Qed.

Lemma wp_os_load_bytes (n : nat) (p : ptr) (en : Z) (w : world) (Q : list Z -> Z -> world -> Prop) :
  mapped w p (Z.of_nat n) false ->
  (forall bs, length bs = n -> Forall is_byte bs -> Q bs en w) ->
  wp (load_bytes p n) en w Q.
Proof.
  revert p Q. induction n as [|n IH]; intros p Q Hm HQ; cbn [load_bytes].
  - by apply wp_ret, HQ.
  - destruct Hm as (size & wr & Hb & H0 & H1 & H2).
    apply wp_bind, wp_os; [exists size, wr; split; [done | split; [done | lia]] |].
    intros b w' [[Hr _] ->]. apply wp_bind, IH.
    + exists size, wr. cbn [ptr_add p_blk p_off]. split; [done | lia].
    + intros bs Hl Hbs. apply wp_ret, HQ; [simpl; lia | by constructor].
Qed.

(** Stores outside of the constant part, and in it. *)
Lemma wp_os_store8 (p : ptr) (v en : Z) (w : world) (Q : unit -> Z -> world -> Prop) :
  mapped w p 1 true -> HOff.state <= p_off p -> Q tt en w -> wp (call (Store8 p v)) en w Q.
Proof.
  intros Hm Ho HQ. apply wp_os; [done |]. intros [] w' ->. unfold note.
  destruct (Z.ltb_spec (p_off p) HOff.state); [lia |]. by destruct w.
Qed.

Lemma wp_os_store_bytes (bs : list Z) (p : ptr) (en : Z) (w : world)
    (Q : unit -> Z -> world -> Prop) :
  mapped w p (Z.of_nat (length bs)) true -> HOff.state <= p_off p -> Q tt en w ->
  wp (store_bytes p bs) en w Q.
Proof.
  revert p. induction bs as [|b bs IH]; intros p Hm Ho HQ; cbn [store_bytes].
  - by apply wp_ret.
  - destruct Hm as (size & wr & Hb & H0 & H1 & H2). simpl in H1.
    apply wp_bind, wp_os_store8; [exists size, wr; split; [done | split; [done | split; [lia | done]]] | done |].
    apply IH; [| cbn; lia | done].
    exists size, wr. cbn [ptr_add p_blk p_off]. split; [done | split; [lia | split; [lia | done]]].
Qed.

Lemma wp_os_plain_store (n : nat) (p : ptr) (v en : Z) (w : world) (Q : unit -> Z -> world -> Prop) :
  mapped w p (Z.of_nat n) true -> HOff.state <= p_off p -> Q tt en w -> wp (plain_store p n v) en w Q.
Proof. intros Hm. apply wp_os_store_bytes. by rewrite length_le_bytes. Qed.

Lemma wp_os_store_head (bs : list Z) (b off en : Z) (hd : option (gmap Z Z)) (w : world)
    (Q : unit -> Z -> world -> Prop) :
  mapped w {| p_blk := b; p_off := off |} (Z.of_nat (length bs)) true ->
  wd_head w !! b = None -> off + Z.of_nat (length bs) <= HOff.state ->
  (forall m, m = head_put off bs (default ∅ hd) -> Q tt en (with_head b (Some m) w)) ->
  bs <> [] ->
  wp (store_bytes {| p_blk := b; p_off := off |} bs) en (with_head b hd w) Q.
Proof.
  revert off hd. induction bs as [|x bs IH]; intros off hd (size & wr & Hb & H0 & H1 & H2) Hh Ho HQ Hn;
    [done |]. cbn [store_bytes]. cbn [p_blk p_off length] in *.
  apply wp_bind, wp_os; [exists size, wr; split; [by destruct hd | cbn; split; [done | split; [lia | done]]] |].
  intros [] w' ->. rewrite note_with_head by (done || lia).
  destruct bs as [|y bs]; [by apply wp_ret, HQ |].
  apply IH; [| done | simpl in *; lia | intros m ->; by apply HQ | done].
  exists size, wr. cbn [p_blk p_off]. split; [done | split; [lia | split; [simpl in *; lia | done]]].
Qed.

(** Bytes that are known are read back. *)
Lemma known_bytes (w : world) (p : ptr) (bs : list Z) :
  mapped w p (Z.of_nat (length bs)) false -> Forall is_byte bs ->
  (forall i x, bs !! i = Some x -> noted (wd_head w) (ptr_add p (Z.of_nat i)) = Some x) ->
  bytes_are w p bs.
Proof.
  intros (size & wr & Hb & H0 & H1 & _) Hby Hk i x Hi. pose proof (lookup_lt_Some _ _ _ Hi). split.
  - exists size, wr. cbn [ptr_add p_blk p_off]. split; [done | split; [lia | split; [lia | done]]].
  - intros r w' [[_ Hr] ->]. split; [| done]. apply Hr; [by apply Hk |].
    by apply (Forall_lookup_1 _ _ _ _ Hby Hi).
Qed.

Lemma wp_os_plain_load (n : nat) (p : ptr) (en : Z) (w : world) (Q : Z -> Z -> world -> Prop) :
  mapped w p (Z.of_nat n) false ->
  (forall v, 0 <= v < 256 ^ Z.of_nat n -> Q v en w) -> wp (plain_load p n) en w Q.
Proof.
  intros Hm HQ. unfold plain_load. apply wp_bind, wp_os_load_bytes; [done |].
  intros bs Hl Hb. apply wp_ret, HQ. rewrite <- Hl. by apply le_val_range.
Qed.

Lemma wp_os_copy_from (n : Z) (p : ptr) (en : Z) (w : world) (Q : list Z -> Z -> world -> Prop) :
  0 <= n -> mapped w p n false ->
  (forall bs, Z.of_nat (length bs) = n -> Forall is_byte bs -> Q bs en w) ->
  wp (psmi_seq_copy_from p n) en w Q.
Proof.
  intros Hn Hm HQ. unfold psmi_seq_copy_from. destruct (Z.eqb_spec n 0) as [E|]; cbn [negb].
  - by apply wp_ret, HQ.
  - apply wp_os_load_bytes; [by rewrite Z2Nat.id | intros bs Hl; apply HQ; lia].
Qed.
End rules.
