(* ===== verification/ReaderSafety.v ===== *)
(** * The reader on a hostile system

    The reader's code on the monitor of World.v: whatever the system calls
    answer and whatever bytes the files hold, every call accesses memory inside
    its live mapping only, closes and unmaps exactly what it opened and mapped,
    and keeps the handle describing its mapping. *)
From S2P Require Import Prelude Prog Common Layout Names Options Writer Reader Protocol Seqlock World.
#[local] Open Scope list_scope.
#[local] Open Scope Z_scope.

Section reader.
Context {C : Config}.

(** ** Handles *)

(** The geometry the handle copied from the header it validated. *)
Definition r_geometry (r : psmsgr_state_reader) : geometry :=
  {| g_slots := r_slot_count r; g_stride := r_slot_stride r; g_cap := r_capacity r |}.

(** The resources of the process are those of [base] and the mapping of the
    handle, and the handle describes that mapping. *)
Definition attached_in (base : world) (r : psmsgr_state_reader) (w : world) : Prop :=
  match r_hdr r with
  | None => w = base
  | Some p =>
      p_off p = 0 /\ free_blk (p_blk p) base /\
      w = add_map (p_blk p) (r_map_size r) false base /\
      geometry_ok (r_geometry r) /\
      r_map_size r = psmi_file_size (r_slot_count r) (r_slot_stride r)
  end.

(** The parts of a handle that never change. *)
Definition same_handle (r r' : psmsgr_state_reader) : Prop :=
  r_block r' = r_block r /\ r_paths r' = r_paths r.

Lemma same_handle_trans (r1 r2 r3 : psmsgr_state_reader) :
  same_handle r1 r2 -> same_handle r2 r3 -> same_handle r1 r3.
Proof. intros [] []. split; congruence. Qed.

(** What a call may do to the handle and the world. *)
Definition reader_post (base : world) (r r' : psmsgr_state_reader) (w' : world) : Prop :=
  same_handle r r' /\ attached_in base r' w'.

(** Blocks come and go under a handle. *)
Lemma attached_add_blk (base w : world) (r : psmsgr_state_reader) (b : Z) :
  attached_in base r w -> attached_in (add_blk b base) r (add_blk b w).
Proof.
  unfold attached_in. destruct (r_hdr r) as [p|]; [| by intros ->].
  intros (H1 & H2 & -> & H3). do 2 (split; [done |]). by split.
Qed.

Lemma attached_del_blk (base w : world) (r : psmsgr_state_reader) (b : Z) :
  b ∉ wd_heap base -> attached_in (add_blk b base) r w ->
  b ∈ wd_heap w /\ attached_in base r (del_blk b w).
Proof.
  intros Hb. unfold attached_in. destruct (r_hdr r) as [p|].
  - intros (H1 & H2 & -> & H3). split; [cbn; clear; set_solver |]. do 2 (split; [done |]).
    split; [| done]. apply world_eq; cbn; [done | done | clear - Hb; set_solver | done ..].
  - intros ->. split; [cbn; clear; set_solver |]. by rewrite del_add_blk.
Qed.

Lemma attached_heap (base w : world) (r : psmsgr_state_reader) :
  attached_in base r w -> wd_heap w = wd_heap base.
Proof. unfold attached_in. destruct (r_hdr r); [| by intros ->]. by intros (_ & _ & -> & _). Qed.

(** Accesses of an attached handle. *)
Lemma reader_mapped (base w : world) (r : psmsgr_state_reader) (p : ptr) (a n : Z) :
  attached_in base r w -> r_hdr r = Some p -> 0 <= a ->
  a + n <= 128 + r_slot_count r * r_slot_stride r ->
  mapped w (ptr_add (hdr_of r) a) n false.
Proof.
  unfold attached_in, hdr_of. intros H E Ha Hn. rewrite E in *.
  destruct H as (Hp & _ & -> & Hg & Hsz). exists (r_map_size r), false.
  change (default NULL_PTR (Some p)) with p. unfold ptr_add. cbn [p_blk p_off].
  rewrite Hp, Hsz. split; [apply lookup_insert_eq |].
  pose proof (psmi_file_size_arith _ Hg) as Es. cbn [r_geometry g_slots g_stride] in Es.
  rewrite Es. split; [lia | split; [lia | done]].
Qed.

Lemma header_mapped (base w : world) (r : psmsgr_state_reader) (p : ptr) (a : Z) :
  attached_in base r w -> r_hdr r = Some p -> 0 <= a <= 124 -> a mod 4 = 0 ->
  word_mapped w (ptr_add (hdr_of r) a) false.
Proof.
  intros H E Ha Hm. pose proof H as H'. unfold attached_in in H'. rewrite E in H'.
  destruct H' as (Hp & _ & _ & Hg & _). split.
  - eapply reader_mapped; [done | done | lia |].
    pose proof (stride_bounds _ Hg). destruct Hg as (Hn & _). cbn in *. nia.
  - unfold hdr_of. rewrite E. change (default NULL_PTR (Some p)) with p.
    cbn [ptr_add p_off]. rewrite Hp. done.
Qed.

(** ** Attaching *)

Lemma wp_os_read_header (fd en : Z) (w : world)
    (Q : Z * option (stat * psmi_header) -> Z -> world -> Prop) :
  fd ∈ wd_fds w ->
  (forall rc en', rc = PSMSGR_E_SYS \/ rc = PSMSGR_E_FORMAT -> Q (rc, None) en' w) ->
  (forall st h en', st_isreg st = true -> PSMI_HEADER_SIZE <= st_size st -> header_ok h ->
     Q (PSMSGR_OK, Some (st, h)) en' w) ->
  wp (read_header fd) en w Q.
Proof.
  intros Hfd Hbad Hok. unfold read_header.
  apply wp_bind, wp_os; [done |]. intros [st|e] w' ->; [| apply wp_ret, Hbad; by left].
  destruct (negb (st_isreg st) || (st_size st <? PSMI_HEADER_SIZE)) eqn:E;
    [apply wp_ret, Hbad; by right |]. bool_hyps.
  apply wp_bind, wp_os; [done |]. intros [bs|e] w' [Hbs ->]; [| apply wp_ret, Hbad; by left].
  destruct (Z.eqb_spec (Z.of_nat (length bs)) PSMI_HEADER_SIZE) as [Hl|_];
    [| apply wp_ret, Hbad; by right].
  apply wp_ret, Hok; [done | lia |]. apply decode_header_ok; [by destruct Hbs | ].
  unfold PSMI_HEADER_SIZE in Hl. lia.
Qed.

(** The results of an attach that fails. *)
Definition attach_code (rc : Z) : Prop :=
  rc = PSMSGR_E_NODATA \/ rc = PSMSGR_E_SYS \/ rc = PSMSGR_E_FORMAT.

Lemma attach_code_ok (rc : Z) : attach_code rc -> (rc =? PSMSGR_OK) = false.
Proof. by intros [-> | [-> | ->]]. Qed.

Lemma wp_os_detach (base : world) (r : psmsgr_state_reader) (p : ptr) (en : Z) (w : world)
    (Q : psmsgr_state_reader -> Z -> world -> Prop) :
  attached_in base r w -> r_hdr r = Some p ->
  (forall en', Q (r_set_hdr r None) en' base) ->
  wp (detach r) en w Q.
Proof.
  intros H E HQ. unfold attached_in in H. rewrite E in H. destruct H as (_ & Hb & -> & _).
  unfold detach, hdr_of. rewrite E. change (default NULL_PTR (Some p)) with p.
  apply wp_bind, wp_os; [exists false; apply lookup_insert_eq |].
  intros x w' [_ ->]. apply wp_ret. by rewrite del_add_map.
Qed.

Lemma detached_post (base : world) (r r' : psmsgr_state_reader) :
  same_handle r r' -> reader_post base r (r_set_hdr r' None) base.
Proof. intros H. by split. Qed.

Lemma wp_os_attach (base : world) (r : psmsgr_state_reader) (en : Z)
    (Q : Z * psmsgr_state_reader -> Z -> world -> Prop) :
  r_hdr r = None ->
  (forall rc en', attach_code rc -> Q (rc, r) en' base) ->
  (forall r' w' p en', reader_post base r r' w' -> r_hdr r' = Some p -> Q (PSMSGR_OK, r') en' w') ->
  wp (attach r) en base Q.
Proof.
  intros Hr Hbad Hok. unfold attach.
  apply wp_bind, wp_os; [done |]. intros [fd|e] w1 Hs; cbn [world_step] in Hs.
  2: { subst w1. apply wp_bind, wp_get_errno, wp_ret, Hbad. unfold attach_code.
       destruct (_ =? _); tauto. }
  destruct Hs as (_ & Hfd & ->).
  assert (Hin : fd ∈ wd_fds (add_fd fd base)) by (cbn; set_solver).
  assert (Hfail : forall rc en', attach_code rc ->
    wp (bind (close_keep_errno fd) (fun _ => ret (rc, r))) en' (add_fd fd base) Q).
  { intros rc en' Hrc. apply wp_bind, wp_os_close; [done |]. rewrite del_add_fd by done.
    by apply wp_ret, Hbad. }
  apply wp_bind, wp_os_read_header; [done | |].
  { intros rc en' Hrc. apply wp_bind, wp_ret, Hfail. unfold attach_code. tauto. }
  intros st h en1 Hreg Hsz Hh. destruct (header_valid h (st_size st)) eqn:Hv; cbn [negb].
  2: { apply wp_bind, wp_ret, Hfail. unfold attach_code. tauto. }
  pose proof (header_valid_geometry h _ Hh Hv) as Hg. pose proof (psmi_file_size_arith _ Hg) as Es.
  pose proof (stride_bounds _ Hg) as Hst. pose proof Hg as (Hn & _).
  cbn [geometry_of g_slots g_stride g_cap] in *.
  apply wp_bind. cbv zeta. apply wp_bind, wp_os.
  { split; [done | rewrite Es; nia]. }
  intros [b|e] w2 Hs; cbn [world_step] in Hs; [| subst w2; apply wp_ret, Hfail; unfold attach_code; tauto].
  destruct Hs as [Hb ->]. apply wp_ret, wp_bind, wp_os_close; [cbn; set_solver |].
  apply wp_ret. eapply (Hok _ _ {| p_blk := b; p_off := 0 |}); [| done].
  split; [done |]. unfold attached_in, r_attached. cbn [r_hdr p_off p_blk r_map_size].
  split; [done | split; [done | split; [| done]]].
  by rewrite <- (del_add_fd fd base Hfd) at 2.
Qed.

Lemma wp_os_retired (base : world) (r : psmsgr_state_reader) (p : ptr) (en : Z) (w : world)
    (Q : bool -> Z -> world -> Prop) :
  attached_in base r w -> r_hdr r = Some p -> (forall b, Q b en w) -> wp (retired r) en w Q.
Proof.
  intros H E HQ. unfold retired. apply wp_bind, wp_os.
  - by eapply header_mapped.
  - intros s w' [_ ->]. by apply wp_ret.
Qed.

Lemma wp_os_attach_retry (n : nat) (base : world) (r : psmsgr_state_reader) (en : Z)
    (Q : Z * psmsgr_state_reader -> Z -> world -> Prop) :
  r_hdr r = None ->
  (forall rc r' en', attach_code rc -> reader_post base r r' base -> r_hdr r' = None ->
     Q (rc, r') en' base) ->
  (forall r' w' p en', reader_post base r r' w' -> r_hdr r' = Some p -> Q (PSMSGR_OK, r') en' w') ->
  wp (attach_retry n r) en base Q.
Proof.
  revert r en. induction n as [|n IH]; intros r en Hr Hbad Hok; cbn [attach_retry].
  - apply wp_ret, Hbad; [by left | | done]. split; [done |]. unfold attached_in. by rewrite Hr.
  - apply wp_bind, wp_os_attach; [done | |].
    + intros rc en' Hrc. rewrite (attach_code_ok rc Hrc). cbn [negb].
      apply wp_ret, Hbad; [done | | done]. split; [done |]. unfold attached_in. by rewrite Hr.
    + intros r1 w1 p en' [Hsame Hat] E. cbn [Z.eqb PSMSGR_OK negb].
      apply wp_bind. eapply wp_os_retired; [done | done |]. intros [|]; cbn [negb].
      * apply wp_bind. eapply wp_os_detach; [done | done |]. intros en2.
        apply IH; [done | |].
        -- intros rc r' en3 Hrc [Hs' Ha'] Hn'. apply Hbad; [done | | done].
           split; [| done]. by eapply same_handle_trans.
        -- intros r' w' p' en3 [Hs' Ha'] Hn'. apply (Hok _ _ p'); [| done].
           split; [| done]. by eapply same_handle_trans.
      * apply wp_ret. by apply (Hok _ _ p).
Qed.

Lemma wp_os_reader_sync (base : world) (r : psmsgr_state_reader) (en : Z) (w : world)
    (Q : Z * psmsgr_state_reader -> Z -> world -> Prop) :
  attached_in base r w ->
  (forall rc r' en', attach_code rc -> reader_post base r r' base -> r_hdr r' = None ->
     Q (rc, r') en' base) ->
  (forall r' w' p en', reader_post base r r' w' -> r_hdr r' = Some p -> Q (PSMSGR_OK, r') en' w') ->
  wp (reader_sync r) en w Q.
Proof.
  intros Ha Hbad Hok. unfold reader_sync. destruct (r_hdr r) as [p|] eqn:E.
  - apply wp_bind. eapply wp_os_retired; [done | done |]. intros [|]; cbn [negb].
    + apply wp_bind. eapply wp_os_detach; [done | done |]. intros en'.
      by apply wp_os_attach_retry.
    + apply wp_ret. by apply (Hok _ _ p).
  - unfold attached_in in Ha. rewrite E in Ha. subst w. by apply wp_os_attach_retry.
Qed.

(** ** The seqlock read *)

(** What a result may say, whatever bytes the file holds: the caller's buffer
    is unchanged past [size]; an info comes with OK or TOOSMALL only, its
    length is within the capacity, and within [size] for a copied value. *)
Definition result_ok (cap size : Z) (copy : bool) (buf : list Z) (x : rresult) : Prop :=
  let '(rc, buf', info) := x in
  buf_ok size buf buf' /\
  match info with
  | Some i =>
      0 <= i_length i <= cap /\
      if copy && (size <? i_length i) then rc = PSMSGR_E_TOOSMALL else rc = PSMSGR_OK
  | None => rc = PSMSGR_E_NODATA \/ rc = PSMSGR_E_FORMAT \/ rc = PSMSGR_E_BUSY
  end.

Lemma valid_slot (latest n : Z) :
  (latest =? PSMI_LATEST_NONE) = false -> psmi_latest_valid latest n = true ->
  0 <= psmi_latest_slot latest < n.
Proof.
  unfold psmi_latest_valid. intros -> H. cbn [orb] in H. bool_hyps.
  split; [| done]. rewrite psmi_latest_slot_arith. apply Z.mod_pos_bound. lia.
Qed.

(** Accesses of slot [i] of an attached handle. *)
Lemma slot_mapped (base w : world) (r : psmsgr_state_reader) (p : ptr) (i d n : Z) :
  attached_in base r w -> r_hdr r = Some p -> 0 <= i < r_slot_count r -> 0 <= d ->
  d + n <= 32 + r_capacity r ->
  mapped w (ptr_add (ptr_add (hdr_of r) (slot_offset (r_slot_stride r) i)) d) n false.
Proof.
  intros H E Hi Hd Hn. pose proof H as H'. unfold attached_in in H'. rewrite E in H'.
  destruct H' as (_ & _ & _ & Hg & _). pose proof (stride_bounds _ Hg) as Hst.
  cbn [r_geometry g_slots g_stride g_cap] in Hst.
  replace (ptr_add (ptr_add _ _) d) with (ptr_add (hdr_of r) (slot_offset (r_slot_stride r) i + d))
    by (unfold ptr_add; cbn; f_equal; lia).
  unfold slot_offset, PSMI_HEADER_SIZE.
  eapply reader_mapped; [done | done | nia | nia].
Qed.

Lemma slot_seq_mapped (base w : world) (r : psmsgr_state_reader) (p : ptr) (i : Z) :
  attached_in base r w -> r_hdr r = Some p -> 0 <= i < r_slot_count r ->
  word_mapped w (ptr_add (ptr_add (hdr_of r) (slot_offset (r_slot_stride r) i)) SOff.seq) false.
Proof.
  intros H E Hi. pose proof H as H'. unfold attached_in in H'. rewrite E in H'.
  destruct H' as (Hp & _ & _ & Hg & _). pose proof (stride_bounds _ Hg) as (_ & Hc & Hm).
  cbn [r_geometry g_slots g_stride g_cap] in Hc, Hm. split.
  - eapply slot_mapped; [done | done | done | done | unfold SOff.seq; lia].
  - unfold hdr_of. rewrite E. change (default NULL_PTR (Some p)) with p.
    cbn [ptr_add p_off]. rewrite Hp. unfold SOff.seq, slot_offset, PSMI_HEADER_SIZE.
    apply Z.mod_divide in Hm as [k ->]; [| lia].
    replace (0 + (128 + i * (k * 64)) + 0) with ((32 + i * k * 16) * 4) by lia. split; [apply Z_mod_mult | done].
Qed.

(** The part of an attempt after the payload copy. *)
Lemma wp_os_attempt_check (r : psmsgr_state_reader) (size q1 en : Z) (copy : bool)
    (buf buf' : list Z) (s : ptr) (m : psmi_slot) (w : world)
    (Q : list Z + rresult -> Z -> world -> Prop) :
  word_mapped w (ptr_add s SOff.seq) false -> 0 <= s_length m -> buf_ok size buf buf' ->
  (forall b, buf_ok size buf b -> Q (inl b) en w) ->
  (forall x, result_ok (r_capacity r) size copy buf x -> Q (inr x) en w) ->
  wp (let* _ := call (Fence Acquire) in
      let* q2 := call (Load32 Relaxed (ptr_add s SOff.seq)) in
      if (q2 =? q1) || psmi_test_skip_seq_recheck then
        if r_capacity r <? s_length m then ret (inr (PSMSGR_E_FORMAT, buf', None))
        else
          let info := {| i_generation := s_generation m; i_length := s_length m;
                         i_timestamp_ns := s_timestamp_ns m; i_flags := 0;
                         i_reserved := 0 |} in
          ret (inr (if negb copy || (s_length m <=? size) then PSMSGR_OK else PSMSGR_E_TOOSMALL,
                    buf', Some info))
      else ret (inl buf')) en w Q.
Proof.
  intros Hs Hm Hb Hinl Hinr. apply wp_bind, wp_os; [done |]. intros [] w' ->.
  apply wp_bind, wp_os; [done |]. intros q2 w' [_ ->].
  destruct ((q2 =? q1) || psmi_test_skip_seq_recheck); [| by apply wp_ret, Hinl].
  destruct (Z.ltb_spec (r_capacity r) (s_length m)); apply wp_ret, Hinr; (split; [done |]).
  - right. by left.
  - cbn [i_length]. split; [lia |].
    destruct copy; cbn [andb negb orb]; [| done]. rewrite Z.ltb_antisym.
    by destruct (s_length m <=? size).
Qed.

Lemma wp_os_read_attempt (base w : world) (r : psmsgr_state_reader) (p : ptr) (size en : Z)
    (copy : bool) (buf : list Z) (Q : list Z + rresult -> Z -> world -> Prop) :
  attached_in base r w -> r_hdr r = Some p -> size <= Z.of_nat (length buf) ->
  (forall b, buf_ok size buf b -> Q (inl b) en w) ->
  (forall x, result_ok (r_capacity r) size copy buf x -> Q (inr x) en w) ->
  wp (read_attempt r size copy buf) en w Q.
Proof.
  intros H E Hsz Hinl Hinr. unfold read_attempt.
  apply wp_bind, wp_os; [by eapply header_mapped |]. intros latest w' [_ ->].
  destruct (latest =? PSMI_LATEST_NONE) eqn:En; [apply wp_ret, Hinr; split; [done | by left] |].
  destruct (psmi_latest_valid latest (r_slot_count r)) eqn:Ev; cbn [negb];
    [| apply wp_ret, Hinr; split; [done | right; by left]].
  pose proof (valid_slot _ _ En Ev) as Hi. cbv zeta.
  set (i := psmi_latest_slot latest) in *.
  pose proof (slot_seq_mapped base w r p i H E Hi) as Hseq.
  apply wp_bind, wp_os; [done |]. intros q1 w' [_ ->].
  destruct ((Z.land q1 1 =? 0) && (psmi_latest i q1 =? latest)); [| by apply wp_ret, Hinl].
  pose proof H as H'. unfold attached_in in H'. rewrite E in H'. destruct H' as (_ & _ & _ & Hg & _).
  pose proof (stride_bounds _ Hg) as Hst. cbn [r_geometry g_slots g_stride g_cap] in Hst.
  apply wp_bind, wp_os_copy_from; [done | |].
  { replace (ptr_add (hdr_of r) _)
      with (ptr_add (ptr_add (hdr_of r) (slot_offset (r_slot_stride r) i)) 0)
      by (unfold ptr_add; cbn; f_equal; lia).
    eapply slot_mapped; [done | done | done | done | unfold SOff.reserved; lia]. }
  intros mb Hmb Hbytes.
  assert (Hm : 0 <= s_length (decode_slot mb)).
  { apply (field_range mb 16 4 Hbytes). unfold SOff.reserved in Hmb. lia. }
  set (m := decode_slot mb) in *. apply wp_bind.
  destruct (copy && (s_length m <=? size) && (s_length m <=? r_capacity r)) eqn:Ec.
  - bool_hyps. apply wp_bind, wp_os_copy_from; [done | |].
    + eapply slot_mapped; [done | done | done | done | unfold PSMI_SLOT_HEADER_SIZE; lia].
    + intros d Hd _. apply wp_ret, (wp_os_attempt_check r size q1 en copy buf); try done.
      apply buf_ok_overwrite; lia.
  - by apply wp_ret, (wp_os_attempt_check r size q1 en copy buf).
Qed.

Lemma result_ok_trans (cap size : Z) (copy : bool) (b b1 : list Z) (x : rresult) :
  buf_ok size b b1 -> result_ok cap size copy b1 x -> result_ok cap size copy b x.
Proof.
  intros H. destruct x as [[rc b'] info]. intros [H1 H2]. split; [| done].
  by eapply buf_ok_trans.
Qed.

Lemma wp_os_read_latest (base w : world) (r : psmsgr_state_reader) (p : ptr) (size en : Z)
    (copy : bool) (buf : list Z) (Q : rresult -> Z -> world -> Prop) :
  attached_in base r w -> r_hdr r = Some p -> size <= Z.of_nat (length buf) ->
  (forall x, result_ok (r_capacity r) size copy buf x -> Q x en w) ->
  wp (read_latest r buf size copy) en w Q.
Proof.
  intros H E. unfold read_latest. generalize READ_RETRIES. intros n.
  generalize 0 at 1 as attempt. intros attempt.
  revert attempt buf Q. induction n as [|n IH]; intros attempt buf Q Hsz HQ; cbn [read_retry].
  - apply wp_ret, HQ. split; [done | right; by right].
  - apply wp_bind. eapply wp_os_read_attempt; [done | done | done | | intros x Hx; by apply HQ].
    intros b Hb. apply wp_bind.
    assert (Hk : forall k, wp (read_retry r size copy n k b) en w Q).
    { intros k. apply IH; [destruct Hb as [-> _]; done |].
      intros x Hx. apply HQ. by eapply result_ok_trans. }
    destruct (3 <=? attempt); [| by apply wp_ret].
    apply wp_os; [done |]. by intros [] w' ->.
Qed.

(** ** The calls *)

Lemma wp_os_identity_check (base w : world) (r : psmsgr_state_reader) (en : Z)
    (Q : Z * psmsgr_state_reader -> Z -> world -> Prop) :
  attached_in base r w ->
  (forall rc r' w' en', rc = PSMSGR_OK \/ rc = PSMSGR_E_SYS -> reader_post base r r' w' ->
     Q (rc, r') en' w') ->
  wp (identity_check r) en w Q.
Proof.
  intros H HQ. unfold identity_check. destruct (r_hdr r) as [p|] eqn:E;
    [| by apply wp_ret, HQ; [left |]].
  assert (Hd : forall en', wp (let* r := detach r in ret (PSMSGR_OK, r)) en' w Q).
  { intros en'. apply wp_bind. eapply wp_os_detach; [done | done |]. intros en2.
    apply wp_ret, HQ; [by left | by apply detached_post]. }
  apply wp_bind, wp_os; [done |]. intros [st|e] w' ->.
  - destruct ((st_dev st =? r_dev r) && (st_ino st =? r_ino r)); [| apply Hd].
    by apply wp_ret, HQ; [left |].
  - apply wp_bind, wp_get_errno. destruct (negb _); [| apply Hd].
    by apply wp_ret, HQ; [right |].
Qed.

(** The codes of an info-returning call, and the rest of the result. *)
Definition api_ok (cap size : Z) (copy : bool) (buf : list Z) (x : rresult) : Prop :=
  result_ok cap size copy buf x \/
  exists rc, x = (rc, buf, None) /\ (attach_code rc \/ rc = PSMSGR_E_INVAL).

Lemma announce_ok (base w : world) (r : psmsgr_state_reader) (size rc : Z) (copy : bool)
    (buf b : list Z) (info : option psmsgr_state_info) :
  attached_in base r w -> result_ok (r_capacity r) size copy buf (rc, b, info) ->
  reader_post base r (fst (announce r info)) w /\
  r_capacity (fst (announce r info)) = r_capacity r /\
  result_ok (r_capacity r) size copy buf (rc, b, snd (announce r info)).
Proof. intros H Hr. unfold announce. destruct (r_announce r); [| done]. by destruct info. Qed.

(** What a read-like call does: the handle, the world and the result. *)
Definition call_post (base : world) (r : psmsgr_state_reader) (size : Z) (copy : bool)
    (buf : list Z) (h : option psmsgr_state_reader) (x : rresult) (w' : world) : Prop :=
  exists r', h = Some r' /\ reader_post base r r' w' /\ api_ok (r_capacity r') size copy buf x.

Lemma wp_os_state_read (base w : world) (r : psmsgr_state_reader) (buf : option (list Z))
    (size en : Z) (info_null : bool) :
  attached_in base r w ->
  match buf with Some b => size <= Z.of_nat (length b) | None => True end ->
  wp (psmsgr_state_read (Some r) buf size info_null) en w
    (fun '(h, x) _ w' => call_post base r size true (default [] buf) h x w').
Proof.
  intros H Hsz. unfold psmsgr_state_read.
  destruct (info_null || match buf with None => negb (size =? 0) | Some _ => false end) eqn:E.
  { apply wp_ret. exists r. do 2 (split; [done |]). right. by exists PSMSGR_E_INVAL; auto. }
  apply orb_false_iff in E as [_ E].
  assert (Hb : size <= Z.of_nat (length (default [] buf))).
  { destruct buf; [done |]. bool_hyps. cbn. lia. }
  apply wp_bind. eapply wp_os_reader_sync; [done | |].
  { intros rc r' en' Hrc Hp _. rewrite (attach_code_ok rc Hrc). cbn [negb].
    apply wp_ret. exists r'. do 2 (split; [done |]). right. by exists rc; auto. }
  intros r' w' p en' [Hs Ha] Ep. cbn [Z.eqb PSMSGR_OK negb]. apply wp_bind.
  eapply wp_os_read_latest; [done | done | done |]. intros [[rc b] info] Hx.
  destruct (announce_ok _ _ _ _ _ _ _ _ _ Ha Hx) as ([Hs' Ha'] & Ec & Hx').
  destruct (_ || _); [destruct (announce r' info) as [r2 info2] |]; apply wp_ret.
  - exists r2. split; [done |]. cbn [fst snd] in *. split.
    + split; [by eapply same_handle_trans | done].
    + left. by rewrite Ec.
  - exists r'. do 2 (split; [done |]). by left.
Qed.

Lemma wp_os_state_peek (base w : world) (r : psmsgr_state_reader) (en : Z) (info_null : bool) :
  attached_in base r w ->
  wp (psmsgr_state_peek (Some r) info_null) en w
    (fun '(h, (rc, info)) _ w' => call_post base r 0 false [] h (rc, [], info) w').
Proof.
  intros H. unfold psmsgr_state_peek. destruct info_null.
  { apply wp_ret. exists r. do 2 (split; [done |]). right. by exists PSMSGR_E_INVAL; auto. }
  apply wp_bind. eapply wp_os_reader_sync; [done | |].
  { intros rc r' en' Hrc Hp _. rewrite (attach_code_ok rc Hrc). cbn [negb].
    apply wp_ret. exists r'. do 2 (split; [done |]). right. by exists rc; auto. }
  intros r' w' p en' [Hs Ha] Ep. cbn [Z.eqb PSMSGR_OK negb]. apply wp_bind.
  eapply wp_os_read_latest; [done | done | done |]. intros [[rc b] info] Hx.
  assert (b = []) as ->.
  { destruct Hx as [[Hl _] _]. by destruct b. }
  destruct (announce_ok _ _ _ _ _ _ _ _ _ Ha Hx) as ([Hs' Ha'] & Ec & Hx').
  destruct (rc =? PSMSGR_OK); [destruct (announce r' info) as [r2 info2] |]; apply wp_ret.
  - exists r2. split; [done |]. cbn [fst snd] in *. split.
    + split; [by eapply same_handle_trans | done].
    + left. by rewrite Ec.
  - exists r'. do 2 (split; [done |]). by left.
Qed.

(** The caller's struct after a describe: only its first [size] bytes change. *)
Lemma describe_bytes (r : psmsgr_state_reader) (mem : list Z) (size : Z) :
  0 < size <= Z.of_nat (length mem) ->
  buf_ok size mem
    (if size <=? sizeof_desc
     then take (Z.to_nat size) (encode_desc r) ++ drop (Z.to_nat size) mem
     else encode_desc r ++ replicate (Z.to_nat (size - sizeof_desc)) 0 ++ drop (Z.to_nat size) mem).
Proof.
  intros Hs. assert (Hl : length (encode_desc r) = 16%nat).
  { unfold encode_desc. by rewrite !length_app, !length_le_bytes. }
  unfold buf_ok, sizeof_desc. destruct (Z.leb_spec size 16).
  - rewrite length_app, length_take, length_drop, Hl. split; [lia |].
    apply drop_app_length'. rewrite length_take, Hl. lia.
  - rewrite !length_app, length_replicate, length_drop, Hl. split; [lia |].
    rewrite app_assoc. apply drop_app_length'. rewrite length_app, length_replicate, Hl. lia.
Qed.

Lemma wp_os_describe (base w : world) (r : psmsgr_state_reader) (mem : option (list Z))
    (size en : Z) :
  attached_in base r w ->
  match mem with Some m => 0 <= size <= Z.of_nat (length m) | None => True end ->
  wp (psmsgr_state_describe_sized (Some r) mem size) en w
    (fun '(h, (rc, mem')) _ w' =>
       exists r', h = Some r' /\ reader_post base r r' w' /\ buf_ok size (default [] mem) mem' /\
         (rc = PSMSGR_OK /\ (size = sizeof_desc -> take 4 mem' = le_bytes 4 (r_capacity r')) \/
          mem' = default [] mem /\ (attach_code rc \/ rc = PSMSGR_E_INVAL))).
Proof.
  intros H Hm. unfold psmsgr_state_describe_sized. destruct mem as [mem|].
  2: { apply wp_ret. exists r. do 3 (split; [done |]). auto. }
  destruct (Z.eqb_spec size 0) as [->|Hne].
  { apply wp_ret. exists r. do 3 (split; [done |]). auto. }
  apply wp_bind. eapply wp_os_reader_sync; [done | |].
  { intros rc r' en' Hrc Hp _. rewrite (attach_code_ok rc Hrc). cbn [negb].
    apply wp_ret. exists r'. do 3 (split; [done |]). auto. }
  intros r' w' p en' Hp Ep. cbn [Z.eqb PSMSGR_OK negb]. cbv zeta.
  assert (Hb : 0 < size <= Z.of_nat (length mem)) by lia.
  pose proof (describe_bytes r' mem size Hb) as Hd.
  destruct (Z.leb_spec size sizeof_desc); apply wp_ret; exists r'; do 2 (split; [done |]);
    (split; [exact Hd | left; split; [done | intros ->]]); [| lia].
  change (Z.to_nat sizeof_desc) with 16%nat. unfold encode_desc.
  rewrite take_app_le by (rewrite length_take, !length_app, !length_le_bytes; lia).
  rewrite take_take.
  apply take_app_length'. by rewrite length_le_bytes.
Qed.

(** ** Waiting and liveness *)

(** The documented results of [psmsgr_state_wait], apart from INVAL. *)
Definition wait_code (rc : Z) : Prop :=
  rc = PSMSGR_OK \/ rc = PSMSGR_E_TIMEOUT \/ rc = PSMSGR_E_INTR \/ rc = PSMSGR_E_NOTSUP \/
  rc = PSMSGR_E_FORMAT \/ rc = PSMSGR_E_SYS.

Definition wait_post (base : world) (r : psmsgr_state_reader)
    (x : psmsgr_state_reader + (Z * psmsgr_state_reader)) (w' : world) : Prop :=
  match x with
  | inl r' => reader_post base r r' w'
  | inr (rc, r') => wait_code rc /\ reader_post base r r' w'
  end.

Lemma reader_post_trans (base w' : world) (r r1 r' : psmsgr_state_reader) :
  same_handle r r1 -> reader_post base r1 r' w' -> reader_post base r r' w'.
Proof. intros H [H1 H2]. split; [by eapply same_handle_trans | done]. Qed.

(** A pass that ends with a code. *)
Ltac wait_ret := apply wp_ret; split; [unfold wait_code; repeat first [reflexivity | by left | right] | done].

(** The end of a pass: the futex wait and what follows it. *)
Lemma wp_os_wait_sleep (base w : world) (r : psmsgr_state_reader) (p : ptr) (n slice en : Z) :
  attached_in base r w -> r_hdr r = Some p ->
  wp (let* failed := futex_wait (ptr_add (hdr_of r) HOff.notify) n slice in
      if failed then
        let* e := get_errno in
        if e =? EINTR then ret (inr (PSMSGR_E_INTR, r))
        else if e =? ETIMEDOUT then
          let* (rc, r) := identity_check r in
          if negb (rc =? PSMSGR_OK) then ret (inr (rc, r)) else ret (inl r)
        else if negb (e =? EAGAIN) then ret (inr (PSMSGR_E_SYS, r))
        else ret (inl r)
      else ret (inl r)) en w (fun x _ w' => wait_post base r x w').
Proof.
  intros H E. assert (Hr : reader_post base r r w) by done.
  apply wp_bind. unfold futex_wait. apply wp_bind, wp_os; [by eapply header_mapped |].
  intros [[]|e] w' ->; apply wp_ret; [by apply wp_ret |].
  apply wp_bind, wp_get_errno. destruct (_ =? EINTR); [wait_ret |].
  destruct (_ =? ETIMEDOUT).
  - apply wp_bind. eapply wp_os_identity_check; [done |].
    intros rc r' w' en' [-> | ->] Hp;
      cbn [Z.eqb PSMSGR_OK PSMSGR_E_SYS negb]; [by apply wp_ret | wait_ret].
  - destruct (negb _); [wait_ret | by apply wp_ret].
Qed.

Lemma wp_os_wait_body (base w : world) (r : psmsgr_state_reader) (last deadline en : Z) :
  attached_in base r w ->
  wp (wait_body last deadline r) en w (fun x _ w' => wait_post base r x w').
Proof.
  intros H. unfold wait_body.
  apply wp_bind. eapply wp_os_reader_sync; [done | |].
  - intros rc r1 en1 Hrc Hp Hn. unfold attach_code in Hrc.
    destruct Hrc as [-> | [-> | ->]]; cbn [Z.eqb PSMSGR_OK PSMSGR_E_NODATA PSMSGR_E_SYS
      PSMSGR_E_FORMAT negb andb Pos.eqb]; [| wait_ret ..].
    apply wp_bind, wp_os_clock. intros now _. destruct (deadline <=? now); [wait_ret |].
    cbv zeta. apply wp_bind, wp_os; [done |]. intros e w' ->.
    destruct (e =? EINTR); [wait_ret | by apply wp_ret].
  - intros r1 w1 p en1 Hp E. cbn [Z.eqb PSMSGR_OK PSMSGR_E_NODATA negb andb].
    destruct Hp as [Hs Ha].
    destruct (negb _); [wait_ret |].
    unfold wait_look. apply wp_bind, wp_bind, wp_os; [by eapply header_mapped |]. intros n w' [_ ->].
    apply wp_bind. eapply wp_os_retired; [done | done |].
    intros [|]; [by do 2 apply wp_ret |].
    apply wp_bind. eapply wp_os_read_latest; [done | done | done |]. intros [[rc b] info] Hx.
    apply wp_ret. destruct (_ && _); [wait_ret |].
    destruct (Z.eqb_spec rc PSMSGR_E_FORMAT) as [->|_]; [wait_ret |].
    apply wp_bind, wp_os_clock. intros now _. destruct (deadline <=? now); [wait_ret |].
    cbv zeta. eapply wp_mono; [by eapply wp_os_wait_sleep |].
    intros [r2 | [rc2 r2]] en2 w2 H2; cbn [wait_post] in H2.
    + by eapply reader_post_trans.
    + split; [apply H2 | eapply reader_post_trans; [done | apply H2]].
Qed.

Lemma wp_os_state_wait (base w : world) (r : psmsgr_state_reader) (fuel : nat)
    (last timeout en : Z) :
  attached_in base r w ->
  wp (psmsgr_state_wait fuel (Some r) last timeout) en w
    (fun '(rc, h) _ w' => exists r', h = Some r' /\ wait_code rc /\ reader_post base r r' w').
Proof.
  intros H. unfold psmsgr_state_wait.
  assert (Hk : forall deadline en, wp (let* (rc, r) := loop fuel (wait_body last deadline) r in
    ret (rc, Some r)) en w
    (fun '(rc, h) _ w' => exists r', h = Some r' /\ wait_code rc /\ reader_post base r r' w')).
  { intros deadline en'. apply wp_bind.
    apply (wp_loop (fun r' _ w' => reader_post base r r' w')); [done | | done].
    intros r1 en1 w1 [Hs Ha]. eapply wp_mono; [by apply wp_os_wait_body |].
    intros [r2 | [rc r2]] en2 w2 H2; cbn [wait_post] in H2.
    - by eapply reader_post_trans.
    - apply wp_ret. exists r2. split; [done |]. split; [apply H2 |].
      eapply reader_post_trans; [done | apply H2]. }
  apply wp_bind. destruct (timeout <? 0); [by apply wp_ret, Hk |].
  apply wp_bind, wp_os_clock. intros now _. by apply wp_ret, Hk.
Qed.

Lemma wp_os_writer_alive (base w : world) (r : psmsgr_state_reader) (en : Z) :
  attached_in base r w ->
  wp (psmsgr_state_writer_alive (Some r)) en w
    (fun '(rc, h) _ w' => exists r', h = Some r' /\ reader_post base r r' w' /\
       (rc = 1 \/ rc = 0 \/ rc = PSMSGR_E_SYS)).
Proof.
  intros H. unfold psmsgr_state_writer_alive.
  apply wp_bind. eapply wp_os_identity_check; [done |]. intros rc r1 w1 en1 Hrc Hp1.
  destruct Hrc as [-> | ->]; cbn [Z.eqb PSMSGR_OK PSMSGR_E_SYS negb]; [| apply wp_ret; eauto 6].
  assert (Hk : forall (rc : Z) r2 w2 en2, reader_post base r r2 w2 ->
    wp (let* fd := call (SysOpen (pt_lock (r_paths r2)) data_open_flags 0) in
        match fd with
        | inr _ => let* e := get_errno in ret (if e =? ENOENT then 0 else PSMSGR_E_SYS, Some r2)
        | inl fd =>
            let* l := call (SysGetlk fd) in
            close_keep_errno fd ;;;
            match l with
            | inr _ => ret (PSMSGR_E_SYS, Some r2)
            | inl held => ret (if held then 1 else 0, Some r2)
            end
        end) en2 w2
    (fun '(rc, h) _ w' => exists r', h = Some r' /\ reader_post base r r' w' /\
       (rc = 1 \/ rc = 0 \/ rc = PSMSGR_E_SYS))).
  { intros _ r2 w2 en2 Hp2. apply wp_bind, wp_os; [done |].
    intros [fd|e] w' Hs; cbn [world_step] in Hs.
    - destruct Hs as (_ & Hfd & ->).
      assert (Hin : fd ∈ wd_fds (add_fd fd w2)) by (cbn; set_solver).
      apply wp_bind, wp_os; [done |]. intros l w' ->.
      apply wp_bind, wp_os_close; [done |]. rewrite del_add_fd by done.
      destruct l as [[|]|e]; apply wp_ret; eauto 6.
    - subst w'. apply wp_bind, wp_get_errno, wp_ret. destruct (_ =? ENOENT); eauto 7. }
  apply wp_bind. eapply wp_os_reader_sync; [apply Hp1 | |].
  - intros rc r2 en2 Hrc Hp2 _. apply Hk; [done |]. eapply reader_post_trans; [apply Hp1 | done].
  - intros r2 w2 p en2 Hp2 _. apply Hk; [done |]. eapply reader_post_trans; [apply Hp1 | done].
Qed.

(** ** Opening and closing *)

(** What an open handle owns besides its mapping: its block and its paths. *)
Definition reader_base (base : world) (r : psmsgr_state_reader) : world :=
  add_blk (pt_block (r_paths r)) (add_blk (r_block r) base).

Definition reader_owns (base : world) (r : psmsgr_state_reader) : Prop :=
  r_block r ∉ wd_heap base /\ pt_block (r_paths r) ∉ wd_heap (add_blk (r_block r) base).

Definition string_arg (s : option string) : Prop :=
  match s with Some d => cstring d | None => True end.

Lemma wp_os_reader_open (name dir : option string) (out_null : bool) (en : Z) (w : world) :
  string_arg dir ->
  wp (psmsgr_state_reader_open name dir out_null) en w
    (fun '(rc, h) _ w' =>
       match h with
       | None => w' = w /\ rc = (if out_null || negb (name_valid name) || bad_dir dir
                                 then PSMSGR_E_INVAL else PSMSGR_E_SYS)
       | Some r => rc = PSMSGR_OK /\ r_hdr r = None /\ reader_owns w r /\ w' = reader_base w r /\
                   out_null || negb (name_valid name) || bad_dir dir = false
       end).
Proof.
  intros Hd. unfold psmsgr_state_reader_open. destruct out_null; [by apply wp_ret |].
  cbn [orb]. destruct (negb (name_valid name) || bad_dir dir) eqn:E; [by apply wp_ret |].
  apply orb_false_iff in E as [E _]. apply negb_false_iff in E.
  destruct name as [name|]; [| done]. cbn [default from_option].
  apply wp_bind, wp_os; [done |]. intros [b|] w' Hs; cbn [world_step] in Hs;
    [| subst w'; by apply wp_ret].
  destruct Hs as [Hb ->]. apply wp_bind.
  apply wp_os_paths_init; [done | by apply name_valid_cstring | |].
  - intros en'. apply wp_bind, wp_os; [cbn; set_solver |]. intros [] w' ->.
    rewrite del_add_blk by done. by apply wp_bind, wp_set_errno, wp_ret.
  - intros p en' Hp. by apply wp_ret.
Qed.

Lemma wp_os_reader_close (base w : world) (r : psmsgr_state_reader) (en : Z)
    (Q : unit -> Z -> world -> Prop) :
  reader_owns base r -> attached_in (reader_base base r) r w ->
  (forall en', Q tt en' base) ->
  wp (psmsgr_state_reader_close (Some r)) en w Q.
Proof.
  intros [Hb Hp] Ha HQ. unfold psmsgr_state_reader_close.
  assert (Hk : forall r' en', r_paths r' = r_paths r -> r_block r' = r_block r ->
    wp (paths_free (r_paths r') ;;; (let* _ := call (Free (r_block r')) in ret tt)) en'
      (reader_base base r) Q).
  { intros r' en' Ep Eb. unfold paths_free, reader_base. rewrite Ep, Eb.
    apply wp_bind, wp_os; [cbn; set_solver |]. intros [] w' ->. rewrite del_add_blk by done.
    apply wp_bind, wp_os; [cbn; set_solver |]. intros [] w' ->. rewrite del_add_blk by done.
    apply wp_ret, HQ. }
  apply wp_bind. destruct (r_hdr r) as [p|] eqn:E.
  - eapply wp_os_detach; [done | done |]. intros en'. by apply Hk.
  - unfold attached_in in Ha. rewrite E in Ha. subst w. by apply wp_ret, Hk.
Qed.

(** ** The life of a reader *)

(** The calls of the API on an open handle. *)
Inductive reader_call :=
  | CRead (buf : option (list Z)) (size : Z) (info_null : bool)
  | CPeek (info_null : bool)
  | CDescribe (mem : option (list Z)) (size : Z)
  | CWait (fuel : nat) (last_generation timeout_ms : Z)
  | CAlive.

(** What C asks of the caller: buffers at least as long as announced. *)
Definition call_ok (c : reader_call) : Prop :=
  match c with
  | CRead (Some b) size _ => size <= Z.of_nat (length b)
  | CDescribe (Some m) size => 0 <= size <= Z.of_nat (length m)
  | _ => True
  end.

(** The handle after a call. *)
Definition run_call (c : reader_call) (r : psmsgr_state_reader)
    : prog (option psmsgr_state_reader) :=
  match c with
  | CRead buf size info_null => let* (h, _) := psmsgr_state_read (Some r) buf size info_null in ret h
  | CPeek info_null => let* (h, _) := psmsgr_state_peek (Some r) info_null in ret h
  | CDescribe mem size => let* (h, _) := psmsgr_state_describe_sized (Some r) mem size in ret h
  | CWait fuel last timeout => let* (_, h) := psmsgr_state_wait fuel (Some r) last timeout in ret h
  | CAlive => let* (_, h) := psmsgr_state_writer_alive (Some r) in ret h
  end.

Fixpoint run_calls (cs : list reader_call) (h : option psmsgr_state_reader)
    : prog (option psmsgr_state_reader) :=
  match cs, h with
  | c :: cs, Some r => let* h := run_call c r in run_calls cs h
  | _, _ => ret h
  end.

(** Open, use, close: a whole life, if the open succeeds. *)
Definition reader_life (name dir : option string) (out_null : bool) (cs : list reader_call)
    : prog Z :=
  let* (rc, h) := psmsgr_state_reader_open name dir out_null in
  let* h := run_calls cs h in
  psmsgr_state_reader_close h ;;;
  ret rc.

Lemma wp_os_run_call (base w : world) (c : reader_call) (r : psmsgr_state_reader) (en : Z) :
  call_ok c -> attached_in base r w ->
  wp (run_call c r) en w (fun h _ w' => exists r', h = Some r' /\ reader_post base r r' w').
Proof.
  intros Hc H. destruct c; cbn [run_call call_ok] in *; apply wp_bind.
  - eapply wp_mono; [by apply wp_os_state_read |].
    intros [h x] en' w' (r' & -> & Hp & _). apply wp_ret. eauto.
  - eapply wp_mono; [by apply wp_os_state_peek |].
    intros [h [rc x]] en' w' (r' & -> & Hp & _). apply wp_ret. eauto.
  - eapply wp_mono; [by apply wp_os_describe |].
    intros [h [rc x]] en' w' (r' & -> & Hp & _). apply wp_ret. eauto.
  - eapply wp_mono; [by apply wp_os_state_wait |].
    intros [rc h] en' w' (r' & -> & _ & Hp). apply wp_ret. eauto.
  - eapply wp_mono; [by apply wp_os_writer_alive |].
    intros [rc h] en' w' (r' & -> & Hp & _). apply wp_ret. eauto.
Qed.

Lemma wp_os_run_calls (base w : world) (cs : list reader_call) (r : psmsgr_state_reader) (en : Z) :
  Forall call_ok cs -> attached_in base r w ->
  wp (run_calls cs (Some r)) en w (fun h _ w' => exists r', h = Some r' /\ reader_post base r r' w').
Proof.
  revert r en w. induction cs as [|c cs IH]; intros r en w Hcs H; cbn [run_calls].
  - apply wp_ret. by exists r.
  - apply Forall_cons in Hcs as [Hc Hcs]. apply wp_bind.
    eapply wp_mono; [by apply (wp_os_run_call base) |]. intros h en' w' (r1 & -> & Hs & Ha).
    eapply wp_mono; [by apply IH |]. intros h en2 w2 (r2 & -> & Hp). exists r2.
    split; [done | by eapply reader_post_trans].
Qed.

Lemma reader_owns_same (base : world) (r r' : psmsgr_state_reader) :
  same_handle r r' -> reader_owns base r ->
  reader_owns base r' /\ reader_base base r' = reader_base base r.
Proof. intros [Eb Ep]. unfold reader_owns, reader_base. by rewrite Eb, Ep. Qed.

(** ** Properties *)

(** C11. Readers are memory and resource safe on any system.  Open a reader,
    make any calls on it in any order - read, peek, describe, wait, liveness -
    and close it: whatever the system calls answer, whatever bytes the data
    file holds or changes to under the reader, and at whatever point calls
    fail, every load lies inside a live mapping of the validated size and
    every word load is aligned, nothing is ever stored to the file, only open
    descriptors, live mappings and live blocks are used, and in the end every
    descriptor, mapping and block the reader acquired has been released
    exactly once. *)
Theorem reader_life_safe (name dir : option string) (out_null : bool) (cs : list reader_call)
    (en : Z) (w : world) :
  string_arg dir -> Forall call_ok cs ->
  wp (reader_life name dir out_null cs) en w (fun rc _ w' =>
    w' = w /\ (rc = PSMSGR_OK \/ rc = PSMSGR_E_INVAL \/ rc = PSMSGR_E_SYS)).
Proof.
  intros Hd Hcs. unfold reader_life. apply wp_bind.
  eapply wp_mono; [by apply wp_os_reader_open |]. intros [rc [r|]] en' w'.
  - intros (-> & Hn & Ho & -> & _). apply wp_bind.
    eapply wp_mono; [apply (wp_os_run_calls (reader_base w r)); [done |] |].
    + unfold attached_in. by rewrite Hn.
    + intros h en2 w2 (r2 & -> & Hs & Ha). apply wp_bind.
      destruct (reader_owns_same w r r2 Hs Ho) as [Ho2 Eb]. rewrite <- Eb in Ha.
      apply (wp_os_reader_close w); [done | done |]. intros en3. apply wp_ret. by split; [| left].
  - intros [-> ->]. destruct cs; apply wp_bind, wp_ret, wp_bind, wp_ret, wp_ret; (split; [done |]);
      destruct (_ || _); auto.
Qed.

(** C29. The result of a read holds on any system and for any bytes in the
    file: the caller's buffer keeps its length and is unchanged past [size];
    an info is returned exactly with OK and TOOSMALL, with a length within the
    channel's capacity, and with OK also within [size]; every other result is
    one of the documented codes. *)
Theorem read_result_bounds (base w : world) (r : psmsgr_state_reader) (buf : option (list Z))
    (size en : Z) (info_null : bool) :
  attached_in base r w ->
  match buf with Some b => size <= Z.of_nat (length b) | None => True end ->
  wp (psmsgr_state_read (Some r) buf size info_null) en w
    (fun '(h, (rc, buf', info)) _ w' =>
       exists r', h = Some r' /\ reader_post base r r' w' /\ buf_ok size (default [] buf) buf' /\
       match info with
       | Some i => 0 <= i_length i <= r_capacity r' /\
                   rc = (if size <? i_length i then PSMSGR_E_TOOSMALL else PSMSGR_OK)
       | None => rc = PSMSGR_E_NODATA \/ rc = PSMSGR_E_BUSY \/ rc = PSMSGR_E_FORMAT \/
                 rc = PSMSGR_E_SYS \/ rc = PSMSGR_E_INVAL
       end).
Proof.
  intros H Hb. eapply wp_mono; [by apply (wp_os_state_read base) |].
  intros [h [[rc b] info]] en' w' (r' & -> & Hp & Hx). exists r'. do 2 (split; [done |]).
  destruct Hx as [[Hok Hi] | (rc' & [= -> -> ->] & Hrc)].
  - split; [done |]. destruct info as [i|]; [| tauto].
    cbn [andb] in Hi. split; [apply Hi |]. destruct (size <? i_length i); apply Hi.
  - split; [done |]. unfold attach_code in Hrc. tauto.
Qed.

(** C30. [psmsgr_state_wait] returns only the documented results on any
    system: OK, TIMEOUT, INTR, NOTSUP, FORMAT or SYS, never NODATA, BUSY or
    TOOSMALL, and with the handle still describing its mapping; and
    [psmsgr_state_writer_alive] returns 1, 0 or SYS. *)
Theorem wait_and_alive_results (base w : world) (r : psmsgr_state_reader) (fuel : nat)
    (last timeout en : Z) :
  attached_in base r w ->
  wp (psmsgr_state_wait fuel (Some r) last timeout) en w
    (fun '(rc, h) _ w' => exists r', h = Some r' /\ wait_code rc /\ reader_post base r r' w') /\
  wp (psmsgr_state_writer_alive (Some r)) en w
    (fun '(rc, h) _ w' => exists r', h = Some r' /\ reader_post base r r' w' /\
       (rc = 1 \/ rc = 0 \/ rc = PSMSGR_E_SYS)).
Proof. intros H. split; [by apply wp_os_state_wait | by apply wp_os_writer_alive]. Qed.
End reader.

(** ** Witnesses *)

Definition empty_world : world :=
  {| wd_fds := ∅; wd_maps := ∅; wd_heap := ∅; wd_dirs := ∅; wd_files := ∅; wd_head := ∅ |}.

(** A handle attached to two slots of 96 bytes. *)
Definition example_handle : psmsgr_state_reader := {|
  r_block := 1; r_hdr := Some {| p_blk := 7; p_off := 0 |}; r_map_size := 384;
  r_slot_count := 2; r_slot_stride := 128; r_capacity := 96; r_payload_type := 0;
  r_config_flags := 0; r_announce := true; r_dev := 0; r_ino := 0;
  r_paths := {| pt_block := 2; pt_dir := "/dev/shm"; pt_data := "/dev/shm/psmsgr.m.state";
                pt_lock := "/dev/shm/psmsgr.m.lock"; pt_data_base := "psmsgr.m.state" |} |}.

Lemma example_attached : attached_in empty_world example_handle (add_map 7 384 false empty_world).
Proof. repeat split; cbn; lia. Qed.

Lemma reader_life_safe_witness :
  let calls := [CPeek false; CRead (Some (replicate 96 0)) 96 false; CWait 5 0 100; CAlive] in
  wp (reader_life (C := config64) (Some "motor") (Some "/dev/shm") false calls) 0 empty_world
    (fun rc _ w' => w' = empty_world /\
       (rc = PSMSGR_OK \/ rc = PSMSGR_E_INVAL \/ rc = PSMSGR_E_SYS)).
Proof.
  apply (reader_life_safe (C := config64)); [by apply cstring_lit |]. repeat constructor; done.
Defined.

Lemma read_result_bounds_witness :
  wp (psmsgr_state_read (C := config64) (Some example_handle) (Some [0; 0; 0]) 2 false) 0
    (add_map 7 384 false empty_world)
    (fun '(h, (rc, buf', info)) _ w' =>
       exists r', h = Some r' /\ reader_post empty_world example_handle r' w' /\
       buf_ok 2 [0; 0; 0] buf' /\
       match info with
       | Some i => 0 <= i_length i <= r_capacity r' /\
                   rc = (if 2 <? i_length i then PSMSGR_E_TOOSMALL else PSMSGR_OK)
       | None => rc = PSMSGR_E_NODATA \/ rc = PSMSGR_E_BUSY \/ rc = PSMSGR_E_FORMAT \/
                 rc = PSMSGR_E_SYS \/ rc = PSMSGR_E_INVAL
       end).
Proof.
  apply (read_result_bounds (C := config64) empty_world _ _ (Some [0; 0; 0]) 2 0 false);
    [apply example_attached | cbn; lia].
Defined.

Lemma wait_and_alive_results_witness :
  wp (psmsgr_state_wait (C := config64) 10 (Some example_handle) 0 250) 0
    (add_map 7 384 false empty_world)
    (fun '(rc, h) _ w' => exists r', h = Some r' /\ wait_code rc /\
       reader_post empty_world example_handle r' w').
Proof.
  refine (proj1 (wait_and_alive_results (C := config64) empty_world _ _ 10 0 250 0 _)).
  apply example_attached.
Defined.
