(* ===== verification/WriterSafety.v ===== *)
(** * Writers on a hostile system

    Opening, creating, deleting and closing channels, and publishing, on the
    monitor of World.v: whatever the system answers and whatever the files
    hold, only what is open is used, only mapped bytes are accessed, and every
    path - the error paths included - releases what it acquired. *)
From S2P Require Import Prelude Prog Common Layout Names Options Writer Reader Channel Protocol.
From S2P Require Import Session World ReaderSafety.
#[local] Open Scope list_scope.
#[local] Open Scope Z_scope.

(** Worlds that differ only in the order of what was done to them. *)
Ltac world_solve :=
  apply world_eq; cbn [wd_fds wd_maps wd_heap wd_dirs wd_files wd_head add_fd del_fd add_map del_map add_blk
                       del_blk add_dir del_dir set_head with_head] in *;
  rewrite ?delete_insert_id by done; rewrite ?delete_id by done; try done; set_solver.

Ltac unfold_offsets :=
  unfold HOff.magic, HOff.version_major, HOff.version_minor, HOff.header_size,
    HOff.slot_header_size, HOff.slot_count, HOff.slot_stride, HOff.capacity, HOff.payload_type,
    HOff.config_flags, HOff.state, HOff.latest, HOff.created_realtime_ns in *.

Section writer.
Context {C : Config}.

(** ** Handles *)

Definition w_geometry (w : psmsgr_state_writer) : geometry :=
  {| g_slots := w_slot_count w; g_stride := w_slot_stride w; g_cap := w_capacity w |}.

Definition slot_index (n i : Z) : Prop := i = PSMI_LATEST_NONE \/ 0 <= i < n.

(** A handle that describes its mapping. *)
Record writer_ok (w : psmsgr_state_writer) : Prop := {
  wo_off : p_off (w_hdr w) = 0;
  wo_geometry : geometry_ok (w_geometry w);
  wo_size : w_map_size w = psmi_file_size (w_slot_count w) (w_slot_stride w);
  wo_latest : slot_index (w_slot_count w) (w_latest w);
  wo_open : slot_index (w_slot_count w) (w_open_slot w)
}.

(** The world of an attached handle. *)
Definition writer_world (base : world) (w : psmsgr_state_writer) : world :=
  add_map (p_blk (w_hdr w)) (w_map_size w) true base.

(** Handles of the same block, lock and mapping. *)
Definition same_writer (w w' : psmsgr_state_writer) : Prop :=
  w_block w' = w_block w /\ w_lock_fd w' = w_lock_fd w /\ w_hdr w' = w_hdr w /\
  w_map_size w' = w_map_size w /\ w_geometry w' = w_geometry w.

Lemma writer_mapped (base : world) (w : psmsgr_state_writer) (a n : Z) :
  writer_ok w -> 0 <= a -> a + n <= 128 + w_slot_count w * w_slot_stride w ->
  mapped (writer_world base w) (ptr_add (w_hdr w) a) n true.
Proof.
  intros [Hp Hg Hs _ _] Ha Hn. exists (w_map_size w), true. unfold ptr_add, writer_world.
  cbn [p_blk p_off add_map wd_maps].
  rewrite Hp, Hs. split; [apply lookup_insert_eq |].
  pose proof (psmi_file_size_arith _ Hg) as Es. cbn [w_geometry g_slots g_stride] in Es.
  rewrite Es. split; [lia | split; [lia | done]].
Qed.

Lemma writer_header (base : world) (w : psmsgr_state_writer) (a n : Z) :
  writer_ok w -> 0 <= a -> a + n <= 128 -> mapped (writer_world base w) (ptr_add (w_hdr w) a) n true.
Proof.
  intros H Ha Hn. apply writer_mapped; [done | done |].
  pose proof (wo_geometry w H) as Hg. pose proof (stride_bounds _ Hg). destruct Hg as (Hc & _).
  cbn in *. nia.
Qed.

Lemma writer_word (base : world) (w : psmsgr_state_writer) (a : Z) :
  writer_ok w -> HOff.state <= a <= 124 -> a mod 4 = 0 ->
  word_mapped (writer_world base w) (ptr_add (w_hdr w) a) true.
Proof.
  unfold HOff.state. intros H Ha Hm. split; [apply writer_header; first [done | lia] |].
  cbn [ptr_add p_off]. rewrite (wo_off w H). split; [done | unfold HOff.state; lia].
Qed.

(** The slots are behind the header. *)
Lemma writer_slot_off (w : psmsgr_state_writer) (i d : Z) :
  writer_ok w -> 0 <= i -> 0 <= d -> HOff.state <= p_off (ptr_add (writer_slot w i) d).
Proof.
  intros H Hi Hd. pose proof (stride_bounds _ (wo_geometry w H)) as Hst.
  cbn [w_geometry g_slots g_stride g_cap] in Hst. cbn [writer_slot ptr_add p_off].
  rewrite (wo_off w H). unfold slot_offset, PSMI_HEADER_SIZE, HOff.state.
  pose proof (Z.mul_nonneg_nonneg i (w_slot_stride w)). lia.
Qed.

Lemma writer_slot_mapped (base : world) (w : psmsgr_state_writer) (i d n : Z) :
  writer_ok w -> 0 <= i < w_slot_count w -> 0 <= d -> d + n <= 32 + w_capacity w ->
  mapped (writer_world base w) (ptr_add (writer_slot w i) d) n true.
Proof.
  intros H Hi Hd Hn. pose proof (stride_bounds _ (wo_geometry w H)) as Hst.
  cbn [w_geometry g_slots g_stride g_cap] in Hst. unfold writer_slot.
  replace (ptr_add (ptr_add _ _) d) with (ptr_add (w_hdr w) (slot_offset (w_slot_stride w) i + d))
    by (unfold ptr_add; cbn; f_equal; lia).
  unfold slot_offset, PSMI_HEADER_SIZE. apply writer_mapped; [done | nia | nia].
Qed.

Lemma writer_seq_mapped (base : world) (w : psmsgr_state_writer) (i : Z) :
  writer_ok w -> 0 <= i < w_slot_count w ->
  word_mapped (writer_world base w) (ptr_add (writer_slot w i) SOff.seq) true.
Proof.
  intros H Hi. pose proof (stride_bounds _ (wo_geometry w H)) as (_ & Hc & Hm).
  cbn [w_geometry g_slots g_stride g_cap] in Hc, Hm. split.
  - apply writer_slot_mapped; first [done | unfold SOff.seq; lia].
  - split; [| intros _; apply writer_slot_off; first [done | unfold SOff.seq; lia]].
    cbn [writer_slot ptr_add p_off]. rewrite (wo_off w H).
    unfold SOff.seq, slot_offset, PSMI_HEADER_SIZE.
    apply Z.mod_divide in Hm as [k ->]; [| lia].
    replace (0 + (128 + i * (k * 64)) + 0) with ((32 + i * k * 16) * 4) by lia. apply Z_mod_mult.
Qed.

Lemma word_read (w : world) (p : ptr) : word_mapped w p true -> word_mapped w p false.
Proof. intros [(s & b & H1 & H2 & H3 & _) [H _]]. split; [| done]. by exists s, b. Qed.

Lemma mapped_read (w : world) (p : ptr) (n : Z) : mapped w p n true -> mapped w p n false.
Proof. intros (s & b & H1 & H2 & H3 & _). by exists s, b. Qed.

Lemma mapped_add_map (w : world) (p : ptr) (n b size : Z) (wr wr' : bool) :
  wd_maps w !! b = None -> mapped w p n wr -> mapped (add_map b size wr' w) p n wr.
Proof.
  intros Hb (s & x & H). exists s, x. cbn [add_map wd_maps].
  destruct H as [H H']. rewrite lookup_insert_ne; [done | congruence].
Qed.

(** ** Publishing *)

Lemma next_slot (w : psmsgr_state_writer) :
  writer_ok w ->
  0 <= (if w_latest w =? PSMI_LATEST_NONE then 0 else u32 (w_latest w + 1) mod w_slot_count w)
    < w_slot_count w.
Proof.
  intros H. destruct (wo_geometry w H) as (Hn & _). cbn in Hn.
  destruct (_ =? _); [lia |]. apply Z.mod_pos_bound. lia.
Qed.

Lemma wp_os_begin_slot (base : world) (w : psmsgr_state_writer) (en : Z)
    (Q : ptr * psmsgr_state_writer -> Z -> world -> Prop) :
  writer_ok w ->
  (forall w' i, writer_ok w' -> same_writer w w' -> 0 <= i < w_slot_count w -> w_open_slot w' = i ->
     Q (ptr_add (writer_slot w i) PSMI_SLOT_HEADER_SIZE, w') en (writer_world base w)) ->
  wp (begin_slot w) en (writer_world base w) Q.
Proof.
  intros H HQ. unfold begin_slot. cbv zeta. pose proof (next_slot w H) as Hi.
  set (i := if w_latest w =? PSMI_LATEST_NONE then 0 else _) in *.
  pose proof (writer_seq_mapped base w i H Hi) as Hq.
  apply wp_bind, wp_os; [by apply word_read |]. intros q w1 [_ ->].
  apply wp_bind, wp_os_same; [done | done |]. intros [].
  apply wp_bind, wp_os_same; [done | done |]. intros [].
  apply wp_ret, HQ; [| done ..].
  destruct H. constructor; try done. by right.
Qed.

Lemma wp_os_commit_slot (base : world) (w : psmsgr_state_writer) (len en : Z)
    (Q : Z * psmsgr_state_writer -> Z -> world -> Prop) :
  writer_ok w -> 0 <= w_open_slot w < w_slot_count w ->
  (forall gen w' en', writer_ok w' -> same_writer w w' -> w_open_slot w' = PSMI_LATEST_NONE ->
     Q (gen, w') en' (writer_world base w)) ->
  wp (commit_slot w len) en (writer_world base w) Q.
Proof.
  intros H Hi HQ. unfold commit_slot. cbv zeta.
  pose proof (wo_geometry w H) as (_ & Hc & _). cbn in Hc.
  assert (Hf : forall n d v (k : prog (Z * psmsgr_state_writer)) en Q, 0 <= d -> d + Z.of_nat n <= 32 ->
    (forall en, wp k en (writer_world base w) Q) ->
    wp (plain_store (ptr_add (writer_slot w (w_open_slot w)) d) n v ;;; k) en (writer_world base w) Q).
  { intros n d v k en0 Q0 Hd Hn Hk. apply wp_bind, wp_os_plain_store; [| | apply Hk].
    - apply writer_slot_mapped; first [done | lia].
    - apply writer_slot_off; first [done | lia]. }
  apply Hf; [unfold SOff.generation; lia .. | intros en1].
  apply Hf; [unfold SOff.length; lia .. | intros en2].
  apply wp_bind, wp_os_clock. intros now _.
  apply Hf; [unfold SOff.timestamp_ns; lia .. | intros en3].
  apply wp_bind, wp_os_same; [by apply writer_seq_mapped | done |]. intros [].
  apply wp_bind, wp_os_same; [apply writer_word; first [done | unfold HOff.state, HOff.latest; lia] | done |]. intros [].
  assert (Hw : forall x y, writer_ok (w_set_latest_gen
     (w_set_open (w_set_latest_gen w (w_open_slot w) (w_gen w)) PSMI_LATEST_NONE y)
     (w_open_slot w) x)).
  { intros x y. destruct H. constructor; first [done | by left | by right]. }
  apply wp_bind. cbn [w_notify w_set_open w_set_latest_gen w_latest w_hdr].
  destruct (w_notify w); [| by apply wp_ret, wp_ret, HQ].
  pose proof (writer_word base w HOff.notify H ltac:(unfold HOff.state, HOff.notify; lia) eq_refl) as Hn.
  apply wp_bind, wp_os; [done |]. intros n w' [_ ->].
  apply wp_bind, wp_os_same; [by apply word_read | done |]. intros x.
  apply wp_ret, wp_ret. by apply HQ.
Qed.

Lemma slot_index_open (w : psmsgr_state_writer) :
  writer_ok w -> w_open_slot w <> PSMI_LATEST_NONE -> 0 <= w_open_slot w < w_slot_count w.
Proof. intros [_ _ _ _ [H|H]] Hn; [done | exact H]. Qed.

Lemma wp_os_retire (w : world) (h : ptr) (en : Z) (Q : unit -> Z -> world -> Prop) :
  word_mapped w (ptr_add h HOff.state) true -> word_mapped w (ptr_add h HOff.notify) true ->
  (forall en', Q tt en' w) -> wp (retire h) en w Q.
Proof.
  intros Hs Hn HQ. unfold retire, futex_wake_all.
  apply wp_bind, wp_os; [done |]. intros x w' [_ ->].
  apply wp_bind, wp_os; [done |]. intros y w' [_ ->].
  apply wp_bind, wp_os; [by apply word_read |]. intros z w' ->. apply wp_ret, HQ.
Qed.

(** What a call of a writer does to its handle and the world. *)
Definition writer_post (base : world) (w w' : psmsgr_state_writer) (wd : world) : Prop :=
  writer_ok w' /\ same_writer w w' /\ wd = writer_world base w.

Lemma wp_os_publish (base : world) (w : psmsgr_state_writer) (data : list Z) (en : Z) :
  writer_ok w ->
  wp (psmsgr_state_publish (Some w) (Some data) (Z.of_nat (length data))) en (writer_world base w)
    (fun '(_, h, _) _ wd => exists w', h = Some w' /\ writer_post base w w' wd).
Proof.
  intros H. unfold psmsgr_state_publish.
  destruct (negb (w_open_slot w =? PSMI_LATEST_NONE)); [apply wp_ret; by exists w |].
  destruct (Z.ltb_spec (w_capacity w) (Z.of_nat (length data))); [apply wp_ret; by exists w |].
  apply wp_bind, wp_os_begin_slot; [done |]. intros w1 i H1 S1 Hi Eo.
  apply wp_bind. unfold psmi_seq_copy_to. change (default [] (Some data)) with data.
  assert (Hk : forall en, wp (let* (gen, w) := commit_slot w1 (Z.of_nat (length data)) in
      ret (PSMSGR_OK, Some w, Some gen)) en (writer_world base w)
    (fun '(_, h, _) _ wd => exists w', h = Some w' /\ writer_post base w w' wd)).
  { intros en'. destruct S1 as (Eb & El & Eh & Em & Eg). injection Eg as Ec Es Ecap.
    assert (E : writer_world base w = writer_world base w1)
      by (unfold writer_world; by rewrite Eh, Em).
    rewrite E. apply wp_bind, wp_os_commit_slot; [done | rewrite Eo, Ec; done |].
    intros gen w2 en2 H2 S2 _. apply wp_ret. exists w2. split; [done |].
    split; [done |]. split; [| done]. destruct S2 as (? & ? & ? & ? & ?).
    unfold same_writer, w_geometry in *. repeat split; try congruence. }
  destruct (negb _); [| apply wp_ret, Hk].
  apply wp_os_store_bytes; [| apply writer_slot_off; first [done | lia] | apply Hk].
  rewrite Nat2Z.id, take_ge by done.
  apply writer_slot_mapped; first [done | unfold PSMI_SLOT_HEADER_SIZE; lia].
Qed.

Lemma wp_os_begin (base : world) (w : psmsgr_state_writer) (buf_null : bool) (en : Z) :
  writer_ok w ->
  wp (psmsgr_state_begin (Some w) buf_null) en (writer_world base w)
    (fun '(_, h, _) _ wd => exists w', h = Some w' /\ writer_post base w w' wd).
Proof.
  intros H. unfold psmsgr_state_begin. destruct buf_null; [apply wp_ret; by exists w |].
  destruct (negb _); [apply wp_ret; by exists w |].
  apply wp_bind, wp_os_begin_slot; [done |]. intros w1 i H1 S1 _ _. apply wp_ret. by exists w1.
Qed.

Lemma wp_os_commit (base : world) (w : psmsgr_state_writer) (len en : Z) :
  writer_ok w ->
  wp (psmsgr_state_commit (Some w) len) en (writer_world base w)
    (fun '(_, h, _) _ wd => exists w', h = Some w' /\ writer_post base w w' wd).
Proof.
  intros H. unfold psmsgr_state_commit.
  destruct (Z.eqb_spec (w_open_slot w) PSMI_LATEST_NONE) as [|Hn]; [apply wp_ret; by exists w |].
  destruct (w_capacity w <? len); [apply wp_ret; by exists w |].
  apply wp_bind, wp_os_commit_slot; [done | by apply slot_index_open |].
  intros gen w1 en1 H1 S1 _. apply wp_ret. by exists w1.
Qed.

(** Everything the holder of a writer may do with it. *)
Lemma wp_os_action (base : world) (w : psmsgr_state_writer) (a : action) (en : Z) :
  writer_ok w -> action_ok w a ->
  wp (run_action a w) en (writer_world base w) (fun w' _ wd => writer_post base w w' wd).
Proof.
  intros H Ha. destruct a as [data| |d bs|len| |pid|]; cbn [run_action action_ok] in *.
  - apply wp_bind. eapply wp_mono; [by apply wp_os_publish |].
    intros [[rc h] gen] en' wd (w' & -> & Hp). by apply wp_ret.
  - apply wp_bind. eapply wp_mono; [by apply wp_os_begin |].
    intros [[rc h] gen] en' wd (w' & -> & Hp). by apply wp_ret.
  - destruct Ha as (Hn & Hd & Hl). pose proof (slot_index_open w H Hn).
    assert (0 <= PSMI_SLOT_HEADER_SIZE + d) by (unfold PSMI_SLOT_HEADER_SIZE; lia).
    apply wp_bind, wp_os_store_bytes; [| apply writer_slot_off; first [done | lia] | by apply wp_ret].
    apply writer_slot_mapped; [done | done | done |]. unfold PSMI_SLOT_HEADER_SIZE. lia.
  - apply wp_bind. eapply wp_mono; [by apply wp_os_commit |].
    intros [[rc h] gen] en' wd (w' & -> & Hp). by apply wp_ret.
  - apply wp_ret. unfold psmsgr_state_abort. destruct (_ =? _); [done |]. cbn [snd]. change (default w (Some ?x)) with x.
    split; [| done]. destruct H. constructor; try done. by left.
  - apply wp_bind, wp_os_plain_store; [| | by apply wp_ret].
    + apply writer_header; first [done | unfold HOff.writer_pid; lia].
    + cbn [ptr_add p_off]. rewrite (wo_off w H). unfold HOff.state, HOff.writer_pid. lia.
  - apply wp_bind, wp_os_retire; [| | intros; by apply wp_ret];
      apply writer_word; first [done | unfold HOff.state, HOff.notify; lia].
Qed.

(** ** Creating the data file *)

Lemma wp_os_random_generation (en : Z) (w : world) (Q : Z -> Z -> world -> Prop) :
  (forall g en', Q g en' w) -> wp random_generation en w Q.
Proof.
  intros HQ. unfold random_generation. cbv zeta.
  assert (Hm : forall en, wp (let* mono := psmi_clock_ns CLOCK_MONOTONIC in
      let* real := psmi_clock_ns CLOCK_REALTIME in
      let* pid := call SysGetpid in ret (u32 (mix64 mono real pid))) en w
      (fun g en' w' => wp (ret (if negb (g =? 0) then g else 1)) en' w' Q)).
  { intros en'. apply wp_bind, wp_os_clock. intros m _. apply wp_bind, wp_os_clock. intros r _.
    apply wp_bind, wp_os; [done |]. intros pid w' ->. apply wp_ret, wp_ret, HQ. }
  apply wp_bind, wp_os; [done |]. intros [bs|e] w' [_ ->]; apply wp_bind; [| apply Hm].
  destruct (length bs =? 4)%nat; [| apply Hm]. apply wp_ret, wp_ret, HQ.
Qed.

(** The clean-up of [create_file]: everything it acquired is released. *)
Lemma wp_os_create_fail (base w1 : world) (fd tb size en : Z) (tmp : string) (map : option Z)
    (w : psmsgr_state_writer) (Q : Z * psmsgr_state_writer -> Z -> world -> Prop) :
  fd ∉ wd_fds base -> tb ∉ wd_heap base ->
  match map with
  | Some b => free_blk b base /\
      exists hd, w1 = with_head b hd (add_map b size true (add_fd fd (add_blk tb base)))
  | None => w1 = add_fd fd (add_blk tb base)
  end ->
  Q (PSMSGR_E_SYS, w) en base ->
  wp (create_fail fd tb tmp map size w) en w1 Q.
Proof.
  intros Hfd Htb Hm HQ. unfold create_fail. apply wp_bind, wp_get_errno.
  assert (Hk : forall en', wp (let* _ := call (SysClose fd) in let* _ := call (SysUnlink tmp) in
      let* _ := call (Free tb) in set_errno en ;;; ret (PSMSGR_E_SYS, w)) en'
      (add_fd fd (add_blk tb base)) Q).
  { intros en'. apply wp_bind, wp_os; [cbn; set_solver |]. intros x w' ->.
    rewrite del_add_fd by (cbn; set_solver).
    apply wp_bind, wp_os; [done |]. intros y w' ->.
    apply wp_bind, wp_os; [cbn; set_solver |]. intros z w' ->. rewrite del_add_blk by done.
    by apply wp_bind, wp_set_errno, wp_ret. }
  apply wp_bind. destruct map as [b|].
  - destruct Hm as [Hb [hd ->]]. apply wp_bind, wp_os; [exists true; destruct hd; apply lookup_insert_eq |].
    intros x w' [_ ->]. rewrite del_with_head, del_add_map by done. apply wp_ret, Hk.
  - subst w1. apply wp_ret, Hk.
Qed.

(** What the stores of [store_header] note. *)
Definition stored_head (o : psmsgr_state_options) (m : gmap Z Z) : gmap Z Z :=
  head_put HOff.config_flags (le_bytes 4 (config_flags_of o))
 (head_put HOff.payload_type (le_bytes 4 (o_payload_type o))
 (head_put HOff.capacity (le_bytes 4 (o_capacity o))
 (head_put HOff.slot_stride (le_bytes 4 (psmi_slot_stride (o_capacity o)))
 (head_put HOff.slot_count (le_bytes 4 (o_slot_count o))
 (head_put HOff.slot_header_size (le_bytes 4 PSMI_SLOT_HEADER_SIZE)
 (head_put HOff.header_size (le_bytes 4 PSMI_HEADER_SIZE)
 (head_put HOff.version_minor (le_bytes 2 PSMI_VERSION_MINOR)
 (head_put HOff.version_major (le_bytes 2 PSMI_VERSION_MAJOR)
 (head_put HOff.magic (le_bytes 4 PSMI_MAGIC) m))))))))).

(** The bytes of the fields that are read back are in [m]. *)
Definition geom_noted (o : psmsgr_state_options) (m : gmap Z Z) : Prop :=
  forall off v i x, In (off, v) (geom_fields o) -> le_bytes 4 v !! i = Some x ->
    m !! (off + Z.of_nat i) = Some x.

Lemma stored_head_noted (o : psmsgr_state_options) (m : gmap Z Z) : geom_noted o (stored_head o m).
Proof.
  intros off v i x Hi Hx. pose proof (lookup_lt_Some _ _ _ Hx) as Hl. rewrite length_le_bytes in Hl.
  cbn [geom_fields In] in Hi. revert Hx. unfold stored_head. unfold_offsets.
  repeat (destruct Hi as [[= <- <-] | Hi];
    [rewrite ?head_put_out by (rewrite length_le_bytes; lia); apply head_put_in |]).
  destruct Hi.
Qed.

Lemma geom_field_off (o : psmsgr_state_options) (off v : Z) :
  In (off, v) (geom_fields o) -> 0 <= off <= 32.
Proof. cbn [geom_fields In]. unfold_offsets. intros Hi. decompose [or] Hi; simplify_eq; lia. Qed.

(** A header stored to a fresh mapping: the geometry is noted. *)
Lemma wp_os_store_header (w : world) (b : Z) (o : psmsgr_state_options) (en : Z)
    (Q : unit -> Z -> world -> Prop) :
  (forall a n, 0 <= a -> a + n <= 128 -> mapped w {| p_blk := b; p_off := a |} n true) ->
  wd_head w !! b = None ->
  (forall m en', geom_noted o m -> Q tt en' (with_head b (Some m) w)) ->
  wp (store_header {| p_blk := b; p_off := 0 |} o) en w Q.
Proof.
  intros Hm Hh HQ. unfold store_header, plain_store.
  assert (Hm' : forall hd a n, 0 <= a -> a + n <= 128 ->
    mapped (with_head b hd w) {| p_blk := b; p_off := a |} n true) by (intros [m|]; apply Hm).
  assert (Hf : forall n off v (k : prog unit) hd en, 0 <= off -> off + Z.of_nat (S n) <= HOff.state ->
    (forall m, m = head_put off (le_bytes (S n) v) (default ∅ hd) ->
       wp k en (with_head b (Some m) w) Q) ->
    wp (store_bytes (ptr_add {| p_blk := b; p_off := 0 |} off) (le_bytes (S n) v) ;;; k) en
      (with_head b hd w) Q).
  { intros n off v k hd en0 H0 Hn Hk. unfold HOff.state in Hn.
    apply wp_bind, (wp_os_store_head _ _ off); [| done | | done |]; rewrite ?length_le_bytes.
    - apply Hm; lia.
    - unfold HOff.state. lia.
    - done. }
  change w with (with_head b None w) at 1. generalize (@None (gmap Z Z)). intros hd.
  do 10 (apply Hf; [unfold_offsets; lia .. | intros ? ->]).
  apply wp_bind, wp_os_store_bytes; [by apply Hm' | done |].
  apply wp_bind, wp_os_clock. intros now _.
  apply wp_bind, wp_os_store_bytes; [by apply Hm' | done |]. apply wp_ret, HQ, stored_head_noted.
Qed.

(** It is read back. *)
Lemma wp_os_load_geom (w : world) (b : Z) (m : gmap Z Z) (o : psmsgr_state_options) (en : Z)
    (Q : psmi_header -> Z -> world -> Prop) :
  geometry_ok (new_geometry o) ->
  (forall a n, 0 <= a -> a + n <= 128 -> mapped w {| p_blk := b; p_off := a |} n true) ->
  wd_head w !! b = Some m ->
  geom_noted o m ->
  Q (new_geom o) en w -> wp (load_geom {| p_blk := b; p_off := 0 |}) en w Q.
Proof.
  intros Hg Hmap Hh Hm HQ. apply (wp_load_geom _ o); [done | | done]. intros off v Hi.
  apply known_bytes; [| apply le_bytes_forall |].
  - pose proof (geom_field_off _ _ _ Hi). rewrite length_le_bytes. apply mapped_read, Hmap; cbn [p_off]; lia.
  - intros i x Hx. unfold noted. cbn [ptr_add p_blk p_off]. rewrite Hh. cbn. by eapply Hm.
Qed.

(** The mapping of a file to replace. *)
Definition old_mapped (w : world) (old : option ptr) : Prop :=
  match old with
  | Some q => p_off q = 0 /\ mapped w q 128 true
  | None => True
  end.

Lemma old_word (w : world) (q : ptr) (a : Z) :
  old_mapped w (Some q) -> HOff.state <= a <= 124 -> a mod 4 = 0 -> word_mapped w (ptr_add q a) true.
Proof.
  unfold HOff.state. intros [Hq (s & b & H1 & H2 & H3 & H4)] Ha Hm. split.
  - exists s, b. cbn [ptr_add p_blk p_off]. split; [done |]. rewrite Hq in *.
    split; [lia | split; [lia | done]].
  - cbn [ptr_add p_off]. rewrite Hq. split; [done | unfold HOff.state; lia].
Qed.

(** The outcome of [create_file] and [open_data]: an attached handle, or none
    and the world as before. *)
Definition open_post (base : world) (w w' : psmsgr_state_writer) (rc : Z) (wd : world) : Prop :=
  if rc =? PSMSGR_OK
  then writer_ok w' /\ w_block w' = w_block w /\ w_lock_fd w' = w_lock_fd w /\
       w_open_slot w' = PSMI_LATEST_NONE /\
       free_blk (p_blk (w_hdr w')) base /\
       exists hd, wd = writer_world (with_head (p_blk (w_hdr w')) hd base) w'
  else (rc = PSMSGR_E_SYS \/ rc = PSMSGR_E_FORMAT \/ rc = PSMSGR_E_MISMATCH) /\ w' = w /\ wd = base.

Lemma attach_ok (w : psmsgr_state_writer) (b latest gen : Z) (h : psmi_header) :
  geometry_ok (geometry_of h) -> slot_index (h_slot_count h) latest ->
  writer_ok (writer_attach w {| p_blk := b; p_off := 0 |}
               (psmi_file_size (h_slot_count h) (h_slot_stride h)) h latest gen).
Proof. intros Hg Hl. constructor; try done. by left. Qed.

(** From the rename on: the new file is mapped, its geometry noted. *)
Lemma wp_os_publish_file (base : world) (w : psmsgr_state_writer) (o : psmsgr_state_options)
    (p : paths) (old : option ptr) (tmp : string) (fd tb b gen en : Z) (m : gmap Z Z)
    (Q : Z * psmsgr_state_writer -> Z -> world -> Prop) :
  let size := psmi_file_size (o_slot_count o) (psmi_slot_stride (o_capacity o)) in
  geometry_ok (new_geometry o) -> old_mapped base old -> fd ∉ wd_fds base -> tb ∉ wd_heap base ->
  free_blk b base ->
  (forall a n, 0 <= a -> a + n <= 128 ->
     mapped (add_map b size true base) {| p_blk := b; p_off := a |} n true) ->
  geom_noted o m ->
  (forall rc w' wd en', open_post base w w' rc wd -> rc = PSMSGR_OK \/ rc = PSMSGR_E_SYS ->
     Q (rc, w') en' wd) ->
  wp (let* rn := call (SysRename tmp (pt_data p)) in
      match rn with
      | inr _ => create_fail fd tb tmp (Some b) size w
      | inl _ =>
          let* _ := call (SysClose fd) in
          let* _ := call (Free tb) in
          (match old with Some old => retire old | None => ret tt end) ;;;
          let* geom := load_geom {| p_blk := b; p_off := 0 |} in
          ret (PSMSGR_OK, writer_attach w {| p_blk := b; p_off := 0 |} size geom PSMI_LATEST_NONE gen)
      end) en (with_head b (Some m) (add_map b size true (add_fd fd (add_blk tb base)))) Q.
Proof.
  intros size Hg Hold Hfd Htb Hb Hmap Hm HQ.
  apply wp_bind, wp_os; [done |]. intros [[]|e2] w' ->.
  2: { eapply wp_os_create_fail; [done | done | split; [done |]; by eexists |].
       apply HQ; [split; [by left | done] | by right]. }
  apply wp_bind, wp_os; [cbn; set_solver |]. intros x w' ->.
  apply wp_bind, wp_os; [cbn; set_solver |]. intros y w' ->.
  set (wd := add_map b size true (with_head b (Some m) base)).
  assert (E : del_blk tb (del_fd fd (with_head b (Some m) (add_map b size true
    (add_fd fd (add_blk tb base))))) = wd) by (unfold wd; clear -Hfd Htb; world_solve).
  rewrite E.
  assert (Hk : forall en', wp (let* geom := load_geom {| p_blk := b; p_off := 0 |} in
     ret (PSMSGR_OK, writer_attach w {| p_blk := b; p_off := 0 |} size geom PSMI_LATEST_NONE gen))
     en' wd Q).
  { intros en'. apply wp_bind, (wp_os_load_geom wd b m o);
      [done | exact Hmap | apply lookup_insert_eq | done |].
    apply wp_ret, HQ; [| by left]. unfold open_post. cbn [Z.eqb PSMSGR_OK].
    split; [apply (attach_ok w b PSMI_LATEST_NONE gen (new_geom o)); [exact Hg | by left] |].
    do 4 (split; [done |]). by exists (Some m). }
  apply wp_bind. destruct old as [q|]; [| by apply wp_ret].
  assert (Hold' : old_mapped wd (Some q)).
  { split; [apply Hold |]. apply mapped_add_map; [apply Hb | apply Hold]. }
  apply wp_os_retire; [| | done]; apply old_word;
    first [done | unfold HOff.state, HOff.notify; lia].
Qed.

Lemma wp_os_create_file (base : world) (w : psmsgr_state_writer) (o : psmsgr_state_options)
    (p : paths) (old : option ptr) (gen en : Z)
    (Q : Z * psmsgr_state_writer -> Z -> world -> Prop) :
  geometry_ok (new_geometry o) -> old_mapped base old ->
  (forall rc w' wd en', open_post base w w' rc wd -> rc = PSMSGR_OK \/ rc = PSMSGR_E_SYS ->
     Q (rc, w') en' wd) ->
  wp (create_file w o p old gen) en base Q.
Proof.
  intros Hg Hold HQ. unfold create_file.
  assert (Hsys : forall en', Q (PSMSGR_E_SYS, w) en' base).
  { intros en'. apply HQ; [split; [by left | done] | by right]. }
  apply wp_bind, wp_os; [done |]. intros [tb|] w1 Hs; cbn [world_step] in Hs;
    [| subst w1; by apply wp_ret].
  destruct Hs as [Htb ->]. apply wp_bind, wp_os; [done |]. intros [[fd tmp]|e] w1 Hs;
    cbn [world_step] in Hs.
  2: { subst w1. apply wp_bind, wp_os; [cbn; set_solver |]. intros x w' ->.
       rewrite del_add_blk by done. by apply wp_ret. }
  destruct Hs as (_ & Hfd & ->). cbn [wd_fds add_blk] in Hfd. cbv zeta.
  set (w1 := add_fd fd (add_blk tb base)).
  assert (Hin : fd ∈ wd_fds w1) by (cbn; set_solver).
  assert (Hfail : forall en', wp (create_fail fd tb tmp None
    (psmi_file_size (o_slot_count o) (psmi_slot_stride (o_capacity o))) w) en' w1 Q)
    by (intros en'; by eapply wp_os_create_fail).
  set (size := psmi_file_size (o_slot_count o) (psmi_slot_stride (o_capacity o))) in *.
  assert (Esize : size = 128 + o_slot_count o * psmi_slot_stride (o_capacity o))
    by exact (psmi_file_size_arith _ Hg).
  pose proof (stride_bounds _ Hg) as Hst. pose proof Hg as (Hn & _).
  cbn [new_geometry g_slots g_stride g_cap] in Hst, Hn.
  apply wp_bind, wp_os; [done |]. intros [[]|e] w' ->; [| apply Hfail].
  apply wp_bind, wp_os; [done |]. intros e w' ->.
  destruct (negb (e =? 0)); [by apply wp_bind, wp_set_errno, Hfail |].
  apply wp_bind, wp_os; [split; [done | nia] |]. intros [b|e2] w' Hs; cbn [world_step] in Hs;
    [| subst w'; apply Hfail].
  destruct Hs as [Hb ->].
  assert (Hmap : forall w2 a n, 0 <= a -> a + n <= 128 ->
    mapped (add_map b size true w2) {| p_blk := b; p_off := a |} n true).
  { intros w2 a n Ha Han. exists size, true. cbn. split; [apply lookup_insert_eq | nia]. }
  apply wp_bind, wp_os_store_header; [apply Hmap | apply Hb |]. intros m en1 Hm.
  apply (wp_os_publish_file base w o p old tmp fd tb b gen en1 m); try done. apply Hmap.
Qed.

(** ** The lock file and leftovers *)

Lemma wp_os_names_inode (path : string) (fd en : Z) (w : world)
    (Q : bool * Z -> Z -> world -> Prop) :
  fd ∈ wd_fds w ->
  (forall c err en', err = PSMSGR_OK \/ err = PSMSGR_E_SYS -> Q (c, err) en' w) ->
  wp (names_inode path fd) en w Q.
Proof.
  intros Hfd HQ. unfold names_inode.
  apply wp_bind, wp_os; [done |]. intros [fs|e] w' ->; [| apply wp_ret, HQ; by right].
  apply wp_bind, wp_os; [done |]. intros [ps|e] w' ->; [by apply wp_ret, HQ; left |].
  apply wp_bind, wp_get_errno, wp_ret, HQ. destruct (negb _); auto.
Qed.

(** The lock, or nothing. *)
Definition lock_post (base : world) (rc fd : Z) (w : world) : Prop :=
  if rc =? PSMSGR_OK then fd ∉ wd_fds base /\ w = add_fd fd base
  else (rc = PSMSGR_E_SYS \/ rc = PSMSGR_E_WRITER_EXISTS) /\ w = base.

Definition lock_step_post (base : world) (x : unit + (Z * Z)) (w : world) : Prop :=
  match x with inl _ => w = base | inr (rc, fd) => lock_post base rc fd w end.

Lemma lock_sys (base : world) (fd : Z) : lock_post base PSMSGR_E_SYS fd base.
Proof. split; [by left | done]. Qed.

Lemma wp_os_lock_opened (base : world) (path : string) (fd en : Z) :
  fd ∉ wd_fds base ->
  wp (lock_opened path fd) en (add_fd fd base) (fun x _ w => lock_step_post base x w).
Proof.
  intros Hfd. unfold lock_opened. assert (Hin : fd ∈ wd_fds (add_fd fd base)) by (cbn; set_solver).
  assert (Hc : forall (x : unit + (Z * Z)) en', lock_step_post base x base ->
    wp (close_keep_errno fd ;;; ret x) en' (add_fd fd base) (fun x _ w => lock_step_post base x w)).
  { intros x en' Hx. apply wp_bind, wp_os_close; [done |]. rewrite del_add_fd by done.
    by apply wp_ret. }
  apply wp_bind. assert (Hk : forall en', wp (let* l := call (SysSetlk fd) in
    match l with
    | inr _ =>
        let* e := get_errno in
        if negb (e =? EAGAIN) && negb (e =? EACCES) then
          close_keep_errno fd ;;; ret (inr (PSMSGR_E_SYS, -1))
        else
          let* (current, err) := names_inode path fd in
          close_keep_errno fd ;;;
          if negb (err =? PSMSGR_OK) then ret (inr (err, -1))
          else if current then ret (inr (PSMSGR_E_WRITER_EXISTS, -1))
          else ret (inl tt)
    | inl _ =>
        let* (current, err) := names_inode path fd in
        if current then ret (inr (PSMSGR_OK, fd))
        else
          close_keep_errno fd ;;;
          if negb (err =? PSMSGR_OK) then ret (inr (err, -1)) else ret (inl tt)
    end) en' (add_fd fd base) (fun x _ w => lock_step_post base x w)).
  { intros en'. apply wp_bind, wp_os; [done |]. intros [[]|e] w' ->.
    - apply wp_bind, wp_os_names_inode; [done |]. intros [|] err en2 Herr; [by apply wp_ret |].
      apply wp_bind, wp_os_close; [done |]. rewrite del_add_fd by done.
      destruct Herr as [-> | ->]; cbn [Z.eqb PSMSGR_OK PSMSGR_E_SYS negb]; apply wp_ret;
        [done | apply lock_sys].
    - apply wp_bind, wp_get_errno. destruct (_ && _); [apply Hc, lock_sys |].
      apply wp_bind, wp_os_names_inode; [done |]. intros c err en2 Herr.
      apply wp_bind, wp_os_close; [done |]. rewrite del_add_fd by done.
      destruct Herr as [-> | ->]; cbn [Z.eqb PSMSGR_OK PSMSGR_E_SYS negb];
        [destruct c; apply wp_ret; [split; [by right | done] | done] | apply wp_ret, lock_sys]. }
  destruct psmi_test_lock_opened; [| by apply wp_ret].
  apply wp_os; [done |]. by intros [] w' ->.
Qed.

Lemma wp_os_lock_body (base : world) (path : string) (mode en : Z) (x : unit) :
  wp (lock_body path mode x) en base (fun x _ w => lock_step_post base x w).
Proof.
  unfold lock_body. apply wp_bind, wp_os; [done |]. intros [fd|e] w' Hs; cbn [world_step] in Hs.
  - destruct Hs as (_ & Hfd & ->).
    assert (Hin : fd ∈ wd_fds (add_fd fd base)) by (cbn; set_solver).
    apply wp_bind, wp_os; [done |]. intros [[]|e] w' ->; [by apply wp_os_lock_opened |].
    apply wp_bind, wp_os_close; [done |]. rewrite del_add_fd by done. apply wp_ret, lock_sys.
  - subst w'. apply wp_bind, wp_get_errno. destruct (_ =? EEXIST); [| apply wp_ret, lock_sys].
    apply wp_bind, wp_os; [done |]. intros [fd|e2] w' Hs; cbn [world_step] in Hs.
    + destruct Hs as (_ & Hfd & ->). by apply wp_os_lock_opened.
    + subst w'. apply wp_bind, wp_get_errno. destruct (_ =? ENOENT); apply wp_ret;
        [done | apply lock_sys].
Qed.

Lemma wp_os_lock_channel (base : world) (fuel : nat) (path : string) (mode en : Z)
    (Q : Z * Z -> Z -> world -> Prop) :
  (forall rc fd w en', lock_post base rc fd w -> Q (rc, fd) en' w) ->
  wp (lock_channel fuel path mode) en base Q.
Proof.
  intros HQ. unfold lock_channel.
  apply (wp_loop (fun _ _ w => w = base)); [done | | done].
  intros x en1 w ->. eapply wp_mono; [apply wp_os_lock_body |].
  intros [[]|[rc fd]] en' w' H; [done | by apply HQ].
Qed.

Lemma wp_os_remove_stale_tmp (w : world) (fuel : nat) (p : paths) (en : Z)
    (Q : unit -> Z -> world -> Prop) :
  (forall en', Q tt en' w) -> wp (remove_stale_tmp fuel p) en w Q.
Proof.
  intros HQ. unfold remove_stale_tmp. apply wp_bind, wp_os; [done |].
  intros [d|e] w' Hs; cbn [world_step] in Hs; [| subst w'; apply wp_ret, HQ].
  destruct Hs as [Hd ->]. assert (Hin : d ∈ wd_dirs (add_dir d w)) by (cbn; set_solver).
  apply wp_bind, (wp_loop (fun _ _ w' => w' = add_dir d w)); [done | | done].
  - intros [] en1 w' ->. apply wp_bind, wp_os; [done |]. intros [n|] w' ->.
    + destruct (stale_tmp _ n); [| by apply wp_ret].
      apply wp_bind, wp_os; [done |]. intros x w' ->. by apply wp_ret.
    + apply wp_ret, wp_bind, wp_os; [done |]. intros x w' ->. rewrite del_add_dir by done.
      apply wp_ret, HQ.
Qed.

(** ** Reusing a file *)

(** The world with the old file mapped. *)
Definition with_old (base : world) (old : option ptr) (size : Z) : world :=
  match old with Some q => add_map (p_blk q) size true base | None => base end.

Definition old_ok (base : world) (old : option ptr) (size : Z) : Prop :=
  match old with
  | Some q => p_off q = 0 /\ free_blk (p_blk q) base /\ 128 <= size
  | None => True
  end.

Lemma old_with_old (base : world) (old : option ptr) (size : Z) :
  old_ok base old size -> old_mapped (with_old base old size) old.
Proof.
  destruct old as [q|]; [| done]. intros (Hq & Hb & Hs). split; [done |].
  exists size, true. cbn. rewrite Hq. split; [apply lookup_insert_eq | split; [done | lia]].
Qed.

(** The [unmap] at the end of [open_data]. *)
Lemma wp_os_finish (base : world) (w : psmsgr_state_writer) (old : option ptr) (size en : Z)
    (m : prog (Z * psmsgr_state_writer)) :
  old_ok base old size ->
  wp m en (with_old base old size)
    (fun '(rc, w') _ wd => open_post (with_old base old size) w w' rc wd) ->
  wp (let* (rc, w) := m in
      (match old with
       | Some q => let* _ := call (SysMunmap (p_blk q) size) in ret tt
       | None => ret tt
       end) ;;; ret (rc, w)) en (with_old base old size)
    (fun '(rc, w') _ wd => open_post base w w' rc wd).
Proof.
  intros Ho Hm. apply wp_bind. eapply wp_mono; [exact Hm |]. intros [rc w'] en' wd H.
  apply wp_bind. destruct old as [q|]; [| by apply wp_ret, wp_ret].
  destruct Ho as (Hq & Hb & Hs). unfold open_post in H. cbn [with_old] in H.
  destruct (rc =? PSMSGR_OK) eqn:E.
  - destruct H as (Hw & E1 & E2 & E3 & [Hn Hh] & [hd ->]). cbn [add_map wd_maps] in Hn.
    apply lookup_insert_None in Hn as [Hn Hne]. set (b := p_blk (w_hdr w')) in *.
    apply wp_bind, wp_os.
    { exists true. unfold writer_world. destruct hd; cbn; fold b; rewrite lookup_insert_ne by done;
        apply lookup_insert_eq. }
    intros x wd [_ ->]. apply wp_ret, wp_ret. cbv beta iota. unfold open_post. rewrite E.
    do 4 (split; [done |]). split; [by split |]. exists hd. fold b.
    unfold writer_world. fold b. rewrite del_add_map_ne by done.
    by rewrite del_with_head_ne, del_add_map by done.
  - destruct H as (Hrc & -> & ->). apply wp_bind, wp_os; [exists true; apply lookup_insert_eq |].
    intros x wd [_ ->]. rewrite del_add_map by done.
    apply wp_ret, wp_ret. cbv beta iota. unfold open_post. by rewrite E.
Qed.

(** What the validation of the old file has established. *)
Definition old_valid (old : option ptr) (size : Z) (valid : bool) (h : psmi_header) (latest : Z) : Prop :=
  valid = true ->
  is_Some old /\ geometry_ok (geometry_of h) /\
  size = psmi_file_size (h_slot_count h) (h_slot_stride h) /\ slot_index (h_slot_count h) latest.

Lemma wp_os_carried_generation (base : world) (q : ptr) (size latest en : Z) (h : psmi_header)
    (Q : Z -> Z -> world -> Prop) :
  old_ok base (Some q) size -> old_valid (Some q) size true h latest ->
  (forall g en', Q g en' (with_old base (Some q) size)) ->
  wp (carried_generation q (h_slot_stride h) latest) en (with_old base (Some q) size) Q.
Proof.
  intros (Hq & Hb & Hs) Hv HQ. destruct (Hv eq_refl) as (_ & Hg & Es & Hi).
  unfold carried_generation. destruct (Z.eqb_spec latest PSMI_LATEST_NONE) as [|Hn].
  - apply wp_os_random_generation. intros g en'. apply HQ.
  - destruct Hi as [|Hi]; [done |]. cbv zeta.
    apply wp_bind, wp_os_plain_load; [| intros v _; apply wp_ret, HQ].
    exists size, true. cbn [ptr_add p_blk p_off with_old add_map wd_maps].
    split; [apply lookup_insert_eq |]. rewrite Hq, Es.
    pose proof (psmi_file_size_arith _ Hg) as E. pose proof (stride_bounds _ Hg) as Hst.
    cbn [geometry_of g_slots g_stride g_cap] in *. rewrite E.
    unfold slot_offset, PSMI_HEADER_SIZE, SOff.generation. split; [nia | split; [nia | done]].
Qed.

Lemma wp_os_open_decide (base : world) (w : psmsgr_state_writer) (o : psmsgr_state_options)
    (p : paths) (old : option ptr) (size : Z) (valid : bool) (h : psmi_header) (latest en : Z) :
  geometry_ok (new_geometry o) -> old_ok base old size -> old_valid old size valid h latest ->
  wp (open_decide w o p old size valid h latest) en (with_old base old size)
    (fun '(rc, w') _ wd => open_post base w w' rc wd).
Proof.
  intros Hgo Hold Hv. unfold open_decide. cbv zeta.
  assert (Hcreate : forall gen en', wp (create_file w o p old gen) en' (with_old base old size)
    (fun '(rc, w') _ wd => open_post (with_old base old size) w w' rc wd)).
  { intros gen en'. apply wp_os_create_file; [done | by apply old_with_old | done]. }
  assert (Hfmt : forall rc en', rc = PSMSGR_E_FORMAT \/ rc = PSMSGR_E_MISMATCH ->
    wp (ret (rc, w)) en' (with_old base old size)
      (fun '(rc, w') _ wd => open_post (with_old base old size) w w' rc wd)).
  { intros rc en' Hrc. apply wp_ret. destruct Hrc as [-> | ->]; (split; [| done]); auto. }
  apply wp_bind. destruct valid; cbn [negb].
  2: { apply wp_os_random_generation. intros gen en'. apply wp_os_finish; [done |].
       destruct (negb _); [apply Hcreate | by apply Hfmt; left]. }
  destruct (Hv eq_refl) as ([q ->] & Hg & Es & Hi). change (default NULL_PTR (Some q)) with q.
  eapply wp_os_carried_generation; [done | done |]. intros gen en1.
  pose proof (old_word _ q HOff.state (old_with_old _ _ _ Hold) ltac:(unfold HOff.state; lia) eq_refl)
    as Hw.
  apply wp_bind, wp_os; [by apply word_read |]. intros s wd [_ ->].
  destruct (negb _); [by apply (wp_os_finish base w (Some q) size) |].
  destruct (_ || _).
  { apply (wp_os_finish base w (Some q) size); [done |].
    destruct (negb _); [apply Hcreate | by apply Hfmt; right]. }
  destruct (negb _); [by apply (wp_os_finish base w (Some q) size) |]. apply wp_ret.
  destruct Hold as (Hq & Hb & Hs). subst size.
  replace q with {| p_blk := p_blk q; p_off := 0 |} by (destruct q; cbn in *; by rewrite Hq).
  split; [by apply attach_ok |]. do 4 (split; [done |]). by exists None.
Qed.

(** The rest of [open_data] once the file is mapped, and once it is validated. *)
Definition open_mapped (w : psmsgr_state_writer) (o : psmsgr_state_options) (p : paths) (fd : Z)
    (old : option ptr) (map_size : Z) (valid : bool) (h : psmi_header)
    : prog (Z * psmsgr_state_writer) :=
  let* _ := call (SysClose fd) in
  let* latest := if valid
    then call (Load32 Acquire (ptr_add (default NULL_PTR old) HOff.latest))
    else ret PSMI_LATEST_NONE in
  open_decide w o p old map_size (valid && psmi_latest_valid latest (h_slot_count h)) h
    (if negb (latest =? PSMI_LATEST_NONE) then psmi_latest_slot latest else latest).

Definition open_validated (w : psmsgr_state_writer) (o : psmsgr_state_options) (p : paths) (fd : Z)
    (map_size : Z) (valid : bool) (h : psmi_header) : prog (Z * psmsgr_state_writer) :=
  let* m := if negb (map_size =? 0)
            then let* m := call (SysMmap fd map_size true false) in
                 match m with
                 | inr _ => ret None
                 | inl blk => ret (Some (Some {| p_blk := blk; p_off := 0 |}))
                 end
            else ret (Some None) in
  match m with
  | None => close_keep_errno fd ;;; ret (PSMSGR_E_SYS, w)
  | Some old => open_mapped w o p fd old map_size valid h
  end.

Lemma wp_os_open_mapped (base : world) (w : psmsgr_state_writer) (o : psmsgr_state_options)
    (p : paths) (fd : Z) (old : option ptr) (size en : Z) (valid : bool) (h : psmi_header) :
  geometry_ok (new_geometry o) -> fd ∉ wd_fds base -> old_ok base old size ->
  (valid = true -> is_Some old /\ geometry_ok (geometry_of h) /\
     size = psmi_file_size (h_slot_count h) (h_slot_stride h)) ->
  wp (open_mapped w o p fd old size valid h) en (add_fd fd (with_old base old size))
    (fun '(rc, w') _ wd => open_post base w w' rc wd).
Proof.
  intros Hgo Hfd Hold Hv. unfold open_mapped.
  apply wp_bind, wp_os; [cbn; set_solver |]. intros x w' ->.
  rewrite del_add_fd by (destruct old; exact Hfd).
  apply wp_bind. destruct valid; [| by apply wp_ret, wp_os_open_decide].
  destruct (Hv eq_refl) as ([q ->] & Hg & E). change (default NULL_PTR (Some q)) with q.
  pose proof (old_word _ q HOff.latest (old_with_old _ _ _ Hold) ltac:(unfold HOff.state, HOff.latest; lia) eq_refl)
    as Hw.
  apply wp_os; [by apply word_read |]. intros latest w' [_ ->]. cbn [andb].
  apply wp_os_open_decide; [done | done |]. intros Hlv. do 3 (split; [done |]).
  destruct (latest =? PSMI_LATEST_NONE) eqn:En; cbn [negb].
  - left. by apply Z.eqb_eq.
  - right. by apply valid_slot.
Qed.

Lemma wp_os_open_validated (base : world) (w : psmsgr_state_writer) (o : psmsgr_state_options)
    (p : paths) (fd size en : Z) (valid : bool) (h : psmi_header) :
  geometry_ok (new_geometry o) -> fd ∉ wd_fds base -> size = 0 \/ 128 <= size ->
  (valid = true -> size <> 0 /\ geometry_ok (geometry_of h) /\
     size = psmi_file_size (h_slot_count h) (h_slot_stride h)) ->
  wp (open_validated w o p fd size valid h) en (add_fd fd base)
    (fun '(rc, w') _ wd => open_post base w w' rc wd).
Proof.
  intros Hgo Hfd Hsz Hv. unfold open_validated. apply wp_bind.
  destruct (Z.eqb_spec size 0) as [E0|E0]; cbn [negb].
  - apply wp_ret, (wp_os_open_mapped base w o p fd None); [done | done | done |].
    intros Hval. by destruct (Hv Hval).
  - apply wp_bind, wp_os; [split; [cbn; set_solver | lia] |].
    intros [b|e] w' Hs; cbn [world_step] in Hs.
    + destruct Hs as [Hb ->]. apply wp_ret.
      apply (wp_os_open_mapped base w o p fd (Some {| p_blk := b; p_off := 0 |})); [done | done | |].
      * split; [done | split; [exact Hb | lia]].
      * intros Hval. split; [done | by apply Hv].
    + subst w'. apply wp_ret, wp_bind, wp_os_close; [cbn; set_solver |].
      rewrite del_add_fd by done. apply wp_ret. split; [by left | done].
Qed.

Lemma wp_os_open_data (base : world) (w : psmsgr_state_writer) (o : psmsgr_state_options)
    (p : paths) (en : Z) :
  geometry_ok (new_geometry o) ->
  wp (open_data w o p) en base (fun '(rc, w') _ wd => open_post base w w' rc wd).
Proof.
  intros Hgo. unfold open_data.
  assert (Hsys : open_post base w w PSMSGR_E_SYS base) by (split; [by left | done]).
  apply wp_bind, wp_os; [done |]. intros [fd|e] w' Hs; cbn [world_step] in Hs.
  2: { subst w'. apply wp_bind, wp_get_errno. destruct (_ =? ENOENT); [| by apply wp_ret].
       apply wp_bind, wp_os_random_generation. intros g en'. by apply wp_os_create_file. }
  destruct Hs as (_ & Hfd & ->). assert (Hin : fd ∈ wd_fds (add_fd fd base)) by (cbn; set_solver).
  apply wp_bind, wp_os_read_header; [done | |].
  - intros rc en' [-> | ->].
    + apply wp_bind, wp_os_close; [done |]. rewrite del_add_fd by done. by apply wp_ret.
    + by apply (wp_os_open_validated base w o p fd 0 en' false zero_header); [done | done | left |].
  - intros st h en' _ _ Hh.
    apply (wp_os_open_validated base w o p fd
      (if header_valid h (st_size st) then psmi_file_size (h_slot_count h) (h_slot_stride h)
       else if h_magic h =? PSMI_MAGIC then PSMI_HEADER_SIZE else 0) en' (header_valid h (st_size st)) h);
      [done | done | |].
    all: destruct (header_valid h (st_size st)) eqn:Hv.
    1, 3: pose proof (header_valid_geometry h _ Hh Hv) as Hg; pose proof (psmi_file_size_arith _ Hg) as E;
      pose proof (stride_bounds _ Hg) as Hst; pose proof Hg as (Hn & _);
      cbn [geometry_of g_slots g_stride g_cap] in *; rewrite E.
    + right. nia.
    + intros _. split; [nia | done].
    + destruct (_ =? _); [right; unfold PSMI_HEADER_SIZE; lia | by left].
    + done.
Qed.

(** ** Opening a writer *)

(** A caller's options: values of their C types, a C string. *)
Definition opt_arg (opt : option psmsgr_state_options) : Prop :=
  match opt with Some o => options_ok o /\ string_arg (o_dir o) | None => True end.

Lemma load_options_result (opt : option psmsgr_state_options) :
  opt_arg opt -> 0 <= sizeof_pointer < 4294967000 ->
  (fst (load_options opt) = PSMSGR_OK /\ geometry_ok (new_geometry (snd (load_options opt))) /\
   string_arg (o_dir (snd (load_options opt)))) \/
  fst (load_options opt) = PSMSGR_E_INVAL.
Proof.
  intros Ho Hp. destruct opt as [o|].
  2: { left. split; [reflexivity |]. split; [| done]. repeat split; try done; cbn; lia. }
  destruct Ho as [Ho Hd]. destruct (Z.eq_dec (o_struct_size o) 0) as [E|E].
  { right. unfold load_options. by rewrite E. }
  destruct (load_options_unfold o E Ho Hp) as (r & _ & _ & _ & _ & _ & _ & Er & Es & Hok & [Hr|Hr]);
    [left | by right].
  rewrite Es. split; [done |]. apply Hok in Hr as (H1 & H2 & _).
  split; [repeat split; cbn; lia |]. rewrite Er. by destruct (opt_has _ _ _).
Qed.

(** What an open writer owns besides its mapping: its block and the lock. *)
Definition writer_base (base : world) (w : psmsgr_state_writer) : world :=
  add_fd (w_lock_fd w) (add_blk (w_block w) base).

Definition writer_owns (base : world) (w : psmsgr_state_writer) : Prop :=
  w_block w ∉ wd_heap base /\ w_lock_fd w ∉ wd_fds base /\ free_blk (p_blk (w_hdr w)) base.

Definition open_code (rc : Z) : Prop :=
  rc = PSMSGR_E_INVAL \/ rc = PSMSGR_E_SYS \/ rc = PSMSGR_E_FORMAT \/ rc = PSMSGR_E_MISMATCH \/
  rc = PSMSGR_E_WRITER_EXISTS.

(** The result of opening a writer: everything it owns, or nothing.  [hd] is
    what was noted of the header, if the file was created. *)
Definition writer_open_post (base : world) (rc : Z) (h : option psmsgr_state_writer) (wd : world)
    : Prop :=
  match h with
  | Some w => rc = PSMSGR_OK /\ writer_ok w /\ writer_owns base w /\
              w_open_slot w = PSMI_LATEST_NONE /\
              exists hd, wd = writer_world (writer_base (with_head (p_blk (w_hdr w)) hd base) w) w
  | None => open_code rc /\ wd = base
  end.

(** The part under the lock. *)
Lemma wp_os_open_locked (base : world) (fuel : nat) (o : psmsgr_state_options) (p : paths)
    (w : psmsgr_state_writer) (en : Z) :
  geometry_ok (new_geometry o) -> w_lock_fd w ∉ wd_fds base ->
  wp (remove_stale_tmp fuel p ;;;
      let* (rc, w) := open_data w o p in
      (if negb (rc =? PSMSGR_OK) then close_keep_errno (w_lock_fd w) else ret tt) ;;;
      ret (rc, w)) en (add_fd (w_lock_fd w) base)
    (fun '(rc, w') _ wd =>
       if rc =? PSMSGR_OK then open_post (add_fd (w_lock_fd w) base) w w' rc wd
       else open_code rc /\ w' = w /\ wd = base).
Proof.
  intros Ho Hl. apply wp_bind, wp_os_remove_stale_tmp. intros en1. apply wp_bind.
  eapply wp_mono; [by apply wp_os_open_data |]. intros [rc w'] en2 wd Hp. apply wp_bind.
  destruct (rc =? PSMSGR_OK) eqn:E; cbn [negb].
  - apply wp_ret, wp_ret. cbv beta iota. by rewrite E.
  - unfold open_post in Hp. rewrite E in Hp. destruct Hp as (Hrc & -> & ->).
    apply wp_os_close; [cbn; set_solver |]. rewrite del_add_fd by done. apply wp_ret.
    cbv beta iota. rewrite E. split; [unfold open_code; tauto | done].
Qed.

Lemma wp_os_open_finish (base : world) (p : paths) (rc en : Z) (w w0 : psmsgr_state_writer) (wd : world) :
  pt_block p ∉ wd_heap base -> w_block w0 ∉ wd_heap (add_blk (pt_block p) base) ->
  w_block w = w_block w0 ->
  (if rc =? PSMSGR_OK
   then w_lock_fd w ∉ wd_fds base /\
        open_post (add_fd (w_lock_fd w) (add_blk (w_block w0) (add_blk (pt_block p) base))) w0 w rc wd
   else open_code rc /\ wd = add_blk (w_block w0) (add_blk (pt_block p) base)) ->
  wp (open_finish p rc w) en wd (fun '(rc, h) _ wd => writer_open_post base rc h wd).
Proof.
  intros Hp Hb Eb H. unfold open_finish, paths_free. destruct (rc =? PSMSGR_OK) eqn:E; cbn [negb].
  - destruct H as [Hl H]. unfold open_post in H. rewrite E in H.
    destruct H as (Hw & _ & _ & Ho & Hn & [hd ->]).
    apply wp_bind, wp_os; [destruct hd; cbn; set_solver |]. intros [] w' ->.
    apply wp_bind, wp_os; [done |]. intros pid w' ->.
    set (b := p_blk (w_hdr w)) in *.
    assert (Ew : del_blk (pt_block p) (writer_world (with_head b hd (add_fd (w_lock_fd w)
        (add_blk (w_block w0) (add_blk (pt_block p) base)))) w) =
        writer_world (writer_base (with_head b hd base) w) w).
    { unfold writer_world, writer_base. rewrite Eb. clear - Hp Hb. destruct hd; world_solve. }
    rewrite Ew. apply wp_bind, wp_os_plain_store.
    { apply writer_header; [done | unfold HOff.writer_pid; lia ..]. }
    { cbn [ptr_add p_off]. rewrite (wo_off w Hw). unfold HOff.state, HOff.writer_pid. lia. }
    apply wp_ret. split; [done |]. split; [done |]. split; [| by split; [| exists hd]].
    split; [rewrite Eb; clear - Hb; cbn in Hb; set_solver |]. split; [done | exact Hn].
  - destruct H as [Hrc ->]. apply wp_bind, wp_os; [cbn; set_solver |]. intros [] w' ->.
    apply wp_bind, wp_get_errno, wp_bind, wp_os; [rewrite Eb; cbn in *; clear - Hb; set_solver |].
    intros [] w' ->. apply wp_bind, wp_set_errno, wp_ret. split; [done |].
    rewrite Eb. clear - Hp Hb. world_solve.
Qed.

Lemma wp_os_writer_open (fuel : nat) (name : option string) (opt : option psmsgr_state_options)
    (out_null : bool) (en : Z) (base : world) :
  opt_arg opt -> 0 <= sizeof_pointer < 4294967000 ->
  wp (psmsgr_state_writer_open fuel name opt out_null) en base
    (fun '(rc, h) _ wd => writer_open_post base rc h wd).
Proof.
  intros Ho Hptr. unfold psmsgr_state_writer_open.
  assert (Hinval : open_code PSMSGR_E_INVAL) by by left.
  assert (Hsys : open_code PSMSGR_E_SYS) by (right; by left).
  destruct out_null; [by apply wp_ret |].
  pose proof (load_options_result opt Ho Hptr) as Hres.
  destruct (load_options opt) as [rc o]. cbn [fst snd] in Hres.
  destruct Hres as [(-> & Hg & Hd) | ->]; cbn [Z.eqb PSMSGR_OK PSMSGR_E_INVAL negb];
    [| by apply wp_ret].
  destruct (name_valid name) eqn:En; cbn [negb]; [| by apply wp_ret].
  destruct name as [name|]; [| done]. change (default "" (Some name))%string with name.
  apply wp_bind, wp_os_paths_init; [done | by apply name_valid_cstring | intros; by apply wp_ret |].
  intros p en1 Hp. apply wp_bind, wp_os; [done |]. intros [b|] w' Hs; cbn [world_step] in Hs.
  2: { subst w'. apply wp_bind, wp_os; [cbn; set_solver |]. intros [] w' ->.
       rewrite del_add_blk by done. by apply wp_ret. }
  destruct Hs as [Hb ->]. cbv zeta. set (base2 := add_blk b (add_blk (pt_block p) base)).
  apply wp_bind, wp_os_lock_channel. intros rc fd w' en2 Hl. unfold lock_post in Hl.
  apply wp_bind. destruct (rc =? PSMSGR_OK) eqn:E.
  - destruct Hl as [Hfd ->].
    eapply wp_mono; [by apply (wp_os_open_locked base2 fuel o p (w_set_lock (zero_writer b) fd)) |].
    intros [rc2 w2] en3 wd H. cbv beta iota in H.
    apply (wp_os_open_finish base p rc2 en3 w2 (w_set_lock (zero_writer b) fd)); try done.
    + destruct (rc2 =? PSMSGR_OK) eqn:E2.
      * unfold open_post in H. rewrite E2 in H. apply H.
      * by destruct H as (_ & -> & _).
    + destruct (rc2 =? PSMSGR_OK) eqn:E2; [| by destruct H as (? & _ & ?)].
      pose proof H as H'. unfold open_post in H'. rewrite E2 in H'. destruct H' as (_ & _ & El & _).
      rewrite El. split; [exact Hfd | exact H].
  - destruct Hl as [Hrc ->]. apply wp_ret.
    apply (wp_os_open_finish base p rc en2 (w_set_lock (zero_writer b) fd)
             (w_set_lock (zero_writer b) fd)); try done.
    rewrite E. split; [unfold open_code; tauto | done].
Qed.

Lemma wp_os_writer_close (base : world) (w : psmsgr_state_writer) (hd : option (gmap Z Z)) (en : Z)
    (Q : unit -> Z -> world -> Prop) :
  writer_owns base w -> (forall en', Q tt en' base) ->
  wp (psmsgr_state_writer_close (Some w)) en
    (writer_world (writer_base (with_head (p_blk (w_hdr w)) hd base) w) w) Q.
Proof.
  intros (Hb & Hl & Hm) HQ. unfold psmsgr_state_writer_close.
  apply wp_bind, wp_os; [exists true; apply lookup_insert_eq |]. intros x wd [_ ->].
  set (b := p_blk (w_hdr w)) in *.
  assert (E : del_map b (writer_world (writer_base (with_head b hd base) w) w) = writer_base base w).
  { unfold writer_world, writer_base. fold b. clear - Hm. destruct Hm.
    destruct hd; apply world_eq; simpl; try done; rewrite ?delete_insert_eq; by rewrite delete_id. }
  rewrite E. unfold writer_base.
  apply wp_bind, wp_os; [cbn; set_solver |]. intros y wd ->. rewrite del_add_fd by done.
  apply wp_bind, wp_os; [cbn; set_solver |]. intros z wd ->. rewrite del_add_blk by done.
  apply wp_ret, HQ.
Qed.

(** ** Deleting a channel *)

Definition unlink_code (rc : Z) : Prop :=
  rc = PSMSGR_OK \/ rc = PSMSGR_E_NODATA \/ rc = PSMSGR_E_SYS.

Lemma wp_os_unlink_open (base : world) (p : paths) (fd en : Z) :
  fd ∉ wd_fds base ->
  wp (unlink_open p fd) en (add_fd fd base) (fun rc _ wd => unlink_code rc /\ wd = base).
Proof.
  intros Hfd. unfold unlink_open, unlink_code. assert (Hin : fd ∈ wd_fds (add_fd fd base)) by (cbn; set_solver).
  assert (Hk : forall old en', old_ok base old 128 ->
    wp (let* _ := call (SysClose fd) in
        let* u := call (SysUnlink (pt_data p)) in
        let* rc := match u with
                   | inl _ => ret PSMSGR_OK
                   | inr _ => let* e := get_errno in
                              ret (if negb (e =? ENOENT) then PSMSGR_E_SYS else PSMSGR_E_NODATA)
                   end in
        (match old with
         | Some q =>
             (if rc =? PSMSGR_OK then retire q else ret tt) ;;;
             let* _ := call (SysMunmap (p_blk q) PSMI_HEADER_SIZE) in
             ret tt
         | None => ret tt
         end) ;;;
        ret rc) en' (add_fd fd (with_old base old 128)) (fun rc _ wd => unlink_code rc /\ wd = base)).
  { intros old en' Ho. apply wp_bind, wp_os; [cbn; set_solver |]. intros x w' ->.
    rewrite del_add_fd by (destruct old; exact Hfd).
    apply wp_bind, wp_os; [done |]. intros u w' ->. apply wp_bind.
    assert (Hr : forall rc en2, unlink_code rc -> wp ((match old with
         | Some q =>
             (if rc =? PSMSGR_OK then retire q else ret tt) ;;;
             let* _ := call (SysMunmap (p_blk q) PSMI_HEADER_SIZE) in
             ret tt
         | None => ret tt
         end) ;;; ret rc) en2 (with_old base old 128) (fun rc _ wd => unlink_code rc /\ wd = base)).
    { intros rc en2 Hrc. apply wp_bind. destruct old as [q|]; [| by apply wp_ret, wp_ret].
      assert (Hm : forall en3, wp (let* _ := call (SysMunmap (p_blk q) PSMI_HEADER_SIZE) in ret tt)
        en3 (with_old base (Some q) 128) (fun _ en' s' =>
          wp (ret rc) en' s' (fun rc _ wd => unlink_code rc /\ wd = base))).
      { intros en3. apply wp_bind, wp_os; [exists true; apply lookup_insert_eq |].
        intros y wd [_ ->]. cbn [with_old]. rewrite del_add_map by apply Ho. by apply wp_ret, wp_ret. }
      pose proof (old_with_old base _ _ Ho) as Hom.
      apply wp_bind. destruct (rc =? PSMSGR_OK); [| by apply wp_ret].
      apply wp_os_retire; [| | done]; apply old_word; first [done | unfold HOff.state, HOff.notify; lia]. }
    destruct u as [[]|e]; [apply wp_ret, Hr; by left |].
    apply wp_bind, wp_get_errno, wp_ret, Hr. unfold unlink_code. destruct (negb _); tauto. }
  apply wp_bind, wp_os_read_header; [done | |].
  - intros rc en' [-> | ->]; cbn [Z.eqb PSMSGR_E_SYS PSMSGR_E_FORMAT PSMSGR_OK andb];
      apply wp_bind, wp_ret, (Hk None); done.
  - intros st h en' _ _ _. cbn [Z.eqb PSMSGR_OK andb]. apply wp_bind.
    destruct (_ =? _); [| by apply wp_ret, (Hk None)].
    apply wp_bind, wp_os; [done |]. intros [b|e] w' Hs; cbn [world_step] in Hs.
    + destruct Hs as [Hb ->]. apply wp_ret, (Hk (Some {| p_blk := b; p_off := 0 |})).
      split; [done | split; [exact Hb | done]].
    + subst w'. by apply wp_ret, (Hk None).
Qed.

Lemma wp_os_unlink (base : world) (fuel : nat) (name dir : option string) (en : Z) :
  string_arg dir ->
  wp (psmsgr_state_unlink fuel name dir) en base (fun rc _ wd =>
    wd = base /\ (unlink_code rc \/ rc = PSMSGR_E_INVAL \/ rc = PSMSGR_E_WRITER_EXISTS)).
Proof.
  intros Hd. unfold psmsgr_state_unlink.
  destruct (negb (name_valid name) || bad_dir dir) eqn:E; [apply wp_ret; tauto |].
  apply orb_false_iff in E as [E _]. apply negb_false_iff in E. destruct name as [name|]; [| done].
  change (default "" (Some name))%string with name.
  apply wp_bind, wp_os_paths_init; [done | by apply name_valid_cstring | |].
  { intros en'. apply wp_ret. unfold unlink_code. tauto. }
  intros p en1 Hp. apply wp_bind, wp_os_lock_channel. intros rc fd w' en2 Hl. unfold lock_post in Hl.
  assert (Hf : forall rc en', unlink_code rc \/ rc = PSMSGR_E_INVAL \/ rc = PSMSGR_E_WRITER_EXISTS ->
    wp (paths_free p ;;; ret rc) en' (add_blk (pt_block p) base) (fun rc _ wd =>
    wd = base /\ (unlink_code rc \/ rc = PSMSGR_E_INVAL \/ rc = PSMSGR_E_WRITER_EXISTS))).
  { intros rc' en' Hrc. apply wp_bind, wp_os; [cbn; set_solver |]. intros [] wd ->.
    rewrite del_add_blk by done. by apply wp_ret. }
  destruct (rc =? PSMSGR_OK); cbn [negb].
  2: { destruct Hl as [Hrc ->]. apply Hf. unfold unlink_code. tauto. }
  destruct Hl as [Hfd ->]. set (base2 := add_fd fd (add_blk (pt_block p) base)).
  apply wp_bind, wp_os_remove_stale_tmp. intros en3.
  assert (Hend : forall rc en', unlink_code rc ->
    wp (let* rc :=
          if negb (rc =? PSMSGR_E_SYS) then
            let* u := call (SysUnlink (pt_lock p)) in
            match u with
            | inl _ => ret rc
            | inr _ => let* e := get_errno in
                       ret (if negb (e =? ENOENT) then PSMSGR_E_SYS else rc)
            end
          else ret rc in
        close_keep_errno fd ;;; paths_free p ;;; ret rc) en' base2 (fun rc _ wd =>
    wd = base /\ (unlink_code rc \/ rc = PSMSGR_E_INVAL \/ rc = PSMSGR_E_WRITER_EXISTS))).
  { intros rc' en' Hrc. apply wp_bind.
    assert (Hc : forall rc en', unlink_code rc -> wp (close_keep_errno fd ;;; paths_free p ;;; ret rc)
      en' base2 (fun rc _ wd =>
    wd = base /\ (unlink_code rc \/ rc = PSMSGR_E_INVAL \/ rc = PSMSGR_E_WRITER_EXISTS))).
    { intros rc2 en4 H2. apply wp_bind, wp_os_close; [cbn; set_solver |]. unfold base2.
      rewrite del_add_fd by done. apply Hf. tauto. }
    destruct (negb _); [| by apply wp_ret, Hc].
    apply wp_bind, wp_os; [done |]. intros [[]|e] wd ->; [by apply wp_ret, Hc |].
    apply wp_bind, wp_get_errno, wp_ret, Hc. unfold unlink_code in *. destruct (negb _); tauto. }
  apply wp_bind, wp_os; [done |]. intros [fd2|e] wd Hs; cbn [world_step] in Hs.
  - destruct Hs as (_ & Hfd2 & ->). apply wp_bind.
    eapply wp_mono; [by apply (wp_os_unlink_open base2 p fd2) |].
    intros rc2 en4 wd [Hrc ->]. by apply Hend.
  - subst wd. apply wp_bind, wp_bind, wp_get_errno, wp_ret, Hend. unfold unlink_code.
    destruct (negb _); tauto.
Qed.

(** ** The life of a writer *)

(** An application: what it does next may depend on the handle; it keeps to
    what the API asks for. *)
Definition app_ok (app : list (psmsgr_state_writer -> action)) : Prop :=
  Forall (fun f => forall w, action_ok w (f w)) app.

Fixpoint run_app (app : list (psmsgr_state_writer -> action)) (w : psmsgr_state_writer)
    : prog psmsgr_state_writer :=
  match app with
  | [] => ret w
  | f :: app => let* w := run_action (f w) w in run_app app w
  end.

Definition writer_life (fuel : nat) (name : option string) (opt : option psmsgr_state_options)
    (out_null : bool) (app : list (psmsgr_state_writer -> action)) : prog Z :=
  let* (rc, h) := psmsgr_state_writer_open fuel name opt out_null in
  match h with
  | None => ret rc
  | Some w =>
      let* w := run_app app w in
      psmsgr_state_writer_close (Some w) ;;;
      ret rc
  end.

Lemma same_writer_world (base : world) (w w' : psmsgr_state_writer) :
  same_writer w w' -> writer_world base w = writer_world base w'.
Proof. intros (_ & _ & Eh & Em & _). unfold writer_world. by rewrite Eh, Em. Qed.

Lemma same_writer_owns (base : world) (w w' : psmsgr_state_writer) :
  same_writer w w' -> writer_owns base w ->
  (forall hd, writer_base (with_head (p_blk (w_hdr w)) hd base) w =
              writer_base (with_head (p_blk (w_hdr w')) hd base) w') /\
  writer_owns base w'.
Proof.
  intros (Eb & El & Eh & _) H. unfold writer_base, writer_owns in *. by rewrite Eb, El, Eh.
Qed.

Lemma wp_os_app (base : world) (app : list (psmsgr_state_writer -> action))
    (w : psmsgr_state_writer) (en : Z) :
  writer_ok w -> app_ok app ->
  wp (run_app app w) en (writer_world base w) (fun w' _ wd => writer_post base w w' wd).
Proof.
  revert w en. induction app as [|f app IH]; intros w en Hw Ha; cbn [run_app]; [by apply wp_ret |].
  apply Forall_cons in Ha as [Hf Ha]. apply wp_bind.
  eapply wp_mono; [by apply wp_os_action |]. intros w1 en1 wd (H1 & S1 & ->).
  rewrite (same_writer_world base w w1) by done.
  eapply wp_mono; [by apply IH |]. intros w2 en2 wd (H2 & S2 & ->). split; [done |].
  split; [| symmetry; by apply same_writer_world].
  destruct S1 as (? & ? & ? & ? & ?), S2 as (? & ? & ? & ? & ?). repeat split; congruence.
Qed.

(** ** Properties *)

(** C18. Opening a channel for writing takes all or nothing on any system:
    with OK the caller owns exactly one handle block, the locked descriptor
    and one writable mapping of the size the header gives, and the handle
    describes that mapping; with any other result - and the code is one of
    the documented ones - the process is as it was: no descriptor, mapping,
    block or directory stream is left behind on any error path. *)
Theorem writer_open_all_or_nothing (fuel : nat) (name : option string)
    (opt : option psmsgr_state_options) (out_null : bool) (en : Z) (base : world) :
  opt_arg opt -> 0 <= sizeof_pointer < 4294967000 ->
  wp (psmsgr_state_writer_open fuel name opt out_null) en base
    (fun '(rc, h) _ wd => writer_open_post base rc h wd).
Proof. apply wp_os_writer_open. Qed.

(** C12. Writers are memory and resource safe on any system.  Open, any
    sequence of publishes, begins, writes to the buffer handed out, commits
    and aborts, and close: every access lies inside the live mapping and
    every word access is aligned, whatever the file held when it was opened,
    and in the end the process holds what it held before. *)
Theorem writer_life_safe (fuel : nat) (name : option string) (opt : option psmsgr_state_options)
    (out_null : bool) (app : list (psmsgr_state_writer -> action)) (en : Z) (base : world) :
  opt_arg opt -> 0 <= sizeof_pointer < 4294967000 -> app_ok app ->
  wp (writer_life fuel name opt out_null app) en base
    (fun rc _ wd => wd = base /\ (rc = PSMSGR_OK \/ open_code rc)).
Proof.
  intros Ho Hp Ha. unfold writer_life. apply wp_bind.
  eapply wp_mono; [by apply wp_os_writer_open |]. intros [rc [w|]] en1 wd H.
  - destruct H as (-> & Hw & Hown & _ & [hd ->]). apply wp_bind.
    eapply wp_mono; [by apply wp_os_app |]. intros w2 en2 wd (H2 & S2 & ->).
    destruct (same_writer_owns base _ _ S2 Hown) as [E Hown2].
    rewrite (same_writer_world _ w w2), E by done.
    apply wp_bind, wp_os_writer_close; [done |]. intros en3. apply wp_ret. by split; [| left].
  - destruct H as [Hrc ->]. apply wp_ret. by split; [| right].
Qed.

(** C31. Deleting a channel leaves nothing behind in the process on any
    system, and returns one of OK, NODATA, SYS, INVAL and WRITER_EXISTS. *)
Theorem unlink_safe (fuel : nat) (name dir : option string) (en : Z) (base : world) :
  string_arg dir ->
  wp (psmsgr_state_unlink fuel name dir) en base (fun rc _ wd =>
    wd = base /\ (unlink_code rc \/ rc = PSMSGR_E_INVAL \/ rc = PSMSGR_E_WRITER_EXISTS)).
Proof. apply wp_os_unlink. Qed.
End writer.

(** ** Witnesses *)

Definition example_options : psmsgr_state_options :=
  snd (load_options (C := config64) None).

Lemma example_opt_arg : opt_arg (Some example_options).
Proof. split; [repeat split; vm_compute; congruence | done]. Qed.

Lemma writer_open_all_or_nothing_witness :
  wp (psmsgr_state_writer_open (C := config64) 100 (Some "motor") (Some example_options) false) 0
    empty_world (fun '(rc, h) _ wd => writer_open_post empty_world rc h wd).
Proof.
  apply (writer_open_all_or_nothing (C := config64)); [apply example_opt_arg | cbn; lia].
Defined.

Lemma writer_life_safe_witness :
  let app := [fun _ => APublish [1; 2; 3]; fun _ => ABegin;
              fun w => if w_open_slot w =? PSMI_LATEST_NONE then ABegin else AAbort;
              fun _ => ACommit 3] in
  wp (writer_life (C := config64) 100 (Some "motor") None false app) 0 empty_world
    (fun rc _ wd => wd = empty_world /\ (rc = PSMSGR_OK \/ open_code rc)).
Proof.
  apply (writer_life_safe (C := config64)); [done | cbn; lia |].
  repeat constructor; intros w; cbn [action_ok]; try done. by destruct (_ =? _).
Defined.

Lemma unlink_safe_witness :
  wp (psmsgr_state_unlink (C := config64) 100 (Some "motor") None) 0 empty_world
    (fun rc _ wd => wd = empty_world /\
       (unlink_code rc \/ rc = PSMSGR_E_INVAL \/ rc = PSMSGR_E_WRITER_EXISTS)).
Proof. by apply (unlink_safe (C := config64)). Defined.
