(* ===== verification/Create.v ===== *)
(** * Creating a data file

    [create_file] on a machine that keeps what is in the file under
    construction: the file appears under the channel's name only when it is
    complete, and it is the file that Delivery.v and Session.v start from. *)
From S2P Require Import Prelude Prog Common Layout Options Names Writer Reader Channel.
From S2P Require Import Memory Protocol History Published Seqlock WriterProof Session Delivery.
#[local] Open Scope list_scope.
#[local] Open Scope Z_scope.

(** ** The header stores *)

Definition zero_mem : mem := fun _ => 0.

(** The file after the stores of [store_header]. *)
Definition header_mem (o : psmsgr_state_options) (now : Z) : mem :=
  let w m off n v := write m off (le_bytes n v) in
  let m := w zero_mem HOff.magic 4%nat PSMI_MAGIC in
  let m := w m HOff.version_major 2%nat PSMI_VERSION_MAJOR in
  let m := w m HOff.version_minor 2%nat PSMI_VERSION_MINOR in
  let m := w m HOff.header_size 4%nat PSMI_HEADER_SIZE in
  let m := w m HOff.slot_header_size 4%nat PSMI_SLOT_HEADER_SIZE in
  let m := w m HOff.slot_count 4%nat (o_slot_count o) in
  let m := w m HOff.slot_stride 4%nat (psmi_slot_stride (o_capacity o)) in
  let m := w m HOff.capacity 4%nat (o_capacity o) in
  let m := w m HOff.payload_type 4%nat (o_payload_type o) in
  let m := w m HOff.config_flags 4%nat (config_flags_of o) in
  let m := w m HOff.latest 4%nat PSMI_LATEST_NONE in
  w m HOff.created_realtime_ns 8%nat now.

Ltac offsets :=
  unfold HOff.magic, HOff.version_major, HOff.version_minor, HOff.header_size,
    HOff.slot_header_size, HOff.slot_count, HOff.slot_stride, HOff.capacity, HOff.payload_type,
    HOff.config_flags, HOff.state, HOff.latest, HOff.notify, HOff.writer_pid,
    HOff.created_realtime_ns in *.

(** Reading back a field, or bytes no field covers. *)
Ltac read_back :=
  unfold header_mem; cbv zeta; offsets;
  repeat rewrite read_write_disjoint by (rewrite ?length_le_bytes; lia).

Lemma read_written (m : mem) (off v : Z) (n : nat) :
  read_bytes (write m off (le_bytes n v)) off n = le_bytes n v.
Proof. rewrite <- (length_le_bytes n v) at 2. apply read_write_same. Qed.

Lemma read_zero (off : Z) (n : nat) : read_bytes zero_mem off n = replicate n 0.
Proof.
  apply list_eq. intros k. destruct (decide (k < n)%nat).
  - by rewrite lookup_read_bytes, lookup_replicate_2.
  - rewrite !lookup_ge_None_2; [done | rewrite length_replicate; lia | rewrite length_read_bytes; lia].
Qed.

Lemma header_mem_bytes (o : psmsgr_state_options) (now : Z) :
  read_bytes (header_mem o now) 0 128 = encode_header (fresh_header o now).
Proof.
  unfold encode_header. cbn [fresh_header h_magic h_version_major h_version_minor h_header_size
    h_slot_header_size h_slot_count h_slot_stride h_capacity h_payload_type h_config_flags h_state
    h_latest h_notify h_writer_pid h_reserved0 h_created_realtime_ns h_reserved1].
  change 128%nat with (4 + (2 + (2 + (4 + (4 + (4 + (4 + (4 + (4 + (4 + (4 + (4 + (4 + (4 + (4 +
    (8 + 64))))))))))))))))%nat.
  rewrite !read_bytes_app.
  repeat (apply (f_equal2 app); [read_back; first [apply read_written | apply read_zero] |]).
  read_back. apply read_zero.
Qed.

Lemma header_mem_rest (o : psmsgr_state_options) (now a : Z) (n : nat) :
  128 <= a -> read_bytes (header_mem o now) a n = replicate n 0.
Proof. intros H. read_back. apply read_zero. Qed.

Lemma fresh_header_ok (o : psmsgr_state_options) (now : Z) :
  options_valid o -> 0 <= now < 18446744073709551616 -> header_ok (fresh_header o now).
Proof.
  intros (Hc & Hs & _ & _ & _ & Hp) Hn. pose proof (psmi_slot_stride_bounds _ Hc).
  pose proof (config_flags_range o). unfold header_ok. cbn [fresh_header h_magic h_version_major
    h_version_minor h_header_size h_slot_header_size h_slot_count h_slot_stride h_capacity
    h_payload_type h_config_flags h_state h_latest h_notify h_writer_pid h_reserved0
    h_created_realtime_ns h_reserved1].
  unfold PSMI_MAGIC, PSMI_VERSION_MAJOR, PSMI_VERSION_MINOR, PSMI_HEADER_SIZE,
    PSMI_SLOT_HEADER_SIZE, PSMI_LATEST_NONE. by repeat split; try lia.
Qed.

(** The size of the new file. *)
Definition new_size (o : psmsgr_state_options) : Z :=
  psmi_file_size (o_slot_count o) (psmi_slot_stride (o_capacity o)).

Lemma header0_ext (m m' : mem) : (forall a, m a = m' a) -> header0 m = header0 m'.
Proof. intros H. unfold header0. f_equal. by apply read_bytes_ext. Qed.

Lemma header_mem_header0 (o : psmsgr_state_options) (now : Z) :
  options_valid o -> 0 <= now < 18446744073709551616 ->
  header0 (header_mem o now) = fresh_header o now.
Proof.
  intros Ho Hn. unfold header0. rewrite header_mem_bytes. by apply decode_encode_header, fresh_header_ok.
Qed.

(** The file is complete. *)
Lemma header_mem_file (o : psmsgr_state_options) (now : Z) (m : mem) :
  options_valid o -> 0 <= now < 18446744073709551616 -> (forall a, m a = header_mem o now a) ->
  data_file (new_geometry o) m (new_size o) /\ header0 m = fresh_header o now.
Proof.
  intros Ho Hn Hm. pose proof (header_mem_header0 o now Ho Hn) as Eh.
  rewrite <- (header0_ext m) in Eh by done. split; [| done].
  destruct Ho as (Hc & Hs & _).
  assert (Hg : geometry_ok (new_geometry o)) by done.
  split; try done.
  - split.
    + unfold word. rewrite (read_bytes_ext m (header_mem o now)) by done. read_back.
      by rewrite read_written.
    + intros i Hi. unfold word. rewrite (read_bytes_ext m (header_mem o now)) by done.
      rewrite header_mem_rest; [done |]. pose proof (stride_bounds _ Hg).
      unfold slot_offset, PSMI_HEADER_SIZE. nia.
  - rewrite Eh. unfold header_valid. cbn [fresh_header h_magic h_version_major h_header_size
      h_slot_header_size h_slot_count h_slot_stride h_capacity].
    rewrite !Z.eqb_refl. cbn [andb]. change PSMSGR_STATE_MAX_CAPACITY with 16777216.
    unfold PSMI_MIN_SLOTS, PSMI_MAX_SLOTS. fold (new_size o).
    destruct (Z.leb_spec 2 (o_slot_count o)); [| lia].
    destruct (Z.leb_spec (o_slot_count o) 16); [| lia].
    destruct (Z.leb_spec (o_capacity o) 16777216); [| lia]. cbn [andb]. apply Z.leb_refl.
  - by rewrite Eh.
Qed.

(** ** The machine *)

Record cstate := {
  c_tmp : option string;      (* the temporary file that exists *)
  c_size : Z;                 (* its allocated size *)
  c_map : option Z;           (* the block it is mapped at *)
  c_mem : mem;                (* its bytes *)
  c_name : option string;     (* the name it was renamed to *)
  c_retired : bool            (* the old file was touched *)
}.

Section machine.
Context (o : psmsgr_state_options) (target : string) (old : option ptr).

(** Any block but the one the old file is mapped at. *)
Definition new_block (b : Z) : Prop :=
  match old with Some q => b <> p_blk q | None => True end.

(** Bytes are stored to the new file only before it has its name, and inside
    what was allocated; it gets its name only when it is complete; the old
    file is retired only after that. *)
Definition create_pre (e : ev) (s : cstate) : Prop :=
  match e with
  | Store8 p _ => c_map s = Some (p_blk p) /\ c_name s = None /\ 0 <= p_off p < c_size s
  | SysMmap _ size _ _ => size = c_size s
  | SysRename from to =>
      c_tmp s = Some from /\ to = target /\
      data_file (new_geometry o) (c_mem s) (c_size s) /\ same_options (c_mem s) o /\
      word (c_mem s) HOff.state = 0
  | SysUnlink path => c_tmp s = Some path /\ c_name s = None
  | FetchOr32 _ p _ | FetchAdd32 _ p _ =>
      c_name s = Some target /\ match old with Some q => p_blk p = p_blk q | None => False end
  | Store32 _ _ _ | SysUnlinkat _ _ => False
  | _ => True
  end.

Definition create_step (e : ev) (s : cstate) : resp e -> cstate -> Prop :=
  match e return resp e -> cstate -> Prop with
  | SysMkostemp _ => fun r s' =>
      match r with
      | inl (_, tmp) => s' = {| c_tmp := Some tmp; c_size := 0; c_map := None; c_mem := zero_mem;
                                c_name := None; c_retired := c_retired s |}
      | inr _ => s' = s
      end
  | SysFallocate _ _ n => fun r s' =>
      s' = if r =? 0
           then {| c_tmp := c_tmp s; c_size := n; c_map := c_map s; c_mem := c_mem s;
                   c_name := c_name s; c_retired := c_retired s |}
           else s
  | SysMmap _ _ _ _ => fun r s' =>
      match r with
      | inl b => new_block b /\
          s' = {| c_tmp := c_tmp s; c_size := c_size s; c_map := Some b; c_mem := c_mem s;
                  c_name := c_name s; c_retired := c_retired s |}
      | inr _ => s' = s
      end
  | Store8 p v => fun _ s' =>
      s' = {| c_tmp := c_tmp s; c_size := c_size s; c_map := c_map s;
              c_mem := write (c_mem s) (p_off p) [v];
              c_name := c_name s; c_retired := c_retired s |}
  | SysRename _ to => fun r s' =>
      match r with
      | inl _ => s' = {| c_tmp := None; c_size := c_size s; c_map := c_map s; c_mem := c_mem s;
                         c_name := Some to; c_retired := c_retired s |}
      | inr _ => s' = s
      end
  | SysUnlink _ => fun r s' =>
      match r with
      | inl _ => s' = {| c_tmp := None; c_size := c_size s; c_map := c_map s; c_mem := c_mem s;
                         c_name := c_name s; c_retired := c_retired s |}
      | inr _ => s' = s
      end
  (* the file under construction is written by nobody else: its header is
     read back as it was stored *)
  | Load8 p => fun r s' => (c_map s = Some (p_blk p) -> r = c_mem s (p_off p)) /\ s' = s
  | FetchOr32 _ _ _ => fun _ s' =>
      s' = {| c_tmp := c_tmp s; c_size := c_size s; c_map := c_map s; c_mem := c_mem s;
              c_name := c_name s; c_retired := true |}
  | _ => fun _ s' => s' = s
  end.

Definition create_sem : Sem cstate := {|
  sem_pre := create_pre; sem_step := create_step; sem_out := False
|}.
#[local] Existing Instance create_sem.

(** ** Rules *)

Lemma wp_c (e : ev) (en : Z) (s : cstate) (Q : resp e -> Z -> cstate -> Prop) :
  create_pre e s -> (forall r s', create_step e s r s' -> Q r (resp_errno e r en) s') ->
  wp (call e) en s Q.
Proof. intros Hp HQ. by apply wp_call. Qed.

(** While the file is written: only its bytes change. *)
Definition written_to (s : cstate) (m : mem) (s' : cstate) : Prop :=
  c_tmp s' = c_tmp s /\ c_size s' = c_size s /\ c_map s' = c_map s /\ c_name s' = c_name s /\
  c_retired s' = c_retired s /\ forall a, c_mem s' a = m a.

Lemma wp_c_store_bytes (bs : list Z) (b off en : Z) (s : cstate) (Q : unit -> Z -> cstate -> Prop) :
  c_map s = Some b -> c_name s = None -> 0 <= off -> off + Z.of_nat (length bs) <= c_size s ->
  (forall s', written_to s (write (c_mem s) off bs) s' -> Q tt en s') ->
  wp (store_bytes {| p_blk := b; p_off := off |} bs) en s Q.
Proof.
  revert off s. induction bs as [|x bs IH]; intros off s Hm Hn Ho Hl HQ; cbn [store_bytes].
  - apply wp_ret, HQ. repeat split; try done. intros a. symmetry. apply write_out. simpl. lia.
  - simpl in Hl. apply wp_bind, wp_c; [split; [done | split; [done | cbn; lia]] |].
    intros [] s1 ->. apply (IH (off + 1)); [done | done | lia | cbn; lia |].
    intros s' (H1 & H2 & H3 & H4 & H5 & H6). apply HQ. repeat split; try done.
    intros a. rewrite H6. cbn [c_mem p_off]. symmetry. apply write_cons.
Qed.

Lemma write_ext (m m' : mem) (off : Z) (bs : list Z) (a : Z) :
  (forall a, m a = m' a) -> write m off bs a = write m' off bs a.
Proof. intros H. unfold write. destruct (_ && _); [done | apply H]. Qed.

Lemma wp_c_field {A : Type} (k : prog A) (n : nat) (m : mem) (b off v en : Z) (s0 s : cstate)
    (Q : A -> Z -> cstate -> Prop) :
  c_map s0 = Some b -> c_name s0 = None -> written_to s0 m s ->
  0 <= off -> off + Z.of_nat n <= c_size s0 ->
  (forall s', written_to s0 (write m off (le_bytes n v)) s' -> wp k en s' Q) ->
  wp (plain_store (ptr_add {| p_blk := b; p_off := 0 |} off) n v ;;; k) en s Q.
Proof.
  intros Hm Hn (H1 & H2 & H3 & H4 & H5 & H6) Ho Hl HQ. apply wp_bind.
  unfold plain_store, ptr_add. cbn [p_blk p_off]. rewrite Z.add_0_l.
  apply wp_c_store_bytes; [by rewrite H3 | by rewrite H4 | done | |].
  { rewrite length_le_bytes. lia. }
  intros s' (E1 & E2 & E3 & E4 & E5 & E6). apply HQ.
  repeat split; try congruence. intros a. rewrite E6. by apply write_ext.
Qed.

Lemma wp_c_clock (c : clockid) (en : Z) (s : cstate) (Q : Z -> Z -> cstate -> Prop) :
  (forall t, 0 <= t < 18446744073709551616 -> Q t en s) -> wp (psmi_clock_ns c) en s Q.
Proof.
  intros HQ. unfold psmi_clock_ns. apply wp_bind, wp_c; [done |].
  intros [sec nsec] s' ->. apply wp_ret, HQ, u64_range.
Qed.

Lemma wp_c_store_header (b en : Z) (s : cstate) (Q : unit -> Z -> cstate -> Prop) :
  c_map s = Some b -> c_name s = None -> 128 <= c_size s -> c_mem s = zero_mem ->
  (forall now s', 0 <= now < 18446744073709551616 -> written_to s (header_mem o now) s' ->
     Q tt en s') ->
  wp (store_header {| p_blk := b; p_off := 0 |} o) en s Q.
Proof.
  intros Hm Hn Hs Hz HQ. unfold store_header.
  assert (H0 : written_to s zero_mem s) by (repeat split; try done; by rewrite Hz).
  revert H0. generalize s at 2 3 as s1. intros s1 H0.
  do 11 (eapply wp_c_field; [done | done | exact H0 | offsets; lia .. |]; clear H0 s1; intros s1 H0).
  apply wp_bind, wp_c_clock. intros now Hnow.
  eapply wp_c_field; [done | done | exact H0 | offsets; lia .. |]. intros s2 H2.
  apply wp_ret. by apply (HQ now).
Qed.

(** The geometry is the one that was stored. *)
Lemma wp_c_load_geom (b now en : Z) (s : cstate) (Q : psmi_header -> Z -> cstate -> Prop) :
  options_valid o -> c_map s = Some b -> (forall a, c_mem s a = header_mem o now a) ->
  Q (new_geom o) en s ->
  wp (load_geom {| p_blk := b; p_off := 0 |}) en s Q.
Proof.
  intros Ho Hb Hm HQ.
  assert (Hk : forall off v, read_bytes (header_mem o now) off 4 = le_bytes 4 v ->
    bytes_are s (ptr_add {| p_blk := b; p_off := 0 |} off) (le_bytes 4 v)).
  { intros off v E i x Hi. split; [done |]. intros r s' [Hr ->]. split; [| done].
    rewrite Hr by done. rewrite Hm. rewrite <- E in Hi.
    assert (i < 4)%nat by (apply lookup_lt_Some in Hi; by rewrite length_read_bytes in Hi).
    rewrite lookup_read_bytes in Hi by done. injection Hi as <-. unfold ptr_add; cbn [p_off].
    by f_equal. }
  destruct Ho as (Hc & Hs & _).
  apply (wp_load_geom _ o); [done | | done]. intros off v Hi. apply Hk. cbn [geom_fields In] in Hi.
  repeat (destruct Hi as [[= <- <-] | Hi]; [read_back; apply read_written |]). destruct Hi.
Qed.

(** ** [create_file] *)

(** A complete file under its name, and a handle on it; or neither. *)
Definition create_post (w : psmsgr_state_writer) (gen : Z) (x : Z * psmsgr_state_writer)
    (s' : cstate) : Prop :=
  let '(rc, w') := x in
  (rc = PSMSGR_OK /\ c_name s' = Some target /\
   data_file (new_geometry o) (c_mem s') (new_size o) /\ same_options (c_mem s') o /\
   word (c_mem s') HOff.state = 0 /\
   c_retired s' = (match old with Some _ => true | None => false end) /\
   exists b, c_map s' = Some b /\ new_block b /\
     w' = writer_attach w (map_ptr b 0) (new_size o) (header0 (c_mem s')) PSMI_LATEST_NONE gen) \/
  (rc = PSMSGR_E_SYS /\ w' = w /\ c_name s' = None /\ c_retired s' = false).

Lemma wp_c_fail (fd tb size gen en : Z) (tmp : string) (map : option Z) (w : psmsgr_state_writer)
    (s : cstate) :
  c_tmp s = Some tmp -> c_name s = None -> c_retired s = false ->
  wp (create_fail fd tb tmp map size w) en s (fun x _ s' => create_post w gen x s').
Proof.
  intros Ht Hn Hr. unfold create_fail. apply wp_bind, wp_get_errno.
  assert (Hk : forall en', wp (let* _ := call (SysClose fd) in let* _ := call (SysUnlink tmp) in
      let* _ := call (Free tb) in set_errno en ;;; ret (PSMSGR_E_SYS, w)) en' s
      (fun x _ s' => create_post w gen x s')).
  { intros en'. apply wp_bind, wp_c; [done |]. intros x s1 ->.
    apply wp_bind, wp_c; [done |]. intros [[]|e] s2 ->;
      (apply wp_bind, wp_c; [done |]; intros [] s3 ->; apply wp_bind, wp_set_errno, wp_ret; by right). }
  apply wp_bind. destruct map as [b|]; [| by apply wp_ret].
  apply wp_bind, wp_c; [done |]. intros x s1 ->. by apply wp_ret.
Qed.

(** What the header says of the options. *)
Lemma fresh_same_options (m : mem) (now : Z) :
  header0 m = fresh_header o now -> same_options m o.
Proof. intros E. unfold same_options. by rewrite E. Qed.

Lemma fresh_state (m : mem) (now : Z) :
  (forall a, m a = header_mem o now a) -> word m HOff.state = 0.
Proof.
  intros H. unfold word. rewrite (read_bytes_ext m (header_mem o now)) by done. read_back.
  by rewrite read_zero.
Qed.

(** From the rename on. *)
Lemma wp_c_publish_file (p : paths) (w : psmsgr_state_writer) (fd tb b gen now en : Z) (tmp : string)
    (s : cstate) :
  options_valid o -> target = pt_data p -> 0 <= now < 18446744073709551616 ->
  c_tmp s = Some tmp -> c_size s = new_size o -> c_map s = Some b -> c_name s = None ->
  c_retired s = false -> new_block b -> (forall a, c_mem s a = header_mem o now a) ->
  wp (let* rn := call (SysRename tmp (pt_data p)) in
      match rn with
      | inr _ => create_fail fd tb tmp (Some b) (new_size o) w
      | inl _ =>
          let* _ := call (SysClose fd) in
          let* _ := call (Free tb) in
          (match old with Some old => retire old | None => ret tt end) ;;;
          let* geom := load_geom {| p_blk := b; p_off := 0 |} in
          ret (PSMSGR_OK, writer_attach w {| p_blk := b; p_off := 0 |} (new_size o)
                            geom PSMI_LATEST_NONE gen)
      end) en s (fun x _ s' => create_post w gen x s').
Proof.
  intros Ho Htgt Hnow Ht Hs Hm Hn Hr Hb Hmem.
  destruct (header_mem_file o now _ Ho Hnow Hmem) as [Hfile Eh].
  pose proof (fresh_same_options _ _ Eh) as Hso. pose proof (fresh_state _ _ Hmem) as Hst.
  apply wp_bind, wp_c; [cbn [create_pre]; rewrite Hs; do 4 (split; [done |]); done |].
  intros [[]|e] s1 ->; [| by apply wp_c_fail].
  apply wp_bind, wp_c; [done |]. intros x s1 ->. apply wp_bind, wp_c; [done |]. intros [] s1 ->.
  assert (Hend : forall s' en', c_name s' = Some target -> c_mem s' = c_mem s -> c_map s' = Some b ->
    c_retired s' = (match old with Some _ => true | None => false end) ->
    wp (let* geom := load_geom {| p_blk := b; p_off := 0 |} in
        ret (PSMSGR_OK, writer_attach w {| p_blk := b; p_off := 0 |} (new_size o)
                            geom PSMI_LATEST_NONE gen)) en' s'
       (fun x _ s' => create_post w gen x s')).
  { intros s' en' En Em Eb Er. apply wp_bind, (wp_c_load_geom b now); [done | done | by rewrite Em |].
    apply wp_ret. left. rewrite Em, Eh. do 6 (split; [done |]). by exists b. }
  apply wp_bind. destruct old as [q|] eqn:Eo; [| apply wp_ret, Hend; try done; by rewrite Htgt].
  unfold retire, futex_wake_all. rewrite <- Htgt.
  apply wp_bind, wp_c; [cbn [create_pre]; by rewrite Eo |]. intros x1 s1 ->.
  apply wp_bind, wp_c; [cbn [create_pre]; by rewrite Eo |]. intros x2 s1 ->.
  apply wp_bind, wp_c; [done |]. intros x3 s1 ->. by apply wp_ret, Hend.
Qed.

Lemma wp_c_create_file (p : paths) (w : psmsgr_state_writer) (gen en : Z) (s : cstate) :
  options_valid o -> target = pt_data p -> c_name s = None -> c_retired s = false ->
  wp (create_file w o p old gen) en s (fun x _ s' => create_post w gen x s').
Proof.
  intros Ho Ht Hn Hr. unfold create_file. assert (Hsys : create_post w gen (PSMSGR_E_SYS, w) s) by by right.
  apply wp_bind, wp_c; [done |]. intros [tb|] s1 ->; [| by apply wp_ret].
  apply wp_bind, wp_c; [done |]. intros [[fd tmp]|e] s1 ->.
  2: { apply wp_bind, wp_c; [done |]. intros x s2 ->. by apply wp_ret. }
  cbv zeta. fold (new_size o).
  apply wp_bind, wp_c; [done |]. intros [[]|e] s2 ->; [| by apply wp_c_fail].
  apply wp_bind, wp_c; [done |]. intros e s2 ->.
  destruct (Z.eqb_spec e 0) as [->|_]; cbn [negb Z.eqb]; [| by apply wp_bind, wp_set_errno, wp_c_fail].
  apply wp_bind, wp_c; [done |]. intros [b|e2] s2 Hs; cbn [create_step] in Hs;
    [destruct Hs as [Hb ->] | subst s2; by apply wp_c_fail].
  assert (Hsz : 128 <= new_size o).
  { destruct Ho as (Hc & Hsl & _). assert (Hg : geometry_ok (new_geometry o)) by done.
    pose proof (psmi_file_size_arith _ Hg) as E. pose proof (stride_bounds _ Hg).
    cbn [new_geometry g_slots g_stride g_cap] in *. unfold new_size. rewrite E. nia. }
  apply wp_bind, wp_c_store_header; [done .. |]. intros now s3 Hnow (H1 & H2 & H3 & H4 & H5 & H6).
  apply (wp_c_publish_file p w fd tb b gen now); try done. by rewrite H5.
Qed.
End machine.

(** ** Properties *)

(** C6. A channel's file appears complete or not at all.  Creating a file
    stores only inside the space allocated for it and only before it has its
    name; the rename that gives it its name happens when its bytes are a
    complete file of the geometry, payload type and flags the options ask
    for, with no slot used, nothing published and not retired; the file it
    replaces is retired only after that.  With OK the handle is the one of a
    fresh file of these options, its geometry read back through the mapping; otherwise (SYS) the name was not touched and
    the old file was not retired. *)
Theorem create_file_complete (o : psmsgr_state_options) (old : option ptr) (p : paths)
    (w : psmsgr_state_writer) (gen en : Z) (s : cstate) :
  options_valid o -> c_name s = None -> c_retired s = false ->
  wp (HS := create_sem o (pt_data p) old) (create_file w o p old gen) en s
    (fun x _ s' => create_post o (pt_data p) old w gen x s').
Proof. intros. by apply wp_c_create_file. Qed.

Lemma create_file_complete_witness :
  let o := {| o_struct_size := 32; o_capacity := 100; o_slot_count := 3; o_payload_type := 7;
              o_mode := 420; o_flags := 2; o_dir := None |} in
  let p := {| pt_block := 1; pt_dir := "/dev/shm"; pt_data := "/dev/shm/psmsgr.m.state";
              pt_lock := "/dev/shm/psmsgr.m.lock"; pt_data_base := "psmsgr.m.state" |} in
  let s := {| c_tmp := None; c_size := 0; c_map := None; c_mem := zero_mem; c_name := None;
              c_retired := false |} in
  let q := {| p_blk := 7; p_off := 0 |} in
  wp (HS := create_sem o "/dev/shm/psmsgr.m.state" (Some q))
    (create_file (zero_writer 5) o p (Some q) 41) 0 s
    (fun x _ s' => create_post o "/dev/shm/psmsgr.m.state" (Some q) (zero_writer 5) 41 x s').
Proof.
  intros o p s q. refine (create_file_complete o (Some q) p (zero_writer 5) 41 0 s _ _ _); [| done ..].
  unfold options_valid. cbn. repeat split; (lia || done).
Defined.
