(* ===== verification/Locking.v ===== *)
(** * The writer lock

    Any number of processes that use the library on the same channel, their
    system calls interleaved in any way: the lock file may be deleted and
    made again at any time by whoever holds the lock.  A process that
    [lock_channel] has told OK holds the lock of the file the path names, and
    keeps holding it; nobody else does. *)
From S2P Require Import Prelude Prog Common Layout Options Names Writer Reader Channel.
From Stdlib Require Import Ascii.
#[local] Open Scope list_scope.
#[local] Open Scope Z_scope.

(** ** The file system, as far as the lock file goes *)

(** An inode is its [st_dev] and [st_ino]. *)
Abbreviation inode := (Z * Z)%type (only parsing).
Abbreviation pid := Z (only parsing).

Record fs := {
  fs_lockfile : option inode;         (* what the lock path names *)
  fs_fds : gmap (pid * Z) inode;      (* open descriptors of every process *)
  fs_locks : gmap inode (pid * Z)     (* locked inodes: by which descriptor *)
}.

(** Locks belong to open descriptors. *)
Definition fs_ok (s : fs) : Prop :=
  forall i x, fs_locks s !! i = Some x -> fs_fds s !! x = Some i.

(** An inode nobody has open: what a new file may get. *)
Definition unused (s : fs) (i : inode) : Prop := forall x, fs_fds s !! x <> Some i.

Definition has_excl (fl : list oflag) : bool :=
  existsb (fun f => match f with O_EXCL => true | _ => false end) fl.

Definition opened (s : fs) (x : pid * Z) (i : inode) (l : option inode) : fs :=
  {| fs_lockfile := l; fs_fds := <[x := i]> (fs_fds s); fs_locks := fs_locks s |}.

(** Closing a descriptor releases its lock. *)
Definition closed (s : fs) (x : pid * Z) : fs := {|
  fs_lockfile := fs_lockfile s;
  fs_fds := delete x (fs_fds s);
  fs_locks := match fs_fds s !! x with
              | Some i => if decide (fs_locks s !! i = Some x) then delete i (fs_locks s)
                          else fs_locks s
              | None => fs_locks s
              end |}.

Section locking.
(** The lock file: its path, and its name in its directory. *)
Context (lp lbase : string).
(** [$PSMSGR_DIR] in the environment of each process. *)
Context (penv : pid -> option string).

(** Process [p] holds the lock, by descriptor [fd]: the path names an inode
    that [fd] has locked. *)
Definition holds (p : pid) (fd : Z) (s : fs) : Prop :=
  exists i, fs_lockfile s = Some i /\ fs_locks s !! i = Some (p, fd).

(** What the library itself keeps to: the lock file is only removed by who
    holds the lock, and no other file operation touches it. *)
Definition fs_pre (p : pid) (e : ev) (s : fs) : Prop :=
  match e with
  | SysUnlink path => path = lp -> exists fd, holds p fd s
  | SysRename from to => from <> lp /\ to <> lp
  | SysUnlinkat _ n => n <> lbase
  | SysMkostemp t => exists d, t = (d ++ ".tmp.XXXXXX")%string
  | _ => True
  end.

Definition fs_step (p : pid) (e : ev) (s : fs) : resp e -> fs -> Prop :=
  match e return resp e -> fs -> Prop with
  | SysOpen path fl _ => fun r s' =>
      match r with
      | inl fd =>
          fs_fds s !! (p, fd) = None /\ exists i,
          if (path =? lp)%string then
            if has_excl fl
            then fs_lockfile s = None /\ unused s i /\ s' = opened s (p, fd) i (Some i)
            else fs_lockfile s = Some i /\ s' = opened s (p, fd) i (Some i)
          else s' = opened s (p, fd) i (fs_lockfile s)
      | inr _ => s' = s
      end
  | SysMkostemp t => fun r s' =>
      match r with
      | inl (fd, tmp) =>
          fs_fds s !! (p, fd) = None /\ (exists i, s' = opened s (p, fd) i (fs_lockfile s)) /\
          (* the template with its X's replaced by letters and digits *)
          forall d, t = (d ++ ".tmp.XXXXXX")%string -> exists suf,
            tmp = (d ++ ".tmp." ++ suf)%string /\ String.length suf = 6%nat /\ no_dot suf = true
      | inr _ => s' = s
      end
  | SysClose fd => fun _ s' => s' = closed s (p, fd)
  | SysSetlk fd => fun r s' =>
      match r with
      | inl _ => exists i, fs_fds s !! (p, fd) = Some i /\
          (fs_locks s !! i = None \/ fs_locks s !! i = Some (p, fd)) /\
          s' = {| fs_lockfile := fs_lockfile s; fs_fds := fs_fds s;
                  fs_locks := <[i := (p, fd)]> (fs_locks s) |}
      | inr _ => s' = s
      end
  | SysFstat fd => fun r s' =>
      match r with inl st => fs_fds s !! (p, fd) = Some (st_dev st, st_ino st) | inr _ => True end /\
      s' = s
  | SysLstat path => fun r s' =>
      match r with
      | inl st => path = lp -> fs_lockfile s = Some (st_dev st, st_ino st)
      | inr _ => True
      end /\ s' = s
  | Getenv v => fun r s' =>
      ((v = "PSMSGR_DIR" -> r = penv p)%string /\
       match r with Some d => cstring d | None => True end) /\ s' = s
  | SysUnlink path => fun r s' =>
      match r with
      | inl _ => s' = if (path =? lp)%string
                      then {| fs_lockfile := None; fs_fds := fs_fds s; fs_locks := fs_locks s |}
                      else s
      | inr _ => s' = s
      end
  | _ => fun _ s' => s' = s
  end.

(** Any number of steps of the other processes. *)
Inductive others (p : pid) : fs -> fs -> Prop :=
  | others_none s : others p s s
  | others_step q e r s1 s2 s3 :
      q <> p -> fs_pre q e s1 -> fs_step q e s1 r s2 -> others p s2 s3 -> others p s1 s3.

(** Process [p] among the others: they may do anything before and after each
    of its steps, so what it keeps to must hold after whatever they do. *)
Definition fs_sem (p : pid) : Sem fs := {|
  sem_pre := fun e s => forall s1, others p s s1 -> fs_pre p e s1;
  sem_step := fun e s r s' => exists s1 s2, others p s s1 /\ fs_step p e s1 r s2 /\ others p s2 s';
  sem_out := True
|}.

(** ** What the others cannot change *)

Lemma fs_step_ok (p : pid) (e : ev) (s s' : fs) (r : resp e) :
  fs_ok s -> fs_step p e s r s' -> fs_ok s'.
Proof.
  intros Hok Hs.
  assert (Hopen : forall x i l, fs_fds s !! x = None -> fs_ok (opened s x i l)).
  { intros x i l Hx j y Hy. cbn in *. apply Hok in Hy as Hy'.
    rewrite lookup_insert_ne; [done | congruence]. }
  destruct e; cbn [fs_step] in Hs; try (by subst s');
    try (by destruct Hs; subst s').
  - destruct r as [fd|]; [| by subst s']. destruct Hs as (Hx & i & Hs).
    destruct (_ =? lp)%string; [destruct (has_excl _) |]; destr_and; subst s'; by apply Hopen.
  - subst s'. intros i x Hi. cbn in *.
    destruct (fs_fds s !! (p, fd)) as [j|] eqn:Ej.
    + case_decide as Hd.
      * destruct (decide (i = j)) as [->|Hne]; [by rewrite lookup_delete_eq in Hi |].
        rewrite lookup_delete_ne in Hi by done. apply Hok in Hi as Hi'.
        rewrite lookup_delete_ne; [done | congruence].
      * apply Hok in Hi as Hi'. rewrite lookup_delete_ne; [done |]. intros <-. congruence.
    + apply Hok in Hi as Hi'. rewrite lookup_delete_ne; [done | congruence].
  - destruct r as [[]|]; [| by subst s']. destruct Hs as (i & Hi & _ & ->).
    intros j x Hj. cbn in *. destruct (decide (i = j)) as [->|Hne].
    + rewrite lookup_insert_eq in Hj. by injection Hj as <-.
    + rewrite lookup_insert_ne in Hj by done. by apply Hok.
  - destruct r as [[fd tmp]|]; [| by subst s']. destruct Hs as (Hx & [i ->] & _). by apply Hopen.
  - destruct r as [[]|]; [| by subst s']. subst s'. by destruct (_ =? lp)%string.
Qed.

(** A step of [q] leaves [p]'s descriptors and locks alone, and the lock file
    while [p] holds it. *)
Lemma fs_step_other (p q : pid) (e : ev) (s s' : fs) (r : resp e) :
  fs_ok s -> q <> p -> fs_pre q e s -> fs_step q e s r s' ->
  (forall fd i, fs_fds s !! (p, fd) = i -> fs_fds s' !! (p, fd) = i) /\
  (forall i fd, fs_locks s !! i = Some (p, fd) -> fs_locks s' !! i = Some (p, fd)) /\
  (forall i fd, fs_lockfile s = Some i -> fs_locks s !! i = Some (p, fd) ->
     fs_lockfile s' = Some i).
Proof.
  intros Hok Hq Hp Hs. destruct e; cbn [fs_step fs_pre] in *; try (by subst s');
    try (by destruct Hs; subst s').
  - destruct r as [fd'|]; [| by subst s']. destruct Hs as (Hx & i & Hs).
    destruct (_ =? lp)%string; [destruct (has_excl _) |]; destr_and; subst s'; cbn;
      (split; [intros; rewrite lookup_insert_ne by congruence; done | split; [done | congruence]]).
  - subst s'. cbn. split; [intros; rewrite lookup_delete_ne by congruence; done | split; [| done]].
    intros i fd' Hi. destruct (fs_fds s !! (q, fd)) as [j|]; [| done]. case_decide; [| done].
    rewrite lookup_delete_ne; congruence.
  - destruct r as [[]|]; [| by subst s']. destruct Hs as (i & Hi & Hl & ->). cbn.
    split; [done | split; [| done]]. intros j fd' Hj.
    rewrite lookup_insert_ne; [done |]. intros <-. destruct Hl; congruence.
  - destruct r as [[fd' tmp]|]; [| by subst s']. destruct Hs as (Hx & [i ->] & _). cbn.
    split; [intros; rewrite lookup_insert_ne by congruence; done | done].
  - destruct r as [[]|]; [| by subst s']. subst s'.
    destruct (String.eqb_spec path lp) as [->|]; [| done].
    destruct (Hp eq_refl) as (fd & i & Hi & Hl). cbn. split; [done | split; [done |]].
    intros j fd' Hj Hl'. rewrite Hi in Hj. injection Hj as <-. rewrite Hl in Hl'. congruence.
Qed.

Lemma others_spec (p : pid) (s s' : fs) :
  others p s s' -> fs_ok s ->
  fs_ok s' /\ (forall fd i, fs_fds s !! (p, fd) = i -> fs_fds s' !! (p, fd) = i) /\
  (forall i fd, fs_locks s !! i = Some (p, fd) -> fs_locks s' !! i = Some (p, fd)) /\
  (forall i fd, fs_lockfile s = Some i -> fs_locks s !! i = Some (p, fd) ->
     fs_lockfile s' = Some i).
Proof.
  induction 1 as [s | q e r s1 s2 s3 Hq Hp Hs _ IH]; intros Hok; [done |].
  destruct (fs_step_other p q e s1 s2 r Hok Hq Hp Hs) as (H1 & H2 & H3).
  destruct (IH (fs_step_ok q e s1 s2 r Hok Hs)) as (H0 & H1' & H2' & H3').
  split; [done | split; [auto | split; [auto | eauto]]].
Qed.

Lemma others_holds (p : pid) (fd : Z) (s s' : fs) :
  others p s s' -> fs_ok s -> holds p fd s -> holds p fd s'.
Proof.
  intros Ho Hok (i & Hi & Hl). destruct (others_spec p s s' Ho Hok) as (_ & _ & H2 & H3).
  exists i. eauto.
Qed.

Lemma holds_unique (p q : pid) (fd fd' : Z) (s : fs) :
  holds p fd s -> holds q fd' s -> q = p /\ fd' = fd.
Proof. intros (i & Hi & Hl) (j & Hj & Hl'). simplify_eq. done. Qed.

(** ** [lock_channel] *)

Section channel.
Context {C : Config} (p : pid).
#[local] Instance p_sem : Sem fs := fs_sem p.

(** What [p] knows after a step of its own, whatever the others do next. *)
Lemma wp_fs (e : ev) (en : Z) (s : fs) (Q : resp e -> Z -> fs -> Prop) :
  fs_ok s -> (forall s1, fs_ok s1 -> others p s s1 -> fs_pre p e s1) ->
  (forall r s1 s2 s', fs_ok s1 -> others p s s1 -> fs_step p e s1 r s2 -> fs_ok s2 ->
     others p s2 s' -> fs_ok s' -> Q r (resp_errno e r en) s') ->
  wp (call e) en s Q.
Proof.
  intros Hok Hp HQ. apply wp_call.
  - intros s1 Ho. apply Hp; [| done]. by destruct (others_spec p s s1 Ho Hok).
  - intros r s' (s1 & s2 & Ho1 & Hs & Ho2).
    destruct (others_spec p s s1 Ho1 Hok) as [H1 _]. pose proof (fs_step_ok p e s1 s2 r H1 Hs) as H2.
    destruct (others_spec p s2 s' Ho2 H2) as [H3 _]. by apply (HQ r s1 s2).
Qed.

(** Events that change nothing here. *)
Lemma wp_fs_quiet (e : ev) (en : Z) (s : fs) (Q : resp e -> Z -> fs -> Prop) :
  fs_ok s -> (forall s1, fs_pre p e s1) -> (forall s1 r s2, fs_step p e s1 r s2 -> s2 = s1) ->
  (forall r s', fs_ok s' -> others p s s' -> Q r (resp_errno e r en) s') ->
  wp (call e) en s Q.
Proof.
  intros Hok Hp Hs HQ. apply wp_fs; [done | intros; apply Hp |].
  intros r s1 s2 s' H1 Ho1 Hst _ Ho2 H3. rewrite (Hs _ _ _ Hst) in Ho2. apply HQ; [done |].
  clear - Ho1 Ho2. induction Ho1; [done |]. econstructor; eauto.
Qed.

(** [p] has the file open as [fd]; if [i], it has locked inode [i] by it. *)
Definition has_open (fd : Z) (i : inode) (s : fs) : Prop :=
  fs_ok s /\ fs_fds s !! (p, fd) = Some i.
Definition has_locked (fd : Z) (i : inode) (s : fs) : Prop :=
  has_open fd i s /\ fs_locks s !! i = Some (p, fd).

Lemma has_locked_others (fd : Z) (i : inode) (s s' : fs) :
  others p s s' -> has_locked fd i s -> has_locked fd i s'.
Proof.
  intros Ho [[Hok Hf] Hl]. destruct (others_spec p s s' Ho Hok) as (H0 & H1 & H2 & _).
  repeat split; [done | by apply H1 | by apply H2].
Qed.

Lemma has_open_others (fd : Z) (i : inode) (s s' : fs) :
  others p s s' -> has_open fd i s -> has_open fd i s'.
Proof.
  intros Ho [Hok Hf]. destruct (others_spec p s s' Ho Hok) as (H0 & H1 & _).
  split; [done | by apply H1].
Qed.

Lemma wp_fs_close (fd en : Z) (s : fs) (Q : unit -> Z -> fs -> Prop) :
  fs_ok s -> (forall s', fs_ok s' -> Q tt en s') -> wp (close_keep_errno fd) en s Q.
Proof.
  intros Hok HQ. unfold close_keep_errno. apply wp_bind, wp_get_errno, wp_bind, wp_fs; [done | done |].
  intros r s1 s2 s' _ _ _ _ _ Hs'. by apply wp_set_errno, HQ.
Qed.

(** The check after locking: if it says yes, the path names the locked file,
    and from then on it keeps naming it. *)
Lemma wp_fs_names_inode (fd en : Z) (i : inode) (s : fs) (Q : bool * Z -> Z -> fs -> Prop) :
  has_locked fd i s ->
  (forall err en' s', fs_ok s' -> Q (false, err) en' s') ->
  (forall en' s', fs_ok s' -> holds p fd s' -> Q (true, PSMSGR_OK) en' s') ->
  wp (names_inode lp fd) en s Q.
Proof.
  intros Hl Hno Hyes. unfold names_inode. pose proof (proj1 (proj1 Hl)) as Hok.
  apply wp_bind, wp_fs; [done | done |]. intros [fst|e] s1 s2 s3 H1 Ho1 [Hf ->] _ Ho2 H3;
    [| by apply wp_ret, Hno].
  pose proof (has_locked_others _ _ _ _ Ho1 Hl) as Hl1.
  pose proof (has_locked_others _ _ _ _ Ho2 Hl1) as Hl3.
  apply wp_bind, wp_fs; [done | done |]. intros [ps|e] s4 s5 s6 H4 Ho4 [Hp ->] _ Ho6 H6.
  2: { by apply wp_bind, wp_get_errno, wp_ret, Hno. }
  apply wp_ret. destruct (same_file fst ps) eqn:Esame; [| by apply Hno].
  apply Hyes; [done |]. unfold same_file in Esame. bool_hyps.
  pose proof (has_locked_others _ _ _ _ Ho4 Hl3) as [[_ Hf4] Hl4].
  eapply others_holds; [exact Ho6 | done |]. exists i. split; [| done].
  destruct Hl1 as [[_ Hf1] _]. rewrite Hf1 in Hf. injection Hf as ->.
  rewrite (Hp eq_refl). f_equal. f_equal; lia.
Qed.

Lemma wp_fs_names_inode_any (fd en : Z) (s : fs) (Q : bool * Z -> Z -> fs -> Prop) :
  fs_ok s -> (forall c err en' s', fs_ok s' -> Q (c, err) en' s') ->
  wp (names_inode lp fd) en s Q.
Proof.
  intros Hok HQ. unfold names_inode. apply wp_bind, wp_fs; [done | done |].
  intros [st|e] a b s1 _ _ _ _ _ H1; [| by apply wp_ret, HQ].
  apply wp_bind, wp_fs; [done | done |]. intros [ps|e] a' b' s2 _ _ _ _ _ H2; [by apply wp_ret, HQ |].
  by apply wp_bind, wp_get_errno, wp_ret, HQ.
Qed.

(** The end of an iteration. *)
Definition lock_result (x : unit + (Z * Z)) (s : fs) : Prop :=
  fs_ok s /\ match x with inr (rc, fd) => rc = PSMSGR_OK -> holds p fd s | inl _ => True end.

Lemma wp_fs_lock_opened (fd en : Z) (i : inode) (s : fs) :
  has_open fd i s -> wp (lock_opened lp fd) en s (fun x _ s' => lock_result x s').
Proof.
  intros Hf. unfold lock_opened.
  assert (Hclose : forall (x : unit + (Z * Z)) en' s', fs_ok s' ->
    (forall rc fd, x = inr (rc, fd) -> rc <> PSMSGR_OK) ->
    wp (bind (close_keep_errno fd) (fun _ => ret x)) en' s' (fun x _ s' => lock_result x s')).
  { intros x en' s' Hs' Hx. apply wp_bind, wp_fs_close; [done |]. intros s2 H2. apply wp_ret.
    split; [done |]. destruct x as [|[rc fd']]; [done |]. intros Hrc. by destruct (Hx rc fd'). }
  assert (Hk : forall s1 en1, has_open fd i s1 -> wp (let* l := call (SysSetlk fd) in
    match l with
    | inr _ =>
        let* e := get_errno in
        if negb (e =? EAGAIN) && negb (e =? EACCES) then
          close_keep_errno fd ;;; ret (inr (PSMSGR_E_SYS, -1))
        else
          let* (current, err) := names_inode lp fd in
          close_keep_errno fd ;;;
          if negb (err =? PSMSGR_OK) then ret (inr (err, -1))
          else if current then ret (inr (PSMSGR_E_WRITER_EXISTS, -1))
          else ret (inl tt)
    | inl _ =>
        let* (current, err) := names_inode lp fd in
        if current then ret (inr (PSMSGR_OK, fd))
        else
          close_keep_errno fd ;;;
          if negb (err =? PSMSGR_OK) then ret (inr (err, -1)) else ret (inl tt)
    end) en1 s1 (fun x _ s' => lock_result x s')).
  { intros s1 en1 Hf1. apply wp_bind, wp_fs; [apply Hf1 | done |].
    intros [[]|e] s2 s3 s4 H2 Ho1 Hs H3 Ho4 H4.
    - destruct Hs as (j & Hj & _ & ->).
      destruct (has_open_others _ _ _ _ Ho1 Hf1) as [_ Hf2]. rewrite Hf2 in Hj. injection Hj as <-.
      apply wp_bind, (wp_fs_names_inode _ _ i).
      + eapply has_locked_others; [exact Ho4 |]. repeat split; [done | | apply lookup_insert_eq].
        exact Hf2.
      + intros err en' s' Hs'. destruct (err =? PSMSGR_OK) eqn:E; cbn [negb].
        * by apply Hclose.
        * apply Hclose; [done |]. intros rc fd' [= -> _]. by apply Z.eqb_neq.
      + intros en' s' Hs' Hh. by apply wp_ret.
    - apply wp_bind, wp_get_errno. destruct (_ && _); [apply Hclose; [done | by intros ? ? [= <- _]] |].
      apply wp_bind, wp_fs_names_inode_any; [done |]. intros c err en' s5 H5.
      apply wp_bind, wp_fs_close; [done |]. intros s6 H6.
      destruct (err =? PSMSGR_OK) eqn:E; cbn [negb]; [destruct c; by apply wp_ret |].
      apply wp_ret. split; [done |]. apply Z.eqb_neq in E. done. }
  apply wp_bind. destruct psmi_test_lock_opened; [| by apply wp_ret, Hk].
  apply wp_fs_quiet; [apply Hf | done | done |]. intros [] s' _ Ho. by eapply Hk, has_open_others.
Qed.

Lemma wp_fs_lock_body (mode en : Z) (x : unit) (s : fs) :
  fs_ok s -> wp (lock_body lp mode x) en s (fun x _ s' => lock_result x s').
Proof.
  intros Hok. unfold lock_body.
  assert (Hret : forall (x : unit + (Z * Z)) en' s', fs_ok s' ->
    (forall rc fd, x = inr (rc, fd) -> rc <> PSMSGR_OK) ->
    wp (ret x) en' s' (fun x _ s' => lock_result x s')).
  { intros y en' s' Hs' Hy. apply wp_ret. split; [done |]. destruct y as [|[rc fd]]; [done |].
    intros Hrc. by destruct (Hy rc fd). }
  assert (Hopened : forall fd s1 s2 s3 i, fs_ok s2 -> s2 = opened s1 (p, fd) i (Some i) ->
    others p s2 s3 -> has_open fd i s3).
  { intros fd s1 s2 s3 i H2 -> Ho. eapply has_open_others; [exact Ho |].
    split; [done |]. apply lookup_insert_eq. }
  apply wp_bind, wp_fs; [done | done |]. intros [fd|e] s1 s2 s3 H1 Ho1 Hs H2 Ho2 H3; cbn [fs_step] in Hs.
  - destruct Hs as (Hfd & i & Hs). rewrite String.eqb_refl in Hs.
    change (has_excl lock_create_flags) with true in Hs. destruct Hs as (_ & _ & ->).
    pose proof (Hopened _ _ _ _ _ H2 eq_refl Ho2) as Hf3.
    apply wp_bind, wp_fs_quiet; [done | done | done |]. intros [[]|e] s4 H4 Ho4.
    + eapply wp_fs_lock_opened, has_open_others; [exact Ho4 | exact Hf3].
    + apply wp_bind, wp_fs_close; [done |]. intros s5 H5. apply Hret; [done |]. by intros ? ? [= <- _].
  - apply wp_bind, wp_get_errno. destruct (_ =? EEXIST); [| apply Hret; [done |]; by intros ? ? [= <- _]].
    apply wp_bind, wp_fs; [done | done |]. intros [fd|e2] s4 s5 s6 H4 Ho4 Hs5 H5 Ho5 H6;
      cbn [fs_step] in Hs5.
    + destruct Hs5 as (Hfd & i & Hs5). rewrite String.eqb_refl in Hs5.
      change (has_excl rdwr_open_flags) with false in Hs5. destruct Hs5 as (_ & ->).
      eapply wp_fs_lock_opened, (Hopened _ _ _ _ _ H5 eq_refl Ho5).
    + apply wp_bind, wp_get_errno. destruct (_ =? ENOENT); apply Hret; try done. by intros ? ? [= <- _].
Qed.

Lemma wp_fs_lock_channel (fuel : nat) (mode en : Z) (s : fs) (Q : Z * Z -> Z -> fs -> Prop) :
  fs_ok s ->
  (forall rc fd en' s', fs_ok s' -> (rc = PSMSGR_OK -> holds p fd s') -> Q (rc, fd) en' s') ->
  wp (lock_channel fuel lp mode) en s Q.
Proof.
  intros Hok HQ. unfold lock_channel. apply (wp_loop (fun _ _ s' => fs_ok s')); [done | | done].
  intros x en1 s1 H1. eapply wp_mono; [by apply wp_fs_lock_body |].
  intros [[]|[rc fd]] en' s' [H' Hr]; [done | by apply HQ].
Qed.

(** ** What a call does besides locking

    A monitor without state: the operations the library may do on files while
    it holds the lock by [Some fd], or ([None]) of another channel. *)
Definition guard_pre (keep : option Z) (e : ev) : Prop :=
  match e with
  | SysUnlink path => path <> lp
  | SysRename from to => from <> lp /\ to <> lp
  | SysUnlinkat _ n => n <> lbase
  | SysMkostemp t => exists d, t = (d ++ ".tmp.XXXXXX")%string
  | SysClose fd => keep <> Some fd
  | SysOpen path _ _ => is_Some keep -> path <> lp
  | SysSetlk _ => keep = None
  | _ => True
  end.

Definition guard_step (keep : option Z) (e : ev) : resp e -> Prop :=
  match e return resp e -> Prop with
  | SysOpen _ _ _ => fun r => match r with inl fd => keep <> Some fd | inr _ => True end
  | SysMkostemp t => fun r =>
      match r with
      | inl (fd, tmp) => keep <> Some fd /\
          forall d, t = (d ++ ".tmp.XXXXXX")%string -> exists suf,
            tmp = (d ++ ".tmp." ++ suf)%string /\ String.length suf = 6%nat /\ no_dot suf = true
      | inr _ => True
      end
  | Getenv _ => fun r => match r with Some d => cstring d | None => True end
  | _ => fun _ => True
  end.

Definition guard_sem (keep : option Z) : Sem unit := {|
  sem_pre := fun e _ => guard_pre keep e;
  sem_step := fun e _ r _ => guard_step keep e r;
  sem_out := True
|}.

Definition kept (keep : option Z) (s : fs) : Prop :=
  fs_ok s /\ match keep with Some fd => holds p fd s | None => True end.

Lemma kept_others (keep : option Z) (s s' : fs) : others p s s' -> kept keep s -> kept keep s'.
Proof.
  intros Ho [Hok Hk]. split; [by destruct (others_spec p s s' Ho Hok) |].
  destruct keep; [by eapply others_holds | done].
Qed.

(** A step the guard allows keeps the lock. *)
Lemma guard_keeps (keep : option Z) (e : ev) (s s' : fs) (r : resp e) :
  guard_pre keep e -> kept keep s -> fs_step p e s r s' -> guard_step keep e r /\ kept keep s'.
Proof.
  intros Hp [Hok Hk] Hs. pose proof (fs_step_ok p e s s' r Hok Hs) as Hok'.
  unfold kept. destruct keep as [lfd|].
  2: { split; [| done]. destruct e; try done; cbn [guard_step fs_step] in *.
       - by destruct r.
       - destruct r as [[fd tmp]|]; [| done]. by destruct Hs as (_ & _ & ?).
       - by destruct Hs as [[_ ?] _]. }
  destruct Hk as (i & Hi & Hl). pose proof (Hok _ _ Hl) as Hf.
  enough (guard_step (Some lfd) e r /\ holds p lfd s') by tauto. unfold holds.
  destruct e; cbn [fs_step guard_pre guard_step] in *;
    try (subst s'; split; [done | by exists i]);
    try (destruct Hs as [[_ Hs] ->]; split; [exact Hs | by exists i]); try (destruct Hs; subst s'; split; [done | by exists i]).
  - destruct r as [fd|]; [| subst s'; split; [done | by exists i]].
    destruct Hs as (Hx & j & Hs). apply String.eqb_neq in Hp; [| done]. rewrite Hp in Hs. subst s'.
    split; [intros [= ->]; congruence | by exists i].
  - subst s'. split; [done |]. exists i. split; [done |]. cbn.
    destruct (fs_fds s !! (p, fd)) as [j|]; [| done]. case_decide; [| done].
    rewrite lookup_delete_ne; [done |]. intros ->. congruence.
  - done.
  - destruct r as [[fd tmp]|]; [| subst s'; split; [done | by exists i]].
    destruct Hs as (Hx & [j ->] & Ht). split; [split; [intros [= ->]; congruence | done] | by exists i].
  - destruct r as [[]|]; [| subst s'; split; [done | by exists i]].
    apply String.eqb_neq in Hp. rewrite Hp in Hs. subst s'. split; [done | by exists i].
Qed.

Lemma guard_allowed (keep : option Z) (e : ev) (s : fs) : guard_pre keep e -> fs_pre p e s.
Proof. destruct e; try done. intros H E. by destruct H. Qed.

(** What holds on the monitor holds among the other processes. *)
Lemma wp_guard {A : Type} (m : prog A) (keep : option Z) (en : Z) (s : fs)
    (Q : A -> Z -> unit -> Prop) (Q' : A -> Z -> fs -> Prop) :
  wp (HS := guard_sem keep) m en tt Q -> kept keep s ->
  (forall a en' s', Q a en' tt -> kept keep s' -> Q' a en' s') ->
  wp m en s Q'.
Proof.
  unfold wp. intros Hm Hk HQ. revert s Hk. generalize dependent (m en). intros f. clear m.
  induction f as [a | e k IH |]; intros Hm s Hk; cbn [wpf] in *.
  - by apply HQ.
  - destruct Hm as [Hp Hm]. split.
    + intros s1 _. exact (guard_allowed keep e s1 Hp).
    + intros r s' (s1 & s2 & Ho1 & Hs & Ho2).
      destruct (guard_keeps keep e s1 s2 r Hp (kept_others _ _ _ Ho1 Hk) Hs) as [Hr Hk2].
      apply IH; [by apply Hm | by eapply kept_others].
  - done.
Qed.
End channel.

(** ** The rest of the library on the monitor *)

Section guard.
Context {C : Config} (keep : option Z).
#[local] Instance keep_sem : Sem unit := guard_sem keep.

Lemma wp_g (e : ev) (en : Z) (Q : resp e -> Z -> unit -> Prop) :
  guard_pre keep e -> (forall r, guard_step keep e r -> Q r (resp_errno e r en) tt) ->
  wp (call e) en tt Q.
Proof. intros Hp HQ. apply wp_call; [done |]. intros r [] Hr. by apply HQ. Qed.

(** Straight-line code: every event is allowed as it is. *)
Ltac guard_step :=
  match goal with
  | |- wp (bind _ _) _ _ _ => apply wp_bind
  | |- wp (ret _) _ _ _ => apply wp_ret
  | |- wp get_errno _ _ _ => apply wp_get_errno
  | |- wp (set_errno _) _ _ _ => apply wp_set_errno
  | |- wp (call _) _ _ _ => apply wp_g; [done | intros ? ?]
  | |- wp (match ?x with _ => _ end) _ _ _ => destruct x
  end.
Ltac guards := repeat guard_step.

Lemma wp_g_store_bytes (bs : list Z) (p : ptr) (en : Z) (Q : unit -> Z -> unit -> Prop) :
  Q tt en tt -> wp (store_bytes p bs) en tt Q.
Proof.
  revert p. induction bs as [|b bs IH]; intros p HQ; cbn [store_bytes]; [by apply wp_ret |].
  apply wp_bind, wp_g; [done |]. intros [] _. by apply IH.
Qed.

Lemma wp_g_load_bytes (n : nat) (p : ptr) (en : Z) (Q : list Z -> Z -> unit -> Prop) :
  (forall bs, Q bs en tt) -> wp (load_bytes p n) en tt Q.
Proof.
  revert p Q. induction n as [|n IH]; intros p Q HQ; cbn [load_bytes]; [by apply wp_ret |].
  apply wp_bind, wp_g; [done |]. intros b _. apply wp_bind, IH. intros bs. by apply wp_ret.
Qed.

Lemma wp_g_clock (c : clockid) (en : Z) (Q : Z -> Z -> unit -> Prop) :
  (forall t, Q t en tt) -> wp (psmi_clock_ns c) en tt Q.
Proof. intros HQ. unfold psmi_clock_ns. guards. apply HQ. Qed.

Lemma wp_g_random_generation (en : Z) (Q : Z -> Z -> unit -> Prop) :
  (forall g en', Q g en' tt) -> wp random_generation en tt Q.
Proof.
  intros HQ. unfold random_generation. cbv zeta.
  assert (Hm : forall en', wp (let* mono := psmi_clock_ns CLOCK_MONOTONIC in
      let* real := psmi_clock_ns CLOCK_REALTIME in
      let* pid := call SysGetpid in ret (u32 (mix64 mono real pid))) en' tt
      (fun g en' s' => wp (ret (if negb (g =? 0) then g else 1)) en' s' Q)).
  { intros en'. apply wp_bind, wp_g_clock. intros m. apply wp_bind, wp_g_clock. intros r.
    guards. apply HQ. }
  apply wp_bind, wp_g; [done |]. intros [bs|e] _; apply wp_bind; [| apply Hm].
  destruct (length bs =? 4)%nat; [guards; apply HQ | apply Hm].
Qed.

Lemma wp_g_close (fd en : Z) (Q : unit -> Z -> unit -> Prop) :
  keep <> Some fd -> Q tt en tt -> wp (close_keep_errno fd) en tt Q.
Proof. intros Hf HQ. unfold close_keep_errno. by guards. Qed.

Lemma wp_g_retire (h : ptr) (en : Z) (Q : unit -> Z -> unit -> Prop) :
  (forall en', Q tt en' tt) -> wp (retire h) en tt Q.
Proof. intros HQ. unfold retire, futex_wake_all. guards. apply HQ. Qed.

Lemma wp_g_carried (q : ptr) (stride latest en : Z) (Q : Z -> Z -> unit -> Prop) :
  (forall g en', Q g en' tt) -> wp (carried_generation q stride latest) en tt Q.
Proof.
  intros HQ. unfold carried_generation. destruct (_ =? _); [by apply wp_g_random_generation |].
  cbv zeta. unfold plain_load. apply wp_bind, wp_bind, wp_g_load_bytes. intros bs.
  guards. apply HQ.
Qed.

Lemma wp_g_read_header (fd en : Z) (Q : Z * option (stat * psmi_header) -> Z -> unit -> Prop) :
  (forall x en', Q x en' tt) -> wp (read_header fd) en tt Q.
Proof. intros HQ. unfold read_header. guards; apply HQ. Qed.

Lemma wp_g_store_header (h : ptr) (o : psmsgr_state_options) (en : Z)
    (Q : unit -> Z -> unit -> Prop) :
  (forall en', Q tt en' tt) -> wp (store_header h o) en tt Q.
Proof.
  intros HQ. unfold store_header, plain_store.
  repeat (apply wp_bind, wp_g_store_bytes). apply wp_bind, wp_g_clock. intros t.
  apply wp_bind, wp_g_store_bytes. apply wp_ret, HQ.
Qed.

Lemma wp_g_load_geom (h : ptr) (en : Z) (Q : psmi_header -> Z -> unit -> Prop) :
  (forall x en', Q x en' tt) -> wp (load_geom h) en tt Q.
Proof.
  intros HQ. unfold load_geom, plain_load.
  do 4 (apply wp_bind, wp_bind, wp_g_load_bytes; intros ?; apply wp_ret). apply wp_ret, HQ.
Qed.

(** The files of another kind than the lock file. *)
Definition other_files (p : paths) : Prop :=
  pt_data p <> lp /\
  (forall suf, String.length suf = 6%nat -> no_dot suf = true ->
     (pt_data p ++ ".tmp." ++ suf)%string <> lp) /\
  (forall n, stale_tmp (pt_data_base p) n = true -> n <> lbase).

Lemma wp_g_remove_stale_tmp (fuel : nat) (p : paths) (en : Z) (Q : unit -> Z -> unit -> Prop) :
  other_files p -> (forall en', Q tt en' tt) -> wp (remove_stale_tmp fuel p) en tt Q.
Proof.
  intros (_ & _ & Hs) HQ. unfold remove_stale_tmp. apply wp_bind, wp_g; [done |].
  intros [d|e] _; [| apply wp_ret, HQ].
  apply wp_bind, (wp_loop (fun _ _ _ => True)); [done | | done].
  intros [] en1 [] _. apply wp_bind, wp_g; [done |]. intros [n|] _; [| guards; apply HQ].
  destruct (stale_tmp _ n) eqn:E; [| by guards].
  apply wp_bind, wp_g; [by apply Hs |]. intros r _. by guards.
Qed.

Lemma wp_g_create_fail (fd tb size en : Z) (tmp : string) (map : option Z)
    (w : psmsgr_state_writer) (Q : Z * psmsgr_state_writer -> Z -> unit -> Prop) :
  keep <> Some fd -> tmp <> lp -> Q (PSMSGR_E_SYS, w) en tt ->
  wp (create_fail fd tb tmp map size w) en tt Q.
Proof. intros Hf Ht HQ. unfold create_fail. by guards. Qed.

Lemma wp_g_create_file (w : psmsgr_state_writer) (o : psmsgr_state_options) (p : paths)
    (old : option ptr) (gen en : Z) (Q : Z * psmsgr_state_writer -> Z -> unit -> Prop) :
  other_files p ->
  (forall rc w' en', w_lock_fd w' = w_lock_fd w -> Q (rc, w') en' tt) ->
  wp (create_file w o p old gen) en tt Q.
Proof.
  intros (Hd & Ht & _) HQ. unfold create_file.
  apply wp_bind, wp_g; [done |]. intros [tb|] _; [| by apply wp_ret, HQ].
  apply wp_bind, wp_g; [by exists (pt_data p) |]. intros [[fd tmp]|e] Hs; cbn in Hs; [| guards; by apply HQ].
  destruct Hs as [Hf Htmp]. destruct (Htmp (pt_data p) eq_refl) as (suf & -> & Hl & Hn).
  pose proof (Ht suf Hl Hn) as Hne. cbv zeta.
  assert (Hfail : forall map size en', wp (create_fail fd tb (pt_data p ++ ".tmp." ++ suf)%string map size w)
    en' tt Q) by (intros; by apply wp_g_create_fail, HQ).
  apply wp_bind, wp_g; [done |]. intros [[]|e] _; [| apply Hfail].
  apply wp_bind, wp_g; [done |]. intros e _.
  destruct (negb (e =? 0)); [by apply wp_bind, wp_set_errno, Hfail |].
  apply wp_bind, wp_g; [done |]. intros [b|e2] _; [| apply Hfail].
  apply wp_bind, wp_g_store_header. intros en1.
  apply wp_bind, wp_g; [done |]. intros [[]|e2] _; [| apply Hfail].
  apply wp_bind, wp_g; [done |]. intros x _. apply wp_bind, wp_g; [done |]. intros [] _.
  apply wp_bind. destruct old as [q|]; [apply wp_g_retire; intros en2 | apply wp_ret];
    apply wp_bind, wp_g_load_geom; intros geom en3; by apply wp_ret, HQ.
Qed.

Lemma wp_g_open_decide (w : psmsgr_state_writer) (o : psmsgr_state_options) (p : paths)
    (old : option ptr) (size : Z) (valid : bool) (h : psmi_header) (latest en : Z)
    (Q : Z * psmsgr_state_writer -> Z -> unit -> Prop) :
  other_files p ->
  (forall rc w' en', w_lock_fd w' = w_lock_fd w -> Q (rc, w') en' tt) ->
  wp (open_decide w o p old size valid h latest) en tt Q.
Proof.
  intros Hp HQ. unfold open_decide. cbv zeta.
  assert (Hfin : forall (m : prog (Z * psmsgr_state_writer)) en',
    wp m en' tt (fun x en' s' => s' = tt /\ w_lock_fd (snd x) = w_lock_fd w) ->
    wp (let* (rc, w) := m in
        (match old with
         | Some q => let* _ := call (SysMunmap (p_blk q) size) in ret tt
         | None => ret tt
         end) ;;; ret (rc, w)) en' tt Q).
  { intros m en' Hm. apply wp_bind. eapply wp_mono; [exact Hm |]. intros [rc w'] en2 s' [-> Hw].
    cbn [snd] in Hw. apply wp_bind. destruct old; guards; by apply HQ. }
  assert (Hcreate : forall gen en', wp (create_file w o p old gen) en' tt
    (fun x en' s' => s' = tt /\ w_lock_fd (snd x) = w_lock_fd w)).
  { intros gen en'. by apply wp_g_create_file. }
  apply wp_bind. destruct valid; cbn [negb].
  - apply wp_g_carried. intros gen en1. apply wp_bind, wp_g; [done |]. intros s _.
    destruct (negb _); [by apply Hfin |].
    destruct (_ || _); [apply Hfin; destruct (negb _); [apply Hcreate | by apply wp_ret] |].
    destruct (negb _); [by apply Hfin |]. by apply wp_ret, HQ.
  - apply wp_g_random_generation. intros gen en1. apply Hfin.
    destruct (negb _); [apply Hcreate | by apply wp_ret].
Qed.

Lemma wp_g_open_data (w : psmsgr_state_writer) (o : psmsgr_state_options) (p : paths) (en : Z)
    (Q : Z * psmsgr_state_writer -> Z -> unit -> Prop) :
  other_files p ->
  (forall rc w' en', w_lock_fd w' = w_lock_fd w -> Q (rc, w') en' tt) ->
  wp (open_data w o p) en tt Q.
Proof.
  intros Hp HQ. unfold open_data.
  apply wp_bind, wp_g; [intros _; apply Hp |]. intros [fd|e] Hf; cbn in Hf.
  2: { apply wp_bind, wp_get_errno. destruct (_ =? _); [| by apply wp_ret, HQ].
       apply wp_bind, wp_g_random_generation. intros g en'. by apply wp_g_create_file. }
  apply wp_bind, wp_g_read_header. intros [rc sh] en1.
  destruct (rc =? PSMSGR_E_SYS); [by apply wp_bind, wp_g_close, wp_ret, HQ |]. cbv zeta.
  apply wp_bind.
  match goal with |- wp (if ?b then _ else _) _ _ _ => destruct b end.
  - apply wp_bind, wp_g; [done |]. intros [b|e] _; apply wp_ret;
      [| by apply wp_bind, wp_g_close, wp_ret, HQ].
    apply wp_bind, wp_g; [done |]. intros x _. apply wp_bind.
    destruct (match sh with Some (st, h) => header_valid h (st_size st) | None => false end).
    + apply wp_g; [done |]. intros latest _. by apply wp_g_open_decide.
    + apply wp_ret. by apply wp_g_open_decide.
  - apply wp_ret, wp_bind, wp_g; [done |]. intros x _. apply wp_bind.
    destruct (match sh with Some (st, h) => header_valid h (st_size st) | None => false end).
    + apply wp_g; [done |]. intros latest _. by apply wp_g_open_decide.
    + apply wp_ret. by apply wp_g_open_decide.
Qed.

(** Another channel's lock. *)
Lemma wp_g_names_inode (path : string) (fd en : Z) (Q : bool * Z -> Z -> unit -> Prop) :
  (forall c err en', Q (c, err) en' tt) -> wp (names_inode path fd) en tt Q.
Proof. intros HQ. unfold names_inode. guards; apply HQ. Qed.

Lemma wp_g_lock_opened (path : string) (fd en : Z) (Q : unit + (Z * Z) -> Z -> unit -> Prop) :
  keep = None -> (forall x en', Q x en' tt) -> wp (lock_opened path fd) en tt Q.
Proof.
  intros Hk HQ. unfold lock_opened. apply wp_bind.
  assert (Hclose : forall (m : prog (unit + (Z * Z))) en', (forall en2, wp m en2 tt Q) ->
    wp (close_keep_errno fd ;;; m) en' tt Q).
  { intros m en' Hm. apply wp_bind, wp_g_close; [by rewrite Hk | apply Hm]. }
  assert (Hret : forall x en', wp (ret x) en' tt Q) by (intros; apply wp_ret, HQ).
  assert (Hrest : forall en2, wp (let* l := call (SysSetlk fd) in
    match l with
    | inr _ =>
        let* e := get_errno in
        if negb (e =? EAGAIN) && negb (e =? EACCES) then
          close_keep_errno fd ;;; ret (inr (PSMSGR_E_SYS, -1))
        else
          let* (current, err) := names_inode path fd in
          close_keep_errno fd ;;;
          if negb (err =? PSMSGR_OK) then ret (inr (err, -1))
          else if current then ret (inr (PSMSGR_E_WRITER_EXISTS, -1))
          else ret (inl tt)
    | inl _ =>
        let* (current, err) := names_inode path fd in
        if current then ret (inr (PSMSGR_OK, fd))
        else
          close_keep_errno fd ;;;
          if negb (err =? PSMSGR_OK) then ret (inr (err, -1)) else ret (inl tt)
    end) en2 tt Q).
  { intros en2. apply wp_bind, wp_g; [done |]. intros [[]|e] _.
    - apply wp_bind, wp_g_names_inode. intros [|] err en3; [apply Hret |].
      apply Hclose. intros en4. destruct (negb _); apply Hret.
    - apply wp_bind, wp_get_errno. destruct (_ && _); [by apply Hclose |].
      apply wp_bind, wp_g_names_inode. intros c err en3. apply Hclose. intros en4.
      destruct (negb _); [apply Hret | destruct c; apply Hret]. }
  destruct psmi_test_lock_opened; [apply wp_g; [done |]; intros [] _ | apply wp_ret]; apply Hrest.
Qed.

Lemma wp_g_lock_channel (fuel : nat) (path : string) (mode en : Z) (Q : Z * Z -> Z -> unit -> Prop) :
  keep = None -> (forall x en', Q x en' tt) -> wp (lock_channel fuel path mode) en tt Q.
Proof.
  intros Hk HQ. unfold lock_channel.
  apply (wp_loop (fun _ _ _ => True)); [done | | done]. intros x en1 [] _.
  assert (Hopen : forall fl m en' (Q : _ -> Z -> unit -> Prop),
    (forall r, Q r (resp_errno (SysOpen path fl m) r en') tt) ->
    wp (call (SysOpen path fl m)) en' tt Q).
  { intros fl m en' Q' HQ'. apply wp_g; [cbn; rewrite Hk; by intros [? ?] | auto]. }
  set (P := fun (r : unit + (Z * Z)) (en' : Z) (s' : unit) =>
              match r with inl _ => True | inr a => Q a en' s' end).
  assert (HP : forall r en', P r en' tt) by (intros [|] en'; [done | apply HQ]).
  unfold lock_body. apply wp_bind, Hopen. intros [fd|e].
  - apply wp_bind, wp_g; [done |]. intros [[]|e] _; [by apply wp_g_lock_opened |].
    apply wp_bind, wp_g_close; [by rewrite Hk | apply HQ].
  - apply wp_bind, wp_get_errno. destruct (_ =? EEXIST); [| apply HQ].
    apply wp_bind, Hopen. intros [fd|e2]; [by apply wp_g_lock_opened |].
    apply wp_bind, wp_get_errno. destruct (_ =? _); apply HP.
Qed.
End guard.

(** ** Which files are not the lock file *)

(** The paths of a channel. *)
Definition paths_at (d n : string) (blk : Z) : paths := {|
  pt_block := blk; pt_dir := d; pt_data := (d ++ "/" ++ state_file n)%string;
  pt_lock := (d ++ "/" ++ lock_file n)%string; pt_data_base := state_file n |}.

Lemma data_not_lock (a x : string) : (a ++ ".state")%string <> (x ++ ".lock")%string.
Proof.
  intros E. apply (f_equal chars) in E. rewrite !chars_app in E.
  change (chars ".state") with (["."%char] ++ chars "state") in E. rewrite app_assoc in E.
  apply app_inj_2 in E as [_ E]; [| done]. discriminate E.
Qed.

Lemma tmp_not_lock (a suf x : string) :
  String.length suf = 6%nat -> no_dot suf = true -> (a ++ suf)%string <> (x ++ ".lock")%string.
Proof.
  intros Hl Hd E. apply (f_equal chars) in E. rewrite !chars_app in E.
  apply lock_suffix in E; [| by rewrite length_chars]. by apply no_dot_spec in Hd.
Qed.

(** The lock file is a lock file. *)
Definition lock_named : Prop :=
  (exists x, lp = (x ++ ".lock")%string) /\ (exists y, lbase = (y ++ ".lock")%string).

Lemma other_files_at (d n : string) (blk : Z) : lock_named -> other_files (paths_at d n blk).
Proof.
  intros [[x Ex] [y Ey]]. split; [| split].
  - cbn [pt_data paths_at]. rewrite Ex. unfold state_file.
    rewrite <- !string_app_assoc. apply data_not_lock.
  - intros suf Hl Hd. rewrite Ex, <- !string_app_assoc. by apply tmp_not_lock.
  - intros m Hm ->. apply stale_tmp_spec in Hm as (suf & E & Hl & Hd).
    rewrite Ey, chars_app, app_assoc in E. symmetry in E. by apply lock_suffix in E.
Qed.

(** ** Whole calls *)

Section calls.
Context {C : Config} (p : pid) (Hlock : lock_named).
#[local] Instance p_sem' : Sem fs := fs_sem p.

(** The directory a call means: the one asked for, else [$PSMSGR_DIR], else
    /dev/shm. *)
Definition dir_of (dir : option string) : string :=
  match dir with Some d => d | None => default_dir (penv p) end.

Lemma wp_fs_paths_init (dir : option string) (name : string) (en : Z) (s : fs)
    (Q : Z * option paths -> Z -> fs -> Prop) :
  fs_ok s -> match dir with Some d => cstring d | None => True end -> cstring name ->
  (forall en' s', fs_ok s' -> Q (PSMSGR_E_SYS, None) en' s') ->
  (forall b en' s', fs_ok s' -> Q (PSMSGR_OK, Some (paths_at (dir_of dir) name b)) en' s') ->
  wp (paths_init dir name) en s Q.
Proof.
  intros Hok Hd Hn Hbad HQ. unfold paths_init.
  assert (Hk : forall en' s', fs_ok s' -> cstring (dir_of dir) ->
    wp (let* buf := call (Malloc (Z.of_nat (paths_size (dir_of dir) name))) in
    match buf with
    | None => ret (PSMSGR_E_SYS, None)
    | Some b => ret (PSMSGR_OK, paths_fill (dir_of dir) name (paths_size (dir_of dir) name) b)
    end) en' s' Q).
  { intros en' s' Hs' Hcd. apply wp_bind, wp_fs; [done | done |].
    intros [b|] s1 s2 s3 _ _ _ _ _ H3; apply wp_ret; [| by apply Hbad].
    rewrite paths_fill_spec by done. by apply (HQ b). }
  destruct dir as [d|].
  - by apply wp_bind, wp_ret, Hk.
  - apply wp_bind, wp_bind, wp_fs; [done | done |].
    intros env s1 s2 s3 _ _ [[Henv He] ->] _ _ H3. rewrite (Henv eq_refl) in *. apply wp_ret, Hk; [done |].
    cbn [dir_of]. unfold default_dir. destruct (penv p) as [e|]; [| by apply cstring_lit].
    destruct (e =? "")%string; [by apply cstring_lit | done].
Qed.

(** Everything below the paths of another channel. *)
Lemma wp_fs_other {A : Type} (m : prog A) (en : Z) (s : fs) (Q : A -> Z -> fs -> Prop) :
  fs_ok s -> wp (HS := guard_sem None) m en tt (fun _ _ _ => True) ->
  (forall a en' s', fs_ok s' -> Q a en' s') -> wp m en s Q.
Proof.
  intros Hok Hm HQ. eapply wp_guard; [exact Hm | by split |]. intros a en' s' _ [H _]. by apply HQ.
Qed.

(** Under the lock. *)
Lemma wp_fs_locked {A : Type} (m : prog A) (fd en : Z) (s : fs) (P : A -> Prop)
    (Q : A -> Z -> fs -> Prop) :
  fs_ok s -> holds p fd s -> wp (HS := guard_sem (Some fd)) m en tt (fun a _ _ => P a) ->
  (forall a en' s', P a -> fs_ok s' -> holds p fd s' -> Q a en' s') -> wp m en s Q.
Proof.
  intros Hok Hh Hm HQ. eapply wp_guard; [exact Hm | by split |].
  intros a en' s' Ha [H1 H2]. by apply HQ.
Qed.

(** ** Opening a writer *)

Lemma load_options_dir (opt : option psmsgr_state_options) :
  o_dir (snd (load_options opt)) = None \/
  exists o, opt = Some o /\ o_dir (snd (load_options opt)) = o_dir o.
Proof.
  destruct opt as [o|]; [| by left]. unfold load_options.
  destruct (o_struct_size o =? 0); [by left |].
  match goal with |- context [if ?b then _ else _] => destruct b end; cbn [snd o_dir];
    (destruct (opt_has o OOff.dir sizeof_pointer); [right; by exists o | by left]).
Qed.

Lemma wp_g_open_finish (keep : option Z) (pt : paths) (rc en : Z) (w : psmsgr_state_writer) :
  wp (HS := guard_sem keep) (open_finish pt rc w) en tt
    (fun x _ _ => snd x = None \/ snd x = Some w /\ rc = PSMSGR_OK).
Proof.
  unfold open_finish, paths_free. apply wp_bind, wp_g; [done |]. intros [] _.
  destruct (Z.eqb_spec rc PSMSGR_OK) as [->|Hrc]; cbn [negb].
  - apply wp_bind, wp_g; [done |]. intros pid _. unfold plain_store.
    apply wp_bind, wp_g_store_bytes, wp_ret. by right.
  - apply wp_bind, wp_get_errno, wp_bind, wp_g; [done |]. intros [] _.
    apply wp_bind, wp_set_errno, wp_ret. by left.
Qed.

(** The body of [psmsgr_state_writer_open] from the allocation of the handle. *)
Definition open_body (fuel : nat) (o : psmsgr_state_options) (p : paths)
    : prog (Z * option psmsgr_state_writer) :=
  let* b := call (Malloc sizeof_writer) in
  match b with
  | None => paths_free p ;;; ret (PSMSGR_E_SYS, None)
  | Some b =>
      let w := zero_writer b in
      let* (rc, fd) := lock_channel fuel (pt_lock p) (o_mode o) in
      let w := w_set_lock w fd in
      let* (rc, w) :=
        if rc =? PSMSGR_OK then
          remove_stale_tmp fuel p ;;;
          let* (rc, w) := open_data w o p in
          (if negb (rc =? PSMSGR_OK) then close_keep_errno (w_lock_fd w) else ret tt) ;;;
          ret (rc, w)
        else ret (rc, w) in
      open_finish p rc w
  end.

Lemma wp_g_open_body (fuel : nat) (o : psmsgr_state_options) (d n : string) (blk en : Z) :
  wp (HS := guard_sem None) (open_body fuel o (paths_at d n blk)) en tt (fun _ _ _ => True).
Proof.
  pose proof (other_files_at d n blk Hlock) as Hf. unfold open_body.
  apply wp_bind, wp_g; [done |]. intros [b|] _.
  2: { unfold paths_free. apply wp_bind, wp_g; [done |]. intros [] _. by apply wp_ret. }
  cbv zeta. apply wp_bind, wp_g_lock_channel; [done |]. intros [rc fd] en1.
  assert (Hend : forall rc w en', wp (HS := guard_sem None) (open_finish (paths_at d n blk) rc w) en' tt
    (fun _ _ _ => True)) by (intros; eapply wp_mono; [apply wp_g_open_finish | done]).
  apply wp_bind. destruct (rc =? PSMSGR_OK); [| by apply wp_ret].
  apply wp_bind, wp_g_remove_stale_tmp; [done |]. intros en2.
  apply wp_bind, wp_g_open_data; [done |]. intros rc2 w2 en3 _. apply wp_bind.
  destruct (negb _); [apply wp_g_close; [done |] |]; repeat apply wp_ret; apply Hend.
Qed.

(** The same on the channel whose lock file it is. *)
Lemma wp_fs_open_body (fuel : nat) (o : psmsgr_state_options) (d n : string) (blk en : Z) (s : fs) :
  fs_ok s -> pt_lock (paths_at d n blk) = lp ->
  wp (open_body fuel o (paths_at d n blk)) en s
    (fun x _ s' => fs_ok s' /\ forall w, snd x = Some w -> holds p (w_lock_fd w) s').
Proof.
  intros Hok Hlp. pose proof (other_files_at d n blk Hlock) as Hf. unfold open_body.
  assert (Hnone : forall rc w en' s', fs_ok s' -> rc <> PSMSGR_OK ->
    wp (open_finish (paths_at d n blk) rc w) en' s'
      (fun x _ s' => fs_ok s' /\ forall w, snd x = Some w -> holds p (w_lock_fd w) s')).
  { intros rc w en' s' Hs' Hrc. eapply wp_guard; [apply (wp_g_open_finish None) | by split |].
    intros x en2 s2 Hx [H2 _]. split; [done |]. intros w' Hw'. destruct Hx as [Hx | [_ Hx]]; congruence. }
  apply wp_bind, wp_fs; [done | done |]. intros [b|] s1 s2 s3 _ _ _ _ _ H3.
  2: { unfold paths_free. apply wp_bind, wp_fs; [done | done |]. intros [] a c s4 _ _ _ _ _ H4.
       by apply wp_ret. }
  cbv zeta. rewrite Hlp. apply wp_bind, wp_fs_lock_channel; [done |]. intros rc fd en1 s4 H4 Hh.
  apply wp_bind. destruct (Z.eqb_spec rc PSMSGR_OK) as [->|Hrc]; [| by apply wp_ret, Hnone].
  specialize (Hh eq_refl).
  apply wp_bind, (wp_fs_locked (remove_stale_tmp fuel (paths_at d n blk)) fd en1 s4 (fun _ => True));
    [done | done | by apply wp_g_remove_stale_tmp |].
  intros [] en2 s5 _ H5 Hh5. apply wp_bind,
    (wp_fs_locked (open_data (w_set_lock (zero_writer b) fd) o (paths_at d n blk)) fd en2 s5
       (fun x => w_lock_fd (snd x) = fd)); [done | done | by apply wp_g_open_data |].
  intros [rc2 w2] en3 s6 Hw H6 Hh6. cbn [snd] in Hw. apply wp_bind.
  destruct (Z.eqb_spec rc2 PSMSGR_OK) as [->|Hrc]; cbn [negb].
  - apply wp_ret, wp_ret. eapply wp_guard; [apply (wp_g_open_finish (Some fd)) | by split |].
    intros x en4 s7 Hx [H7 Hh7]. split; [done |]. intros w Hwx.
    destruct Hx as [Hx | [Hx _]]; [congruence |]. rewrite Hx in Hwx. injection Hwx as <-. by rewrite Hw.
  - apply wp_fs_close; [done |]. intros s7 H7. by apply wp_ret, Hnone.
Qed.

Lemma wp_fs_writer_open (fuel : nat) (name : option string) (opt : option psmsgr_state_options)
    (out_null : bool) (en : Z) (s : fs) :
  fs_ok s -> match opt with Some o => match o_dir o with Some d => cstring d | None => True end
             | None => True end ->
  wp (psmsgr_state_writer_open fuel name opt out_null) en s
    (fun x _ s' => fs_ok s' /\
       forall w n, snd x = Some w -> name = Some n ->
         (dir_of (o_dir (snd (load_options opt))) ++ "/" ++ lock_file n)%string = lp ->
         holds p (w_lock_fd w) s').
Proof.
  intros Hok Hd. unfold psmsgr_state_writer_open. destruct out_null; [by apply wp_ret |].
  assert (Hdir : match o_dir (snd (load_options opt)) with Some d => cstring d | None => True end).
  { destruct (load_options_dir opt) as [->|(o & -> & ->)]; done. }
  destruct (load_options opt) as [rc o]. cbn [snd] in *.
  destruct (negb (rc =? PSMSGR_OK)); [by apply wp_ret |].
  destruct (name_valid name) eqn:En; cbn [negb]; [| by apply wp_ret].
  destruct name as [n|]; [| done]. change (default "" (Some n))%string with n.
  apply wp_bind, wp_fs_paths_init; [done | done | by apply name_valid_cstring | by intros; apply wp_ret |].
  intros b en1 s1 H1. set (d := dir_of (o_dir o)).
  change (wp (open_body fuel o (paths_at d n b)) en1 s1
    (fun x _ s' => fs_ok s' /\
       forall w n0, snd x = Some w -> Some n = Some n0 ->
         (d ++ "/" ++ lock_file n0)%string = lp -> holds p (w_lock_fd w) s')).
  destruct (decide (pt_lock (paths_at d n b) = lp)) as [E|E].
  - eapply wp_mono; [by apply wp_fs_open_body |]. intros x en2 s2 [H2 Hw]. split; [done |].
    intros w n' Hx _ _. by apply Hw.
  - apply wp_fs_other; [done | apply wp_g_open_body |]. intros x en2 s2 H2. split; [done |].
    intros w n' _ [= <-] Hl. by destruct E.
Qed.

(** ** Deleting a channel *)

Lemma wp_g_unlink_open (keep : option Z) (pt : paths) (fd en : Z) (Q : Z -> Z -> unit -> Prop) :
  keep <> Some fd -> pt_data pt <> lp -> (forall rc en', Q rc en' tt) ->
  wp (HS := guard_sem keep) (unlink_open pt fd) en tt Q.
Proof.
  intros Hf Hd HQ. unfold unlink_open. apply wp_bind, wp_g_read_header. intros [hrc sh] en1.
  apply wp_bind.
  assert (Hk : forall old en', wp (HS := guard_sem keep) (let* _ := call (SysClose fd) in
      let* u := call (SysUnlink (pt_data pt)) in
      let* rc := match u with
                 | inl _ => ret PSMSGR_OK
                 | inr _ => let* e := get_errno in
                            ret (if negb (e =? ENOENT) then PSMSGR_E_SYS else PSMSGR_E_NODATA)
                 end in
      (match old with
       | Some q =>
           (if rc =? PSMSGR_OK then retire q else ret tt) ;;;
           let* _ := call (SysMunmap (p_blk q) PSMI_HEADER_SIZE) in
           ret tt
       | None => ret tt
       end) ;;;
      ret rc) en' tt Q).
  { intros old en'. apply wp_bind, wp_g; [done |]. intros x _. apply wp_bind, wp_g; [done |].
    assert (Hr : forall rc en2, wp (HS := guard_sem keep) ((match old with
       | Some q =>
           (if rc =? PSMSGR_OK then retire q else ret tt) ;;;
           let* _ := call (SysMunmap (p_blk q) PSMI_HEADER_SIZE) in
           ret tt
       | None => ret tt
       end) ;;; ret rc) en2 tt Q).
    { intros rc en2. apply wp_bind. destruct old as [q|]; [| by apply wp_ret, wp_ret].
      apply wp_bind. destruct (rc =? PSMSGR_OK);
        [apply wp_g_retire; intros en3 | apply wp_ret];
        (apply wp_bind, wp_g; [done |]; intros y _; apply wp_ret, wp_ret, HQ). }
    intros [[]|e] _; apply wp_bind; [by apply wp_ret | by apply wp_bind, wp_get_errno, wp_ret]. }
  match goal with |- wp (if ?b then _ else _) _ _ _ => destruct b end;
    [| apply wp_ret, (Hk None)].
  apply wp_bind, wp_g; [done |]. intros [b|e] _; apply wp_ret;
    [apply (Hk (Some {| p_blk := b; p_off := 0 |})) | apply (Hk None)].
Qed.

(** What [psmsgr_state_unlink] does with the data file. *)
Definition unlink_data (pt : paths) (fd : Z + Z) : prog Z :=
  match fd with
  | inl fd => unlink_open pt fd
  | inr _ =>
      let* e := get_errno in
      ret (if negb (e =? ENOENT) then PSMSGR_E_SYS else PSMSGR_E_NODATA)
  end.

Lemma wp_g_unlink_data (keep : option Z) (pt : paths) (fd : Z + Z) (en : Z)
    (Q : Z -> Z -> unit -> Prop) :
  other_files pt -> match fd with inl fd => keep <> Some fd | inr _ => True end ->
  (forall rc en', Q rc en' tt) ->
  wp (HS := guard_sem keep) (unlink_data pt fd) en tt Q.
Proof.
  intros Hf Hfd HQ. destruct fd as [fd|e]; cbn [unlink_data].
  - apply wp_g_unlink_open; [done | apply Hf | done].
  - by apply wp_bind, wp_get_errno, wp_ret.
Qed.

Lemma wp_fs_unlink_finish (pt : paths) (fd rc en : Z) (s : fs) :
  fs_ok s -> holds p fd s -> wp (unlink_finish pt fd rc) en s (fun _ _ s' => fs_ok s').
Proof.
  intros Hok Hh. unfold unlink_finish. apply wp_bind.
  assert (Hend : forall (rc : Z) en' s', fs_ok s' ->
    wp (close_keep_errno fd ;;; paths_free pt ;;; ret rc) en' s' (fun _ _ s' => fs_ok s')).
  { intros rc' en' s' Hs'. apply wp_bind, wp_fs_close; [done |]. intros s2 H2.
    apply wp_bind, wp_fs; [done | done |]. intros [] a b s3 _ _ _ _ _ H3. by apply wp_ret. }
  destruct (negb _); [| by apply wp_ret, Hend].
  apply wp_bind, wp_fs; [done | |].
  - intros s1 _ Ho _. exists fd. by eapply others_holds.
  - intros [[]|e] a b s3 _ _ _ _ _ H3; [by apply wp_ret, Hend |].
    by apply wp_bind, wp_get_errno, wp_ret, Hend.
Qed.

(** [psmsgr_state_unlink] from its paths on. *)
Definition unlink_body (fuel : nat) (pt : paths) : prog Z :=
  let* (rc, fd) := lock_channel fuel (pt_lock pt) 0x180 in
  if negb (rc =? PSMSGR_OK) then paths_free pt ;;; ret rc
  else
    remove_stale_tmp fuel pt ;;;
    let* dfd := call (SysOpen (pt_data pt) rdwr_open_flags 0) in
    let* rc := unlink_data pt dfd in
    unlink_finish pt fd rc.

Lemma wp_g_unlink_body (fuel : nat) (pt : paths) (en : Z) :
  other_files pt -> pt_lock pt <> lp ->
  wp (HS := guard_sem None) (unlink_body fuel pt) en tt (fun _ _ _ => True).
Proof.
  intros Hf El. unfold unlink_body.
  assert (Hfree : forall (rc en' : Z), wp (HS := guard_sem None) (paths_free pt ;;; ret rc) en' tt (fun _ _ _ => True)).
  { intros rc en'. unfold paths_free. apply wp_bind, wp_g; [done |]. intros [] _. by apply wp_ret. }
  apply wp_bind, wp_g_lock_channel; [done |]. intros [rc fd] en2.
  destruct (negb _); [apply Hfree |].
  apply wp_bind, wp_g_remove_stale_tmp; [done |]. intros en3.
  apply wp_bind, wp_g; [intros _; apply Hf |]. intros dfd Hdfd.
  apply wp_bind, wp_g_unlink_data; [done | by destruct dfd |]. intros rc2 en4.
  unfold unlink_finish. apply wp_bind.
  assert (Hend : forall (rc en' : Z), wp (HS := guard_sem None)
    (close_keep_errno fd ;;; paths_free pt ;;; ret rc) en' tt (fun _ _ _ => True)).
  { intros rc' en'. apply wp_bind, wp_g_close; [done | apply Hfree]. }
  destruct (negb _); [| apply wp_ret, Hend].
  apply wp_bind, wp_g; [exact El |]. intros [[]|e] _; [apply wp_ret, Hend |].
  apply wp_bind, wp_get_errno, wp_ret, Hend.
Qed.

Lemma wp_fs_unlink_body (fuel : nat) (pt : paths) (en : Z) (s : fs) :
  other_files pt -> fs_ok s -> wp (unlink_body fuel pt) en s (fun _ _ s' => fs_ok s').
Proof.
  intros Hf Hok. destruct (decide (pt_lock pt = lp)) as [El|El];
    [| by apply wp_fs_other; [done | apply wp_g_unlink_body |]].
  unfold unlink_body. rewrite El. apply wp_bind, wp_fs_lock_channel; [done |]. intros rc fd en2 s2 H2 Hh.
  destruct (Z.eqb_spec rc PSMSGR_OK) as [->|_]; cbn [negb].
  - specialize (Hh eq_refl).
    apply wp_bind, (wp_fs_locked (remove_stale_tmp fuel pt) fd en2 s2 (fun _ => True));
      [done | done | by apply wp_g_remove_stale_tmp |]. intros [] en3 s3 _ H3 Hh3.
    apply wp_bind, (wp_fs_locked (call (SysOpen (pt_data pt) rdwr_open_flags 0)) fd en3 s3
      (fun x => match x with inl f => Some fd <> Some f | inr _ => True end));
      [done | done | by apply wp_g; [intros _; apply Hf | intros r Hr] |]. intros dfd en4 s4 Hd H4 Hh4.
    apply wp_bind, (wp_fs_locked (unlink_data pt dfd) fd en4 s4 (fun _ => True));
      [done | done | by apply wp_g_unlink_data |]. intros rc en5 s5 _ H5 Hh5.
    by apply wp_fs_unlink_finish.
  - unfold paths_free. apply wp_bind, wp_fs; [done | done |]. intros [] a c s3 _ _ _ _ _ H3.
    by apply wp_ret.
Qed.

Lemma wp_fs_unlink (fuel : nat) (name dir : option string) (en : Z) (s : fs) :
  fs_ok s -> match dir with Some d => cstring d | None => True end ->
  wp (psmsgr_state_unlink fuel name dir) en s (fun _ _ s' => fs_ok s').
Proof.
  intros Hok Hd. unfold psmsgr_state_unlink.
  destruct (negb (name_valid name) || bad_dir dir) eqn:E; [by apply wp_ret |].
  apply orb_false_iff in E as [E _]. apply negb_false_iff in E. destruct name as [n|]; [| done].
  change (default "" (Some n))%string with n.
  apply wp_bind, wp_fs_paths_init; [done | done | by apply name_valid_cstring | by intros; apply wp_ret |].
  intros b en1 s1 H1. pose proof (other_files_at (dir_of dir) n b Hlock) as Hf.
  exact (wp_fs_unlink_body fuel _ en1 s1 Hf H1).
Qed.

(** ** Properties *)

(** The holder keeps the lock whatever the others do, and is the only one. *)
Definition sole_holder (fd : Z) (s : fs) : Prop :=
  forall s', others p s s' ->
    holds p fd s' /\ forall q fd', holds q fd' s' -> q = p /\ fd' = fd.

Lemma holds_sole (fd : Z) (s : fs) : fs_ok s -> holds p fd s -> sole_holder fd s.
Proof.
  intros Hok Hh s' Ho. pose proof (others_holds p fd s s' Ho Hok Hh) as Hh'.
  split; [done |]. intros q fd' Hq. by apply (holds_unique p q fd fd' s').
Qed.

(** C7. Mutual exclusion.  When [lock_channel] returns OK, the calling
    process holds the lock of the very file the path names, it goes on holding
    it whatever other processes do - open, lock, unlink and recreate the lock
    file in any order and interleaving - and no other process holds the
    channel's lock in the meantime. *)
Theorem lock_channel_exclusive (fuel : nat) (mode en : Z) (s : fs) :
  fs_ok s ->
  wp (lock_channel fuel lp mode) en s
    (fun '(rc, fd) _ s' => rc = PSMSGR_OK -> sole_holder fd s').
Proof.
  intros Hok. apply wp_fs_lock_channel; [done |]. intros rc fd en' s' Hs' Hh Hrc.
  apply holds_sole; [done | by apply Hh].
Qed.

(** C16. One writer per channel.  A writer that [psmsgr_state_writer_open]
    returns for a channel - in the directory of the options, or without one
    (or without options) in [$PSMSGR_DIR], or if that is not set or empty in
    /dev/shm - is the sole holder of the channel's lock from then on, until it
    closes it. *)
Theorem writer_open_exclusive (fuel : nat) (n : string) (opt : option psmsgr_state_options)
    (out_null : bool) (en : Z) (s : fs) :
  fs_ok s ->
  (dir_of (o_dir (snd (load_options opt))) ++ "/" ++ lock_file n)%string = lp ->
  match opt with Some o => match o_dir o with Some d => cstring d | None => True end
             | None => True end ->
  wp (psmsgr_state_writer_open fuel (Some n) opt out_null) en s
    (fun '(_, h) _ s' => forall w, h = Some w -> sole_holder (w_lock_fd w) s').
Proof.
  intros Hok Hlp Hc. eapply wp_mono; [by apply wp_fs_writer_open |].
  intros [rc h] en' s' [Hs' Hw] w ->. apply holds_sole; [done |]. by apply (Hw w n).
Qed.

(** C17. The rules every process relies on are kept by the library itself:
    at every step of [psmsgr_state_unlink] and [psmsgr_state_writer_open] of
    any channel, whatever the others did before it, the lock file is only
    unlinked by the process that holds its lock, and no rename, temporary
    file or clean-up touches it. *)
Theorem lock_rules_kept (fuel : nat) (name dir : option string) (opt : option psmsgr_state_options)
    (out_null : bool) (en : Z) (s : fs) :
  fs_ok s -> match dir with Some d => cstring d | None => True end ->
  match opt with Some o => match o_dir o with Some d => cstring d | None => True end
             | None => True end ->
  (forall tr e k s1 s2, steps (psmsgr_state_unlink fuel name dir en) s tr (Vis e k) s1 ->
     others p s1 s2 -> fs_pre p e s2) /\
  (forall tr e k s1 s2,
     steps (psmsgr_state_writer_open fuel name opt out_null en) s tr (Vis e k) s1 ->
     others p s1 s2 -> fs_pre p e s2).
Proof.
  intros Hok Hd Ho. split; intros tr e k s1 s2 Hs Hs2.
  - exact (wp_safe _ _ _ _ (wp_fs_unlink fuel name dir en s Hok Hd) tr e k s1 Hs s2 Hs2).
  - exact (wp_safe _ _ _ _ (wp_fs_writer_open fuel name opt out_null en s Hok Ho) tr e k s1 Hs s2 Hs2).
Qed.
End calls.
End locking.

(** ** Witnesses *)

Definition no_files : fs := {| fs_lockfile := None; fs_fds := ∅; fs_locks := ∅ |}.

Lemma no_files_ok : fs_ok no_files.
Proof. intros i x H. cbn in H. by rewrite lookup_empty in H. Qed.

Definition example_lock : string := "/dev/shm/psmsgr.motor.lock".

Lemma example_lock_named : lock_named example_lock "psmsgr.motor.lock".
Proof. split; [by exists "/dev/shm/psmsgr.motor"%string | by exists "psmsgr.motor"%string]. Qed.

(** The channel named by the options' directory, and the one a process with
    $PSMSGR_DIR set to /run opens without options. *)
Definition run_env (p : pid) : option string := Some "/run"%string.
Definition run_lock : string := "/run/psmsgr.motor.lock".

Lemma run_lock_named : lock_named run_lock "psmsgr.motor.lock".
Proof. split; [by exists "/run/psmsgr.motor"%string | by exists "psmsgr.motor"%string]. Qed.

Definition no_env (p : pid) : option string := None.

Definition shm_options : psmsgr_state_options := {|
  o_struct_size := 32; o_capacity := 64; o_slot_count := 3; o_payload_type := 0; o_mode := 420;
  o_flags := 0; o_dir := Some "/dev/shm"%string |}.

Lemma lock_channel_exclusive_witness :
  wp (HS := fs_sem example_lock "psmsgr.motor.lock" no_env 1)
    (lock_channel (C := config64) 10 example_lock 420) 0 no_files
    (fun '(rc, fd) _ s' => rc = PSMSGR_OK -> sole_holder example_lock "psmsgr.motor.lock" no_env 1 fd s').
Proof. apply (lock_channel_exclusive _ _ _ (C := config64)). apply no_files_ok. Defined.

Lemma writer_open_exclusive_witness :
  wp (HS := fs_sem example_lock "psmsgr.motor.lock" no_env 1)
    (psmsgr_state_writer_open (C := config64) 10 (Some "motor"%string) (Some shm_options) false) 0
    no_files
    (fun '(_, h) _ s' => forall w, h = Some w ->
       sole_holder example_lock "psmsgr.motor.lock" no_env 1 (w_lock_fd w) s') /\
  wp (HS := fs_sem run_lock "psmsgr.motor.lock" run_env 1)
    (psmsgr_state_writer_open (C := config64) 10 (Some "motor"%string) None false) 0 no_files
    (fun '(_, h) _ s' => forall w, h = Some w ->
       sole_holder run_lock "psmsgr.motor.lock" run_env 1 (w_lock_fd w) s').
Proof.
  split.
  - apply (writer_open_exclusive _ _ _ (C := config64) 1 example_lock_named 10 "motor");
      [apply no_files_ok | reflexivity | by apply cstring_lit].
  - apply (writer_open_exclusive _ _ _ (C := config64) 1 run_lock_named 10 "motor");
      [apply no_files_ok | reflexivity | done].
Defined.

Lemma lock_rules_kept_witness :
  (forall tr e k s1 s2,
    steps (H := fs_sem example_lock "psmsgr.motor.lock" no_env 1)
      (psmsgr_state_unlink (C := config64) 10 (Some "motor"%string) (Some "/dev/shm"%string) 0)
      no_files tr (Vis e k) s1 ->
    others example_lock "psmsgr.motor.lock" no_env 1 s1 s2 ->
    fs_pre example_lock "psmsgr.motor.lock" 1 e s2) /\
  (forall tr e k s1 s2,
    steps (H := fs_sem example_lock "psmsgr.motor.lock" no_env 1)
      (psmsgr_state_writer_open (C := config64) 10 (Some "motor"%string) None false 0)
      no_files tr (Vis e k) s1 ->
    others example_lock "psmsgr.motor.lock" no_env 1 s1 s2 ->
    fs_pre example_lock "psmsgr.motor.lock" 1 e s2).
Proof.
  apply (lock_rules_kept _ _ _ (C := config64) 1 example_lock_named 10 (Some "motor"%string)
    (Some "/dev/shm"%string) None false 0 no_files);
    [apply no_files_ok | by apply cstring_lit | done].
Defined.
