(* ===== verification/Text.v ===== *)
(** * Formatted output

    The conversions of printf that tools/psmsgr-dump.c uses: decimal and
    hexadecimal integers, padding, and "%.1f" and "%.3f" of a quotient of
    doubles, computed in IEEE 754 binary64 with the result rounded as printf
    rounds it. *)
From S2P Require Import Prelude Common Names.
From Stdlib Require Import Ascii.
From Stdlib.Floats Require Import SpecFloat.
#[local] Open Scope list_scope.
#[local] Open Scope Z_scope.

Definition of_chars (l : list ascii) : string := String.string_of_list_ascii l.

(** ** Integers *)

Definition digit (d : Z) : ascii := ascii_of_N (Z.to_N (if d <? 10 then 48 + d else 87 + d)).

(** The digits of [n], at most [fuel] of them. *)
Fixpoint digits (fuel : nat) (base n : Z) (acc : list ascii) : list ascii :=
  match fuel with
  | O => acc
  | S fuel => let acc := digit (n mod base) :: acc in
              if n / base =? 0 then acc else digits fuel base (n / base) acc
  end.

(** [%u] and the like: 20 digits hold every 64-bit value. *)
Definition dec (n : Z) : string := of_chars (digits 20 10 n []).

(** [%0<w>x] and [%0<w>u]. *)
Definition pad_left (w : nat) (c : ascii) (l : list ascii) : list ascii :=
  replicate (w - length l) c ++ l.
Definition hex (w : nat) (n : Z) : string := of_chars (pad_left w "0" (digits 16 16 n [])).
Definition dec0 (w : nat) (n : Z) : string := of_chars (pad_left w "0" (digits 20 10 n [])).

(** [%-<w>s] of a string. *)
Definition left_justify (w : nat) (s : string) : string :=
  (s ++ of_chars (replicate (w - String.length s) " "%char))%string.

(** [%<w>s]. *)
Definition right_justify (w : nat) (s : string) : string :=
  (of_chars (replicate (w - String.length s) " "%char) ++ s)%string.

(** The character [c], and a string of one. *)
Definition char_str (c : ascii) : string := String c EmptyString.
Definition QUOTE : ascii := ascii_of_nat 34.
Definition NL : ascii := ascii_of_nat 10.
Definition ESC : ascii := ascii_of_nat 27.

(** ** Doubles *)

(** [(double)n] of an unsigned integer, and a double's exact quotient rounded
    to a double. *)
Definition double_of (n : Z) : spec_float := binary_normalize 53 1024 n 0 false.
Definition double_mul (x y : spec_float) : spec_float := SFmul 53 1024 x y.
Definition double_div (x y : spec_float) : spec_float := SFdiv 53 1024 x y.

(** [(uint64_t)x] of a nonnegative double below 2^64. *)
Definition double_trunc (x : spec_float) : Z :=
  match x with
  | S754_finite false m e => if 0 <=? e then Zpos m * 2 ^ e else Zpos m / 2 ^ (- e)
  | _ => 0
  end.

(** [n / d] rounded to the nearest integer, ties to even. *)
Definition round_half_even (n d : Z) : Z :=
  let q := n / d in
  let r := n mod d in
  if 2 * r <? d then q else if d <? 2 * r then q + 1 else if Z.even q then q else q + 1.

(** [%.<k>f] of a nonnegative finite double. *)
Definition fixed (k : nat) (x : spec_float) : string :=
  let scale := 10 ^ Z.of_nat k in
  let n := match x with
           | S754_finite _ m e =>
               if 0 <=? e then Zpos m * 2 ^ e * scale
               else round_half_even (Zpos m * scale) (2 ^ (- e))
           | _ => 0
           end in
  let whole := of_chars (digits 309 10 (n / scale) []) in
  match k with
  | O => whole
  | _ => (whole ++ "." ++ dec0 k (n mod scale))%string
  end.

(** ** Floats *)

(** A binary32 from its bits, and back. *)
Definition float_of_bits (b : Z) : spec_float :=
  let s := Z.testbit b 31 in
  let e := b / 8388608 mod 256 in
  let m := b mod 8388608 in
  if e =? 255 then if m =? 0 then S754_infinity s else S754_nan
  else if e =? 0 then match m with Zpos p => S754_finite s p (-149) | _ => S754_zero s end
  else match m + 8388608 with Zpos p => S754_finite s p (e - 150) | _ => S754_nan end.

Definition bits_of_float (x : spec_float) : Z :=
  let sign (s : bool) := if s then 2147483648 else 0 in
  match x with
  | S754_zero s => sign s
  | S754_infinity s => sign s + 255 * 8388608
  | S754_nan => 2143289344
  | S754_finite s m e =>
      sign s + (if Zpos m <? 8388608 then Zpos m else (e + 150) * 8388608 + (Zpos m - 8388608))
  end.

(** [(float)n] of an unsigned integer, and the operations. *)
Definition float_of (n : Z) : spec_float := binary_normalize 24 128 n 0 false.
Definition float_add (x y : spec_float) : spec_float := SFadd 24 128 x y.
Definition float_mul (x y : spec_float) : spec_float := SFmul 24 128 x y.
Definition float_div (x y : spec_float) : spec_float := SFdiv 24 128 x y.

(** [%.<k>f] of the float with the bits [b]: the conversion to double that the
    call makes is exact. *)
Definition printf_float (k : nat) (b : Z) : string :=
  ((if Z.testbit b 31 then "-" else "") ++
   match float_of_bits b with
   | S754_nan => "nan"
   | S754_infinity _ => "inf"
   | x => fixed k x
   end)%string.

(** ** Numbers in strings *)

Definition is_space (c : ascii) : bool :=
  let n := Z.of_N (N_of_ascii c) in (n =? 32) || ((9 <=? n) && (n <=? 13)).
Definition is_digit (c : ascii) : bool :=
  let n := Z.of_N (N_of_ascii c) in (48 <=? n) && (n <=? 57).

(** The value of a hexadecimal or decimal digit. *)
Definition digit_val (c : ascii) : Z :=
  let n := Z.of_N (N_of_ascii c) in if n <? 58 then n - 48 else n - 87.

Fixpoint skip_spaces (l : list ascii) : list ascii :=
  match l with
  | c :: l' => if is_space c then skip_spaces l' else l
  | [] => []
  end.

(** The digits at the head, as a number, and the rest. *)
Fixpoint scan_digits (acc : Z) (l : list ascii) : Z * list ascii :=
  match l with
  | c :: l' => if is_digit c then scan_digits (acc * 10 + digit_val c) l' else (acc, l)
  | [] => (acc, [])
  end.

(** What strtol and its like read in base 10: spaces, a sign, digits.  The
    sign, the number and what is left; [None] without digits. *)
Definition scan_number (l : list ascii) : option (bool * Z * list ascii) :=
  let l1 := skip_spaces l in
  let '(neg, l2) := match l1 with
                    | c :: l' => if (c =? "-")%char then (true, l')
                                 else if (c =? "+")%char then (false, l') else (false, l1)
                    | [] => (false, l1)
                    end in
  match l2 with
  | c :: _ => if is_digit c then let (v, rest) := scan_digits 0 l2 in Some (neg, v, rest) else None
  | [] => None
  end.

(** [strtoul(s, &end, 10)] where the type holds up to [top]: the value, what
    [end] points to, and whether [errno] was set; without digits, [end] is
    [s]. *)
Definition strtou (top : Z) (l : list ascii) : Z * list ascii * bool :=
  match scan_number l with
  | Some (neg, v, rest) =>
      if top <? v then (top, rest, true)
      else ((if neg : bool then (- v) mod (top + 1) else v), rest, false)
  | None => (0, l, false)
  end.

(** [strtol] where the type holds -[top] - 1 to [top]. *)
Definition strtos (top : Z) (l : list ascii) : Z * list ascii * bool :=
  match scan_number l with
  | Some (neg, v, rest) =>
      let v := if neg : bool then - v else v in
      if v <? - top - 1 then (- top - 1, rest, true)
      else if top <? v then (top, rest, true) else (v, rest, false)
  | None => (0, l, false)
  end.

(** ** Lemmas *)

Lemma digits_acc (fuel : nat) (base n : Z) (acc : list ascii) :
  digits fuel base n acc = digits fuel base n [] ++ acc.
Proof.
  revert n acc. induction fuel as [|fuel IH]; intros n acc; [done |]. cbn [digits].
  destruct (n / base =? 0); [done |].
  rewrite IH, (IH _ [_]), <- app_assoc. done.
Qed.

Definition digits_val (base : Z) (l : list ascii) : Z :=
  foldl (fun a c => a * base + digit_val c) 0 l.

Lemma digit_val_digit (d : Z) : 0 <= d < 16 -> digit_val (digit d) = d.
Proof.
  intros H. assert (Hd : d ∈ seqZ 0 16) by (apply elem_of_seqZ; lia). revert d Hd H.
  apply (Forall_forall (fun d => 0 <= d < 16 -> digit_val (digit d) = d)).
  repeat constructor.
Qed.

Lemma digits_val_app (base : Z) (l : list ascii) (c : ascii) :
  digits_val base (l ++ [c]) = digits_val base l * base + digit_val c.
Proof. unfold digits_val. by rewrite foldl_snoc. Qed.

(** Printing a number loses nothing. *)
Lemma digits_spec (fuel : nat) (base n : Z) :
  2 <= base <= 16 -> 0 <= n < base ^ Z.of_nat fuel -> digits_val base (digits fuel base n []) = n.
Proof.
  intros Hb. revert n. induction fuel as [|fuel IH]; intros n Hn; [cbn in *; lia |].
  cbn [digits]. pose proof (Z.mod_pos_bound n base ltac:(lia)) as Hm.
  pose proof (Z.div_mod n base ltac:(lia)) as E.
  destruct (Z.eqb_spec (n / base) 0) as [E0|_].
  - unfold digits_val. cbn [foldl]. rewrite digit_val_digit by lia. lia.
  - rewrite digits_acc, digits_val_app, digit_val_digit by lia. rewrite IH; [lia |].
    split; [apply Z.div_pos; lia |]. apply Z.div_lt_upper_bound; [lia |].
    rewrite Nat2Z.inj_succ, Z.pow_succ_r in Hn by lia. lia.
Qed.

Lemma length_digits_le (fuel : nat) (base n : Z) : (length (digits fuel base n []) <= fuel)%nat.
Proof.
  revert n. induction fuel as [|fuel IH]; intros n; [done |]. cbn [digits].
  destruct (_ =? _); [simpl; lia |]. rewrite digits_acc, length_app. simpl.
  specialize (IH (n / base)). lia.
Qed.

Lemma chars_of_chars (l : list ascii) : chars (of_chars l) = l.
Proof. apply String.list_ascii_of_string_of_list_ascii. Qed.
