(* ===== verification/Dump.v ===== *)
(** * The inspection tool (src/tools/psmsgr-dump.c)

    What psmsgr-dump prints: the header, the slots and [latest] from a raw
    view of the file, the liveness and the value through the public API. *)
From S2P Require Import Prelude Prog Common Layout Names Options Writer Reader Text.
From Stdlib Require Import Ascii.
#[local] Open Scope string_scope.
#[local] Open Scope list_scope.
#[local] Open Scope Z_scope.

Definition EXIT_INVALID : Z := 1.
Definition EXIT_USAGE : Z := 2.
Definition HEX_MAX : Z := 1024.
Definition BUSY_RETRIES : nat := 16.
Definition WATCH_TIMEOUT_MS : Z := 1000.
Definition WATCH_POLL_MS : Z := 100.

Definition usage_text : string :=
  ("usage: psmsgr-dump <name> [--dir D] [--watch] [--hex]

Prints a state channel's header, its slots, writer liveness and the latest
value.

  --dir D   channel directory (default: $PSMSGR_DIR, else /dev/shm)
  --watch   redraw whenever the channel changes; Ctrl-C to stop. A missing
            or invalid channel is shown and watched, not an error.
  --hex     hexdump the latest payload (at most 1024 bytes)
  -h, --help

The header and slot fields are a raw snapshot of the file and may be torn
while a writer is active. Only the " ++ char_str QUOTE ++ "value" ++ char_str QUOTE ++ " line and the hexdump are
consistent: they are read through the library, like any reader.

Exit status: 0 ok, 1 channel missing or invalid, 2 usage error.
")%string.

(** Home and clear, for a terminal. *)
Definition clear_screen : string :=
  (char_str ESC ++ "[H" ++ char_str ESC ++ "[2J")%string.

(** What goes to the two streams, line by line, without the newline.
    [Undefined] stands for a line that depends on memory nobody wrote: the use
    of it is undefined in C. *)
Inductive out := Line (s : string) | Error (s : string) | Undefined.

(** Printing it. Undefined behaviour is an access of no mapping. *)
Definition emit1 (o : out) : prog unit :=
  match o with
  | Line s => call (Print false (s ++ char_str NL)%string)
  | Error s => call (Print true ("psmsgr-dump: " ++ s ++ char_str NL)%string)
  | Undefined => call (Load8 NULL_PTR) ;;; ret tt
  end.

Fixpoint emit (l : list out) : prog unit :=
  match l with
  | [] => ret tt
  | o :: l => emit1 o ;;; emit l
  end.

(** ** Formatting *)

Definition fmt_duration (ns : Z) : string :=
  if ns <? 1000 then (dec ns ++ " ns")%string
  else if ns <? 1000000 then (fixed 1 (double_div (double_of ns) (double_of 1000)) ++ " us")%string
  else if ns <? 1000000000
  then (fixed 1 (double_div (double_of ns) (double_of 1000000)) ++ " ms")%string
  else (fixed 3 (double_div (double_of ns) (double_of 1000000000)) ++ " s")%string.

(** Age of a CLOCK_MONOTONIC timestamp, or "?" for one in the future (torn). *)
Definition fmt_age (timestamp_ns now : Z) : string :=
  if now <? timestamp_ns then "?" else fmt_duration (now - timestamp_ns).

(** One row of the hexdump: [bs] are its at most 16 bytes. *)
Definition hex_cell (row : list Z) (i : nat) : string :=
  ((if (i =? 8)%nat then " " else "") ++
   match row !! i with Some b => " " ++ hex 2 b | None => "   " end)%string.

Definition printable (b : Z) : ascii :=
  if (0x20 <=? b) && (b <? 0x7f) then ascii_of_N (Z.to_N b) else "."%char.

Definition hex_row (off : Z) (row : list Z) : string :=
  ("  " ++ hex 8 off ++ " " ++ String.concat "" (hex_cell row <$> seq 0 16) ++
   "  |" ++ of_chars (printable <$> row) ++ "|")%string.

(** The rows from offset [off] on; [fuel] bounds their number. *)
Fixpoint hexdump_from (fuel : nat) (off : Z) (p : list Z) : list string :=
  match fuel, p with
  | O, _ | _, [] => []
  | S fuel, _ => hex_row off (take 16 p) :: hexdump_from fuel (off + 16) (drop 16 p)
  end.

(** [hexdump p len], reading the first [len] bytes of the object [p]. *)
Definition hexdump (p : list Z) (len : Z) : list out :=
  if Z.of_nat (length p) <? len then [Undefined]
  else Line <$> hexdump_from (Z.to_nat len) 0 (take (Z.to_nat len) p).

(** ** The raw view *)

(** The checks of a reader's attach; [None] if the header is valid. *)
Definition header_problem (h : psmi_header) (file_bytes : Z) : option string :=
  if negb (h_magic h =? PSMI_MAGIC) then Some "bad magic"
  else if negb (h_version_major h =? PSMI_VERSION_MAJOR) then Some "unsupported major version"
  else if negb (h_header_size h =? PSMI_HEADER_SIZE) then Some "bad header_size"
  else if negb (h_slot_header_size h =? PSMI_SLOT_HEADER_SIZE) then Some "bad slot_header_size"
  else if (h_slot_count h <? PSMI_MIN_SLOTS) || (PSMI_MAX_SLOTS <? h_slot_count h)
  then Some "slot_count out of range"
  else if PSMSGR_STATE_MAX_CAPACITY <? h_capacity h then Some "capacity out of range"
  else if negb (h_slot_stride h =? psmi_slot_stride (h_capacity h))
  then Some "slot_stride does not match capacity"
  else if file_bytes <? psmi_file_size (h_slot_count h) (h_slot_stride h)
  then Some "file shorter than its slots"
  else None.

Section dump.
Context {C : Config}.
(** [localtime_r] and [strftime] with "%Y-%m-%d %H:%M:%S" and with "%z", in
    the zone of the environment: [None] if the conversion fails. *)
Context (strftime_date : Z -> option string) (strftime_zone : Z -> string).
(** [strerror]. *)
Context (strerror : Z -> string).

Definition fmt_realtime (ns : Z) : string :=
  let secs := ns / 1000000000 in
  match strftime_date secs with
  | None => (dec ns ++ " ns")%string
  | Some date =>
      (date ++ "." ++ dec0 3 (ns mod 1000000000 / 1000000) ++ " " ++ strftime_zone secs)%string
  end.

(** The magic number's bytes, what does not print shown as a dot. *)
Definition magic_text (magic : Z) : string := of_chars (printable <$> le_bytes 4 magic).

Definition print_header (h : psmi_header) : list out :=
  Line <$>
  [ ("magic         0x" ++ hex 8 (h_magic h) ++ " " ++ char_str QUOTE ++ magic_text (h_magic h) ++
     char_str QUOTE)%string;
    ("version       " ++ dec (h_version_major h) ++ "." ++ dec (h_version_minor h))%string;
    ("header_size   " ++ dec (h_header_size h))%string;
    ("slot_header   " ++ dec (h_slot_header_size h))%string;
    ("slots         " ++ dec (h_slot_count h) ++ " x " ++ dec (h_slot_stride h) ++ " B stride")%string;
    ("capacity      " ++ dec (h_capacity h))%string;
    ("payload_type  0x" ++ hex 8 (h_payload_type h) ++ " (" ++ dec (h_payload_type h) ++ ")")%string;
    ("config_flags  0x" ++ hex 8 (h_config_flags h) ++
     (if negb (Z.land (h_config_flags h) PSMI_CONFIG_NO_NOTIFY =? 0)%Z then " NO_NOTIFY" else ""))%string;
    ("state         0x" ++ hex 8 (h_state h) ++
     (if negb (Z.land (h_state h) PSMI_STATE_RETIRED =? 0)%Z then " RETIRED" else ""))%string;
    ("writer_pid    " ++ dec (h_writer_pid h))%string;
    ("created       " ++ fmt_realtime (h_created_realtime_ns h))%string ].

(** The array of slots on the stack: the slots that were read. *)
Definition slot_at (slots : list psmi_slot) (i : Z) : option psmi_slot := slots !! Z.to_nat i.

(** [false] if readers get FORMAT from this [latest]. *)
Definition print_latest (latest : Z) (slots : list psmi_slot) (h : psmi_header) : bool * out :=
  if latest =? PSMI_LATEST_NONE then (true, Line "latest        none (nothing published)")
  else
    let i := psmi_latest_slot latest in
    let tag := Z.land (Z.shiftr latest 4) PSMI_LATEST_TAG_MASK in
    let line := ("latest        0x" ++ hex 8 latest ++ ": slot " ++ dec i ++ ", tag " ++ dec tag)%string in
    if negb (psmi_latest_valid latest (h_slot_count h))
    then (false, Line (line ++ "  INVALID: readers get FORMAT")%string)
    else
      match slot_at slots i with
      | None => (true, Undefined)
      | Some s =>
          let seq := s_seq s in
          if negb (Z.land seq 1 =? 0) || negb (psmi_latest i seq =? latest)
          then (true, Line (line ++ "  STALE: slot seq " ++ dec seq ++ " (tag " ++
                       dec (Z.land (Z.shiftr seq 1) PSMI_LATEST_TAG_MASK) ++ "); readers get BUSY")%string)
          else if h_capacity h <? s_length s
          then (false, Line (line ++ "  INVALID: length > capacity; readers get FORMAT")%string)
          else (true, Line line)
      end.

(** The notes of a slot's row, as [snprintf] writes them to a buffer of 96. *)
Definition slot_notes (s : psmi_slot) (h : psmi_header) (latest i : Z) : string :=
  String.substring 0 95
  ((if negb (Z.land (s_seq s) 1 =? 0)%Z then "  odd: being written, or aborted/crashed" else "") ++
   (if (h_capacity h <? s_length s)%Z then "  length > capacity" else "") ++
   (if (negb (latest =? PSMI_LATEST_NONE) && (psmi_latest_slot latest =? i))%Z then "  <- latest"
    else ""))%string.

Definition slot_row (s : psmi_slot) (h : psmi_header) (latest now i : Z) : string :=
  let age := if negb (s_seq s =? 0) then fmt_age (s_timestamp_ns s) now else "-" in
  let notes := slot_notes s h latest i in
  (left_justify 4 (dec i) ++ "  " ++ left_justify 10 (dec (s_seq s)) ++ "  " ++
   left_justify 10 (dec (s_generation s)) ++ "  " ++ left_justify 10 (dec (s_length s)) ++ "  " ++
   left_justify (if (notes =? "")%string then 0 else 10) age ++ notes)%string.

Definition print_slots (slots : list psmi_slot) (h : psmi_header) (latest : Z) : prog (list out) :=
  let* now := psmsgr_now_ns in
  ret (Line "slot  seq         generation  length      age" ::
       ((fun i => match slot_at slots i with
                  | Some s => Line (slot_row s h latest now i)
                  | None => Undefined
                  end) <$> seqZ 0 (h_slot_count h))).

(** The reads of the slots from [i] on, [n] slots left; [None] on a short read. *)
Fixpoint read_slots (n : nat) (fd stride i : Z) (acc : list psmi_slot)
    : prog (option (list psmi_slot)) :=
  match n with
  | O => ret (Some acc)
  | S n =>
      let* x := call (SysPread fd PSMI_SLOT_HEADER_SIZE (PSMI_HEADER_SIZE + i * stride)) in
      match x with
      | inl bs =>
          if Z.of_nat (length bs) =? PSMI_SLOT_HEADER_SIZE
          then read_slots n fd stride (i + 1) (acc ++ [decode_slot bs])
          else ret None
      | inr _ => ret None
      end
  end.

Definition dump_open_flags : list oflag := [O_RDONLY; O_NOFOLLOW; O_CLOEXEC; O_NONBLOCK].

(** From the validated header on: 0 or [EXIT_INVALID], [*read_ok], the output. *)
Definition dump_slots (path : string) (fd : Z) (h : psmi_header) : prog (Z * bool * list out) :=
  let short := (EXIT_INVALID, false, [Error (path ++ " changed size while being read")%string]) in
  let* x := call (SysPread fd 4 HOff.latest) in
  match x with
  | inr _ => ret short
  | inl bs =>
      if negb (Z.of_nat (length bs) =? 4) then ret short
      else
        let latest := le_val bs in
        let* slots := read_slots (Z.to_nat (h_slot_count h)) fd (h_slot_stride h) 0 [] in
        match slots with
        | None => ret short
        | Some slots =>
            let (ok, line) := print_latest latest slots h in
            let* rows := print_slots slots h latest in
            ret (if ok then 0 else EXIT_INVALID, true, line :: rows)
        end
  end.

(** Between opening the file and closing it. *)
Definition dump_file (path : string) (fd : Z) : prog (Z * bool * list out) :=
  let fail msg := (EXIT_INVALID, false, [Error msg]) in
  let* st := call (SysFstat fd) in
  match st with
  | inr _ => let* e := get_errno in
             ret (fail ("cannot stat " ++ path ++ ": " ++ strerror e)%string)
  | inl st =>
      if negb (st_isreg st)
      then ret (fail ("invalid channel file " ++ path ++ ": not a regular file")%string)
      else
        let shorter := fail ("invalid channel file " ++ path ++ ": shorter than a header")%string in
        if st_size st <? PSMI_HEADER_SIZE then ret shorter
        else
          let* x := call (SysPread fd PSMI_HEADER_SIZE 0) in
          match x with
          | inr _ => ret shorter
          | inl bs =>
              if negb (Z.of_nat (length bs) =? PSMI_HEADER_SIZE) then ret shorter
              else
                let h := decode_header bs in
                match header_problem h (st_size st) with
                | Some problem =>
                    ret (EXIT_INVALID, false, print_header h ++
                      [Error ("invalid channel file " ++ path ++ ": " ++ problem)%string])
                | None =>
                    let* (rc, read_ok, o) := dump_slots path fd h in
                    ret (rc, read_ok, print_header h ++ o)
                end
          end
  end.

(** The exit status, [*read_ok] and the output. *)
Definition dump_raw (path : string) : prog (Z * bool * list out) :=
  let* fd := call (SysOpen path dump_open_flags 0) in
  match fd with
  | inr _ =>
      let* e := get_errno in
      ret (EXIT_INVALID, false,
           [Error (if e =? ENOENT then ("channel not found: " ++ path)%string
                   else ("cannot open " ++ path ++ ": " ++ strerror e)%string)])
  | inl fd =>
      let* r := dump_file path fd in
      let* _ := call (SysClose fd) in
      ret r
  end.

(** ** The view through the API *)

(** [peek]: up to [n] more tries while the channel is busy; the handle, the
    result and [*info]. *)
Fixpoint dump_peek (n : nat) (r : option psmsgr_state_reader) (rc : Z)
    (info : option psmsgr_state_info)
    : prog (option psmsgr_state_reader * (Z * option psmsgr_state_info)) :=
  match n with
  | S n => if rc =? PSMSGR_E_BUSY
           then let* (r, (rc, info)) := psmsgr_state_peek r false in dump_peek n r rc info
           else ret (r, (rc, info))
  | O => ret (r, (rc, info))
  end.

Definition peek (r : option psmsgr_state_reader)
    : prog (option psmsgr_state_reader * (Z * option psmsgr_state_info)) :=
  dump_peek BUSY_RETRIES r PSMSGR_E_BUSY None.

Definition print_liveness (r : option psmsgr_state_reader)
    : prog (option psmsgr_state_reader * list out) :=
  let* (alive, r) := psmsgr_state_writer_alive r in
  if alive =? 1 then ret (r, [Line "writer        alive"])
  else if alive =? 0 then ret (r, [Line "writer        not running"])
  else if alive =? PSMSGR_E_SYS then
    let* e := get_errno in ret (r, [Line ("writer        unknown: " ++ strerror e)%string])
  else ret (r, [Line ("writer        unknown: " ++ psmsgr_strerror alive)%string]).

Definition print_value (r : option psmsgr_state_reader)
    : prog (option psmsgr_state_reader * list out) :=
  let* (r, (rc, info)) := peek r in
  if negb (rc =? PSMSGR_OK)
  then ret (r, [Line ("value         " ++ psmsgr_strerror rc)%string])
  else
    let* now := psmsgr_now_ns in
    ret (r, [match info with
             | Some i => Line ("value         generation " ++ dec (i_generation i) ++ ", length " ++
                               dec (i_length i) ++ ", age " ++ fmt_age (i_timestamp_ns i) now)%string
             | None => Undefined
             end]).

(** The reads of [print_hex]: [n] more tries while the channel is busy. *)
Fixpoint hex_read (n : nat) (r : option psmsgr_state_reader) (buf : option (list Z)) (cap : Z)
    (x : rresult) : prog (option psmsgr_state_reader * rresult) :=
  match n with
  | S n =>
      let '(rc, b, _) := x in
      if rc =? PSMSGR_E_BUSY
      then let* (r, x) := psmsgr_state_read r (match buf with Some _ => Some b | None => None end)
                            cap false in
           hex_read n r buf cap x
      else ret (r, x)
  | O => ret (r, x)
  end.

(** What [print_hex] prints of a successful read. *)
Definition hex_lines (b : list Z) (info : option psmsgr_state_info) : list out :=
  match info with
  | None => [Undefined]
  | Some i =>
      let len := i_length i in
      Line ("payload       generation " ++ dec (i_generation i) ++ ", " ++ dec len ++ " bytes")%string ::
      hexdump b (if len <? HEX_MAX then len else HEX_MAX) ++
      (if HEX_MAX <? len then [Line ("  ... " ++ dec (len - HEX_MAX) ++ " more bytes")%string] else [])
  end.

(** [junk]: what fresh memory holds. *)
Definition print_hex (junk : Z -> list Z) (r : option psmsgr_state_reader)
    : prog (option psmsgr_state_reader * list out) :=
  let* (r, (rc, desc)) := psmsgr_state_describe r (Some (junk sizeof_desc)) in
  if negb (rc =? PSMSGR_OK)
  then ret (r, [Line ("payload       " ++ psmsgr_strerror rc)%string])
  else
    let cap := field desc 0 4 in
    let* blk := if negb (cap =? 0) then call (Malloc cap) else ret None in
    if negb (cap =? 0) && match blk with None => true | Some _ => false end
    then ret (r, [Line "payload       out of memory"])
    else
      let buf := match blk with Some _ => Some (junk cap) | None => None end in
      let* (r, (rc, b, info)) :=
        hex_read BUSY_RETRIES r buf cap (PSMSGR_E_BUSY, default [] buf, None) in
      let lines := if negb (rc =? PSMSGR_OK)
                   then [Line ("payload       " ++ psmsgr_strerror rc)%string]
                   else hex_lines b info in
      (match blk with Some blk => call (Free blk) | None => ret tt end) ;;;
      ret (r, lines).

(** One redraw: the handle, the exit status and the output. *)
Definition dump (junk : Z -> list Z) (r : option psmsgr_state_reader) (name path : string)
    (hex : bool) : prog (option psmsgr_state_reader * (Z * list out)) :=
  let* (rc, read_ok, o1) := dump_raw path in
  let* (r, o2) := print_liveness r in
  let first := Line ("channel       " ++ name ++ " (" ++ path ++ ")")%string in
  if read_ok then
    let* (r, o3) := print_value r in
    let* (r, o4) := if hex then print_hex junk r else ret (r, []) in
    ret (r, (rc, first :: o1 ++ o2 ++ o3 ++ o4))
  else ret (r, (rc, first :: o1 ++ o2)).

(** ** What a redraw depends on *)

Record watch_key := {
  k_dev : Z; k_ino : Z; k_peek_rc : Z; k_generation : Z; k_alive : Z
}.

Definition watch_key_of (r : option psmsgr_state_reader) (path : string)
    : prog (option psmsgr_state_reader * watch_key) :=
  let* st := call (SysLstat path) in
  let* (r, (rc, info)) := peek r in
  let* (alive, r) := psmsgr_state_writer_alive r in
  ret (r, {| k_dev := match st with inl st => st_dev st | inr _ => 0 end;
             k_ino := match st with inl st => st_ino st | inr _ => 0 end;
             k_peek_rc := rc;
             k_generation := match info with
                             | Some i => if rc =? PSMSGR_OK then i_generation i else 0
                             | None => 0
                             end;
             k_alive := alive |}).

Definition watch_key_equal (a b : watch_key) : bool :=
  (k_dev a =? k_dev b) && (k_ino a =? k_ino b) && (k_peek_rc a =? k_peek_rc b) &&
  (k_generation a =? k_generation b) && (k_alive a =? k_alive b).

(** ** Watching *)

Definition sleep_ms (ms : Z) : prog unit :=
  let* _ := call (SysNanosleep (ms / 1000) (ms mod 1000 * 1000000)) in
  ret tt.

(** The inner loop of [watch]: until the key is another one than [key];
    [wait_fuel] bounds the slices of each wait. *)
Definition watch_wait (wait_fuel : nat) (path : string) (key : watch_key)
    (s : option psmsgr_state_reader * watch_key)
    : prog ((option psmsgr_state_reader * watch_key) + (option psmsgr_state_reader * watch_key)) :=
  let '(r, next) := s in
  let* stop := call ReadStop in
  if stop || negb (watch_key_equal next key) then ret (inr (r, next))
  else
    let* (rc, r) := psmsgr_state_wait wait_fuel r (k_generation key) WATCH_TIMEOUT_MS in
    (if negb (rc =? PSMSGR_OK) && negb (rc =? PSMSGR_E_TIMEOUT) && negb (rc =? PSMSGR_E_INTR)
     then sleep_ms WATCH_POLL_MS else ret tt) ;;;
    let* stop := call ReadStop in
    if stop then ret (inl (r, next))
    else let* (r, next) := watch_key_of r path in ret (inl (r, next)).

(** One redraw, and the wait for the next. [tty]: standard output is one. *)
Definition watch_body (wait_fuel fuel : nat) (junk : Z -> list Z) (tty : bool)
    (name path : string) (hex : bool) (s : option psmsgr_state_reader * watch_key * bool)
    : prog ((option psmsgr_state_reader * watch_key * bool) + option psmsgr_state_reader) :=
  let '(r, key, first) := s in
  let* stop := call ReadStop in
  if stop then ret (inr r)
  else
    (if tty then call (Print false clear_screen)
     else if negb first then call (Print false (char_str NL)) else ret tt) ;;;
    let* (r, (_, o)) := dump junk r name path hex in
    emit o ;;;
    let* (r, next) := loop fuel (watch_wait wait_fuel path key) (r, key) in
    ret (inl (r, next, false)).

Definition watch (wait_fuel fuel : nat) (junk : Z -> list Z) (tty : bool) (r : option psmsgr_state_reader)
    (name path : string) (hex : bool) : prog (option psmsgr_state_reader * Z) :=
  let* (r, key) := watch_key_of r path in
  let* r := loop fuel (watch_body wait_fuel fuel junk tty name path hex) (r, key, true) in
  ret (r, 0).

(** ** The program *)

Record options := {
  op_name : string; op_dir : option string; op_watch : bool; op_hex : bool
}.

Definition no_options : options :=
  {| op_name := ""; op_dir := None; op_watch := false; op_hex := false |}.

Definition usage_error (msg : option string) : prog Z :=
  (match msg with
   | Some m => call (Print true ("psmsgr-dump: " ++ m ++ char_str NL)%string)
   | None => ret tt
   end) ;;;
  call (Print true usage_text) ;;;
  ret EXIT_USAGE.

(** The loop over what [getopt_long] returns, each with its [optarg]: the
    options, or the exit status. *)
Fixpoint parse_options (l : list (ascii * string)) (o : options) : prog (options + Z) :=
  match l with
  | [] => ret (inl o)
  | (c, optarg) :: l =>
      if (c =? "d")%char
      then parse_options l {| op_name := op_name o; op_dir := Some optarg;
                              op_watch := op_watch o; op_hex := op_hex o |}
      else if (c =? "w")%char
      then parse_options l {| op_name := op_name o; op_dir := op_dir o;
                              op_watch := true; op_hex := op_hex o |}
      else if (c =? "x")%char
      then parse_options l {| op_name := op_name o; op_dir := op_dir o;
                              op_watch := op_watch o; op_hex := true |}
      else if (c =? "h")%char then call (Print false usage_text) ;;; ret (inr 0)
      else let* rc := usage_error None in ret (inr rc)
  end.

(** The library's directory rule, again. *)
Definition dump_dir (dir env : option string) : string :=
  match dir with
  | Some d => d
  | None => match env with
            | Some e => if (e =? "")%string then "/dev/shm" else e
            | None => "/dev/shm"
            end
  end.

(** [len]: [sizeof "/psmsgr..state"] is 15. *)
Definition path_len (dir name : string) : nat := (String.length dir + String.length name + 15)%nat.

(** What [snprintf] writes into [path_len] bytes: what fits, without the NUL. *)
Definition dump_path (dir name : string) : string :=
  String.substring 0 (path_len dir name - 1) (dir ++ "/psmsgr." ++ name ++ ".state")%string.

(** [main] with the options parsed and the name known. *)
Definition dump_run (wait_fuel fuel : nat) (junk : Z -> list Z) (tty : bool) (o : options) : prog Z :=
  let name := op_name o in
  let* (rc, r) := psmsgr_state_reader_open (Some name) (op_dir o) false in
  if rc =? PSMSGR_E_INVAL then usage_error (Some "invalid channel name or directory")
  else if negb (rc =? PSMSGR_OK)
  then let* e := get_errno in emit [Error (strerror e)] ;;; ret EXIT_INVALID
  else
    let* env := match op_dir o with Some _ => ret None | None => call (Getenv "PSMSGR_DIR") end in
    let d := dump_dir (op_dir o) env in
    let* blk := call (Malloc (Z.of_nat (path_len d name))) in
    match blk with
    | None =>
        psmsgr_state_reader_close r ;;;
        emit [Error "out of memory"] ;;;
        ret EXIT_INVALID
    | Some blk =>
        let path := dump_path d name in
        let* (r, rc) :=
          if op_watch o then watch wait_fuel fuel junk tty r name path (op_hex o)
          else let* (r, (rc, l)) := dump junk r name path (op_hex o) in
               emit l ;;;
               ret (r, rc) in
        call (Free blk) ;;;
        psmsgr_state_reader_close r ;;;
        ret rc
    end.

(** [main]: [opts] is what [getopt_long] returns, [args] what it leaves. *)
Definition dump_main (wait_fuel fuel : nat) (junk : Z -> list Z) (tty : bool)
    (opts : list (ascii * string)) (args : list string) : prog Z :=
  let* x := parse_options opts no_options in
  match x with
  | inr rc => ret rc
  | inl o =>
      match args with
      | [name] =>
          dump_run wait_fuel fuel junk tty
            {| op_name := name; op_dir := op_dir o; op_watch := op_watch o; op_hex := op_hex o |}
      | [] => usage_error (Some "missing channel name")
      | _ => usage_error (Some "too many arguments")
      end
  end.
End dump.
