(* ===== verification/DumpProof.v ===== *)
(** * What psmsgr-dump shows

    The tool's own validation is the library's, its verdict on [latest] is
    what readers get, its hexdump shows every byte, and it is as safe as a
    reader on any system and any file. *)
From S2P Require Import Prelude Prog Common Layout Names Options Writer Reader Text Dump.
From S2P Require Import Memory Protocol Seqlock World ReaderSafety.
From Stdlib Require Import Ascii.
#[local] Open Scope string_scope.
#[local] Open Scope list_scope.
#[local] Open Scope Z_scope.

(** ** The header *)

Lemma header_problem_valid (h : psmi_header) (n : Z) :
  header_problem h n = None <-> header_valid h n = true.
Proof.
  unfold header_problem, header_valid.
  destruct (h_magic h =? PSMI_MAGIC); cbn [negb andb]; [| done].
  destruct (h_version_major h =? PSMI_VERSION_MAJOR); cbn [negb andb]; [| done].
  destruct (h_header_size h =? PSMI_HEADER_SIZE); cbn [negb andb]; [| done].
  destruct (h_slot_header_size h =? PSMI_SLOT_HEADER_SIZE); cbn [negb andb]; [| done].
  rewrite !Z.leb_antisym.
  destruct (h_slot_count h <? PSMI_MIN_SLOTS); cbn [negb andb orb]; [done |].
  destruct (PSMI_MAX_SLOTS <? h_slot_count h); cbn [negb andb]; [done |].
  destruct (PSMSGR_STATE_MAX_CAPACITY <? h_capacity h); cbn [negb andb]; [done |].
  destruct (h_slot_stride h =? psmi_slot_stride (h_capacity h)); cbn [negb andb]; [| done].
  by destruct (n <? psmi_file_size (h_slot_count h) (h_slot_stride h)).
Qed.

(** ** The hexdump, read back *)

(** The bytes shown in a row from cell [i] on, [n] cells left. *)
Fixpoint undump_cells (n i : nat) (l : list ascii) : list Z :=
  match n with
  | O => []
  | S n =>
      match (if (i =? 8)%nat then drop 1 l else l) with
      | _ :: a :: b :: l =>
          if (a =? " ")%char then []
          else (digit_val a * 16 + digit_val b) :: undump_cells n (S i) l
      | _ => []
      end
  end.

(** Two blanks, eight digits of offset, a blank, the cells. *)
Definition undump_row (s : string) : list Z := undump_cells 16 0 (drop 11 (chars s)).
Definition undump (l : list string) : list Z := concat (undump_row <$> l).


Lemma hex2_chars (b : Z) :
  is_byte b -> chars (hex 2 b) = [digit (b / 16); digit (b mod 16)] /\
               digit (b / 16) <> " "%char.
Proof.
  intros H. assert (Hb : b ∈ seqZ 0 256) by (unfold is_byte in H; apply elem_of_seqZ; lia).
  clear H. revert b Hb. apply (Forall_forall (fun b => chars (hex 2 b) = [digit (b / 16); digit (b mod 16)] /\
               digit (b / 16) <> " "%char)).
  assert (E : forallb (fun b => bool_decide (chars (hex 2 b) = [digit (b / 16); digit (b mod 16)] /\
               digit (b / 16) <> " "%char)) (seqZ 0 256) = true) by (vm_compute; reflexivity).
  apply Forall_forall. intros b Hb. rewrite forallb_forall in E.
  apply list_elem_of_In, E in Hb. by apply bool_decide_eq_true in Hb.
Qed.

Lemma length_digits (k fuel : nat) (base n : Z) :
  2 <= base -> (1 <= k)%nat -> 0 <= n < base ^ Z.of_nat k -> (length (digits fuel base n []) <= k)%nat.
Proof.
  intros Hb. revert k n. induction fuel as [|fuel IH]; intros k n Hk Hn; cbn [digits]; [simpl; lia |].
  destruct (Z.eqb_spec (n / base) 0) as [|Hne]; [simpl; lia |].
  rewrite digits_acc, length_app. simpl.
  destruct k as [|[|k]]; [lia | |].
  - rewrite Z.pow_1_r in Hn. rewrite Z.div_small in Hne by lia. done.
  - specialize (IH (S k) (n / base) ltac:(lia)).
    rewrite (Nat2Z.inj_succ (S k)), Z.pow_succ_r in Hn by lia.
    enough (length (digits fuel base (n / base) []) <= S k)%nat by lia. apply IH.
    split; [apply Z.div_pos; lia | apply Z.div_lt_upper_bound; lia].
Qed.

Lemma hex8_length (n : Z) : 0 <= n < 4294967296 -> length (chars (hex 8 n)) = 8%nat.
Proof.
  intros H. unfold hex. rewrite chars_of_chars. unfold pad_left.
  rewrite length_app, length_replicate.
  pose proof (length_digits 8 16 16 n ltac:(lia) ltac:(lia) ltac:(lia)). lia.
Qed.

Lemma chars_concat (l : list string) : chars (String.concat "" l) = concat (chars <$> l).
Proof.
  induction l as [|x l IH]; [done |]. destruct l as [|y l].
  - cbn. by rewrite app_nil_r.
  - change (String.concat "" (x :: y :: l)) with (x ++ "" ++ String.concat "" (y :: l))%string.
    rewrite !chars_app, IH. done.
Qed.

(** The blank before the ninth cell. *)
Lemma skip_gap (g : bool) (l : list ascii) :
  (if g then drop 1 (chars (if g then " " else "") ++ l)
   else chars (if g then " " else "") ++ l) = l.
Proof. by destruct g. Qed.

(** Reading a row's cells back. *)
Lemma undump_cells_spec (n i : nat) (row : list Z) (tail : list ascii) :
  Forall is_byte row -> (length row <= i + n)%nat ->
  undump_cells n i (concat (chars <$> (hex_cell row <$> seq i n)) ++ tail) = drop i row.
Proof.
  intros Hr. revert i. induction n as [|n IH]; intros i Hl; cbn [undump_cells].
  - symmetry. apply drop_ge. lia.
  - cbn [seq fmap list_fmap concat]. unfold hex_cell at 1 3. rewrite !chars_app, <- !app_assoc.
    rewrite skip_gap. destruct (row !! i) as [b|] eqn:Eb.
    + rewrite chars_app. pose proof (Forall_lookup_1 _ _ _ _ Hr Eb) as Hb.
      destruct (hex2_chars b Hb) as [-> Hne]. cbn [chars String.list_ascii_of_string app].
      apply Ascii.eqb_neq in Hne. rewrite Hne. unfold is_byte in Hb.
      rewrite !digit_val_digit by div_lia.
      rewrite (drop_S _ _ _ Eb). f_equal; [div_lia |]. apply IH. lia.
    + symmetry. apply drop_ge. by apply lookup_ge_None.
Qed.

Lemma undump_hex_row (off : Z) (row : list Z) :
  0 <= off < 4294967296 -> Forall is_byte row -> (length row <= 16)%nat ->
  undump_row (hex_row off row) = row.
Proof.
  intros Ho Hr Hl. unfold undump_row, hex_row. rewrite !chars_app, chars_concat.
  pose proof (hex8_length off Ho) as H8.
  rewrite (app_assoc (chars "  ")), (app_assoc _ (chars " ")).
  rewrite drop_app_length'.
  - by apply (undump_cells_spec 16 0).
  - rewrite !length_app, H8. done.
Qed.

Lemma undump_hexdump_from (fuel : nat) (off : Z) (p : list Z) :
  0 <= off -> off + Z.of_nat (length p) <= 4294967296 -> (length p <= fuel)%nat ->
  Forall is_byte p -> undump (hexdump_from fuel off p) = p.
Proof.
  revert off p. induction fuel as [|fuel IH]; intros off p Ho Hn Hf Hp.
  - by destruct p; [| simpl in Hf; lia].
  - destruct p as [|b p]; [done |]. cbn [hexdump_from]. unfold undump. cbn [fmap list_fmap concat].
    rewrite undump_hex_row; [| simpl in *; lia | by apply Forall_take | rewrite length_take; lia].
    set (q := b :: p) in *. transitivity (take 16 q ++ drop 16 q); [f_equal | apply take_drop].
    destruct (Nat.le_gt_cases (length q) 16) as [H16|H16].
    + rewrite drop_ge by done. by destruct fuel.
    + apply IH; [lia | rewrite length_drop; lia | rewrite length_drop; lia | by apply Forall_drop].
Qed.

Lemma lines_of_line (l : list string) :
  omap (fun o => match o with Line s => Some s | _ => None end) (Line <$> l) = l.
Proof. induction l as [|x l IH]; [done |]. cbn. by rewrite IH. Qed.

Lemma substring_all (s : string) : String.substring 0 (String.length s) s = s.
Proof. induction s as [|c s IH]; [done |]. exact (f_equal (String c) IH). Qed.

(** ** Safety *)

Definition defined (o : out) : Prop := o <> Undefined.

Lemma defined_lines (l : list string) : Forall defined (Line <$> l).
Proof. apply Forall_fmap, Forall_true. done. Qed.

Section safe.
Context {C : Config}.
Context (strftime_date : Z -> option string) (strftime_zone : Z -> string) (strerror : Z -> string).

Abbreviation dump_raw := (dump_raw strftime_date strftime_zone strerror).

(** What the raw view returns: 0 only if the whole view was read. *)
Definition raw_ok (x : Z * bool * list out) : Prop :=
  let '(rc, read_ok, o) := x in
  (rc = 0 /\ read_ok = true \/ rc = EXIT_INVALID) /\ Forall defined o.

Lemma wp_os_read_slots (n : nat) (fd stride i en : Z) (acc : list psmi_slot) (w : world)
    (Q : option (list psmi_slot) -> Z -> world -> Prop) :
  fd ∈ wd_fds w ->
  Q None en w -> (forall e, Q None e w) ->
  (forall l, length l = (length acc + n)%nat -> Q (Some l) en w) ->
  wp (read_slots n fd stride i acc) en w Q.
Proof.
  intros Hfd H0 Hno. revert i acc. induction n as [|n IH]; intros i acc HQ; cbn [read_slots].
  - apply wp_ret, HQ. lia.
  - apply wp_bind, wp_os; [done |]. intros [bs|e] w' [_ ->]; [| by apply wp_ret, Hno].
    destruct (_ =? _); [| by apply wp_ret]. apply IH. intros l Hl. apply HQ.
    rewrite Hl, length_app. simpl. lia.
Qed.

Lemma print_latest_defined (latest : Z) (slots : list psmi_slot) (h : psmi_header) :
  Z.of_nat (length slots) = h_slot_count h -> defined (snd (print_latest latest slots h)).
Proof.
  intros Hl. unfold print_latest. destruct (latest =? PSMI_LATEST_NONE) eqn:En; [done |].
  destruct (psmi_latest_valid latest (h_slot_count h)) eqn:Ev; cbn [negb]; [| done].
  pose proof (valid_slot _ _ En Ev) as Hi. unfold slot_at.
  destruct (lookup_lt_is_Some_2 slots (Z.to_nat (psmi_latest_slot latest)) ltac:(lia)) as [s ->].
  destruct (_ || _); [done |]. by destruct (_ <? _).
Qed.

Lemma slot_rows_defined (slots : list psmi_slot) (h : psmi_header) (latest now : Z) :
  Z.of_nat (length slots) = h_slot_count h ->
  Forall defined ((fun i => match slot_at slots i with
                            | Some s => Line (slot_row s h latest now i)
                            | None => Undefined
                            end) <$> seqZ 0 (h_slot_count h)).
Proof.
  intros Hl. apply Forall_fmap, Forall_forall. intros i Hi%elem_of_seqZ. unfold compose, slot_at.
  by destruct (lookup_lt_is_Some_2 slots (Z.to_nat i) ltac:(lia)) as [s ->].
Qed.

Lemma wp_os_dump_slots (path : string) (fd en : Z) (h : psmi_header) (w : world)
    (Q : Z * bool * list out -> Z -> world -> Prop) :
  fd ∈ wd_fds w -> 0 <= h_slot_count h -> (forall x en', raw_ok x -> Q x en' w) ->
  wp (dump_slots path fd h) en w Q.
Proof.
  intros Hfd Hn HQ. unfold dump_slots.
  assert (Hshort : forall en', Q (EXIT_INVALID, false,
    [Error (path ++ " changed size while being read")%string]) en' w).
  { intros en'. apply HQ. split; [by right | by repeat constructor]. }
  apply wp_bind, wp_os; [done |]. intros [bs|e] w' [_ ->]; [| by apply wp_ret].
  destruct (_ =? 4); cbn [negb]; [| by apply wp_ret].
  apply wp_bind, wp_os_read_slots; [done | by apply wp_ret | intros e; by apply wp_ret |].
  intros slots Hl. cbn [length Nat.add] in Hl.
  pose proof (print_latest_defined (le_val bs) slots h ltac:(lia)) as Hd.
  destruct (print_latest (le_val bs) slots h) as [ok line]. cbn [snd] in Hd.
  apply wp_bind. unfold print_slots. apply wp_bind, wp_os_clock. intros now _.
  apply wp_ret, wp_ret, HQ. split; [destruct ok; auto |].
  constructor; [done |]. constructor; [done |]. apply slot_rows_defined. lia.
Qed.

Lemma wp_os_dump_file (path : string) (fd en : Z) (w : world)
    (Q : Z * bool * list out -> Z -> world -> Prop) :
  fd ∈ wd_fds w -> (forall x en', raw_ok x -> Q x en' w) ->
  wp (dump_file strftime_date strftime_zone strerror path fd) en w Q.
Proof.
  intros Hfd HQ. unfold dump_file.
  assert (Hfail : forall s en', Q (EXIT_INVALID, false, [Error s]) en' w).
  { intros s en'. apply HQ. split; [by right | by repeat constructor]. }
  apply wp_bind, wp_os; [done |]. intros [st|e] w' ->.
  2: { by apply wp_bind, wp_get_errno, wp_ret. }
  destruct (negb (st_isreg st)); [by apply wp_ret |].
  destruct (_ <? _); [by apply wp_ret |].
  apply wp_bind, wp_os; [done |]. intros [bs|e] w' [Hbs ->]; [| by apply wp_ret].
  destruct (Z.eqb_spec (Z.of_nat (length bs)) PSMI_HEADER_SIZE) as [Hl|_]; cbn [negb];
    [| by apply wp_ret].
  assert (Hh : Forall defined (print_header strftime_date strftime_zone (decode_header bs)))
    by apply defined_lines.
  destruct (header_problem _ _).
  - apply wp_ret, HQ. split; [by right |]. apply Forall_app. by repeat constructor.
  - apply wp_bind, wp_os_dump_slots; [done | |].
    { apply (field_range bs); [apply Hbs | unfold PSMI_HEADER_SIZE in Hl; lia]. }
    intros [[rc ok] o] en' [Hrc Ho]. apply wp_ret, HQ. split; [done |]. by apply Forall_app.
Qed.

Lemma wp_os_dump_raw (path : string) (en : Z) (w : world)
    (Q : Z * bool * list out -> Z -> world -> Prop) :
  (forall x en', raw_ok x -> Q x en' w) -> wp (dump_raw path) en w Q.
Proof.
  intros HQ. unfold Dump.dump_raw. apply wp_bind, wp_os; [done |].
  intros [fd|e] w' Hs; cbn [world_step] in Hs.
  - destruct Hs as (_ & Hfd & ->).
    assert (Hin : fd ∈ wd_fds (add_fd fd w)) by (cbn; set_solver).
    apply wp_bind, wp_os_dump_file; [done |]. intros x en' Hx.
    apply wp_bind, wp_os; [done |]. intros y w' ->. rewrite del_add_fd by done. by apply wp_ret, HQ.
  - subst w'. apply wp_bind, wp_get_errno, wp_ret, HQ. split; [by right | by repeat constructor].
Qed.

(** The view through the API keeps the handle like the calls it makes. *)
Lemma reader_post_refl (base w : world) (r : psmsgr_state_reader) :
  attached_in base r w -> reader_post base r r w.
Proof. by split. Qed.

(** What a step of the tool may do to the handle and the world, with what it
    printed. *)
Definition view_post (base : world) (r : psmsgr_state_reader)
    (x : option psmsgr_state_reader * list out) (w' : world) : Prop :=
  (exists r', fst x = Some r' /\ reader_post base r r' w') /\ Forall defined (snd x).

Lemma wp_os_print_liveness (base w : world) (r : psmsgr_state_reader) (en : Z) :
  attached_in base r w ->
  wp (print_liveness strerror (Some r)) en w (fun x _ w' => view_post base r x w').
Proof.
  intros H. unfold print_liveness. apply wp_bind.
  eapply wp_mono; [by apply wp_os_writer_alive |]. intros [alive h] en' w' (r' & -> & Hp & _).
  assert (Hk : forall s en2, wp (ret (Some r', [Line s])) en2 w' (fun x _ w' => view_post base r x w')).
  { intros s en2. apply wp_ret. split; [by exists r' | by repeat constructor]. }
  destruct (alive =? 1); [done |]. destruct (alive =? 0); [done |].
  destruct (alive =? PSMSGR_E_SYS); [| done]. by apply wp_bind, wp_get_errno.
Qed.

(** An info comes with OK. *)
Definition info_ok (cap : Z) (rc : Z) (info : option psmsgr_state_info) : Prop :=
  rc = PSMSGR_OK -> exists i, info = Some i /\ 0 <= i_length i <= cap.

Lemma api_info (cap size : Z) (copy : bool) (buf b : list Z) (rc : Z)
    (info : option psmsgr_state_info) :
  api_ok cap size copy buf (rc, b, info) -> info_ok cap rc info.
Proof.
  intros [[_ H] | (rc' & [= -> -> ->] & H)] ->.
  - destruct info as [i|]; [by exists i; split; [| apply H] |]. by destruct H as [? | [? | ?]].
  - unfold attach_code in H. by destruct H as [[? | [? | ?]] | ?].
Qed.

Lemma wp_os_peek_loop (base : world) (n : nat) (r0 r : psmsgr_state_reader) (rc en : Z)
    (info : option psmsgr_state_info) (w : world) :
  reader_post base r0 r w -> (exists cap, info_ok cap rc info) ->
  wp (dump_peek n (Some r) rc info) en w
    (fun '(h, (rc, info)) _ w' => exists r', h = Some r' /\ reader_post base r0 r' w' /\
       exists cap, info_ok cap rc info).
Proof.
  revert r rc info en w. induction n as [|n IH]; intros r rc info en w Hp Hi; cbn [dump_peek].
  - apply wp_ret. eauto.
  - destruct (rc =? PSMSGR_E_BUSY); [| apply wp_ret; eauto]. apply wp_bind.
    eapply wp_mono; [by apply (wp_os_state_peek base), Hp |].
    intros [h [rc' info']] en' w' (r' & -> & Hp' & Ha).
    apply IH; [eapply reader_post_trans; [apply Hp | exact Hp'] |]. eexists. by eapply api_info.
Qed.

Lemma wp_os_peek (base w : world) (r : psmsgr_state_reader) (en : Z) :
  attached_in base r w ->
  wp (peek (Some r)) en w
    (fun '(h, (rc, info)) _ w' => exists r', h = Some r' /\ reader_post base r r' w' /\
       exists cap, info_ok cap rc info).
Proof.
  intros H. unfold peek. apply wp_os_peek_loop; [by apply reader_post_refl |].
  exists 0. intros E. discriminate E.
Qed.

Lemma wp_os_print_value (base w : world) (r : psmsgr_state_reader) (en : Z) :
  attached_in base r w ->
  wp (print_value (Some r)) en w (fun x _ w' => view_post base r x w').
Proof.
  intros H. unfold print_value. apply wp_bind. eapply wp_mono; [by apply wp_os_peek |].
  intros [h [rc info]] en' w' (r' & -> & Hp & cap & Hi).
  destruct (Z.eqb_spec rc PSMSGR_OK) as [->|_]; cbn [negb].
  - apply wp_bind, wp_os_clock. intros now _. apply wp_ret.
    destruct Hi as (i & -> & _); [done |]. split; [by exists r' | by repeat constructor].
  - apply wp_ret. split; [by exists r' | by repeat constructor].
Qed.

(** The result of the reads of [print_hex], in a buffer of [cap] bytes. *)
Definition hex_ok (cap : Z) (x : rresult) : Prop :=
  let '(rc, b, info) := x in
  Z.of_nat (length b) = cap /\
  (rc = PSMSGR_OK -> exists i, info = Some i /\ 0 <= i_length i <= cap).

Lemma api_hex (cap size : Z) (buf : list Z) (x : rresult) :
  Z.of_nat (length buf) = size -> api_ok cap size true buf x -> hex_ok size x.
Proof.
  intros Hl. destruct x as [[rc b] info].
  intros [[[Hb _] H] | (rc' & [= -> -> ->] & Hrc)]; (split; [lia |]); intros ->.
  - destruct info as [i|]; [| by destruct H as [? | [? | ?]]].
    exists i. split; [done |]. cbn [andb] in H. destruct H as [Hr H].
    destruct (Z.ltb_spec size (i_length i)); [done | lia].
  - unfold attach_code in Hrc. by destruct Hrc as [[? | [? | ?]] | ?].
Qed.

Lemma wp_os_hex_read (base : world) (n : nat) (r0 r : psmsgr_state_reader)
    (buf : option (list Z)) (cap en : Z) (x : rresult) (w : world) :
  reader_post base r0 r w -> hex_ok cap x -> (buf = None -> cap = 0) ->
  wp (hex_read n (Some r) buf cap x) en w
    (fun '(h, x) _ w' => exists r', h = Some r' /\ reader_post base r0 r' w' /\ hex_ok cap x).
Proof.
  revert r x en w. induction n as [|n IH]; intros r x en w Hp Hx Hb; cbn [hex_read].
  - apply wp_ret. eauto.
  - destruct x as [[rc b] info]. pose proof Hx as [Hl _].
    destruct (rc =? PSMSGR_E_BUSY); [| apply wp_ret; eauto]. apply wp_bind.
    eapply wp_mono; [apply (wp_os_state_read base); [apply Hp |] |].
    { destruct buf; [cbn; lia | done]. }
    intros [h x'] en' w' (r' & -> & Hp' & Ha). apply IH; [eapply reader_post_trans; [apply Hp | exact Hp'] | | done].
    eapply api_hex; [| exact Ha]. destruct buf; cbn; [done |]. by rewrite Hb.
Qed.

Lemma hexdump_defined (p : list Z) (len : Z) :
  len <= Z.of_nat (length p) -> Forall defined (hexdump p len).
Proof.
  intros H. unfold hexdump. destruct (Z.ltb_spec (Z.of_nat (length p)) len); [lia |].
  apply defined_lines.
Qed.

Lemma hex_lines_defined (cap : Z) (b : list Z) (info : option psmsgr_state_info) :
  hex_ok cap (PSMSGR_OK, b, info) -> Forall defined (hex_lines b info).
Proof.
  intros [Hl H]. destruct (H eq_refl) as (i & -> & Hi). unfold hex_lines.
  constructor; [done |]. apply Forall_app. split.
  - apply hexdump_defined. destruct (i_length i <? HEX_MAX) eqn:E; bool_hyps; lia.
  - destruct (_ <? _); by repeat constructor.
Qed.

(** The buffer of [print_hex] is one more block while it lives. *)
Context (junk : Z -> list Z) (Hjunk : forall n, 0 <= n -> Z.of_nat (length (junk n)) = n).

Lemma wp_os_print_hex (base w : world) (r : psmsgr_state_reader) (en : Z) :
  attached_in base r w ->
  wp (print_hex junk (Some r)) en w (fun x _ w' => view_post base r x w').
Proof.
  intros H. unfold print_hex. apply wp_bind.
  assert (H16 : 0 <= sizeof_desc <= Z.of_nat (length (junk sizeof_desc))) by (rewrite Hjunk; done).
  eapply wp_mono; [by apply (wp_os_describe base) |].
  intros [h [rc mem]] en' w' (r1 & -> & Hp & _ & Hd).
  destruct (Z.eqb_spec rc PSMSGR_OK) as [->|_]; cbn [negb].
  2: { apply wp_ret. split; [by exists r1 | by repeat constructor]. }
  destruct Hd as [[_ Hd] | (_ & [[? | [? | ?]] | ?])]; [| done..]. specialize (Hd eq_refl).
  cbv zeta. set (cap := field mem 0 4).
  assert (Hcap : 0 <= cap).
  { unfold cap, field. rewrite drop_0, Hd, le_val_bytes4. apply u32_range. }
  clearbody cap. apply wp_bind. destruct (Z.eqb_spec cap 0) as [->|Hne]; cbn [negb andb].
  - apply wp_ret, wp_bind. cbn [default from_option].
    eapply wp_mono; [apply (wp_os_hex_read base); [exact Hp | | done] |].
    { split; [done | intros E; discriminate E]. }
    intros [h [[rc b] info]] en2 w2 (r2 & -> & Hp2 & Hx). apply wp_bind, wp_ret, wp_ret.
    split; [by exists r2 |].
    destruct (Z.eqb_spec rc PSMSGR_OK) as [->|_]; cbn [negb snd];
      [by eapply hex_lines_defined | by repeat constructor].
  - apply wp_os; [done |]. intros [blk|] w1 Hs; cbn [world_step] in Hs.
    2: { subst w1. apply wp_ret. split; [by exists r1 | by repeat constructor]. }
    destruct Hs as [Hb ->]. cbn [default from_option]. destruct Hp as [Hs Ha].
    rewrite (attached_heap _ _ _ Ha) in Hb. apply wp_bind.
    eapply wp_mono; [apply (wp_os_hex_read (add_blk blk base) _ r); [| | done] |].
    { split; [exact Hs | by apply attached_add_blk]. }
    { split; [by apply Hjunk | intros E; discriminate E]. }
    intros [h [[rc b] info]] en2 w2 (r2 & -> & [Hs2 Ha2] & Hx).
    destruct (attached_del_blk _ _ _ _ Hb Ha2) as [Hin Ha3].
    apply wp_bind, wp_os; [done |]. intros [] w3 ->. apply wp_ret. split; [by exists r2 |].
    destruct (Z.eqb_spec rc PSMSGR_OK) as [->|_]; cbn [negb snd];
      [by eapply hex_lines_defined | by repeat constructor].
Qed.

Lemma wp_os_dump (base w : world) (r : psmsgr_state_reader) (name path : string) (hex : bool)
    (en : Z) :
  attached_in base r w ->
  wp (dump strftime_date strftime_zone strerror junk (Some r) name path hex) en w
    (fun '(h, (rc, o)) _ w' => view_post base r (h, o) w' /\ (rc = 0 \/ rc = EXIT_INVALID)).
Proof.
  intros H. unfold dump. apply wp_bind, wp_os_dump_raw. intros [[rc ok] o1] en1 [Hrc Ho1].
  assert (Hrc' : rc = 0 \/ rc = EXIT_INVALID) by tauto.
  apply wp_bind. eapply wp_mono; [by apply wp_os_print_liveness |].
  intros [h o2] en2 w2 [(r2 & E & Hp2) Ho2]. cbn [fst snd] in *. subst h.
  destruct ok.
  2: { apply wp_ret. split; [| done]. split; [by exists r2 |].
       constructor; [done |]. by apply Forall_app. }
  apply wp_bind. eapply wp_mono; [by apply wp_os_print_value, Hp2 |].
  intros [h o3] en3 w3 [(r3 & E & Hp3) Ho3]. cbn [fst snd] in *. subst h.
  pose proof (reader_post_trans _ _ _ _ _ (proj1 Hp2) Hp3) as Hp.
  assert (Hk : forall r4 o4 w4 en4, reader_post base r3 r4 w4 -> Forall defined o4 ->
    wp (ret (Some r4, (rc, Line ("channel       " ++ name ++ " (" ++ path ++ ")")%string
                           :: o1 ++ o2 ++ o3 ++ o4))) en4 w4
      (fun '(h, (rc, o)) _ w' => view_post base r (h, o) w' /\ (rc = 0 \/ rc = EXIT_INVALID))).
  { intros r4 o4 w4 en4 Hp4 Ho4. apply wp_ret. split; [| done].
    split; [exists r4; split; [done | by eapply reader_post_trans; [apply Hp |]] |].
    constructor; [done |]. by rewrite !Forall_app. }
  apply wp_bind. destruct hex; [| apply wp_ret, Hk; [by apply reader_post_refl, Hp3 | done]].
  eapply wp_mono; [by apply wp_os_print_hex, Hp3 |].
  intros [h o4] en4 w4 [(r4 & E & Hp4) Ho4]. cbn [fst snd] in *. subst h. by apply Hk.
Qed.

(** ** Printing and watching *)

Lemma wp_os_emit (l : list out) (en : Z) (w : world) (Q : unit -> Z -> world -> Prop) :
  Forall defined l -> Q tt en w -> wp (emit l) en w Q.
Proof.
  intros Hl HQ. induction Hl as [|o l Ho _ IH]; cbn [emit]; [by apply wp_ret |].
  apply wp_bind. by destruct o; [apply wp_os_same | apply wp_os_same |].
Qed.

Lemma wp_os_watch_key_of (base w : world) (r : psmsgr_state_reader) (path : string) (en : Z) :
  attached_in base r w ->
  wp (watch_key_of (Some r) path) en w
    (fun '(h, _) _ w' => exists r', h = Some r' /\ reader_post base r r' w').
Proof.
  intros H. unfold watch_key_of. apply wp_bind, wp_os; [done |]. intros st w' ->.
  apply wp_bind. eapply wp_mono; [by apply wp_os_peek |].
  intros [h [rc info]] en2 w2 (r2 & -> & Hp2 & _).
  apply wp_bind. eapply wp_mono; [apply (wp_os_writer_alive base), Hp2 |].
  intros [alive h] en3 w3 (r3 & -> & Hp3 & _). apply wp_ret. exists r3.
  split; [done |]. by eapply reader_post_trans; [apply Hp2 |].
Qed.

(** The inner loop keeps the handle, however long it waits. *)
Lemma wp_os_watch_wait (base w : world) (wait_fuel fuel : nat) (r : psmsgr_state_reader)
    (path : string) (key : watch_key) (en : Z) :
  attached_in base r w ->
  wp (loop fuel (watch_wait wait_fuel path key) (Some r, key)) en w
    (fun '(h, _) _ w' => exists r', h = Some r' /\ reader_post base r r' w').
Proof.
  intros H. apply (wp_loop (fun '(h, _) _ w' => exists r', h = Some r' /\ reader_post base r r' w'));
    [done | | exists r; split; [done | by apply reader_post_refl]].
  clear en. intros [h next] en w1 (r1 & -> & Hp1). unfold watch_wait.
  apply wp_bind, wp_os; [done |]. intros stop w' ->. destruct (stop || _); [apply wp_ret; eauto |].
  apply wp_bind. eapply wp_mono; [apply (wp_os_state_wait base), Hp1 |].
  intros [rc h] en2 w2 (r2 & -> & _ & Hp2).
  pose proof (reader_post_trans _ _ _ _ _ (proj1 Hp1) Hp2) as Hp.
  assert (Hk : forall en', wp (let* stop := call ReadStop in
    if stop then ret (inl (Some r2, next))
    else let* (r, next) := watch_key_of (Some r2) path in ret (inl (r, next))) en' w2
    (fun (x : (option psmsgr_state_reader * watch_key) + (option psmsgr_state_reader * watch_key))
         en' s' => match x with
       | inl x' => let '(h, _) := x' in exists r', h = Some r' /\ reader_post base r r' s'
       | inr a => let '(h, _) := a in exists r', h = Some r' /\ reader_post base r r' s'
       end)).
  { intros en'. apply wp_bind, wp_os; [done |]. intros [|] w' ->; [apply wp_ret; eauto |].
    apply wp_bind. eapply wp_mono; [apply (wp_os_watch_key_of base), Hp2 |].
    intros [h k] en3 w3 (r3 & -> & Hp3). apply wp_ret. exists r3. split; [done |].
    by eapply reader_post_trans; [apply Hp |]. }
  apply wp_bind. destruct (_ && _).
  - unfold sleep_ms. apply wp_bind, wp_os; [done |]. intros x w' ->. apply wp_ret.
    eapply wp_mono; [apply Hk |]. by intros [[h k]|[h k]].
  - apply wp_ret. eapply wp_mono; [apply Hk |]. by intros [[h k]|[h k]].
Qed.

Lemma wp_os_watch (base w : world) (wait_fuel fuel : nat) (tty hex : bool)
    (r : psmsgr_state_reader) (name path : string) (en : Z) :
  attached_in base r w ->
  wp (watch strftime_date strftime_zone strerror wait_fuel fuel junk tty (Some r) name path hex) en w
    (fun '(h, rc) _ w' => rc = 0 /\ exists r', h = Some r' /\ reader_post base r r' w').
Proof.
  intros H. unfold watch. apply wp_bind. eapply wp_mono; [by apply wp_os_watch_key_of |].
  intros [h key] en1 w1 (r1 & -> & Hp1). apply wp_bind.
  apply (wp_loop (fun '(h, _, _) _ w' => exists r', h = Some r' /\ reader_post base r r' w'));
    [done | | exists r1; by split].
  clear - Hjunk. intros [[h key] first] en w (r1 & -> & Hp1). unfold watch_body.
  apply wp_bind, wp_os; [done |]. intros [|] w' ->; [apply wp_ret, wp_ret; eauto |].
  assert (Hk : forall en', wp (let* (r, (_, o)) := dump strftime_date strftime_zone strerror junk (Some r1) name path hex in
    emit o ;;;
    let* (r, next) := loop fuel (watch_wait wait_fuel path key) (r, key) in
    ret (inl (r, next, false))) en' w
    (fun (x : (option psmsgr_state_reader * watch_key * bool) + option psmsgr_state_reader)
         en' s' => match x with
       | inl x' => let '(h, _, _) := x' in exists r', h = Some r' /\ reader_post base r r' s'
       | inr a => wp (ret (a, 0)) en' s'
           (fun '(h, rc) _ w' => rc = 0 /\ exists r', h = Some r' /\ reader_post base r r' w')
       end)).
  { intros en'. apply wp_bind. eapply wp_mono; [apply (wp_os_dump base), Hp1 |].
    intros [h [rc o]] en2 w2 [[(r2 & E & Hp2) Hdef] _]. cbn [fst snd] in *. subst h.
    apply wp_bind, wp_os_emit; [done |]. apply wp_bind.
    eapply wp_mono; [apply (wp_os_watch_wait base), Hp2 |].
    intros [h next] en3 w3 (r3 & -> & Hp3). apply wp_ret. exists r3. split; [done |].
    eapply reader_post_trans; [| exact Hp3]. eapply same_handle_trans; [apply Hp1 | apply Hp2]. }
  assert (Hp : wp (if tty then call (Print false clear_screen)
    else if negb first then call (Print false (char_str NL)) else ret tt) en w (fun _ _ w' => w' = w)).
  { destruct tty; [by apply wp_os_same |].
    destruct (negb first); [by apply (wp_os_same (Print false (char_str NL))) | by apply wp_ret]. }
  apply wp_bind. eapply wp_mono; [exact Hp |]. intros [] en2 w2 ->.
  eapply wp_mono; [apply Hk |]. by intros [[[h k] f]|h].
Qed.

Lemma wp_os_usage_error (msg : option string) (en : Z) (w : world) (Q : Z -> Z -> world -> Prop) :
  Q EXIT_USAGE en w -> wp (usage_error msg) en w Q.
Proof.
  intros HQ. unfold usage_error. apply wp_bind.
  assert (Hk : wp (call (Print true usage_text) ;;; ret EXIT_USAGE) en w Q).
  { apply wp_bind, wp_os_same; [done | done |]. intros []. by apply wp_ret. }
  destruct msg; [by apply wp_os_same | by apply wp_ret].
Qed.

Lemma wp_os_parse_options (l : list (ascii * string)) (o : options) (en : Z) (w : world)
    (Q : options + Z -> Z -> world -> Prop) :
  string_arg (op_dir o) -> Forall (fun x => cstring (snd x)) l ->
  (forall o, string_arg (op_dir o) -> Q (inl o) en w) ->
  (forall rc, rc = 0 \/ rc = EXIT_USAGE -> Q (inr rc) en w) ->
  wp (parse_options l o) en w Q.
Proof.
  intros Ho Hl Hin Hout. revert o Ho. induction Hl as [|[c a] l Ha _ IH]; intros o Ho; cbn [parse_options].
  - by apply wp_ret, Hin.
  - cbn [snd] in Ha. destruct (c =? "d")%char; [by apply IH |].
    destruct (c =? "w")%char; [by apply IH |]. destruct (c =? "x")%char; [by apply IH |].
    destruct (c =? "h")%char.
    + apply wp_bind, wp_os_same; [done | done |]. intros []. apply wp_ret, Hout. by left.
    + apply wp_bind, wp_os_usage_error, wp_ret, Hout. by right.
Qed.

(** An exit status. *)
Definition status_ok (rc : Z) : Prop := rc = 0 \/ rc = EXIT_INVALID \/ rc = EXIT_USAGE.

(** The part of [main] that runs with the reader open. *)
Lemma wp_os_dump_open (w : world) (r : psmsgr_state_reader) (wait_fuel fuel : nat) (tty : bool)
    (o : options) (d : string) (en : Z) :
  reader_owns w r -> r_hdr r = None ->
  wp (let* blk := call (Malloc (Z.of_nat (path_len d (op_name o)))) in
    match blk with
    | None =>
        psmsgr_state_reader_close (Some r) ;;;
        emit [Error "out of memory"] ;;;
        ret EXIT_INVALID
    | Some blk =>
        let path := dump_path d (op_name o) in
        let* (r, rc) :=
          if op_watch o
          then watch strftime_date strftime_zone strerror wait_fuel fuel junk tty (Some r) (op_name o) path (op_hex o)
          else let* (r, (rc, l)) := dump strftime_date strftime_zone strerror junk (Some r)
                                      (op_name o) path (op_hex o) in
               emit l ;;;
               ret (r, rc) in
        call (Free blk) ;;;
        psmsgr_state_reader_close r ;;;
        ret rc
    end) en (reader_base w r) (fun rc _ w' => w' = w /\ status_ok rc).
Proof.
  intros Ho Hn. assert (Ha : attached_in (reader_base w r) r (reader_base w r)).
  { unfold attached_in. by rewrite Hn. }
  apply wp_bind, wp_os; [done |]. intros [b|] w' Hs; cbn [world_step] in Hs.
  2: { subst w'. apply wp_bind, (wp_os_reader_close w); [done | done |]. intros en'.
       apply wp_bind, wp_os_emit; [by repeat constructor |]. apply wp_ret.
       split; [done | right; by left]. }
  destruct Hs as [Hb ->]. cbv zeta. apply wp_bind.
  assert (Hk : forall r2 w2 en2 rc, status_ok rc ->
    reader_post (add_blk b (reader_base w r)) r r2 w2 ->
    wp (call (Free b) ;;; psmsgr_state_reader_close (Some r2) ;;; ret rc) en2 w2
      (fun rc _ w' => w' = w /\ status_ok rc)).
  { intros r2 w2 en2 rc Hrc [Hs Ha2].
    destruct (attached_del_blk _ _ _ _ Hb Ha2) as [Hin Ha3].
    apply wp_bind, wp_os; [done |]. intros [] w3 ->.
    destruct (reader_owns_same w r r2 Hs Ho) as [Ho2 Eb]. rewrite <- Eb in Ha3.
    apply wp_bind, (wp_os_reader_close w); [done | done |]. intros en3. by apply wp_ret. }
  destruct (op_watch o).
  - eapply wp_mono; [by apply (wp_os_watch (add_blk b (reader_base w r))), attached_add_blk |].
    intros [h rc] en2 w2 (-> & r2 & -> & Hp). apply Hk; [by left | done].
  - apply wp_bind. eapply wp_mono; [by apply (wp_os_dump (add_blk b (reader_base w r))), attached_add_blk |].
    intros [h [rc l]] en2 w2 [[(r2 & E & Hp) Hdef] Hrc]. cbn [fst snd] in *. subst h.
    apply wp_bind, wp_os_emit; [done |]. apply wp_ret, Hk; [| done]. unfold status_ok. tauto.
Qed.

Lemma wp_os_dump_run (wait_fuel fuel : nat) (tty : bool) (o : options) (en : Z) (w : world) :
  string_arg (op_dir o) ->
  wp (dump_run strftime_date strftime_zone strerror wait_fuel fuel junk tty o) en w
    (fun rc _ w' => w' = w /\ status_ok rc).
Proof.
  intros Hd. unfold dump_run. cbv zeta. apply wp_bind.
  eapply wp_mono; [by apply wp_os_reader_open |]. intros [rc [r|]] en1 w1.
  - intros (-> & Hn & Ho & -> & _). cbn [Z.eqb PSMSGR_OK PSMSGR_E_INVAL negb]. apply wp_bind.
    destruct (op_dir o); [by apply wp_ret, wp_os_dump_open | apply wp_os; [done |]].
    intros env w' [_ ->]. by apply wp_os_dump_open.
  - intros [-> ->]. cbn [orb]. destruct (negb _ || _); cbn [Z.eqb].
    + apply wp_os_usage_error. split; [done | by right; right].
    + apply wp_bind, wp_get_errno, wp_bind, wp_os_emit; [by repeat constructor |].
      apply wp_ret. split; [done | right; by left].
Qed.

(** ** Properties *)

(** C21. psmsgr-dump is safe on any system and any file.  The whole program -
    its options, the raw view, the liveness, the value and the hexdump, once
    or with --watch for as long as it runs - loads and stores inside live
    mappings only, uses open descriptors and live blocks only, prints nothing
    that depends on memory nobody wrote (a slot not read, an info not filled
    in, a payload byte past the buffer), and when it ends it has released
    every descriptor, mapping and block and exits with 0, 1 or 2 - whatever
    the system calls answer and whatever bytes the file holds. *)
Theorem dump_main_safe (wait_fuel fuel : nat) (tty : bool) (opts : list (ascii * string))
    (args : list string) (en : Z) (w : world) :
  Forall (fun x => cstring (snd x)) opts ->
  wp (dump_main strftime_date strftime_zone strerror wait_fuel fuel junk tty opts args) en w
    (fun rc _ w' => w' = w /\ status_ok rc).
Proof.
  intros Ho. unfold dump_main. apply wp_bind, wp_os_parse_options; [done | done | |].
  - intros o Hd. destruct args as [|name [|]]; [| by apply wp_os_dump_run |];
      apply wp_os_usage_error; (split; [done | by right; right]).
  - intros rc Hrc. apply wp_ret. split; [done |]. unfold status_ok. tauto.
Qed.
End safe.

(** psmsgr-dump accepts exactly the headers a reader attaches to: its
    report of a problem is empty if and only if the library's own validation
    of the header, in a file of that size, succeeds. *)
Theorem header_problem_agrees (h : psmi_header) (file_bytes : Z) :
  header_problem h file_bytes = None <-> header_valid h file_bytes = true.
Proof. apply header_problem_valid. Qed.

(** The hexdump loses nothing: reading its rows back gives the bytes it
    was asked to show, all of them and in order, for every length the loop's
    32-bit offset can reach. *)
Theorem hexdump_roundtrip (p : list Z) (len : Z) :
  Forall is_byte p -> 0 <= len <= Z.of_nat (length p) -> len <= 4294967280 ->
  undump (omap (fun o => match o with Line s => Some s | _ => None end) (hexdump p len)) =
  take (Z.to_nat len) p.
Proof.
  intros Hp Hl Hm. unfold hexdump. destruct (Z.ltb_spec (Z.of_nat (length p)) len); [lia |].
  rewrite lines_of_line. apply undump_hexdump_from; [done | | | by apply Forall_take];
    rewrite length_take; lia.
Qed.

(** The tool looks at the file readers attach to: the path it prints and
    opens is the library's path of the channel's data file, for the same
    directory, environment and name, and the buffer it is written to is just
    long enough. *)
Theorem dump_path_is_data_path (dir : option string) (env : option string) (name : string)
    (blk : Z) :
  string_arg dir -> string_arg env -> cstring name ->
  let d := dump_dir dir env in
  d = (match dir with Some d => d | None => default_dir env end) /\
  pt_data <$> paths_fill d name (paths_size d name) blk = Some (dump_path d name) /\
  String.length (dump_path d name) = (path_len d name - 1)%nat.
Proof.
  intros Hd He Hn d. assert (Ed : d = match dir with Some d => d | None => default_dir env end).
  { unfold d. destruct dir; [done |]. by destruct env. }
  split; [done |]. assert (Hcd : cstring d).
  { rewrite Ed. destruct dir; [done |]. unfold default_dir. destruct env as [e|]; [| by apply cstring_lit].
    destruct (e =? "")%string; [by apply cstring_lit | done]. }
  rewrite paths_fill_spec by done. cbn [fmap option_fmap option_map pt_data]. clearbody d.
  assert (El : (d ++ "/psmsgr." ++ name ++ ".state")%string = (d ++ "/" ++ state_file name)%string)
    by done.
  unfold dump_path. rewrite El. clear El.
  assert (Hl : String.length (d ++ "/" ++ state_file name)%string = (path_len d name - 1)%nat).
  { unfold state_file, path_len. rewrite !str_length_app. cbn [String.length]. lia. }
  rewrite <- Hl. rewrite substring_all. done.
Qed.

(** ** Witnesses *)

Lemma dump_main_safe_witness :
  wp (dump_main (C := config64) (fun _ => None) (fun _ => "") (fun _ => "error") 3 100
        (fun n => replicate (Z.to_nat n) 7) false [("d"%char, "/run/psmsgr"); ("x"%char, "")]
        ["motor"]) 0 empty_world
    (fun rc _ w' => w' = empty_world /\ status_ok rc).
Proof.
  apply (dump_main_safe (C := config64)).
  - intros n Hn. rewrite length_replicate. lia.
  - apply Forall_cons; split; [by apply cstring_lit |].
    apply Forall_cons; split; [by apply cstring_lit | done].
Defined.

Lemma hexdump_roundtrip_witness :
  undump (omap (fun o => match o with Line s => Some s | _ => None end)
    (hexdump [0; 65; 255; 3; 4; 5; 6; 7; 8; 9; 10; 11; 12; 13; 14; 15; 16; 17] 17)) =
  take 17 [0; 65; 255; 3; 4; 5; 6; 7; 8; 9; 10; 11; 12; 13; 14; 15; 16; 17].
Proof.
  apply (hexdump_roundtrip [0; 65; 255; 3; 4; 5; 6; 7; 8; 9; 10; 11; 12; 13; 14; 15; 16; 17] 17).
  - repeat constructor; unfold is_byte; lia.
  - cbn. lia.
  - lia.
Defined.

Lemma dump_path_is_data_path_witness :
  let d := dump_dir None (Some "/run/psmsgr") in
  d = "/run/psmsgr" /\
  pt_data <$> paths_fill d "motor" (paths_size d "motor") 1 = Some (dump_path d "motor") /\
  String.length (dump_path d "motor") = (path_len d "motor" - 1)%nat.
Proof.
  apply (dump_path_is_data_path None (Some "/run/psmsgr") "motor" 1); [done | |];
    by apply cstring_lit.
Defined.
