(* ===== verification/Verdict.v ===== *)
(** * The verdict of psmsgr-dump

    The raw view of the tool and the readers' view of the same file, with
    nobody writing to it: what the [latest] line announces is what readers
    get. *)
From S2P Require Import Prelude Prog Common Layout Names Options Writer Reader Text Dump.
From S2P Require Import Memory Protocol World ReaderSafety.
From S2P Require Import Published Seqlock WriterProof Session Delivery Example.
From Stdlib Require Import Ascii.
#[local] Open Scope string_scope.
#[local] Open Scope list_scope.
#[local] Open Scope Z_scope.

Section still.
Context {C : Config}.
(** The file's bytes, the mapping of the reader and the descriptor of the
    tool. *)
Context (m : mem) (blk size fd : Z).

Definition still_pre (e : ev) (s : unit) : Prop :=
  match e with
  | Load32 _ p => in_map blk size p 4 /\ aligned p 4
  | Load8 p => in_map blk size p 1
  | SysPread fd' _ _ => fd' = fd
  | Store32 _ _ _ | Store8 _ _ | FetchOr32 _ _ _ | FetchAdd32 _ _ _ => False
  | _ => True
  end.

(** Loads and reads see the file's bytes; a read may also fail. *)
Definition still_step (e : ev) (s : unit) : resp e -> unit -> Prop :=
  match e return resp e -> unit -> Prop with
  | Load32 _ p => fun r _ => r = word m (p_off p)
  | Load8 p => fun r _ => r = m (p_off p)
  | SysPread _ n off => fun r _ =>
      match r with
      | inl bs => bs = read_bytes m off (Z.to_nat (Z.min n (size - off)))
      | inr _ => True
      end
  | _ => fun _ _ => True
  end.

#[local] Instance still_sem : Sem unit := {
  sem_pre := still_pre; sem_step := still_step; sem_out := False
}.

Context (g : geometry) (Hg : geometry_ok g) (Hsize : psmi_file_size (g_slots g) (g_stride g) <= size).

Lemma wp_st (e : ev) (en : Z) (Q : resp e -> Z -> unit -> Prop) :
  still_pre e tt -> (forall r, still_step e tt r tt -> Q r (resp_errno e r en) tt) ->
  wp (call e) en tt Q.
Proof. intros Hp HQ. apply wp_call; [done |]. intros r []. apply HQ. Qed.

Lemma wp_st_load_bytes (n : nat) (p : ptr) (en : Z) (Q : list Z -> Z -> unit -> Prop) :
  in_map blk size p (Z.of_nat n) -> Q (read_bytes m (p_off p) n) en tt -> wp (load_bytes p n) en tt Q.
Proof.
  revert p Q. induction n as [|n IH]; intros p Q Hm HQ; cbn [load_bytes]; [by apply wp_ret |].
  destruct Hm as (Hb & H0 & H1).
  apply wp_bind, wp_st; [split; [done | lia] |]. intros b Hr. cbn [still_step] in Hr. subst b.
  apply wp_bind, IH; [split; [done |]; cbn [ptr_add p_off]; lia |].
  apply wp_ret. cbn [ptr_add p_off]. rewrite read_bytes_S in HQ. exact HQ.
Qed.

(** ** The two views *)

Definition slot_of (i : Z) : psmi_slot :=
  decode_slot (read_bytes m (slot_offset (g_stride g) i) 32).

Definition latest_of : Z := word m HOff.latest.

(** What a read of the file at rest says. *)
Definition verdict : Z :=
  if latest_of =? PSMI_LATEST_NONE then PSMSGR_E_NODATA
  else if negb (psmi_latest_valid latest_of (g_slots g)) then PSMSGR_E_FORMAT
  else
    let i := psmi_latest_slot latest_of in
    let seq := s_seq (slot_of i) in
    if negb (Z.land seq 1 =? 0) || negb (psmi_latest i seq =? latest_of) then PSMSGR_E_BUSY
    else if g_cap g <? s_length (slot_of i) then PSMSGR_E_FORMAT
    else PSMSGR_OK.

Lemma slot_of_seq (i : Z) : s_seq (slot_of i) = word m (slot_offset (g_stride g) i).
Proof. unfold slot_of, decode_slot. cbn [s_seq]. rewrite field_read by lia. by rewrite Z.add_0_r. Qed.

Lemma slot_of_length (i : Z) :
  s_length (decode_slot (read_bytes m (slot_offset (g_stride g) i) 20)) = s_length (slot_of i).
Proof. unfold slot_of, decode_slot. cbn [s_length]. by rewrite !field_read by lia. Qed.

(** A handle attached to the file. *)
Definition on_file (r : psmsgr_state_reader) : Prop :=
  r_hdr r = Some {| p_blk := blk; p_off := 0 |} /\ r_slot_count r = g_slots g /\
  r_slot_stride r = g_stride g /\ r_capacity r = g_cap g.

Lemma wp_st_copy (s : ptr) (n en : Z) (Q : list Z -> Z -> unit -> Prop) :
  0 < n -> in_map blk size s n -> Q (read_bytes m (p_off s) (Z.to_nat n)) en tt ->
  wp (psmi_seq_copy_from s n) en tt Q.
Proof.
  intros Hn Hm HQ. unfold psmi_seq_copy_from. destruct (Z.eqb_spec n 0); [lia |]. cbn [negb].
  apply wp_st_load_bytes; [by rewrite Z2Nat.id by lia | done].
Qed.

(** One attempt: it starts over exactly where the verdict is BUSY. *)
Lemma wp_st_read_attempt (r : psmsgr_state_reader) (en : Z)
    (Q : list Z + rresult -> Z -> unit -> Prop) :
  on_file r ->
  (verdict = PSMSGR_E_BUSY -> Q (inl []) en tt) ->
  (verdict <> PSMSGR_E_BUSY -> forall info, Q (inr (verdict, [], info)) en tt) ->
  wp (read_attempt r 0 false []) en tt Q.
Proof.
  intros (Eh & En & Es & Ec) Hb Ho. unfold read_attempt, hdr_of. rewrite Eh.
  change (default NULL_PTR (Some ?p)) with p. rewrite En, Es, Ec.
  pose proof (psmi_file_size_arith g Hg) as Ea. rewrite Ea in Hsize.
  pose proof (stride_bounds g Hg) as (Hst & Hcap & Hm). pose proof Hg as (Hn & _).
  apply wp_bind, wp_st.
  { split; [| done]. split; [done |]. cbn [ptr_add p_off]. change HOff.latest with 40. nia. }
  intros latest Hl. cbn [still_step ptr_add p_off Z.add] in Hl. change (latest = latest_of) in Hl.
  subst latest. unfold verdict in Hb, Ho.
  destruct (latest_of =? PSMI_LATEST_NONE) eqn:E1; [by apply wp_ret, Ho |].
  destruct (psmi_latest_valid latest_of (g_slots g)) eqn:E2; cbn [negb] in *; [| by apply wp_ret, Ho].
  pose proof (valid_slot _ _ E1 E2) as Hi. cbv zeta in *.
  set (i := psmi_latest_slot latest_of) in *.
  assert (Hin : 0 <= slot_offset (g_stride g) i /\ slot_offset (g_stride g) i + 32 <= size /\
                slot_offset (g_stride g) i mod 4 = 0).
  { unfold slot_offset, PSMI_HEADER_SIZE. apply Z.mod_divide in Hm as [k Hk]; [| lia].
    split; [nia | split; [nia |]]. rewrite Hk.
    replace (128 + i * (k * 64)) with ((32 + i * k * 16) * 4) by lia. apply Z_mod_mult. }
  destruct Hin as (Hi0 & Hi1 & Hi2).
  assert (Hpre : still_pre (Load32 Acquire (ptr_add (ptr_add {| p_blk := blk; p_off := 0 |}
      (slot_offset (g_stride g) i)) SOff.seq)) tt).
  { unfold still_pre, in_map, aligned. cbn [ptr_add p_off p_blk]. unfold SOff.seq.
    rewrite Z.add_0_l, Z.add_0_r. repeat split; (done || lia). }
  rewrite slot_of_seq in Hb, Ho.
  apply wp_bind, wp_st; [exact Hpre |]. intros q1 Hq. cbn [still_step ptr_add p_off] in Hq.
  unfold SOff.seq in Hq. rewrite Z.add_0_l, Z.add_0_r in Hq. subst q1.
  set (q := word m (slot_offset (g_stride g) i)) in *.
  destruct (Z.land q 1 =? 0); cbn [negb andb orb] in *; [| by apply wp_ret, Hb].
  destruct (psmi_latest i q =? latest_of); cbn [negb] in *; [| by apply wp_ret, Hb].
  apply wp_bind, wp_st_copy; [done | |].
  { unfold in_map. cbn [ptr_add p_off p_blk]. unfold SOff.reserved. split; [done | lia]. }
  cbn [ptr_add p_off andb]. rewrite Z.add_0_l.
  change (Z.to_nat SOff.reserved) with 20%nat.
  apply wp_bind, wp_ret, wp_bind, wp_st; [done |]. intros [] _.
  apply wp_bind, wp_st; [exact Hpre |]. intros q2 Hq. cbn [still_step ptr_add p_off] in Hq.
  unfold SOff.seq in Hq. rewrite Z.add_0_l, Z.add_0_r in Hq. subst q2.
  rewrite Z.eqb_refl. cbn [orb negb]. rewrite slot_of_length.
  destruct (g_cap g <? s_length (slot_of i)); by apply wp_ret, Ho.
Qed.

Lemma wp_st_read_latest (r : psmsgr_state_reader) (en : Z) (Q : rresult -> Z -> unit -> Prop) :
  on_file r -> (forall info en', Q (verdict, [], info) en' tt) -> wp (read_latest r [] 0 false) en tt Q.
Proof.
  intros Hr HQ. unfold read_latest.
  assert (H : forall n k en, (0 < n)%nat \/ verdict = PSMSGR_E_BUSY ->
    wp (read_retry r 0 false n k []) en tt Q); [| by apply H; left; unfold READ_RETRIES; lia].
  clear en. induction n as [|n IH]; intros k en Hn; cbn [read_retry].
  - apply wp_ret. destruct Hn as [|<-]; [lia |]. apply HQ.
  - apply wp_bind, wp_st_read_attempt; [done | |].
    + intros Hb. apply wp_bind. destruct (3 <=? k); [apply wp_st; [done |]; intros x _ | apply wp_ret];
        apply IH; by right.
    + intros _ info. by apply wp_ret.
Qed.

(** ** The tool's side *)

Lemma wp_st_read_slots (n i : nat) (en : Z) (Q : option (list psmi_slot) -> Z -> unit -> Prop) :
  (forall en', Q None en' tt) ->
  (Z.of_nat (i + n) <= g_slots g) ->
  (forall en', Q (Some (slot_of <$> (Z.of_nat <$> seq 0 (i + n)))) en' tt) ->
  wp (read_slots n fd (g_stride g) (Z.of_nat i) (slot_of <$> (Z.of_nat <$> seq 0 i))) en tt Q.
Proof.
  intros Hno. revert i en. induction n as [|n IH]; intros i en Hn HQ; cbn [read_slots].
  - apply wp_ret. by rewrite Nat.add_0_r in HQ.
  - pose proof (psmi_file_size_arith g Hg) as Ea. rewrite Ea in Hsize.
    pose proof (stride_bounds g Hg) as (Hst & Hcap & _).
    apply wp_bind, wp_st; [done |]. intros [bs|e] Hr; cbn [still_step] in Hr; [| by apply wp_ret].
    rewrite Z.min_l in Hr by (unfold PSMI_HEADER_SIZE, PSMI_SLOT_HEADER_SIZE; nia).
    subst bs. rewrite length_read_bytes. change (Z.of_nat (Z.to_nat PSMI_SLOT_HEADER_SIZE)) with 32.
    cbn [Z.eqb PSMI_SLOT_HEADER_SIZE Pos.eqb].
    specialize (IH (S i)). rewrite seq_S, !fmap_app in IH. cbn [fmap list_fmap Nat.add] in IH.
    replace (Z.of_nat i + 1) with (Z.of_nat (S i)) by lia. apply IH; [lia |].
    intros en'. replace (S (i + n)) with (i + S n)%nat by lia. apply HQ.
Qed.

(** [s] ends in [t]. *)
Definition ends_with (t s : string) : Prop := exists p, s = (p ++ t)%string.

Lemma ends_with_app (t a s : string) : ends_with t s -> ends_with t (a ++ s).
Proof.
  intros [p ->]. exists (a ++ p)%string. induction a as [|c a IH]; [done |].
  exact (f_equal (String c) IH).
Qed.

(** The text of the [latest] line, by the readers' result. *)
Definition line_says (rc : Z) (o : out) : Prop :=
  exists s, o = Line s /\
  if rc =? PSMSGR_E_NODATA then s = "latest        none (nothing published)"
  else if rc =? PSMSGR_E_FORMAT then ends_with "readers get FORMAT" s
  else if rc =? PSMSGR_E_BUSY then ends_with "readers get BUSY" s
  else s = ("latest        0x" ++ hex 8 latest_of ++ ": slot " ++
            dec (psmi_latest_slot latest_of) ++ ", tag " ++
            dec (Z.land (Z.shiftr latest_of 4) PSMI_LATEST_TAG_MASK))%string.

Lemma print_latest_says (slots : list psmi_slot) (h : psmi_header) :
  h_slot_count h = g_slots g -> h_capacity h = g_cap g ->
  slots = slot_of <$> (Z.of_nat <$> seq 0 (Z.to_nat (g_slots g))) ->
  line_says verdict (snd (print_latest latest_of slots h)) /\
  fst (print_latest latest_of slots h) = negb (verdict =? PSMSGR_E_FORMAT).
Proof.
  intros En Ec ->. unfold print_latest, verdict, line_says. rewrite En, Ec.
  destruct (latest_of =? PSMI_LATEST_NONE) eqn:E1; [split; [by eexists | done] |].
  destruct (psmi_latest_valid latest_of (g_slots g)) eqn:E2; cbn [negb];
    [| split; [| done]; eexists; split; [reflexivity |]; apply ends_with_app; by exists "  INVALID: "].
  pose proof (valid_slot _ _ E1 E2) as Hi. cbv zeta. unfold slot_at.
  rewrite !list_lookup_fmap, lookup_seq_lt by lia. cbn [fmap option_fmap option_map Nat.add].
  rewrite Z2Nat.id by lia. set (s := slot_of _).
  destruct (_ || _).
  - split; [| done]. eexists. split; [reflexivity |].
    do 5 apply ends_with_app. by exists "); ".
  - destruct (g_cap g <? s_length s); (split; [| done]); eexists; (split; [reflexivity |]); [| done].
    apply ends_with_app. by exists "  INVALID: length > capacity; ".
Qed.

(** ** Property *)

(** The two views, one after the other. *)
Definition both_views (path : string) (h : psmi_header) (r : psmsgr_state_reader)
    : prog (Z * bool * list out * rresult) :=
  let* d := dump_slots path fd h in
  let* x := read_latest r [] 0 false in
  ret (d, x).

(** C20. The verdict of psmsgr-dump is the readers'.  On a file with a valid
    header that nobody is writing to, when the tool reads the whole view, its
    exit status is 1 exactly if a reader attached to the file gets FORMAT, and
    its first line says what the reader gets: nothing published, FORMAT, BUSY,
    or else the slot and the tag of the value. *)
Theorem dump_verdict (path : string) (h : psmi_header) (r : psmsgr_state_reader) (en : Z) :
  on_file r -> geometry_of h = g ->
  wp (both_views path h r) en tt
    (fun '((rc, read_ok, o), (rrc, _, _)) _ _ =>
       if read_ok
       then rc = (if rrc =? PSMSGR_E_FORMAT then EXIT_INVALID else 0) /\
            exists line rows, o = line :: rows /\ line_says rrc line
       else rc = EXIT_INVALID).
Proof.
  intros Hr Eg. assert (Ec : h_slot_count h = g_slots g /\ h_capacity h = g_cap g /\
    h_slot_stride h = g_stride g) by (by rewrite <- Eg).
  destruct Ec as (En & Ec & Es). pose proof Hg as (Hn & _).
  pose proof (psmi_file_size_arith g Hg) as Ea. pose proof (stride_bounds g Hg) as (Hst & Hcap & _).
  pose proof Hsize as Hsz. rewrite Ea in Hsz. unfold both_views. apply wp_bind. unfold dump_slots.
  assert (Hshort : forall en', wp (ret (EXIT_INVALID, false,
      [Error (path ++ " changed size while being read")%string])) en' tt
    (fun d en' s => wp (let* x := read_latest r [] 0 false in ret (d, x)) en' s
       (fun '((rc, read_ok, o), (rrc, _, _)) _ _ =>
       if read_ok
       then rc = (if rrc =? PSMSGR_E_FORMAT then EXIT_INVALID else 0) /\
            exists line rows, o = line :: rows /\ line_says rrc line
       else rc = EXIT_INVALID))).
  { intros en'. apply wp_ret, wp_bind, wp_st_read_latest; [done |]. intros. by apply wp_ret. }
  apply wp_bind, wp_st; [done |]. intros [bs|e] Hb; cbn [still_step] in Hb; [| apply Hshort].
  assert (Hsz4 : HOff.latest + 4 <= size) by (change HOff.latest with 40; nia).
  rewrite Z.min_l in Hb by lia. subst bs.
  rewrite length_read_bytes. change (le_val (read_bytes m HOff.latest (Z.to_nat 4))) with latest_of.
  cbn [Z.to_nat Z.of_nat Pos.to_nat Z.eqb negb]. apply wp_bind. rewrite Es, En.
  apply (wp_st_read_slots (Z.to_nat (g_slots g)) 0); [exact Hshort | lia |].
  intros en1. cbn [Nat.add]. set (slots := slot_of <$> _).
  pose proof (print_latest_says slots h En Ec eq_refl) as [Hline Hok].
  destruct (print_latest latest_of slots h) as [ok line]. cbn [fst snd] in *.
  apply wp_bind. unfold print_slots, psmsgr_now_ns, psmi_clock_ns.
  apply wp_bind, wp_bind, wp_st; [done |]. intros [sec nsec] _.
  apply wp_ret, wp_ret, wp_ret, wp_bind, wp_st_read_latest; [done |]. intros info en2. apply wp_ret.
  split; [| eauto]. subst ok. by destruct (verdict =? PSMSGR_E_FORMAT).
Qed.
End still.

(** ** Witness *)

(** The file of Example.v, empty, and a reader of it. *)
Definition ex_reader : psmsgr_state_reader := {|
  r_block := 1; r_hdr := Some {| p_blk := 7; p_off := 0 |}; r_map_size := ex_size;
  r_slot_count := 2; r_slot_stride := 64; r_capacity := 32; r_payload_type := 7;
  r_config_flags := 0; r_announce := true; r_dev := 0; r_ino := 0;
  r_paths := {| pt_block := 2; pt_dir := "/dev/shm"; pt_data := "/dev/shm/psmsgr.m.state";
                pt_lock := "/dev/shm/psmsgr.m.lock"; pt_data_base := "psmsgr.m.state" |} |}.

Lemma dump_verdict_witness :
  wp (HS := still_sem ex_init 7 ex_size 5)
    (both_views (C := config64) 5 "/dev/shm/psmsgr.m.state" (header0 ex_init) ex_reader) 0 tt
    (fun '((rc, read_ok, o), (rrc, _, _)) _ _ =>
       if read_ok
       then rc = (if rrc =? PSMSGR_E_FORMAT then EXIT_INVALID else 0) /\
            exists line rows, o = line :: rows /\ line_says ex_init rrc line
       else rc = EXIT_INVALID).
Proof.
  apply (dump_verdict (C := config64) ex_init 7 ex_size 5 ex_geometry).
  - apply ex_data_file.
  - vm_compute. discriminate.
  - repeat split.
  - apply ex_data_file.
Defined.
