(* ===== verification/Total.v ===== *)
(** * Programs that return in any environment

    A program no loop of which can run out of fuel, whatever it is told; every
    call of the library without a loop that waits for others is one. *)
From S2P Require Import Prelude Prog Common Layout Names Options Writer Reader Channel.
#[local] Open Scope string_scope.
#[local] Open Scope list_scope.
#[local] Open Scope Z_scope.

(** ** Programs that return *)

(** No loop of the program runs out of fuel, whatever the answers. *)
Fixpoint never_out {A : Type} (p : free A) : Prop :=
  match p with
  | Ret _ => True
  | Vis e k => forall r, never_out (k r)
  | Out => False
  end.

Definition total {A : Type} (m : prog A) : Prop := forall en, never_out (m en).

Lemma never_out_bind {A B : Type} (p : free A) (f : A -> free B) :
  never_out p -> (forall a, never_out (f a)) -> never_out (fbind p f).
Proof. induction p as [a | e k IH |]; cbn; intros Hp Hf; [apply Hf | auto | done]. Qed.

Lemma total_ret {A : Type} (a : A) : total (ret a).
Proof. by intros en. Qed.

Lemma total_call (e : ev) : total (call e).
Proof. by intros en r. Qed.

Lemma total_get_errno : total get_errno.
Proof. by intros en. Qed.

Lemma total_set_errno (e : Z) : total (set_errno e).
Proof. by intros en. Qed.

Lemma total_bind {A B : Type} (m : prog A) (f : A -> prog B) :
  total m -> (forall a, total (f a)) -> total (bind m f).
Proof. intros Hm Hf en. apply never_out_bind; [apply Hm |]. intros [a en']. apply Hf. Qed.

Create HintDb total.
#[export] Hint Resolve total_ret total_call total_get_errno total_set_errno : total.

(** Goes through a program, with the lemmas of the database for what it
    calls. *)
Ltac total :=
  repeat first
    [ solve [auto with total nocore]
    | match goal with |- total (call ?e) => exact (total_call e) end
    | apply total_bind; [| intros ?]
    | match goal with |- total (match ?x with _ => _ end) => destruct x end
    | progress cbv beta zeta ].

(** A program that returns does so in every environment that lets it run. *)
Lemma total_wp {S A : Type} {HS : Sem S} (R : S -> S -> Prop) (m : prog A) (en : Z) (s : S) :
  (forall s, R s s) -> (forall s1 s2 s3, R s1 s2 -> R s2 s3 -> R s1 s3) ->
  (forall e s, sem_pre e s) -> (forall e s r s', sem_step e s r s' -> R s s') ->
  total m -> wp m en s (fun _ _ s' => R s s').
Proof.
  intros Hrefl Htrans Hpre Hstep Hm. specialize (Hm en). unfold wp.
  revert s. induction (m en) as [[a en'] | e k IH |]; intros s; cbn in *; [done | | done].
  split; [done |]. intros r s' Hs. eapply wpf_mono; [by apply IH |].
  intros [a en'] s2 H. eapply Htrans; [by eapply Hstep | exact H].
Qed.

(** ** Memory and the small helpers *)

Section calls.
Context {C : Config}.

Lemma total_load_bytes (p : ptr) (n : nat) : total (load_bytes p n).
Proof. revert p. induction n as [|n IH]; intros p; cbn [load_bytes]; total. Qed.

Lemma total_store_bytes (p : ptr) (bs : list Z) : total (store_bytes p bs).
Proof. revert p. induction bs as [|b bs IH]; intros p; cbn [store_bytes]; total. Qed.
#[local] Hint Resolve total_load_bytes total_store_bytes : total.

Lemma total_plain_load (p : ptr) (n : nat) : total (plain_load p n).
Proof. unfold plain_load. total. Qed.

Lemma total_plain_store (p : ptr) (n : nat) (v : Z) : total (plain_store p n v).
Proof. unfold plain_store. total. Qed.

Lemma total_copy_from (p : ptr) (n : Z) : total (psmi_seq_copy_from p n).
Proof. unfold psmi_seq_copy_from. total. Qed.

Lemma total_copy_to (p : ptr) (bs : list Z) (n : Z) : total (psmi_seq_copy_to p bs n).
Proof. unfold psmi_seq_copy_to. total. Qed.

Lemma total_close_keep_errno (fd : Z) : total (close_keep_errno fd).
Proof. unfold close_keep_errno. total. Qed.

Lemma total_clock_ns (c : clockid) : total (psmi_clock_ns c).
Proof. unfold psmi_clock_ns. total. Qed.

Lemma total_paths_init (dir : option string) (name : string) : total (paths_init dir name).
Proof. unfold paths_init. total. Qed.

Lemma total_paths_free (p : paths) : total (paths_free p).
Proof. unfold paths_free. total. Qed.

Lemma total_retire (h : ptr) : total (retire h).
Proof. unfold retire, futex_wake_all. total. Qed.

Lemma total_read_header (fd : Z) : total (read_header fd).
Proof. unfold read_header. total. Qed.

Lemma total_random_generation : total random_generation.
Proof.
  unfold random_generation.
  assert (H := total_clock_ns). total.
Qed.
#[local] Hint Resolve total_plain_load total_plain_store total_copy_from total_copy_to
  total_close_keep_errno total_clock_ns total_paths_init total_paths_free total_retire
  total_read_header total_random_generation : total.

(** ** The data file *)

Lemma total_create_file (w : psmsgr_state_writer) (o : psmsgr_state_options) (p : paths)
    (old : option ptr) (gen : Z) : total (create_file w o p old gen).
Proof. unfold create_file, create_fail, store_header, load_geom. total. Qed.
#[local] Hint Resolve total_create_file : total.

Lemma total_open_decide (w : psmsgr_state_writer) (o : psmsgr_state_options) (p : paths)
    (old : option ptr) (size : Z) (valid : bool) (h : psmi_header) (latest : Z) :
  total (open_decide w o p old size valid h latest).
Proof. unfold open_decide, carried_generation. total. Qed.
#[local] Hint Resolve total_open_decide : total.

Lemma total_open_data (w : psmsgr_state_writer) (o : psmsgr_state_options) (p : paths) :
  total (open_data w o p).
Proof. unfold open_data. total. Qed.
#[local] Hint Resolve total_open_data : total.

(** ** The calls on an open channel *)

Lemma total_begin_slot (w : psmsgr_state_writer) : total (begin_slot w).
Proof. unfold begin_slot. total. Qed.

Lemma total_commit_slot (w : psmsgr_state_writer) (len : Z) : total (commit_slot w len).
Proof. unfold commit_slot, futex_wake_all. total. Qed.

Lemma total_detach (r : psmsgr_state_reader) : total (detach r).
Proof. unfold detach. total. Qed.

Lemma total_attach (r : psmsgr_state_reader) : total (attach r).
Proof. unfold attach. total. Qed.

Lemma total_retired (r : psmsgr_state_reader) : total (retired r).
Proof. unfold retired. total. Qed.
#[local] Hint Resolve total_begin_slot total_commit_slot total_detach total_attach total_retired : total.

Lemma total_attach_retry (n : nat) (r : psmsgr_state_reader) : total (attach_retry n r).
Proof. revert r. induction n as [|n IH]; intros r; cbn [attach_retry]; total. Qed.
#[local] Hint Resolve total_attach_retry : total.

Lemma total_reader_sync (r : psmsgr_state_reader) : total (reader_sync r).
Proof. unfold reader_sync. total. Qed.

Lemma total_identity_check (r : psmsgr_state_reader) : total (identity_check r).
Proof. unfold identity_check. total. Qed.

Lemma total_read_attempt (r : psmsgr_state_reader) (size : Z) (copy : bool) (buf : list Z) :
  total (read_attempt r size copy buf).
Proof. unfold read_attempt. total. Qed.
#[local] Hint Resolve total_reader_sync total_identity_check total_read_attempt : total.

Lemma total_read_retry (r : psmsgr_state_reader) (size : Z) (copy : bool) (n : nat) (k : Z)
    (buf : list Z) : total (read_retry r size copy n k buf).
Proof. revert k buf. induction n as [|n IH]; intros k buf; cbn [read_retry]; total. Qed.

Lemma total_read_latest (r : psmsgr_state_reader) (buf : list Z) (size : Z) (copy : bool) :
  total (read_latest r buf size copy).
Proof. apply total_read_retry. Qed.
#[local] Hint Resolve total_read_latest : total.

(** The calls of a writer, and those of a reader but [psmsgr_state_wait]. *)
Lemma total_writer_calls (w : option psmsgr_state_writer) :
  (forall data len, total (psmsgr_state_publish w data len)) /\
  (forall buf_null, total (psmsgr_state_begin w buf_null)) /\
  (forall len, total (psmsgr_state_commit w len)) /\
  total (psmsgr_state_writer_close w).
Proof.
  unfold psmsgr_state_publish, psmsgr_state_begin, psmsgr_state_commit, psmsgr_state_writer_close.
  repeat split; intros; total.
Qed.

Lemma total_reader_open (name dir : option string) (out_null : bool) :
  total (psmsgr_state_reader_open name dir out_null).
Proof. unfold psmsgr_state_reader_open. total. Qed.

Lemma total_reader_calls (r : option psmsgr_state_reader) :
  (forall buf size info_null, total (psmsgr_state_read r buf size info_null)) /\
  (forall info_null, total (psmsgr_state_peek r info_null)) /\
  (forall desc size, total (psmsgr_state_describe_sized r desc size)) /\
  total (psmsgr_state_writer_alive r) /\
  total (psmsgr_state_reader_close r).
Proof.
  unfold psmsgr_state_read, psmsgr_state_peek, psmsgr_state_describe_sized,
    psmsgr_state_writer_alive, psmsgr_state_reader_close.
  repeat split; intros; total.
Qed.
End calls.

#[export] Hint Resolve total_load_bytes total_store_bytes total_plain_load total_plain_store
  total_copy_from total_copy_to total_close_keep_errno total_clock_ns total_paths_init
  total_paths_free total_retire total_read_header total_random_generation total_create_file
  total_open_decide total_open_data total_begin_slot total_commit_slot total_detach total_attach
  total_retired total_attach_retry total_reader_sync total_identity_check total_read_attempt
  total_read_latest : total.
