(* ===== verification/Wakeup.v ===== *)
(** * No lost wake-up

    A waiter reads the [notify] counter, then looks for a new value, then goes
    to sleep, but only if the counter still is what it was; a writer publishes,
    then increments the counter, then wakes whoever sleeps.  The waiter's half
    is proved on the reader's machine, where it may make the futex call only
    with a counter value that makes sleeping on it harmless ([may_sleep]); the
    writer's half on a kernel that keeps the waiters asleep ([kernel]), more of
    whom may fall asleep between any two steps of the writer. *)
From S2P Require Import Prelude Prog Common Layout Names Options Writer Reader Memory Protocol.
From S2P Require Import History Published Seqlock WriterProof Session Delivery Total Example.
#[local] Open Scope list_scope.
#[local] Open Scope Z_scope.

(** ** The counter *)

Definition is_notify_event (e : wev) : bool :=
  match e with WStore _ off _ => off =? HOff.notify | WFence _ => false end.

(** How often the counter has been incremented. *)
Definition notifies (log : list wev) : Z := Z.of_nat (length (List.filter is_notify_event log)).

(** The publish at [j] has been notified. *)
Definition notified (g : geometry) (init : mem) (log : list wev) (j : nat) : Prop :=
  is_Some (published g init log j) /\
  exists q e, (j < q)%nat /\ log !! q = Some e /\ is_notify_event e = true.

Lemma notifies_app (a b : list wev) : notifies (a ++ b) = notifies a + notifies b.
Proof. unfold notifies. rewrite List.filter_app, length_app. lia. Qed.

Lemma notifies_take (log : list wev) (a b : nat) :
  (a <= b)%nat -> notifies (take a log) <= notifies (take b log).
Proof.
  intros H. replace (take a log) with (take a (take b log)) by (by rewrite take_take, Nat.min_l).
  rewrite <- (take_drop a (take b log)) at 2. rewrite notifies_app. unfold notifies. lia.
Qed.

Lemma notifies_nonneg (log : list wev) : 0 <= notifies log.
Proof. unfold notifies. lia. Qed.

(** A log with no increment has no notify event. *)
Lemma notifies_zero (log : list wev) (q : nat) (e : wev) :
  notifies log = 0 -> log !! q = Some e -> is_notify_event e = false.
Proof.
  intros H E. destruct (is_notify_event e) eqn:En; [| done]. exfalso.
  assert (Hin : In e (List.filter is_notify_event log)).
  { apply List.filter_In. split; [| done]. apply list_elem_of_In. by eapply list_elem_of_lookup_2. }
  unfold notifies in H. destruct (List.filter is_notify_event log); [done | cbn in H; lia].
Qed.

Lemma commits_since_app (g : geometry) (log ext : list wev) (j : nat) (i : Z) :
  commits_since g log j i <= commits_since g (log ++ ext) j i.
Proof.
  unfold commits_since, commits.
  destruct (decide (S j <= length log)%nat).
  - rewrite drop_app_le, List.filter_app, length_app by done. lia.
  - rewrite (drop_ge log) by lia. cbn. lia.
Qed.

Section counter.
Context (g : geometry) (init : mem).

Lemma notify_step (m : mem) (gh gh' : ghost) (e : wev) :
  gstep g m gh e = Some gh' ->
  if is_notify_event e
  then e = WStore Release HOff.notify (le_bytes 4 (word m HOff.notify + 1))
  else forall a, HOff.notify <= a < HOff.notify + 4 -> covers e a = false.
Proof.
  intros Hs. destruct e as [o off bs|o]; cbn [is_notify_event]; [| by intros].
  destruct (Z.eqb_spec off HOff.notify) as [-> | Hne].
  - cbn [gstep] in Hs. change (HOff.notify =? HOff.latest) with false in Hs.
    change (HOff.notify <? PSMI_HEADER_SIZE) with true in Hs. cbv iota in Hs.
    destruct (_ || _) eqn:Hb in Hs; [| done]. rewrite !orb_true_iff in Hb.
    unfold HOff.state, HOff.latest, HOff.writer_pid in Hb. unfold HOff.notify in Hb at 1 2 3.
    destruct Hb as [[Hb | Hb] | Hb]; [bool_hyps; lia | bool_hyps; lia |].
    apply is_notify_spec in Hb as (_ & -> & ->). done.
  - intros a Ha. cbn [covers]. apply andb_false_iff. rewrite Z.leb_gt, Z.ltb_ge.
    cbn [gstep] in Hs. unfold PSMI_HEADER_SIZE in Hs.
    destruct (Z.eqb_spec off HOff.latest) as [-> |].
    { right. unfold step_publish in Hs. destruct (gh_pending gh) as [i|]; [| done].
      destruct (is_release o && _) eqn:E in Hs; [| done]. bool_hyps.
      match goal with H : bytes_eqb _ _ = true |- _ => apply bytes_eqb_spec in H; subst bs end.
      rewrite length_le_bytes. unfold HOff.latest, HOff.notify in *. lia. }
    destruct (Z.ltb_spec off 128); [| left; unfold HOff.notify in *; lia].
    destruct (_ || _) eqn:Hb in Hs; [| done]. rewrite !orb_true_iff in Hb.
    destruct Hb as [[Hb | Hb] | Hb]; [| | by apply is_notify_spec in Hb as [-> _]];
      bool_hyps; unfold HOff.state, HOff.latest, HOff.notify, HOff.writer_pid in *; lia.
Qed.

Section one_log.
Context (log : list wev) (Hlog : accepted g init log).

Lemma notify_event (k : nat) (e : wev) :
  log !! k = Some e ->
  if is_notify_event e
  then e = WStore Release HOff.notify (le_bytes 4 (word (mem_at init log k) HOff.notify + 1))
  else forall a, HOff.notify <= a < HOff.notify + 4 -> covers e a = false.
Proof.
  intros E. apply lookup_lt_Some in E as Hk.
  pose proof (gat_some g init log (S k) Hlog ltac:(lia)) as H. cbn [ghost_at] in H.
  rewrite (gat_some g init log k Hlog ltac:(lia)), E in H. by eapply notify_step.
Qed.

(** The counter counts, as a 32-bit integer. *)
Lemma notify_word (t : nat) :
  (t <= length log)%nat ->
  u32 (word (mem_at init log t) HOff.notify) = u32 (word init HOff.notify + notifies (take t log)).
Proof.
  induction t as [|t IH]; intros Ht.
  { rewrite take_0. change (notifies []) with 0. by rewrite Z.add_0_r. }
  destruct (lookup_lt_is_Some_2 log t ltac:(lia)) as [e E].
  rewrite (mem_at_S _ _ _ _ E), (take_S_r _ _ _ E), notifies_app.
  pose proof (notify_event t e E) as He. destruct (is_notify_event e) eqn:En.
  - rewrite He. cbn [apply_wev]. rewrite word_write_same, u32_idemp.
    change (notifies [_]) with 1.
    rewrite <- (u32_add_l (word _ _) 1), IH, u32_add_l by lia. f_equal. lia.
  - replace (notifies [e]) with 0 by (unfold notifies; cbn [List.filter]; by rewrite En).
    rewrite Z.add_0_r, <- IH by lia. unfold word. do 2 f_equal. apply read_bytes_ext.
    intros a Ha. destruct e as [o off bs|]; [| done]. cbn [apply_wev].
    specialize (He a ltac:(lia)). cbn [covers] in He. apply andb_false_iff in He.
    rewrite Z.leb_gt, Z.ltb_ge in He. by apply write_out.
Qed.

(** A load of the counter synchronizes with every increment before it. *)
Lemma notify_sync (t q : nat) (e : wev) :
  (q < t <= length log)%nat -> log !! q = Some e -> is_notify_event e = true ->
  (q < sync log t HOff.notify)%nat.
Proof.
  intros Ht E En. unfold sync.
  pose proof (notify_event q e E) as Hq. rewrite En in Hq.
  assert (H : exists k, last_write log t HOff.notify = Some k /\ (q <= k)%nat).
  { induction t as [|t IH]; [lia |]. cbn [last_write].
    destruct (lookup_lt_is_Some_2 log t ltac:(lia)) as [x Ex]. rewrite Ex.
    destruct (covers x HOff.notify) eqn:Ec; [exists t; split; [done | lia] |].
    destruct (decide (q = t)) as [-> |]; [| apply IH; lia].
    rewrite E in Ex. injection Ex as <-. rewrite Hq in Ec. done. }
  destruct H as (k & Ek & Hk). rewrite Ek.
  destruct (last_write_lt _ _ _ _ Ek) as [Hkt (x & Ex & Hc)].
  unfold msg_view. rewrite Ex. pose proof (notify_event k x Ex) as Hx.
  destruct (is_notify_event x); [subst x; lia |].
  rewrite Hx in Hc by lia. done.
Qed.

(** If the counter has not moved between [t] and the end, no increment did
    happen there. *)
Lemma no_new_notify (t q : nat) (e : wev) :
  (t <= length log)%nat ->
  word (now init log) HOff.notify = word (mem_at init log t) HOff.notify ->
  notifies log < notifies (take t log) + 4294967296 ->
  log !! q = Some e -> is_notify_event e = true -> (q < t)%nat.
Proof.
  intros Ht Hw Hn E En. destruct (decide (q < t)%nat) as [|Hq]; [done | exfalso].
  pose proof (notify_word t Ht) as H1. pose proof (notify_word (length log) ltac:(lia)) as H2.
  rewrite firstn_all in H2. unfold now in Hw. rewrite <- Hw, H2 in H1.
  apply u32_eq_iff in H1 as [k Hk].
  pose proof (notifies_app (take t log) (drop t log)) as Ha. rewrite take_drop in Ha.
  pose proof (notifies_nonneg (drop t log)).
  assert (Hz : notifies (drop t log) = 0) by lia.
  assert (E' : drop t log !! (q - t)%nat = Some e)
    by (rewrite lookup_drop; by replace (t + (q - t))%nat with q by lia).
  by rewrite (notifies_zero _ _ _ Hz E') in En.
Qed.
End one_log.
End counter.

(** ** The waiter *)

Section waiter.
Context {C : Config} (g : geometry) (init : mem) (blk size : Z).
Context (F : data_file g init size) (Hhook : psmi_test_skip_seq_recheck = false).
#[local] Instance rof : Sem rstate := reader_of_file g init blk size.

Lemma wp_not_retired (r : psmsgr_state_reader) (en : Z) (s : rstate)
    (Q : bool -> Z -> rstate -> Prop) :
  attached_to g blk r -> rinv g init s ->
  (forall s', rext g init s s' -> Q false en s') -> wp (retired r) en s Q.
Proof.
  intros Hr Hi HQ. unfold retired. apply wp_bind, wp_call.
  { rewrite (hdr_off g blk r) by done. split; [| done]. destruct F as [Hg _ Hs _ _].
    apply (header_in_map g Hg blk size Hs); unfold HOff.state; lia. }
  intros x s' (log & t & Hgr & Ht & -> & ->). rewrite (hdr_off g blk r) by done. cbn [p_off].
  apply wp_ret. rewrite (later_live g init blk size _ _ _ Hgr) by lia. cbn [negb Z.eqb]. apply HQ.
  pose proof (sync_le log t HOff.state). pose proof Hi as (_ & Hc & Ha).
  destruct (later_grow g init blk size F _ _ Hgr) as (ext & E & _).
  assert (length (rs_log s) <= length log)%nat by (rewrite E, length_app; lia).
  eapply (grow_rext g init (later g init blk size)); [by apply later_grow | done | exact Hgr | lia | lia].
Qed.

(** What the waiter knows if it finds the counter to be [n] in the log
    [log]: every publish notified there is covered by what it saw. *)
Definition seen_all (log0 log : list wev) (x : rresult) : Prop :=
  (fst (fst x) = PSMSGR_E_NODATA -> forall j, ~ notified g init log j) /\
  (fst (fst x) = PSMSGR_OK \/ fst (fst x) = PSMSGR_E_TOOSMALL ->
     exists j v, published g init log j = Some v /\
     (forall j', notified g init log j' -> (j' <= j)%nat) /\
     (commits_since g log0 j (v_slot v) < 134217728 ->
        fst (fst x) = PSMSGR_OK /\ exists i, snd x = Some i /\ names_value i v)).

Lemma published_app (log ext : list wev) (j : nat) (v : value) :
  published g init log j = Some v -> published g init (log ++ ext) j = Some v.
Proof.
  unfold published. intros H. destruct (log !! j) as [e|] eqn:E; [| done].
  pose proof (lookup_lt_Some _ _ _ E). rewrite lookup_app_l, E, mem_at_app by lia. exact H.
Qed.

Lemma published_before (log ext : list wev) (j : nat) (v : value) :
  (j < length log)%nat -> published g init (log ++ ext) j = Some v -> published g init log j = Some v.
Proof. unfold published. intros H. by rewrite lookup_app_l, mem_at_app by lia. Qed.

Lemma outcome_seen (s s1 s' : rstate) (log : list wev) (x : rresult) :
  read_outcome g init false 0 0 s1 s' x ->
  (rs_cur s1 <= length (rs_log s'))%nat -> (exists ext, log = rs_log s' ++ ext) ->
  (forall q e, log !! q = Some e -> is_notify_event e = true -> (q < rs_cur s1)%nat) ->
  seen_all (rs_log s') log x.
Proof.
  intros Ho Hc [ext ->] Hq.
  assert (Hn : forall j, notified g init (rs_log s' ++ ext) j ->
    (j < rs_cur s1)%nat /\ is_Some (published g init (rs_log s') j)).
  { intros j ([v Hv] & q & e & Hj & E & En). pose proof (Hq q e E En).
    split; [lia |]. exists v. apply (published_before _ ext); [lia | done]. }
  destruct Ho as [b H | rc b i j v H1 H2 H3 H4 H5 | b H]; split; cbn [fst snd]; try done.
  - intros _ j Hj. destruct (Hn j Hj) as [H1 H2]. by apply (H j).
  - by intros [|].
  - intros ->. by destruct H4 as [? | [? | ?]].
  - intros _. exists j, v. split; [by apply published_app |]. split.
    + intros j' Hj'. destruct (Hn j' Hj') as [H6 H7]. by apply H3.
    + intros Hc2. destruct (H5 Hc2) as (i' & -> & Hi' & _ & Hrc & _). split; [done | by exists i'].
  - by intros [|].
Qed.

Lemma outcome_busy (s s2 s3 : rstate) (x : rresult) :
  rext g init s s2 -> rext g init s2 s3 -> read_outcome g init false 0 0 s2 s3 x ->
  fst (fst x) = PSMSGR_E_BUSY -> ~ quiet s s3.
Proof.
  intros H1 H2 [b H | rc b i j v _ _ _ H4 _ | b H]; cbn [fst]; [done | |].
  - intros ->. by destruct H4 as [? | [? | ?]].
  - intros _ Hq. apply H. by eapply quiet_sub.
Qed.

(** The codes of a look. *)
Definition look_code (rc : Z) : Prop :=
  rc = PSMSGR_E_NODATA \/ (rc = PSMSGR_OK \/ rc = PSMSGR_E_TOOSMALL) \/
  rc = PSMSGR_E_BUSY \/ rc = PSMSGR_E_FORMAT.

Lemma outcome_code (s s' : rstate) (x : rresult) :
  read_outcome g init false 0 0 s s' x -> look_code (fst (fst x)).
Proof. unfold look_code. intros [b H | rc b i j v _ _ _ H4 _ | b H]; cbn [fst]; intuition. Qed.

Lemma wp_wait_look (r : psmsgr_state_reader) (en : Z) (s : rstate) :
  attached_to g blk r -> rinv g init s ->
  wp (wait_look r) en s (fun '(n, look) _ s' => exists x, look = Some x /\ rext g init s s' /\
    (fst (fst x) = PSMSGR_E_BUSY -> ~ quiet s s') /\
    look_code (fst (fst x)) /\
    forall log,
      later g init blk size (rs_log s') log -> word (now init log) HOff.notify = n ->
      notifies log < notifies (take (rs_cur s) log) + 4294967296 -> seen_all (rs_log s') log x).
Proof.
  intros Hr Hi. pose proof F as [Hg Hfresh Hs _ _]. unfold wait_look.
  pose proof (later_grow g init blk size F) as Hgrow. apply wp_bind. rewrite (hdr_off g blk r) by done.
  apply (wp_load32 g init blk size _ Hgrow); [done | | done |].
  { apply (header_in_map g Hg blk size Hs); unfold HOff.notify; lia. }
  cbn [p_off]. intros t s1 Hx1 Ht Hsync _. specialize (Hsync eq_refl).
  apply wp_bind, wp_not_retired; [done | by apply Hx1 |]. intros s2 Hx2. apply wp_bind.
  eapply wp_mono; [apply (wp_read_latest g Hg init Hfresh blk size Hs _ Hgrow Hhook); try done; apply Hx2 |].
  cbn beta. intros x en3 s3 (_ & Hx3 & _ & Ho). apply wp_ret. exists x. split; [done |].
  assert (Hx12 : rext g init s s2) by (by eapply rext_trans).
  split; [by eapply rext_trans |]. split; [by eapply outcome_busy |].
  split; [by eapply outcome_code |].
  intros log Hl Hw Hn. destruct (Hgrow _ _ Hl) as (ext & El & Ha).
  destruct Hx2 as ((_ & Hc2 & _) & [e2 E2] & Hc12 & _). destruct Hx3 as (_ & [e3 E3] & _ & _).
  assert (Elog : log = rs_log s1 ++ (e2 ++ e3 ++ ext)) by (by rewrite El, E3, E2, !app_assoc).
  apply (outcome_seen s s2 s3); [exact Ho | rewrite E3, length_app; lia | by exists ext |].
  intros q e Eq En.
  assert (Htl : (t <= length log)%nat) by (rewrite Elog, length_app; lia).
  assert (Hq : (q < t)%nat).
  { apply (no_new_notify g init log Ha t q e Htl); try done.
    - rewrite Hw, Elog, mem_at_app by lia. done.
    - pose proof (notifies_take log (rs_cur s) t ltac:(lia)). lia. }
  pose proof (notify_sync g init log Ha t q e (conj Hq Htl) Eq En) as Hsy.
  rewrite Elog, sync_app in Hsy by lia. lia.
Qed.

(** ** The pass *)

(** Why a waiter that has come to know [last] may sleep from [s] on while the
    counter is [n], having begun its pass in [s0]: if the kernel finds the
    counter to be [n], the newest notified value is the one the waiter has (or
    there is none), or a writer was storing while the waiter looked. *)
Definition may_sleep (s0 : rstate) (last : Z) (s : rstate) (n : Z) : Prop :=
  forall log, later g init blk size (rs_log s) log -> word (now init log) HOff.notify = n ->
    notifies log < notifies (take (rs_cur s0) log) + 4294967296 ->
    (forall j, ~ notified g init log j) \/
    (exists j v, published g init log j = Some v /\
       (forall j', notified g init log j' -> (j' <= j)%nat) /\
       (commits_since g log j (v_slot v) < 134217728 -> v_generation v = last)) \/
    ~ quiet s0 s.

(** The reader's machine with a duty for the futex call: to wait on the
    counter of the file, and only if it may. *)
Definition waiter (s0 : rstate) (last : Z) : Sem rstate := {|
  sem_pre := fun e s =>
    sem_pre (Sem := reader_of_file g init blk size) e s /\
    match e with
    | SysFutexWait p n _ _ => p = map_ptr blk HOff.notify /\ may_sleep s0 last s n
    | _ => True
    end;
  sem_step := sem_step (Sem := reader_of_file g init blk size);
  sem_out := False
|}.

Definition not_wait (e : ev) : Prop := match e with SysFutexWait _ _ _ _ => False | _ => True end.
Definition never_waits {A : Type} (m : prog A) : Prop := forall en, only not_wait (m en).

Lemma never_waits_bind {A B : Type} (m : prog A) (f : A -> prog B) :
  never_waits m -> (forall a, never_waits (f a)) -> never_waits (bind m f).
Proof. intros Hm Hf en. apply only_bind; [apply Hm |]. intros [a en']. apply Hf. Qed.

Lemma never_waits_call (e : ev) : not_wait e -> never_waits (call e).
Proof. by intros H en. Qed.

Lemma never_waits_ret {A : Type} (a : A) : never_waits (ret a).
Proof. by intros en. Qed.

Create HintDb never_waits.

Ltac never_waits :=
  repeat first
    [ solve [auto with nocore never_waits]
    | apply never_waits_ret
    | apply never_waits_call; exact I
    | apply never_waits_bind; [| intros ?]
    | match goal with |- never_waits (match ?x with _ => _ end) => destruct x end
    | progress cbv beta zeta ].

Lemma never_waits_load_bytes (p : ptr) (n : nat) : never_waits (load_bytes p n).
Proof. revert p. induction n as [|n IH]; intros p; cbn [load_bytes]; never_waits. Qed.
#[local] Hint Resolve never_waits_load_bytes : never_waits.

Lemma never_waits_retired (r : psmsgr_state_reader) : never_waits (retired r).
Proof. unfold retired. never_waits. Qed.

Lemma never_waits_read_attempt (r : psmsgr_state_reader) (sz : Z) (copy : bool) (buf : list Z) :
  never_waits (read_attempt r sz copy buf).
Proof. unfold read_attempt, psmi_seq_copy_from. never_waits. Qed.
#[local] Hint Resolve never_waits_retired never_waits_read_attempt : never_waits.

Lemma never_waits_read_retry (r : psmsgr_state_reader) (sz : Z) (copy : bool) (n : nat) (k : Z)
    (buf : list Z) : never_waits (read_retry r sz copy n k buf).
Proof. revert k buf. induction n as [|n IH]; intros k buf; cbn [read_retry]; never_waits. Qed.
#[local] Hint Resolve never_waits_read_retry : never_waits.

Lemma never_waits_look (r : psmsgr_state_reader) : never_waits (wait_look r).
Proof. unfold wait_look, read_latest. never_waits. Qed.

(** What does not wait is proved on the reader's machine. *)
Lemma wp_never_waits {A : Type} (s0 : rstate) (last : Z) (m : prog A) (en : Z) (s : rstate)
    (Q : A -> Z -> rstate -> Prop) :
  never_waits m -> wp m en s Q -> wp (HS := waiter s0 last) m en s Q.
Proof.
  intros Hm. apply (wp_only (HS := rof) (HT := waiter s0 last) (fun s => s) not_wait); [| done | done | apply Hm].
  intros e t He Hp. split; [exact Hp |]. by destruct e.
Qed.

(** An event that only lets time pass. *)
Lemma wp_pass_call (s0 : rstate) (last : Z) (e : ev) (en : Z) (s : rstate)
    (Q : resp e -> Z -> rstate -> Prop) :
  match e with
  | SysFutexWait p n _ _ => p = map_ptr blk HOff.notify /\ may_sleep s0 last s n
  | SysClockGettime _ | SysLstat _ | SysMunmap _ _ | SysNanosleep _ _ => True
  | _ => False
  end ->
  rinv g init s ->
  (forall r s', rext g init s s' -> later g init blk size (rs_log s) (rs_log s') ->
     Q r (resp_errno e r en) s') ->
  wp (HS := waiter s0 last) (call e) en s Q.
Proof.
  intros He Hi HQ. apply wp_call; [by destruct e |]. intros r s' Hs.
  assert (H : exists log, later g init blk size (rs_log s) log /\
    s' = {| rs_log := log; rs_cur := rs_cur s; rs_acq := rs_acq s |}) by (by destruct e).
  destruct H as (log & Hl & ->). destruct (later_grow g init blk size F _ _ Hl) as (ext & E & _).
  apply HQ; [| exact Hl]. destruct Hi as (Ha & Hc & Hq).
  assert (length (rs_log s) <= length log)%nat by (rewrite E, length_app; lia).
  apply (grow_rext g init (later g init blk size)); [by apply later_grow | done | done | lia | lia].
Qed.

Lemma later_trans (a b c : list wev) :
  later g init blk size a b -> later g init blk size b c -> later g init blk size a c.
Proof.
  intros ([e1 E1] & _) ([e2 E2] & H). split; [| exact H]. exists (e1 ++ e2).
  by rewrite E2, E1, app_assoc.
Qed.

(** What the look of a pass that goes on says. *)
Lemma look_may_sleep (s0 s1 s3 s4 : rstate) (last n : Z) (x : rresult) :
  rext g init s0 s1 -> rext g init s1 s3 -> rext g init s3 s4 ->
  later g init blk size (rs_log s3) (rs_log s4) ->
  (fst (fst x) = PSMSGR_E_BUSY -> ~ quiet s1 s3) ->
  look_code (fst (fst x)) -> fst (fst x) <> PSMSGR_E_FORMAT ->
  (fst (fst x) = PSMSGR_OK -> forall i, snd x = Some i -> i_generation i = last) ->
  (forall log, later g init blk size (rs_log s3) log -> word (now init log) HOff.notify = n ->
     notifies log < notifies (take (rs_cur s1) log) + 4294967296 -> seen_all (rs_log s3) log x) ->
  may_sleep s0 last s4 n.
Proof.
  intros H01 H13 H34 Hl Hbusy Hrc Hfmt Hgen Hseen log Hlog Hw Hn.
  pose proof (later_trans _ _ _ Hl Hlog) as Hlog3.
  pose proof (notifies_take log (rs_cur s0) (rs_cur s1) (rext_cur _ _ _ _ H01)) as Hnt.
  specialize (Hseen log Hlog3 Hw ltac:(lia)) as [Hno Hok].
  destruct Hrc as [E | [E | [E | E]]]; [left; by apply Hno | right; left | right; right | done].
  - destruct (Hok E) as (j & v & Hp & Hlast & Hv). exists j, v. do 2 (split; [done |]).
    intros Hc. destruct (later_grow g init blk size F _ _ Hlog3) as (ext & El & _).
    destruct Hv as (Eok & i & Ei & Hi & _).
    + rewrite El in Hc. pose proof (commits_since_app g (rs_log s3) ext j (v_slot v)). lia.
    + rewrite <- Hi. by apply Hgen.
  - intros Hq. apply (Hbusy E). apply (quiet_sub g init s0 s1 s3 H01 H13).
    by apply (quiet_ext g init s0 s3 s4 (rext_trans _ _ _ _ _ H01 H13) H34).
Qed.

Lemma wp_identity_pass (s0 : rstate) (last : Z) (r : psmsgr_state_reader) (en : Z) (s : rstate) :
  rinv g init s -> wp (HS := waiter s0 last) (identity_check r) en s (fun _ _ _ => True).
Proof.
  intros Hi. unfold identity_check. destruct (r_hdr r); [| by apply wp_ret].
  assert (Hd : forall en' s', rinv g init s' ->
    wp (HS := waiter s0 last) (let* r := detach r in ret (PSMSGR_OK, r)) en' s' (fun _ _ _ => True)).
  { intros en' s' Hi'. apply wp_bind. unfold detach. apply wp_bind, wp_pass_call; [done | done |].
    intros x s2 _ _. by do 2 apply wp_ret. }
  apply wp_bind, wp_pass_call; [done | done |]. intros [st|e] s1 Hx _.
  - destruct (_ && _); [by apply wp_ret | apply Hd, Hx].
  - apply wp_bind, wp_get_errno. destruct (negb _); [by apply wp_ret | apply Hd, Hx].
Qed.

Lemma wp_wait_pass (r : psmsgr_state_reader) (last deadline en : Z) (s : rstate) :
  attached_to g blk r -> rinv g init s ->
  wp (HS := waiter s last) (wait_body last deadline r) en s (fun _ _ _ => True).
Proof.
  intros Hr Hi. unfold wait_body, reader_sync. pose proof Hr as (E & _). rewrite E.
  apply wp_bind, wp_bind, wp_never_waits; [apply never_waits_retired |].
  apply wp_not_retired; [done | done |]. intros s1 Hx1. cbn [negb]. apply wp_ret.
  change (negb (PSMSGR_OK =? PSMSGR_OK) && negb (PSMSGR_OK =? PSMSGR_E_NODATA)) with false.
  change (PSMSGR_OK =? PSMSGR_E_NODATA) with false. cbv iota.
  destruct (negb _); [by apply wp_ret |]. apply wp_bind, wp_never_waits; [apply never_waits_look |].
  eapply wp_mono; [apply wp_wait_look; [done | apply Hx1] |].
  intros [n look] en3 s3 ([[rc b] info] & -> & Hx3 & Hbusy & Hrc & Hseen). cbn [fst snd] in Hbusy, Hrc.
  destruct (_ && _) eqn:Enew; [by apply wp_ret |].
  destruct (Z.eqb_spec rc PSMSGR_E_FORMAT) as [|Hf]; [by apply wp_ret |].
  unfold psmi_clock_ns. apply wp_bind, wp_bind, wp_pass_call; [done | apply Hx3 |].
  intros [sec nsec] s4 Hx4 Hl4. apply wp_ret. destruct (_ <=? _); [by apply wp_ret |].
  cbv zeta. unfold futex_wait. rewrite (hdr_off g blk r) by done.
  apply wp_bind, wp_bind, wp_pass_call; [| apply Hx4 |].
  { split; [done |]. apply (look_may_sleep s s1 s3 s4 last n (rc, b, info)); try done.
    - cbn [fst snd]. intros -> i ->. cbn [andb Z.eqb PSMSGR_OK] in Enew. bool_hyps. done. }
  intros f s5 Hx5 _. apply wp_ret. destruct f; [by apply wp_ret |]. apply wp_bind, wp_get_errno.
  destruct (_ =? EINTR); [by apply wp_ret |]. destruct (_ =? ETIMEDOUT).
  - apply wp_bind. eapply wp_mono; [apply wp_identity_pass, Hx5 |]. intros [rc' r'] en6 s6 _.
    by destruct (negb _); apply wp_ret.
  - by destruct (negb _); apply wp_ret.
Qed.
End waiter.

(** ** The writer *)

Section writer.
Context {C : Config} (g : geometry) (init : mem) (blk size : Z).

(** A waiter in the kernel: the counter value its futex call was made with, and
    how long the log was when the kernel put it to sleep. *)
Record sleeper := { sl_expected : Z; sl_at : nat }.

Record kstate := { k_log : list wev; k_asleep : list sleeper }.

(** FUTEX_WAIT puts to sleep only if the word still is the expected one. *)
Definition went_to_sleep (log : list wev) (x : sleeper) : Prop :=
  sl_at x = length log /\ word (now init log) HOff.notify = sl_expected x.

(** What waiters do between two steps of a writer: some fall asleep, some wake
    up (a signal, the end of their slice). *)
Definition fall_asleep (k k' : kstate) : Prop :=
  k_log k' = k_log k /\
  forall x, x ∈ k_asleep k' -> x ∈ k_asleep k \/ went_to_sleep (k_log k) x.

(** FUTEX_WAKE of INT_MAX waiters on the counter. *)
Definition wakes (e : ev) : bool :=
  match e with
  | SysFutexWake p => (p_blk p =? blk) && (p_off p =? HOff.notify)
  | _ => false
  end.

(** The writer's machine with the waiters of its file. *)
Definition k_step (e : ev) (k : kstate) (r : resp e) (k' : kstate) : Prop :=
  exists k1, fall_asleep k k1 /\
    sem_step (Sem := writer_of_file g init blk size) e (k_log k1) r (k_log k') /\
    k_asleep k' = if wakes e then [] else k_asleep k1.

Definition kernel : Sem kstate := {|
  sem_pre := fun e k => sem_pre (Sem := writer_of_file g init blk size) e (k_log k);
  sem_step := k_step;
  sem_out := False
|}.

(** The same without the writer's duties. *)
Definition free_kernel : Sem kstate := {|
  sem_pre := fun _ _ => True; sem_step := k_step; sem_out := False
|}.

Lemma wp_kernel {A : Type} (m : prog A) (en : Z) (k : kstate) (P : A -> Z -> list wev -> Prop)
    (Q : A -> Z -> kstate -> Prop) :
  wp (HS := writer_of_file g init blk size) m en (k_log k) P -> wp (HS := free_kernel) m en k Q ->
  wp (HS := kernel) m en k Q.
Proof.
  unfold wp. generalize (m en) as p. intros p. revert k.
  induction p as [x | e kp IH |]; intros k HP HQ; cbn in *; [done | | done].
  split; [apply HP |]. intros r k' Hs. apply IH; [| by apply HQ].
  destruct Hs as (k1 & [El _] & Hs & _). rewrite El in Hs. by apply HP.
Qed.

#[local] Existing Instance free_kernel.

(** A step whose result does not matter. *)
Lemma wp_free_skip {A B : Type} (m : prog A) (f : A -> prog B) (en : Z) (k : kstate)
    (Q : B -> Z -> kstate -> Prop) :
  total m -> (forall a en' k', wp (f a) en' k' Q) -> wp (bind m f) en k Q.
Proof.
  intros Hm HQ. apply wp_bind.
  eapply wp_mono; [apply (total_wp (fun _ _ => True)); done |]. intros a en' k' _. apply HQ.
Qed.

(** The last thing stored is an increment of the counter. *)
Definition ends_notified (log : list wev) : Prop :=
  exists log0 e, log = log0 ++ [e] /\ is_notify_event e = true.

Lemma ends_notified_all (log : list wev) (j : nat) :
  ends_notified log -> is_Some (published g init log j) -> notified g init log j.
Proof.
  intros (log0 & e & -> & En) [v Hv]. split; [by exists v |].
  exists (length log0), e. rewrite lookup_app_r, Nat.sub_diag by done. split; [| done].
  unfold published in Hv. destruct (decide (j < length log0)%nat) as [|Hj]; [done | exfalso].
  rewrite lookup_app_r in Hv by lia. destruct (j - length log0)%nat as [|k]; [| done].
  cbn in Hv. destruct e as [o off bs|]; [| done]. cbn in En.
  apply Z.eqb_eq in En as ->. done.
Qed.

(** The last thing done: the increment, and then the wake-up. *)
Definition woken (k : kstate) : Prop := ends_notified (k_log k) /\ k_asleep k = [].

Lemma wp_commit_wakes (w : psmsgr_state_writer) (len en : Z) (k : kstate) :
  w_notify w = true -> w_hdr w = map_ptr blk 0 ->
  wp (commit_slot w len) en k (fun _ _ k' => woken k').
Proof.
  intros Hn Hh. unfold commit_slot. cbv zeta.
  do 6 (apply wp_free_skip; [auto with total |]; intros ? ? ?).
  cbn [w_notify w_hdr w_set_open w_set_latest_gen]. rewrite Hn, Hh.
  apply wp_bind, wp_bind, wp_call; [done |]. intros r k1 (k0 & _ & [_ E1] & _).
  unfold futex_wake_all. apply wp_bind, wp_call; [done |]. intros r2 k2 (k1' & [El _] & [_ E2] & Ea).
  do 2 apply wp_ret. cbn [wev_of append] in E1, E2. split.
  - eexists (k_log k0), _. rewrite E2, El, E1. split; [reflexivity |].
    cbn [is_notify_event ptr_add p_off map_ptr]. done.
  - rewrite Ea. cbn [wakes ptr_add p_blk p_off map_ptr]. by rewrite Z.eqb_refl.
Qed.

Lemma wp_publish_wakes (w : psmsgr_state_writer) (data : list Z) (len en : Z) (k : kstate) :
  w_notify w = true -> w_hdr w = map_ptr blk 0 ->
  wp (psmsgr_state_publish (Some w) (Some data) len) en k
    (fun '(rc, _, _) _ k' => rc = PSMSGR_OK -> woken k').
Proof.
  intros Hn Hh. unfold psmsgr_state_publish. destruct (negb (_ =? _)); [by apply wp_ret |].
  destruct (_ <? _); [by apply wp_ret |].
  apply wp_bind. unfold begin_slot. cbv zeta.
  do 3 (apply wp_free_skip; [auto with total |]; intros ? ? ?). apply wp_ret.
  apply wp_free_skip; [auto with total |]. intros _ en1 k1. apply wp_bind.
  eapply wp_mono; [by apply wp_commit_wakes |]. intros [gen w1] en2 k2 H. by apply wp_ret.
Qed.

Lemma wp_commit_call_wakes (w : psmsgr_state_writer) (len en : Z) (k : kstate) :
  w_notify w = true -> w_hdr w = map_ptr blk 0 ->
  wp (psmsgr_state_commit (Some w) len) en k
    (fun '(rc, _, _) _ k' => rc = PSMSGR_OK -> woken k').
Proof.
  intros Hn Hh. unfold psmsgr_state_commit. destruct (_ =? _); [by apply wp_ret |].
  destruct (_ <? _); [by apply wp_ret |]. apply wp_bind.
  eapply wp_mono; [by apply wp_commit_wakes |]. intros [gen w1] en2 k2 H. by apply wp_ret.
Qed.

(** Everyone has been told: every value published is notified, and whoever is
    asleep then, or falls asleep before the next store, found the counter as
    it is now. *)
Definition everyone_told (k : kstate) : Prop :=
  (forall j, is_Some (published g init (k_log k) j) -> notified g init (k_log k) j) /\
  (forall k' x, fall_asleep k k' -> x ∈ k_asleep k' -> went_to_sleep (k_log k) x).

Lemma woken_told (k : kstate) : woken k -> everyone_told k.
Proof.
  intros [He Ha]. split; [intros j; by apply ends_notified_all |].
  intros k' x [_ Hx] Hin. destruct (Hx x Hin) as [H|H]; [| exact H].
  rewrite Ha in H. by apply not_elem_of_nil in H.
Qed.

(** Who sleeps once everyone has been told has the newest value. *)
Lemma told_sleeper_has (F : data_file g init size) (s0 s : rstate) (last0 : Z) (k k' : kstate) (x : sleeper) :
  may_sleep g init blk size s0 last0 s (sl_expected x) -> later g init blk size (rs_log s) (k_log k) ->
  notifies (k_log k) < notifies (take (rs_cur s0) (k_log k)) + 4294967296 ->
  everyone_told k -> fall_asleep k k' -> x ∈ k_asleep k' -> quiet s0 s ->
  match last (publications g init (k_log k)) with
  | Some v => v_generation v = last0
  | None => True
  end.
Proof.
  intros Hm Hl Hn [Hall Hasleep] Hk Hx Hq. destruct (Hasleep k' x Hk Hx) as [_ Hw].
  destruct (later_grow g init blk size F _ _ Hl) as (ext & _ & Ha).
  destruct (Hm (k_log k) Hl Hw Hn) as [H | [(j & v & Hp & Hlast & Hv) | H]]; [| | done].
  - enough (E : publications g init (k_log k) = []) by (by rewrite E).
    apply omap_none. intros j _. destruct (published g init (k_log k) j) eqn:E; [| done].
    exfalso. apply (H j), Hall. by rewrite E.
  - assert (Hlast' : forall j', (j' < length (k_log k))%nat ->
      is_Some (published g init (k_log k) j') -> (j' <= j)%nat) by (intros j' _ Hj'; by apply Hlast, Hall).
    rewrite (publications_last g init (k_log k) j v) by done. apply Hv.
    rewrite (last_not_committed g init size F (k_log k) j v) by done. lia.
Qed.

(** What the calls are allowed to do (WriterProof.v), any result. *)
Lemma wp_publish_runs (w : psmsgr_state_writer) (data : list Z) (en : Z) (log : list wev) :
  data_file g init size -> winv g init blk w log ->
  wp (HS := writer_of_file g init blk size)
    (psmsgr_state_publish (Some w) (Some data) (Z.of_nat (length data))) en log (fun _ _ _ => True).
Proof.
  intros [Hg Hfresh Hsize _ _] Hw.
  destruct (negb (w_open_slot w =? PSMI_LATEST_NONE)) eqn:Eo;
    [unfold psmsgr_state_publish; rewrite Eo; by apply wp_ret |].
  destruct (w_capacity w <? Z.of_nat (length data)) eqn:Ec;
    [unfold psmsgr_state_publish; rewrite Eo, Ec; by apply wp_ret |].
  apply negb_false_iff in Eo. bool_hyps.
  by apply (wp_state_publish g Hg init Hfresh blk size Hsize); [done | done | lia |].
Qed.

Lemma wp_commit_runs (w : psmsgr_state_writer) (len en : Z) (log : list wev) :
  data_file g init size -> winv g init blk w log -> 0 <= len ->
  wp (HS := writer_of_file g init blk size) (psmsgr_state_commit (Some w) len) en log
    (fun _ _ _ => True).
Proof.
  intros [Hg Hfresh Hsize _ _] Hw Hlen.
  destruct (w_open_slot w =? PSMI_LATEST_NONE) eqn:Eo;
    [unfold psmsgr_state_commit; rewrite Eo; by apply wp_ret |].
  destruct (w_capacity w <? len) eqn:Ec;
    [unfold psmsgr_state_commit; rewrite Eo, Ec; by apply wp_ret |].
  bool_hyps. by apply (wp_state_commit g Hg init Hfresh blk size Hsize); [done | done | lia |].
Qed.
End writer.


(** ** Witness *)

#[local] Existing Instance config64.

(** A waiter asleep since before the second publish of the example: the third
    one wakes it. *)
Definition ex_sleeper : sleeper :=
  {| sl_expected := word (now ex_init (snd ex2)) HOff.notify; sl_at := length (snd ex2) |}.
Definition ex_kernel : kstate := {| k_log := snd ex2; k_asleep := [ex_sleeper] |}.

