(* ===== verification/Waiting.v ===== *)
(** * The wait returns

    [psmsgr_state_wait] with a timeout, on a system whose clock does not run
    backwards, whose sleeps last at least as long as asked for, and on which
    finitely many sleeps end early and finitely many retired files are met: it
    returns, after a number of passes known in advance, and never reports
    TIMEOUT early.  Everything else is arbitrary: the other answers of the
    system calls, the bytes of the files, and how often the clock is read
    without having moved. *)
From S2P Require Import Prelude Prog Common Layout Names Options Writer Reader Total.
#[local] Open Scope list_scope.
#[local] Open Scope Z_scope.

Record tstate := {
  t_clock : Z;     (* what CLOCK_MONOTONIC shows at least, in ns *)
  t_early : nat;   (* how many more sleeps may end before their time *)
  t_retire : nat   (* how many more loads of [state] may find a retired file *)
}.

(** A sleep of [ns] has run its course: clock_nanosleep(2) and futex(2) promise
    that the interval does not expire early. *)
Definition slept (ns : Z) (s s' : tstate) : Prop :=
  t_clock s + Z.max 0 ns <= t_clock s' /\ t_early s' = t_early s /\ t_retire s' = t_retire s.

(** A sleep was cut short: someone woke it, or there was nothing to sleep on. *)
Definition woke_early (s s' : tstate) : Prop :=
  t_clock s' = t_clock s /\ t_early s = S (t_early s') /\ t_retire s' = t_retire s.

(** The clock may show the same time twice (clock_gettime(2) promises no more
    than that it does not go back); only a full sleep is known to move it. *)
Definition t_step (e : ev) (s : tstate) : resp e -> tstate -> Prop :=
  match e return resp e -> tstate -> Prop with
  | SysClockGettime CLOCK_MONOTONIC => fun r s' =>
      t_clock s <= timespec_ns (fst r) (snd r) /\
      s' = {| t_clock := timespec_ns (fst r) (snd r); t_early := t_early s; t_retire := t_retire s |}
  | SysFutexWait _ _ sec nsec => fun r s' =>
      match r with
      | inl _ => woke_early s s'
      | inr e => if e =? ETIMEDOUT then slept (sec * 1000000000 + nsec) s s'
                 else if e =? EAGAIN then woke_early s s'
                 else s' = s
      end
  | SysNanosleep sec nsec => fun r s' =>
      if r =? 0 then slept (sec * 1000000000 + nsec) s s'
      else if r =? EINTR then s' = s
      else woke_early s s'
  | Load32 _ p => fun r s' =>
      if (p_off p =? HOff.state) && negb (Z.land r PSMI_STATE_RETIRED =? 0)
      then t_retire s = S (t_retire s') /\ t_clock s' = t_clock s /\ t_early s' = t_early s
      else s' = s
  | _ => fun _ s' => s' = s
  end.

(** Running out of fuel is a failure here. *)
#[local] Instance t_sem : Sem tstate := {
  sem_pre := fun _ _ => True; sem_step := t_step; sem_out := False
}.

Definition t_le (s s' : tstate) : Prop :=
  t_clock s <= t_clock s' /\ (t_early s' <= t_early s)%nat /\ (t_retire s' <= t_retire s)%nat.

Lemma t_le_refl (s : tstate) : t_le s s.
Proof. unfold t_le. lia. Qed.

Lemma t_le_trans (s1 s2 s3 : tstate) : t_le s1 s2 -> t_le s2 s3 -> t_le s1 s3.
Proof. unfold t_le. lia. Qed.

#[local] Hint Resolve t_le_refl : core.

Lemma t_step_le (e : ev) (s s' : tstate) (r : resp e) : t_step e s r s' -> t_le s s'.
Proof.
  unfold t_le. destruct e; cbn [t_step]; unfold slept, woke_early; try (intros ->; lia).
  - destruct (_ && _); [lia | intros ->; lia].
  - destruct r as [|e]; [lia |]. destruct (e =? ETIMEDOUT); [lia |].
    destruct (e =? EAGAIN); [lia | intros ->; lia].
  - destruct c; [intros [H ->]; cbn; lia | intros ->; lia].
  - destruct (r =? 0); [lia |]. destruct (r =? EINTR); [intros ->; lia | lia].
Qed.

Lemma wp_t_total {A : Type} (m : prog A) (en : Z) (s : tstate) :
  total m -> wp m en s (fun _ _ s' => t_le s s').
Proof.
  apply (total_wp t_le); [apply t_le_refl | apply t_le_trans | done | intros e s1 r s2; apply t_step_le].
Qed.

Lemma wp_t (e : ev) (en : Z) (s : tstate) (Q : resp e -> Z -> tstate -> Prop) :
  (forall r s', t_step e s r s' -> Q r (resp_errno e r en) s') -> wp (call e) en s Q.
Proof. intros HQ. by apply wp_call. Qed.

(** ** The reader's parts *)

Section wait.
Context {C : Config}.

(** A handle maps its file from the start. *)
Definition based (r : psmsgr_state_reader) : Prop :=
  match r_hdr r with Some p => p_off p = 0 | None => True end.

Definition attached (r : psmsgr_state_reader) : Prop := exists p, r_hdr r = Some p /\ p_off p = 0.

Lemma wp_t_retired (r : psmsgr_state_reader) (en : Z) (s : tstate) :
  attached r ->
  wp (retired r) en s (fun b _ s' => t_le s s' /\ (b = true -> (t_retire s' < t_retire s)%nat)).
Proof.
  intros (p & E & Hp). unfold retired, hdr_of. rewrite E. change (default NULL_PTR (Some p)) with p.
  apply wp_bind, wp_t. intros x s' Hs. pose proof (t_step_le _ _ _ _ Hs) as Hle.
  cbn [t_step ptr_add p_off] in Hs. rewrite Hp in Hs. cbn [Z.add] in Hs.
  rewrite Z.eqb_refl in Hs. cbn [andb] in Hs. apply wp_ret. split; [done |].
  destruct (negb _); [lia | done].
Qed.

Lemma wp_t_read_header (fd en : Z) (s : tstate) :
  wp (read_header fd) en s (fun '(rc, sh) _ _ =>
    (rc = PSMSGR_OK -> is_Some sh) /\ rc <> PSMSGR_E_TIMEOUT).
Proof.
  unfold read_header. apply wp_bind, wp_t. intros [st|e] s1 _; [| by apply wp_ret].
  destruct (_ || _); [by apply wp_ret |]. apply wp_bind, wp_t. intros [bs|e] s2 _; [| by apply wp_ret].
  by destruct (_ =? _); apply wp_ret.
Qed.

(** What attaching returns. *)
Definition sync_ok (x : Z * psmsgr_state_reader) : Prop :=
  based (snd x) /\ (fst x = PSMSGR_OK -> attached (snd x)) /\ fst x <> PSMSGR_E_TIMEOUT.

Lemma wp_t_attach (r : psmsgr_state_reader) (en : Z) (s : tstate) :
  r_hdr r = None ->
  wp (attach r) en s (fun x _ _ => sync_ok x).
Proof.
  intros Hr. unfold attach.
  assert (Hn : forall rc, rc <> PSMSGR_OK -> rc <> PSMSGR_E_TIMEOUT -> sync_ok (rc, r)).
  { intros rc Hrc. unfold sync_ok, based. cbn. by rewrite Hr. }
  apply wp_bind, wp_t. intros [fd|e] s1 _.
  2: { apply wp_bind, wp_get_errno, wp_ret. by destruct (_ =? _); apply Hn. }
  apply wp_bind. eapply wp_mono; [apply wp_t_read_header |]. intros [rc sh] en2 s2 [Hsh Hnt].
  assert (Hk : forall rc r' en' s', sync_ok (rc, r') ->
    wp (close_keep_errno fd ;;; ret (rc, r')) en' s'
      (fun x _ _ => sync_ok x)).
  { intros rc' r' en' s' H. apply wp_bind.
    eapply wp_mono; [apply wp_t_total, total_close_keep_errno |]. intros [] en3 s3 _. by apply wp_ret. }
  apply wp_bind. destruct sh as [[st h]|].
  - destruct (negb (header_valid h (st_size st))); [by apply wp_ret, Hk, Hn |].
    cbv zeta. apply wp_bind, wp_t. intros [b|e] s3 _; [| by apply wp_ret, Hk, Hn].
    apply wp_ret, Hk. split; [done |]. split; [| done]. intros _. by eexists.
  - apply wp_ret, Hk, Hn; [| done]. intros ->. by destruct (Hsh eq_refl).
Qed.

Lemma attached_based (r : psmsgr_state_reader) : attached r -> based r.
Proof. intros (p & E & H). unfold based. by rewrite E. Qed.

Lemma wp_t_attach_retry (n : nat) (r : psmsgr_state_reader) (en : Z) (s : tstate) :
  r_hdr r = None ->
  wp (attach_retry n r) en s (fun x _ _ => sync_ok x).
Proof.
  revert r en s. induction n as [|n IH]; intros r en s Hr; cbn [attach_retry].
  - apply wp_ret. split; [unfold based; cbn; by rewrite Hr | done].
  - apply wp_bind. eapply wp_mono; [by apply wp_t_attach |]. intros [rc r1] en1 s1 H1.
    destruct (Z.eqb_spec rc PSMSGR_OK) as [->|Hne]; cbn [negb]; [| by apply wp_ret].
    apply wp_bind. eapply wp_mono; [apply wp_t_total, total_retired |]. intros [|] en2 s2 _; cbn [negb].
    + apply wp_bind. unfold detach. apply wp_bind, wp_t. intros x s3 _. by apply wp_ret, IH.
    + by apply wp_ret.
Qed.

Lemma wp_t_sync (r : psmsgr_state_reader) (en : Z) (s : tstate) :
  based r ->
  wp (reader_sync r) en s (fun x _ s' => sync_ok x /\ t_le s s').
Proof.
  intros Hr. apply wp_and; [| apply wp_t_total, total_reader_sync].
  unfold reader_sync. destruct (r_hdr r) as [p|] eqn:E; [| by apply wp_t_attach_retry].
  apply wp_bind. eapply wp_mono; [apply wp_t_total, total_retired |]. intros [|] en2 s2 _; cbn [negb].
  - apply wp_bind. unfold detach. apply wp_bind, wp_t. intros x s3 _. by apply wp_ret, wp_t_attach_retry.
  - apply wp_ret. unfold based in Hr. rewrite E in Hr.
    split; [unfold based; cbn; by rewrite E | split; [| done]]. intros _. by exists p.
Qed.

Lemma wp_t_identity (r : psmsgr_state_reader) (en : Z) (s : tstate) :
  based r ->
  wp (identity_check r) en s (fun x _ s' =>
    (based (snd x) /\ fst x <> PSMSGR_E_TIMEOUT) /\ t_le s s').
Proof.
  intros Hr. apply wp_and; [| apply wp_t_total, total_identity_check].
  unfold identity_check. destruct (r_hdr r) as [p|] eqn:E; [| by apply wp_ret].
  assert (Hd : forall en' s', wp (let* r := detach r in ret (PSMSGR_OK, r)) en' s'
    (fun x _ _ => based (snd x) /\ fst x <> PSMSGR_E_TIMEOUT)).
  { intros en' s'. apply wp_bind. unfold detach. apply wp_bind, wp_t. intros x s3 _. by apply wp_ret, wp_ret. }
  apply wp_bind, wp_t. intros [st|e] s1 _.
  - destruct (_ && _); [by apply wp_ret | apply Hd].
  - apply wp_bind, wp_get_errno. destruct (negb _); [by apply wp_ret | apply Hd].
Qed.

Lemma wp_t_clock (en : Z) (s : tstate) (Q : Z -> Z -> tstate -> Prop) :
  (forall s', t_clock s <= t_clock s' -> 0 <= t_clock s' < 18446744073709551616 -> t_early s' = t_early s ->
     t_retire s' = t_retire s -> Q (t_clock s') en s') ->
  wp (psmi_clock_ns CLOCK_MONOTONIC) en s Q.
Proof.
  intros HQ. unfold psmi_clock_ns. apply wp_bind, wp_t. intros [sec nsec] s' [Ht ->].
  apply wp_ret. apply (HQ {| t_clock := _; t_early := _; t_retire := _ |}); [done | | done | done].
  unfold timespec_ns. apply u64_range.
Qed.

(** ** One pass *)

(** How many sleeps of 10 ms at least fit before the deadline. *)
Definition sleeps_left (deadline : Z) (s : tstate) : nat :=
  Z.to_nat ((deadline - t_clock s + (UNATTACHED_POLL_NS - 1)) / UNATTACHED_POLL_NS).

Lemma sleeps_left_mono (deadline : Z) (s s' : tstate) :
  t_clock s <= t_clock s' -> (sleeps_left deadline s' <= sleeps_left deadline s)%nat.
Proof. unfold sleeps_left, UNATTACHED_POLL_NS. intros H. div_lia. Qed.

(** A sleep to the deadline, or for 10 ms or more, is one less. *)
Lemma sleeps_left_slept (deadline ns : Z) (s s1 s' : tstate) :
  t_clock s <= t_clock s1 -> t_clock s1 < deadline ->
  deadline - t_clock s1 <= ns \/ UNATTACHED_POLL_NS <= ns ->
  t_clock s1 + Z.max 0 ns <= t_clock s' ->
  (sleeps_left deadline s' < sleeps_left deadline s)%nat.
Proof.
  unfold sleeps_left, UNATTACHED_POLL_NS. intros H1 H2 Hns H'.
  div_lia.
Qed.

(** How many passes may still start over. *)
Definition passes_left (deadline : Z) (s : tstate) : nat :=
  (sleeps_left deadline s + t_early s + t_retire s)%nat.

(** A pass that starts over has used up a retired file, an early wake-up or a
    sleep; one that reports TIMEOUT has read the clock, after the deadline. *)
Definition pass_post (deadline : Z) (s : tstate)
    (x : psmsgr_state_reader + (Z * psmsgr_state_reader)) (s' : tstate) : Prop :=
  t_le s s' /\
  match x with
  | inl r' => based r' /\ (passes_left deadline s' < passes_left deadline s)%nat
  | inr (rc, _) => rc = PSMSGR_E_TIMEOUT -> deadline <= t_clock s'
  end.

Lemma passes_left_le (deadline : Z) (s s' : tstate) :
  t_le s s' -> (passes_left deadline s' <= passes_left deadline s)%nat.
Proof.
  intros (H1 & H2 & H3). unfold passes_left. pose proof (sleeps_left_mono deadline s s' H1). lia.
Qed.

Lemma pass_late (deadline : Z) (s s1 s' : tstate) x :
  t_le s s1 -> pass_post deadline s1 x s' -> pass_post deadline s x s'.
Proof.
  intros H [Hle Hx]. split; [by eapply t_le_trans |]. destruct x as [r'|[rc r']]; [| done].
  destruct Hx as [Hr Hx]. split; [done |]. pose proof (passes_left_le deadline s s1 H). lia.
Qed.

(** The two sleeps of the loop. *)
Lemma slept_pass (deadline ns : Z) (s s1 s' : tstate) :
  t_le s s1 -> t_clock s1 < deadline ->
  deadline - t_clock s1 <= ns \/ UNATTACHED_POLL_NS <= ns -> slept ns s1 s' ->
  (passes_left deadline s' < passes_left deadline s)%nat.
Proof.
  intros (H1 & H2 & H3) Hd Hns (Hc & He & Hr). unfold passes_left.
  pose proof (sleeps_left_slept deadline ns s s1 s' H1 Hd Hns Hc). lia.
Qed.

Lemma early_pass (deadline : Z) (s s1 s' : tstate) :
  t_le s s1 -> woke_early s1 s' -> (passes_left deadline s' < passes_left deadline s)%nat.
Proof.
  intros H (Hc & He & Hr). pose proof (passes_left_le deadline s s1 H). unfold passes_left in *.
  pose proof (sleeps_left_mono deadline s1 s' ltac:(lia)). lia.
Qed.

Lemma slice_asked (left most : Z) :
  UNATTACHED_POLL_NS <= most ->
  left <= (if left <? most then left else most) \/
  UNATTACHED_POLL_NS <= (if left <? most then left else most).
Proof. destruct (Z.ltb_spec left most); lia. Qed.

(** What the two system calls say about the time that has passed. *)
Lemma wp_t_nanosleep (ns en : Z) (s : tstate) :
  wp (call (SysNanosleep 0 ns)) en s (fun e _ s' => t_le s s' /\
    if e =? 0 then slept ns s s' else (e =? EINTR) = false -> woke_early s s').
Proof.
  apply wp_t. intros e s' Hs. split; [by eapply t_step_le |].
  cbn [t_step] in Hs. replace (0 * 1000000000 + ns) with ns in Hs by lia.
  destruct (e =? 0); [done |]. by intros E; rewrite E in Hs.
Qed.

Definition futex_told (ns : Z) (failed : bool) (e : Z) (s s' : tstate) : Prop :=
  (failed = false -> woke_early s s') /\
  (failed = true -> e = EAGAIN -> woke_early s s') /\
  (failed = true -> e = ETIMEDOUT -> slept ns s s').

Lemma wp_t_futex_wait (p : ptr) (n ns en : Z) (s : tstate) :
  wp (futex_wait p n ns) en s (fun failed e s' => t_le s s' /\ futex_told ns failed e s s').
Proof.
  unfold futex_wait. apply wp_bind, wp_t. intros r s' Hs. apply wp_ret.
  split; [by eapply t_step_le |]. cbn [t_step] in Hs.
  replace (ns / 1000000000 * 1000000000 + ns mod 1000000000) with ns in Hs by div_lia.
  unfold futex_told. destruct r as [|e]; [done |]. cbn [resp_errno]. split; [done |].
  by split; intros _ E; rewrite E in Hs.
Qed.

Lemma futex_pass (deadline ns : Z) (failed : bool) (e : Z) (s s1 s' : tstate) :
  t_le s s1 -> t_clock s1 < deadline ->
  deadline - t_clock s1 <= ns \/ UNATTACHED_POLL_NS <= ns -> futex_told ns failed e s1 s' ->
  failed = false \/ e = EAGAIN \/ e = ETIMEDOUT ->
  (passes_left deadline s' < passes_left deadline s)%nat.
Proof.
  intros H Hd Hns (Hwoke & Hagain & Hslept) Hf.
  destruct failed; [destruct Hf as [? | [-> | ->]]; [done | |] |].
  - eapply early_pass; [exact H | by apply Hagain].
  - eapply slept_pass; [exact H | done | exact Hns | by apply Hslept].
  - eapply early_pass; [exact H | by apply Hwoke].
Qed.

Lemma wp_t_wait_body (last deadline : Z) (r : psmsgr_state_reader) (en : Z) (s : tstate) :
  based r -> wp (wait_body last deadline r) en s (fun x _ s' => pass_post deadline s x s').
Proof.
  intros Hr. unfold wait_body. apply wp_bind. eapply wp_mono; [by apply wp_t_sync |].
  intros [rc r1] en1 s1 [(Hb & Ha & Hnt) Hle]. cbn [fst snd] in *.
  eapply (wp_mono _ _ _ (fun x _ s' => pass_post deadline s1 x s'));
    [| intros x en' s' H; by apply (pass_late _ _ s1)]. clear s Hle Hr.
  assert (Hret : forall rc r en' s', t_le s1 s' -> rc <> PSMSGR_E_TIMEOUT ->
    wp (ret (inr (rc, r))) en' s' (fun x _ s' => pass_post deadline s1 x s')).
  { intros rc' r' en' s' Hle Hrc. apply wp_ret. by split. }
  destruct (negb (rc =? PSMSGR_OK) && negb (rc =? PSMSGR_E_NODATA)) eqn:E1; [by apply Hret |].
  destruct (Z.eqb_spec rc PSMSGR_E_NODATA) as [->|Hnd].
  - apply wp_bind, wp_t_clock. intros s2 Ht _ He2 Hb2.
    assert (H12 : t_le s1 s2) by (unfold t_le; lia).
    destruct (Z.leb_spec deadline (t_clock s2)); [apply wp_ret; by split |].
    cbv zeta. apply wp_bind. eapply wp_mono; [apply wp_t_nanosleep |]. intros e en3 s3 [H23 Hs3].
    assert (H13 : t_le s1 s3) by (by eapply t_le_trans).
    destruct (e =? EINTR); [by apply Hret |]. apply wp_ret. split; [done | split; [done |]].
    destruct (e =? 0); [| eapply early_pass; [exact H12 | by apply Hs3]].
    eapply slept_pass; [exact H12 | done | by apply slice_asked | exact Hs3].
  - assert (rc = PSMSGR_OK) as ->.
    { destruct (Z.eqb_spec rc PSMSGR_OK); [done |]. cbn in E1. discriminate E1. }
    specialize (Ha eq_refl). clear E1 Hnt Hnd.
    destruct (negb (Z.land _ _ =? 0)); [by apply Hret |].
    unfold wait_look. apply wp_bind, wp_bind, wp_t. intros n s2 Hs%t_step_le.
    apply wp_bind. eapply wp_mono; [by apply wp_t_retired |]. intros dead en3 s3 [H23 Hd].
    assert (H13 : t_le s1 s3) by (by eapply t_le_trans).
    destruct dead.
    { do 2 apply wp_ret. split; [done | split; [done |]]. specialize (Hd eq_refl).
      pose proof (passes_left_le deadline s1 s2 Hs). pose proof (sleeps_left_mono deadline s2 s3 (proj1 H23)).
      unfold passes_left, t_le in *. lia. }
    apply wp_bind. eapply wp_mono; [apply wp_t_total, total_read_latest |].
    intros [[rc b] info] en4 s4 H34. assert (H14 : t_le s1 s4) by (by eapply t_le_trans).
    apply wp_ret.
    destruct (_ && _); [by apply Hret |].
    destruct (Z.eqb_spec rc PSMSGR_E_FORMAT) as [->|_]; [by apply Hret |].
    apply wp_bind, wp_t_clock. intros s5 Ht _ He5 Hb5. assert (H15 : t_le s1 s5) by (unfold t_le in *; lia).
    destruct (Z.leb_spec deadline (t_clock s5)); [apply wp_ret; by split |].
    cbv zeta. pose proof (slice_asked (deadline - t_clock s5) WAIT_SLICE_NS ltac:(done)) as Hsl.
    apply wp_bind. eapply wp_mono; [apply wp_t_futex_wait |]. intros failed en6 s6 [H56 Hx].
    assert (H16 : t_le s1 s6) by (by eapply t_le_trans).
    assert (Hinl : forall r' en' s', t_le s6 s' -> based r' ->
      (failed = false \/ en6 = EAGAIN \/ en6 = ETIMEDOUT) ->
      wp (ret (inl r')) en' s' (fun x _ s' => pass_post deadline s1 x s')).
    { intros r' en' s' H' Hr' Hf. apply wp_ret. split; [by eapply t_le_trans |]. split; [done |].
      pose proof (passes_left_le deadline s6 s' H').
      pose proof (futex_pass deadline _ failed en6 s1 s5 s6 H15 ltac:(done) Hsl Hx Hf). lia. }
    assert (Hb1 : based r1) by done.
    destruct failed; [| by apply Hinl; auto]. apply wp_bind, wp_get_errno.
    destruct (_ =? EINTR); [by apply Hret |]. destruct (Z.eqb_spec en6 ETIMEDOUT) as [E6|].
    + apply wp_bind. eapply wp_mono; [by apply wp_t_identity |].
      intros [rc' r2] en7 s7 [[Hb2 Hnt] H67]. cbn [fst snd] in *.
      destruct (negb _); [apply Hret; [by eapply t_le_trans | done] | by apply Hinl; auto].
    + destruct (Z.eqb_spec en6 EAGAIN) as [E6|]; cbn [negb]; [by apply Hinl; auto | by apply Hret].
Qed.

(** ** The loop *)

Lemma wp_t_wait_loop (fuel : nat) (last deadline : Z) (r : psmsgr_state_reader) (en : Z) (s : tstate) :
  based r -> (passes_left deadline s < fuel)%nat ->
  wp (loop fuel (wait_body last deadline) r) en s (fun '(rc, _) _ s' =>
    t_le s s' /\ (rc = PSMSGR_E_TIMEOUT -> deadline <= t_clock s')).
Proof.
  revert r en s. induction fuel as [|fuel IH]; intros r en s Hr Hf; [lia |]. cbn [loop].
  apply wp_bind. eapply wp_mono; [by apply wp_t_wait_body |].
  intros [r'|[rc r']] en' s' [Hle Hx]; [| by apply wp_ret].
  destruct Hx as [Hb Hx]. eapply wp_mono; [apply IH; [done | lia] |].
  intros [rc r2] en2 s2 [H1 H2]. split; [by eapply t_le_trans | done].
Qed.

(** ** Property *)

(** C9. [psmsgr_state_wait] with a timeout returns.  Take a monotonic clock
    that never goes back, though it may show the same time twice, and sleeps
    that, when they report that their time is up, lasted as long as asked for
    (clock_gettime(2), clock_nanosleep(2), futex(2)); let at most [t_early s]
    sleeps end otherwise without a signal - woken by a writer or for nothing -
    and at most [t_retire s] retired files be met.  Then a wait of [timeout_ms]
    makes at most one pass per 10 ms of the timeout, early wake-up and retired
    file, and one more: with that many the loop ends, whatever else the system
    calls answer and whatever the files hold.  When it says TIMEOUT, at least
    [timeout_ms] have passed since the call - unless the nanosecond counter
    would wrap around at 2^64 within [timeout_ms], some 584 years after boot. *)
Theorem wait_terminates (fuel : nat) (r : psmsgr_state_reader) (last timeout_ms en : Z) (s : tstate) :
  based r -> 0 <= timeout_ms < 2147483648 ->
  (Z.to_nat ((timeout_ms + 9) / 10) + t_early s + t_retire s < fuel)%nat ->
  wp (psmsgr_state_wait fuel (Some r) last timeout_ms) en s (fun '(rc, _) _ s' =>
    rc = PSMSGR_E_TIMEOUT -> t_clock s' + timeout_ms * NS_PER_MS < 18446744073709551616 ->
    t_clock s + timeout_ms * NS_PER_MS <= t_clock s').
Proof.
  intros Hr Hms Hf. unfold psmsgr_state_wait. destruct (Z.ltb_spec timeout_ms 0); [lia |].
  apply wp_bind, wp_bind, wp_t_clock. intros s1 Ht Hpos He Hb. apply wp_ret.
  unfold NS_PER_MS in *.
  rewrite (u64_small timeout_ms) by lia. rewrite (u64_small (timeout_ms * 1000000)) by lia.
  set (T := timeout_ms * 1000000) in *. set (deadline := u64 (t_clock s1 + T)).
  assert (Hd : deadline <= t_clock s1 + T) by (apply Z.mod_le; lia).
  apply wp_bind. eapply wp_mono; [apply (wp_t_wait_loop fuel); [done |] |].
  - unfold passes_left. rewrite He, Hb. enough (sleeps_left deadline s1 <= Z.to_nat ((timeout_ms + 9) / 10))%nat by lia.
    unfold sleeps_left, UNATTACHED_POLL_NS. div_lia.
  - intros [rc r'] en' s' [[Hle _] Hx]. apply wp_ret. intros -> Hs'. specialize (Hx eq_refl).
    unfold deadline in Hx. rewrite u64_small in Hx by lia. lia.
Qed.
End wait.

(** ** Witness *)

Definition waiting_handle : psmsgr_state_reader := {|
  r_block := 1; r_hdr := Some {| p_blk := 7; p_off := 0 |}; r_map_size := 384;
  r_slot_count := 2; r_slot_stride := 128; r_capacity := 96; r_payload_type := 0;
  r_config_flags := 0; r_announce := true; r_dev := 0; r_ino := 0;
  r_paths := {| pt_block := 2; pt_dir := "/dev/shm"; pt_data := "/dev/shm/psmsgr.m.state";
                pt_lock := "/dev/shm/psmsgr.m.lock"; pt_data_base := "psmsgr.m.state" |} |}.

(** A wait of 250 ms that may be woken 5 times and meet 3 retired files. *)
Lemma wait_terminates_witness :
  let s := {| t_clock := 1000000000; t_early := 5; t_retire := 3 |} in
  wp (psmsgr_state_wait (C := config64) 34 (Some waiting_handle) 0 250) 0 s (fun '(rc, _) _ s' =>
    rc = PSMSGR_E_TIMEOUT -> t_clock s' + 250 * NS_PER_MS < 18446744073709551616 ->
    t_clock s + 250 * NS_PER_MS <= t_clock s').
Proof.
  intros s. apply (wait_terminates (C := config64)); [done | lia |].
  change (25 + 5 + 3 < 34)%nat. lia.
Defined.
