(* ===== verification/Progress.v ===== *)
(** * Every call returns

    The calls of the library without a loop that waits for others return in
    any environment (Total.v).  Opening a writer and unlinking a channel start
    over while the lock file is replaced under them: they return if that
    happens finitely often, and after as many passes. *)
From S2P Require Import Prelude Prog Common Layout Names Options Writer Reader Channel Total.
#[local] Open Scope string_scope.
#[local] Open Scope list_scope.
#[local] Open Scope Z_scope.

(** ** A system on which names move finitely often *)

(** What the paths name, the inodes open, how often a file may still be
    removed by others, and the entries left on each directory stream. *)
Record pstate := {
  ps_names : gmap string (Z * Z);
  ps_fds : gmap Z (Z * Z);
  ps_left : nat;
  ps_dirs : gmap Z nat
}.

Definition ps_name (path : string) (i : option (Z * Z)) (left : nat) (s : pstate) : pstate := {|
  ps_names := partial_alter (fun _ => i) path (ps_names s);
  ps_fds := ps_fds s; ps_left := left; ps_dirs := ps_dirs s |}.
Definition ps_open (fd : Z) (i : Z * Z) (s : pstate) : pstate := {|
  ps_names := ps_names s; ps_fds := <[fd := i]> (ps_fds s); ps_left := ps_left s; ps_dirs := ps_dirs s |}.
Definition ps_close (fd : Z) (s : pstate) : pstate := {|
  ps_names := ps_names s; ps_fds := delete fd (ps_fds s); ps_left := ps_left s; ps_dirs := ps_dirs s |}.
Definition ps_dir (d : Z) (k : nat) (s : pstate) : pstate := {|
  ps_names := ps_names s; ps_fds := ps_fds s; ps_left := ps_left s; ps_dirs := <[d := k]> (ps_dirs s) |}.

(** What others do: make files, and remove or rename them while they may. *)
Inductive moves : pstate -> pstate -> Prop :=
  | moves_none s : moves s s
  | moves_make path i s s' :
      ps_names s !! path = None -> moves (ps_name path (Some i) (ps_left s) s) s' -> moves s s'
  | moves_remove path n s s' :
      ps_left s = S n -> moves (ps_name path None n s) s' -> moves s s'.

Definition is_excl (fl : list oflag) : bool :=
  existsb (fun f => match f with O_EXCL => true | _ => false end) fl.

(** No directory has more than [entries] entries. *)
Definition own_step (entries : nat) (e : ev) (s : pstate) : resp e -> pstate -> Prop :=
  match e return resp e -> pstate -> Prop with
  | SysOpen path fl _ => fun r s' =>
      match r with
      | inl fd => exists i,
          if is_excl fl
          then ps_names s !! path = None /\ s' = ps_open fd i (ps_name path (Some i) (ps_left s) s)
          else ps_names s !! path = Some i /\ s' = ps_open fd i s
      | inr e => s' = s /\
          if is_excl fl then e = EEXIST -> is_Some (ps_names s !! path)
          else e = ENOENT -> ps_names s !! path = None
      end
  | SysMkostemp _ => fun r s' =>
      match r with
      | inl (fd, tmp) => exists i, ps_names s !! tmp = None /\
          s' = ps_open fd i (ps_name tmp (Some i) (ps_left s) s)
      | inr _ => s' = s
      end
  | SysClose fd => fun _ s' => s' = ps_close fd s
  | SysFstat fd => fun r s' => s' = s /\
      match r with inl st => ps_fds s !! fd = Some (st_dev st, st_ino st) | inr _ => True end
  | SysLstat path => fun r s' => s' = s /\
      match r with
      | inl st => ps_names s !! path = Some (st_dev st, st_ino st)
      | inr e => e = ENOENT -> ps_names s !! path = None
      end
  | SysUnlink path => fun r s' =>
      s' = match r with inl _ => ps_name path None (ps_left s) s | inr _ => s end
  | SysRename from to => fun r s' =>
      s' = match r with
           | inl _ => ps_name from None (ps_left s) (ps_name to (ps_names s !! from) (ps_left s) s)
           | inr _ => s
           end
  (* what the name is of depends on the directory *)
  | SysUnlinkat _ _ => fun r s' => s' = s \/ exists path, s' = ps_name path None (ps_left s) s
  | SysOpendir _ => fun r s' =>
      match r with
      | inl d => exists k, (k <= entries)%nat /\ s' = ps_dir d k s
      | inr _ => s' = s
      end
  | SysReaddir d => fun r s' =>
      match r with
      | Some _ => exists k, ps_dirs s !! d = Some (S k) /\ s' = ps_dir d k s
      | None => s' = s
      end
  | _ => fun _ s' => s' = s
  end.

Section progress.
Context (entries : nat).

Definition progress_sem : Sem pstate := {|
  sem_pre := fun _ _ => True;
  sem_step := fun e s r s' => exists s1, moves s s1 /\ own_step entries e s1 r s';
  sem_out := False
|}.
#[local] Instance psem : Sem pstate := progress_sem.

(** A name that has moved has used up a removal. *)
Lemma moves_left (s s' : pstate) :
  moves s s' ->
  ps_fds s' = ps_fds s /\ ps_dirs s' = ps_dirs s /\ (ps_left s' <= ps_left s)%nat /\
  forall path i, ps_names s !! path = Some i -> ps_names s' !! path <> Some i ->
    (ps_left s' < ps_left s)%nat.
Proof.
  induction 1 as [s | path i s s' Hp _ IH | path n s s' Hn _ IH]; [done | |].
  - destruct IH as (H1 & H2 & H3 & H4). cbn in *. split_and!; try done.
    intros q j Hq. apply H4. cbn. rewrite lookup_partial_alter_ne; [done | congruence].
  - destruct IH as (H1 & H2 & H3 & H4). cbn in *. split_and!; try done; [lia |].
    intros q j _ _. lia.
Qed.

Lemma own_left (e : ev) (s s' : pstate) (r : resp e) :
  own_step entries e s r s' -> ps_left s' = ps_left s.
Proof.
  intros H. destruct e; cbn in H; try (by subst s'); try (by destruct H as [-> _]).
  - destruct r; [| by destruct H as [-> _]]. destruct H as [i H].
    destruct (is_excl _); by destruct H as [_ ->].
  - destruct r as [[fd tmp]|]; [| by subst s']. by destruct H as (i & _ & ->).
  - destruct r; by subst s'.
  - destruct r; by subst s'.
  - destruct r; [| by subst s']. by destruct H as (k & _ & ->).
  - destruct r; [| by subst s']. by destruct H as (k & _ & ->).
  - by destruct H as [-> | [path ->]].
Qed.

(** One step, by what it leaves to remove and what it says of the names. *)
Lemma wp_step (e : ev) (en : Z) (s : pstate) (Q : resp e -> Z -> pstate -> Prop) :
  (forall r s1 s', moves s s1 -> own_step entries e s1 r s' -> Q r (resp_errno e r en) s') ->
  wp (call e) en s Q.
Proof. intros HQ. apply wp_call; [done |]. intros r s' (s1 & Hm & Ho). by apply (HQ r s1 s'). Qed.

(** A program without loops: it returns, and removals are not given back. *)
Lemma wp_total {A : Type} (m : prog A) (en : Z) (s : pstate) (Q : A -> Z -> pstate -> Prop) :
  total m -> (forall a en' s', (ps_left s' <= ps_left s)%nat -> Q a en' s') -> wp m en s Q.
Proof.
  intros Hm HQ. eapply wp_mono;
    [apply (total_wp (fun s s' => ps_left s' <= ps_left s)%nat); [lia | lia | done | | exact Hm] |].
  - intros e s1 r s2 (s3 & Hmv & Ho). rewrite (own_left _ _ _ _ Ho).
    by destruct (moves_left _ _ Hmv) as (_ & _ & H & _).
  - intros a en' s' H. by apply HQ.
Qed.

(** The descriptor [fd] is of inode [i], which the path named: if it does not
    any more, a removal has been used up. *)
Definition opened_at (path : string) (fd : Z) (i : Z * Z) (n : nat) (s : pstate) : Prop :=
  ps_fds s !! fd = Some i /\ (ps_left s <= n)%nat /\
  (ps_names s !! path = Some i \/ (ps_left s < n)%nat).

Lemma opened_at_moves (path : string) (fd : Z) (i : Z * Z) (n : nat) (s s' : pstate) :
  opened_at path fd i n s -> moves s s' -> opened_at path fd i n s'.
Proof.
  intros (Hf & Hn & Hp) Hm. destruct (moves_left _ _ Hm) as (H1 & _ & H2 & H3).
  unfold opened_at. rewrite H1. split; [done |]. split; [lia |].
  destruct Hp as [Hp | Hp]; [| right; lia].
  destruct (decide (ps_names s' !! path = Some i)) as [|Hne]; [by left | right].
  pose proof (H3 _ _ Hp Hne). lia.
Qed.

(** A call that changes no name and no descriptor. *)
Lemma wp_step_quiet (e : ev) (path : string) (fd : Z) (i : Z * Z) (n : nat) (en : Z) (s : pstate)
    (Q : resp e -> Z -> pstate -> Prop) :
  (forall s r s', own_step entries e s r s' -> s' = s) -> opened_at path fd i n s ->
  (forall r s1, own_step entries e s1 r s1 -> opened_at path fd i n s1 -> Q r (resp_errno e r en) s1) ->
  wp (call e) en s Q.
Proof.
  intros He Ho HQ. apply wp_step. intros r s1 s' Hm Hs. pose proof (He _ _ _ Hs) as ->.
  apply HQ; [done |]. by eapply opened_at_moves.
Qed.

Section lock.
Context {C : Config} (path : string) (mode : Z).

(** Starting over has used up a removal. *)
Definition lock_post (n : nat) (x : unit + (Z * Z)) (s : pstate) : Prop :=
  (ps_left s <= n)%nat /\ (x = inl tt -> (ps_left s < n)%nat).

Lemma wp_names_inode (fd : Z) (i : Z * Z) (n : nat) (en : Z) (s : pstate)
    (Q : bool * Z -> Z -> pstate -> Prop) :
  opened_at path fd i n s ->
  (forall x en' s', (ps_left s' <= n)%nat ->
     (fst x = false -> snd x = PSMSGR_OK -> (ps_left s' < n)%nat) -> Q x en' s') ->
  wp (names_inode path fd) en s Q.
Proof.
  intros Ho HQ. unfold names_inode. apply wp_bind.
  eapply wp_step_quiet; [by intros s1 r s2 [-> _] | exact Ho |].
  intros r s1 [_ Hst] (Hf & Hn & Hp).
  destruct r as [st | e]; [| apply wp_ret, HQ; [done | by intros _ [=]]].
  rewrite Hf in Hst. injection Hst as ->.
  apply wp_bind. eapply wp_step_quiet; [by intros s2 r s3 [-> _] | by repeat split |].
  intros r s2 [_ Hl] (_ & Hn2 & Hp2). destruct r as [ps | e].
  - apply wp_ret, HQ; [done |]. cbn. intros Hsame _. destruct Hp2 as [Hp2 |]; [| done].
    rewrite Hl in Hp2. injection Hp2 as H1 H2. unfold same_file in Hsame.
    rewrite H1, H2, !Z.eqb_refl in Hsame. done.
  - apply wp_bind, wp_get_errno, wp_ret, HQ; [done |]. cbn. intros _.
    destruct (Z.eqb_spec e ENOENT) as [He |]; [| by intros [=]]. intros _.
    destruct Hp2 as [Hp2 |]; [| done]. rewrite (Hl He) in Hp2. done.
Qed.

Lemma wp_hook (fd : Z) (i : Z * Z) (n : nat) (en : Z) (s : pstate)
    (Q : unit -> Z -> pstate -> Prop) :
  opened_at path fd i n s -> (forall en' s', opened_at path fd i n s' -> Q tt en' s') ->
  wp (if psmi_test_lock_opened then call HookLockOpened else ret tt) en s Q.
Proof.
  intros Ho HQ. destruct psmi_test_lock_opened; [| by apply wp_ret, HQ].
  eapply wp_step_quiet; [by intros s1 r s2 -> | exact Ho |]. intros [] s1 _ Ho1. by apply HQ.
Qed.

Lemma wp_lock_opened (fd : Z) (i : Z * Z) (n : nat) (en : Z) (s : pstate) :
  opened_at path fd i n s ->
  wp (lock_opened path fd) en s (fun x _ s' => lock_post n x s').
Proof.
  intros Ho. unfold lock_opened. apply wp_bind.
  assert (Hend : forall (x : unit + (Z * Z)) en s, (ps_left s <= n)%nat ->
    (x = inl tt -> (ps_left s < n)%nat) ->
    wp (close_keep_errno fd ;;; ret x) en s (fun x _ s' => lock_post n x s')).
  { intros x en1 s1 H1 H2. apply wp_bind, wp_total; [apply total_close_keep_errno |].
    intros _ en2 s2 H3. apply wp_ret. split; [lia |]. intros H. pose proof (H2 H). lia. }
  eapply wp_hook; [exact Ho |]. intros en1 s1 Ho1. apply wp_bind.
  eapply wp_step_quiet; [by intros s2 r s3 -> | exact Ho1 |]. intros l s2 _ Ho2.
  destruct l as [[]|e].
  - apply wp_bind. eapply wp_names_inode; [exact Ho2 |]. intros [cur err] en' s' Hn Hc.
    destruct cur; [apply wp_ret; by split |].
    destruct (Z.eqb_spec err PSMSGR_OK); cbn [negb]; apply Hend; try done. intros _. by apply Hc.
  - apply wp_bind, wp_get_errno. destruct (_ && _); [apply Hend; [apply Ho2 | done] |].
    apply wp_bind. eapply wp_names_inode; [exact Ho2 |]. intros [cur err] en' s' Hn Hc.
    destruct (Z.eqb_spec err PSMSGR_OK); cbn [negb]; [destruct cur |]; apply Hend; try done.
    intros _. by apply Hc.
Qed.

Lemma wp_lock_body (en : Z) (s : pstate) :
  wp (lock_body path mode tt) en s (fun x _ s' => lock_post (ps_left s) x s').
Proof.
  unfold lock_body. apply wp_bind, wp_step. intros r s1 s' Hm Hs.
  destruct (moves_left _ _ Hm) as (_ & _ & Hl & _).
  destruct r as [fd | e].
  - destruct Hs as (i & Hs). change (is_excl lock_create_flags) with true in Hs. cbn iota in Hs.
    destruct Hs as [_ ->]. apply wp_bind.
    assert (Ho : opened_at path fd i (ps_left s) (ps_open fd i (ps_name path (Some i) (ps_left s1) s1))).
    { split; [apply lookup_insert_eq |]. split; [done |]. left. apply lookup_partial_alter_eq. }
    eapply wp_step_quiet; [by intros s2 r s3 -> | exact Ho |]. intros r s2 _ Ho2.
    destruct r as [[]|]; [by eapply wp_lock_opened |].
    apply wp_bind, wp_total; [apply total_close_keep_errno |]. intros _ en2 s3 H3.
    apply wp_ret. destruct Ho2 as (_ & H2 & _). split; [lia | done].
  - destruct Hs as [-> Hs]. change (is_excl lock_create_flags) with true in Hs. cbn iota in Hs.
    apply wp_bind, wp_get_errno. cbn [resp_errno].
    destruct (Z.eqb_spec e EEXIST) as [He |]; [| by apply wp_ret].
    destruct (Hs He) as [i0 Hi0]. apply wp_bind, wp_step. intros r s2 s' Hm2 Hs2.
    change (is_excl rdwr_open_flags) with false in Hs2.
    destruct (moves_left _ _ Hm2) as (_ & _ & Hl2 & Hp2). destruct r as [fd | e2].
    + destruct Hs2 as (i & Hi & ->). eapply wp_lock_opened.
      split; [apply lookup_insert_eq |]. cbn. split; [lia | by left].
    + destruct Hs2 as [-> Hs2]. apply wp_bind, wp_get_errno. cbn [resp_errno].
      destruct (Z.eqb_spec e2 ENOENT) as [He2 |]; [| apply wp_ret; split; [lia | done]].
      apply wp_ret. split; [lia |]. intros _.
      pose proof (Hp2 path i0 Hi0). rewrite (Hs2 He2) in H. lapply H; [lia | done].
Qed.

Lemma wp_lock_channel (fuel : nat) (en : Z) (s : pstate) (Q : Z * Z -> Z -> pstate -> Prop) :
  (ps_left s < fuel)%nat ->
  (forall x en' s', (ps_left s' <= ps_left s)%nat -> Q x en' s') ->
  wp (lock_channel fuel path mode) en s Q.
Proof.
  unfold lock_channel. revert en s. induction fuel as [|fuel IH]; intros en s Hf HQ; [lia |].
  cbn [loop]. apply wp_bind. eapply wp_mono; [apply wp_lock_body |].
  intros [[] | x] en' s' [H1 H2].
  - specialize (H2 eq_refl). apply IH; [lia |]. intros x en2 s2 H. apply HQ. lia.
  - by apply wp_ret, HQ.
Qed.
End lock.

(** ** The leftover files *)

Lemma wp_remove_stale_tmp (fuel : nat) (p : paths) (en : Z) (s : pstate)
    (Q : unit -> Z -> pstate -> Prop) :
  (entries < fuel)%nat -> (forall en' s', Q tt en' s') -> wp (remove_stale_tmp fuel p) en s Q.
Proof.
  intros Hfuel HQ. unfold remove_stale_tmp. apply wp_bind, wp_step. intros d s1 s' _ Hs.
  destruct d as [d | e]; [| apply wp_ret, HQ]. destruct Hs as (k & Hk & ->). apply wp_bind.
  assert (Hd : ps_dirs (ps_dir d k s1) !! d = Some k) by apply lookup_insert_eq.
  assert (Hkf : (k < fuel)%nat) by lia. generalize dependent (ps_dir d k s1).
  clear Hfuel Hk s1. revert k Hkf. generalize (resp_errno (SysOpendir (pt_dir p)) (inl d) en).
  clear en s. induction fuel as [|fuel IH]; intros en k Hkf s Hd; [lia |].
  cbn [loop]. apply wp_bind, wp_bind, wp_step. intros r s1 s' Hm Hs.
  destruct (moves_left _ _ Hm) as (_ & Hd1 & _). destruct r as [n|].
  - destruct Hs as (k' & Hk' & ->). rewrite Hd1, Hd in Hk'. injection Hk' as ->.
    assert (Hd2 : ps_dirs (ps_dir d k' s1) !! d = Some k') by apply lookup_insert_eq.
    destruct (stale_tmp _ n); [| apply wp_ret; apply (IH _ k'); [lia | done]].
    apply wp_bind, wp_step. intros r s2 s3 Hm2 Hs2. apply wp_ret. apply (IH _ k'); [lia |].
    destruct (moves_left _ _ Hm2) as (_ & Hd3 & _).
    destruct Hs2 as [-> | [path ->]]; cbn [ps_dirs ps_name]; by rewrite Hd3.
  - cbn in Hs. subst s'. do 2 apply wp_ret. apply wp_bind, wp_step. intros r s2 s3 _ _. apply wp_ret, HQ.
Qed.

(** ** Opening and deleting channels *)

Section api.
Context {C : Config}.

(** The rest of a call does not matter once it has no loop left. *)
Lemma wp_rest {A : Type} (m : prog A) (en : Z) (s : pstate) :
  total m -> wp m en s (fun _ _ _ => True).
Proof. intros Hm. by apply wp_total. Qed.

Lemma wp_writer_open (fuel : nat) (name : option string) (opt : option psmsgr_state_options)
    (out_null : bool) (en : Z) (s : pstate) :
  (ps_left s < fuel)%nat -> (entries < fuel)%nat ->
  wp (psmsgr_state_writer_open fuel name opt out_null) en s (fun _ _ _ => True).
Proof.
  intros Hl He. unfold psmsgr_state_writer_open. destruct out_null; [by apply wp_ret |].
  destruct (load_options opt) as [rc o]. destruct (negb _); [by apply wp_ret |].
  destruct (negb (name_valid name)); [by apply wp_ret |].
  apply wp_bind, wp_total; [apply total_paths_init |]. intros [rc1 [p|]] en1 s1 H1; [| by apply wp_ret].
  apply wp_bind, wp_total; [apply total_call |]. intros [b|] en2 s2 H2; [| apply wp_rest; total].
  apply wp_bind, wp_lock_channel; [lia |]. intros [rc2 fd] en3 s3 H3. apply wp_bind.
  destruct (rc2 =? PSMSGR_OK); [| apply wp_ret, wp_rest; total].
  apply wp_bind, wp_remove_stale_tmp; [done |]. intros en4 s4.
  apply wp_total; [total |]. intros [rc3 w] en5 s5 _. apply wp_rest. total.
Qed.

Lemma wp_unlink (fuel : nat) (name dir : option string) (en : Z) (s : pstate) :
  (ps_left s < fuel)%nat -> (entries < fuel)%nat ->
  wp (psmsgr_state_unlink fuel name dir) en s (fun _ _ _ => True).
Proof.
  intros Hl He. unfold psmsgr_state_unlink. destruct (negb _ || _); [by apply wp_ret |].
  apply wp_bind, wp_total; [apply total_paths_init |]. intros [rc1 [p|]] en1 s1 H1; [| by apply wp_ret].
  apply wp_bind, wp_lock_channel; [lia |]. intros [rc2 fd] en3 s3 H3.
  destruct (negb _); [apply wp_rest; total |].
  apply wp_bind, wp_remove_stale_tmp; [done |]. intros en4 s4. apply wp_rest. total.
Qed.

(** C10. Every call of the library but [psmsgr_state_wait] (for which see
    Waiting.v) returns.  Opening a writer and unlinking a channel start over
    only when the lock file was removed or replaced under them, so with [n]
    removals to come they take at most [n] + 1 passes, plus one step for every
    entry of the directory; everything else returns in any environment, a read
    of a file under constant writing included. *)
Theorem calls_return (fuel : nat) (en : Z) (s : pstate) :
  (ps_left s < fuel)%nat -> (entries < fuel)%nat ->
  (forall name opt out_null,
     wp (psmsgr_state_writer_open fuel name opt out_null) en s (fun _ _ _ => True)) /\
  (forall name dir, wp (psmsgr_state_unlink fuel name dir) en s (fun _ _ _ => True)) /\
  (forall w data len, total (psmsgr_state_publish w data len)) /\
  (forall w buf_null, total (psmsgr_state_begin w buf_null)) /\
  (forall w len, total (psmsgr_state_commit w len)) /\
  (forall w, total (psmsgr_state_writer_close w)) /\
  (forall name dir out_null, total (psmsgr_state_reader_open name dir out_null)) /\
  (forall r buf size info_null, total (psmsgr_state_read r buf size info_null)) /\
  (forall r info_null, total (psmsgr_state_peek r info_null)) /\
  (forall r desc size, total (psmsgr_state_describe_sized r desc size)) /\
  (forall r, total (psmsgr_state_writer_alive r)) /\
  (forall r, total (psmsgr_state_reader_close r)).
Proof.
  intros Hl He. split; [intros; by apply wp_writer_open |]. split; [intros; by apply wp_unlink |].
  split_and!; intros; (apply total_reader_open || apply total_writer_calls || apply total_reader_calls).
Qed.
End api.
End progress.

(** ** Witness *)

Definition idle_state : pstate :=
  {| ps_names := ∅; ps_fds := ∅; ps_left := 3; ps_dirs := ∅ |}.

Lemma calls_return_witness :
  (ps_left idle_state < 101)%nat /\
  wp (HS := progress_sem 100) (psmsgr_state_unlink (C := config64) 101 (Some "motor") None) 0 idle_state
    (fun _ _ _ => True).
Proof.
  split; [vm_compute; lia |].
  apply (calls_return (C := config64) 100 101 0 idle_state); [vm_compute; lia | lia].
Defined.
