(* ===== verification/Opened.v ===== *)
(** * The channel a writer is given

    Whatever the system answers and the data file holds, a writer that was
    opened has the capacity, the slots and the notification its options ask
    for: a file with others is recreated or refused. *)
From S2P Require Import Prelude Prog Common Layout Names Options Writer Reader Channel World.
From S2P Require Import WriterSafety.
#[local] Open Scope list_scope.
#[local] Open Scope Z_scope.

(** ** Environments *)

(** Any system, and the header a process has just written: it reads back what
    it stored in the constant part of a mapping of its own; a new mapping is
    of a block nothing is noted of.  Everything else - the results of calls,
    the words and bytes of any file - is arbitrary. *)
Definition told_step (e : ev) (h : heads) : resp e -> heads -> Prop :=
  match e return resp e -> heads -> Prop with
  | Store8 p v => fun _ h' => h' = note p v h
  | Load8 p => fun r h' => as_noted h p r /\ h' = h
  | SysMmap _ _ _ _ => fun r h' => match r with inl b => h !! b = None | inr _ => True end /\ h' = h
  | SysMunmap b _ => fun _ h' => h' = delete b h
  | _ => fun _ h' => h' = h
  end.

Definition told_sem : Sem heads := {|
  sem_pre := fun _ _ => True; sem_step := told_step; sem_out := True
|}.

(** The monitor of World.v is such a system. *)
Lemma told_of_world (e : ev) (w w' : world) (r : resp e) :
  world_step e w r w' -> told_step e (wd_head w) r (wd_head w').
Proof.
  intros H. destruct e; cbn [world_step told_step] in *; destruct_and?; subst; try done.
  all: repeat case_match; destruct_and?; subst; try done.
  all: try (split; [| done]); try done; by match goal with H : free_blk _ _ |- _ => apply H end.
Qed.

Lemma wp_any_skip {A B : Type} (m : prog A) (f : A -> prog B) (en : Z)
    (Q : B -> Z -> unit -> Prop) :
  (forall a en', wp (HS := any_sem) (f a) en' tt Q) -> wp (HS := any_sem) (bind m f) en tt Q.
Proof. intros HQ. apply (wp_lax_skip (HS := any_sem)); [done | done |]. intros a en' []. apply HQ. Qed.

(** What holds in any environment holds in each. *)
Lemma wp_any_and {S A : Type} `{HS : Sem S} (m : prog A) (en : Z) (s : S)
    (P : A -> Prop) (Q : A -> Z -> S -> Prop) :
  wp (HS := any_sem) m en tt (fun a _ _ => P a) -> wp m en s Q ->
  wp m en s (fun a en' s' => P a /\ Q a en' s').
Proof. intros HP HQ. by apply (wp_refine (HS := any_sem) (fun _ => tt) m en s (fun a _ _ => P a)). Qed.

Section opened.
Context {C : Config}.

(** The channel of a handle is the one asked for. *)
Definition as_asked (o : psmsgr_state_options) (w : psmsgr_state_writer) : Prop :=
  w_capacity w = o_capacity o /\ w_slot_count w = o_slot_count o /\
  w_notify w = (Z.land (config_flags_of o) PSMI_CONFIG_NO_NOTIFY =? 0) /\
  w_open_slot w = PSMI_LATEST_NONE.

Definition result_asked (o : psmsgr_state_options) (x : Z * psmsgr_state_writer) : Prop :=
  fst x = PSMSGR_OK -> as_asked o (snd x).

Ltac refused := apply wp_ret; let E := fresh in intros E; discriminate E.

(** The bytes a store notes. *)
Lemma wp_t_store_bytes (bs : list Z) (b off en : Z) (h : heads) (Q : unit -> Z -> heads -> Prop) :
  bs <> [] -> off + Z.of_nat (length bs) <= HOff.state ->
  Q tt en (<[b := head_put off bs (default ∅ (h !! b))]> h) ->
  wp (HS := told_sem) (store_bytes {| p_blk := b; p_off := off |} bs) en h Q.
Proof.
  revert off h. induction bs as [|x bs IH]; intros off h Hn Ho HQ; [done |]. cbn [store_bytes].
  apply wp_bind, wp_call; [done |]. intros [] h' ->. simpl in Ho. unfold note. cbn [p_blk p_off].
  destruct (Z.ltb_spec off HOff.state); [| lia].
  destruct bs as [|y bs]; [by apply wp_ret |].
  apply IH; [done | simpl in *; lia |].
  rewrite lookup_insert_eq, insert_insert_eq. exact HQ.
Qed.

(** Stores elsewhere. *)
Lemma wp_t_store_behind (bs : list Z) (p : ptr) (en : Z) (h : heads) (Q : unit -> Z -> heads -> Prop) :
  HOff.state <= p_off p -> Q tt en h -> wp (HS := told_sem) (store_bytes p bs) en h Q.
Proof.
  revert p. induction bs as [|x bs IH]; intros p Hp HQ; cbn [store_bytes]; [by apply wp_ret |].
  apply wp_bind, wp_call; [done |]. intros [] h' ->. unfold note.
  destruct (Z.ltb_spec (p_off p) HOff.state); [lia |]. apply IH; [cbn; lia | done].
Qed.

Lemma wp_t_store_header (b en : Z) (o : psmsgr_state_options) (h : heads)
    (Q : unit -> Z -> heads -> Prop) :
  (forall m en', geom_noted o m -> Q tt en' (<[b := m]> h)) ->
  wp (HS := told_sem) (store_header {| p_blk := b; p_off := 0 |} o) en h Q.
Proof.
  intros HQ. unfold store_header, plain_store.
  assert (Hf : forall n off v (k : prog unit) m h1 en, off + Z.of_nat (S n) <= HOff.state ->
    wp (HS := told_sem) k en (<[b := head_put off (le_bytes (S n) v) m]> h) Q ->
    h1 !! b = Some m -> <[b := head_put off (le_bytes (S n) v) m]> h1 =
                        <[b := head_put off (le_bytes (S n) v) m]> h ->
    wp (HS := told_sem)
      (store_bytes (ptr_add {| p_blk := b; p_off := 0 |} off) (le_bytes (S n) v) ;;; k) en h1 Q).
  { intros n off v k m h1 en0 Hn Hk Hm E. apply wp_bind, (wp_t_store_bytes _ _ off);
      [done | by rewrite length_le_bytes |]. cbn [p_blk]. rewrite Hm. change (default ∅ (Some m)) with m. by rewrite E. }
  apply wp_bind, (wp_t_store_bytes _ _ HOff.magic); [done | done |].
  do 9 (eapply Hf; [done | | apply lookup_insert_eq | by rewrite insert_insert_eq]).
  apply wp_bind, wp_t_store_behind; [done |].
  apply wp_bind. unfold psmi_clock_ns. apply wp_bind, wp_call; [done |]. intros [sec ns] h' ->.
  apply wp_ret, wp_bind, wp_t_store_behind; [done |]. apply wp_ret, HQ, (stored_head_noted o).
Qed.

Lemma wp_t_load_geom (b en : Z) (o : psmsgr_state_options) (m : gmap Z Z) (h : heads)
    (Q : psmi_header -> Z -> heads -> Prop) :
  geometry_ok (new_geometry o) -> h !! b = Some m -> geom_noted o m -> Q (new_geom o) en h ->
  wp (HS := told_sem) (load_geom {| p_blk := b; p_off := 0 |}) en h Q.
Proof.
  intros Hg Hh Hm HQ. apply (wp_load_geom _ o); [done | | done]. intros off v Hi i x Hx.
  split; [done |]. intros r h' [Hr ->]. split; [| done]. apply Hr.
  - unfold noted. cbn [ptr_add p_blk p_off]. rewrite Hh. cbn. by eapply Hm.
  - apply (Forall_lookup_1 _ _ _ _ (le_bytes_forall 4 v) Hx).
Qed.

(** A step whose result does not matter, here. *)
Lemma wp_t_skip {A B : Type} (m : prog A) (f : A -> prog B) (en : Z) (h : heads)
    (Q : B -> Z -> heads -> Prop) :
  (forall a en' h', wp (HS := told_sem) (f a) en' h' Q) -> wp (HS := told_sem) (bind m f) en h Q.
Proof. by apply (wp_lax_skip (HS := told_sem)). Qed.

(** An event that stores nothing. *)
Lemma wp_t_same {B : Type} (e : ev) (f : resp e -> prog B) (en : Z) (h : heads)
    (Q : B -> Z -> heads -> Prop) :
  (forall r h', told_step e h r h' -> h' = h) ->
  (forall a en', wp (HS := told_sem) (f a) en' h Q) -> wp (HS := told_sem) (bind (call e) f) en h Q.
Proof.
  intros He HQ. apply wp_bind, wp_call; [done |]. intros r h' Hs. rewrite (He _ _ Hs). apply HQ.
Qed.

(** Retiring a file stores nothing in a constant part. *)
Lemma wp_t_retire {B : Type} (q : option ptr) (k : prog B) (en : Z) (h : heads)
    (Q : B -> Z -> heads -> Prop) :
  (forall en', wp (HS := told_sem) k en' h Q) ->
  wp (HS := told_sem) ((match q with Some q => retire q | None => ret tt end) ;;; k) en h Q.
Proof.
  intros HQ. apply wp_bind. destruct q as [q|]; [| by apply wp_ret].
  unfold retire, futex_wake_all. do 3 (apply wp_t_same; [by intros ? ? -> | intros ? ?]).
  by apply wp_ret.
Qed.

(** ** Opening *)

Lemma told_create_fail (fd tb size en : Z) (tmp : string) (map : option Z) (w : psmsgr_state_writer)
    (o : psmsgr_state_options) (h : heads) :
  wp (HS := told_sem) (create_fail fd tb tmp map size w) en h (fun x _ _ => result_asked o x).
Proof. unfold create_fail. repeat (apply wp_t_skip; intros ? ? ?). refused. Qed.

(** The new file's geometry is read back through the mapping. *)
Lemma told_create_file (w : psmsgr_state_writer) (o : psmsgr_state_options) (p : paths)
    (old : option ptr) (gen en : Z) (h : heads) :
  geometry_ok (new_geometry o) ->
  wp (HS := told_sem) (create_file w o p old gen) en h (fun x _ _ => result_asked o x).
Proof.
  intros Hg. unfold create_file. apply wp_t_skip. intros [tb|] en1 h1; [| refused].
  apply wp_t_skip. intros [[fd tmp]|e] en2 h2; [| apply wp_t_skip; intros ? ? ?; refused].
  cbv zeta. apply wp_t_skip. intros [u|e] en3 h3; [| apply told_create_fail].
  apply wp_t_skip. intros e en4 h4. destruct (negb (e =? 0)).
  { apply wp_t_skip. intros ? ? ?. apply told_create_fail. }
  apply wp_t_skip. intros [b|e5] en5 h5; [| apply told_create_fail].
  apply wp_bind, wp_t_store_header. intros m en6 Hm.
  apply wp_t_same; [by intros ? ? -> |]. intros [u6|e6] en7; [| apply told_create_fail].
  do 2 (apply wp_t_same; [by intros ? ? -> | intros ? ?]). apply wp_t_retire. intros en8.
  apply wp_bind, (wp_t_load_geom b _ o m); [done | apply lookup_insert_eq | done |].
  apply wp_ret. intros _. by repeat split.
Qed.

Lemma told_open_decide (w : psmsgr_state_writer) (o : psmsgr_state_options) (p : paths)
    (old : option ptr) (size : Z) (valid : bool) (hd : psmi_header) (latest en : Z) (h : heads) :
  geometry_ok (new_geometry o) ->
  wp (HS := told_sem) (open_decide w o p old size valid hd latest) en h
    (fun x _ _ => result_asked o x).
Proof.
  intros Hg. unfold open_decide. cbv zeta. apply wp_t_skip. intros gen en1 h1.
  assert (Hf : forall m en' h', wp (HS := told_sem) m en' h' (fun x _ _ => result_asked o x) ->
    wp (HS := told_sem) (let* (rc, w) := m in
      (match old with
       | Some q => let* _ := call (SysMunmap (p_blk q) size) in ret tt
       | None => ret tt
       end) ;;; ret (rc, w)) en' h' (fun x _ _ => result_asked o x)).
  { intros m en' h' Hm. apply wp_bind. eapply wp_mono; [exact Hm |]. intros [rc w'] en2 h2 H.
    apply wp_t_skip. intros ? ? ?. by apply wp_ret. }
  assert (Hc : forall en' h', wp (HS := told_sem) (create_file w o p old gen) en' h'
    (fun x _ _ => result_asked o x)) by (intros; by apply told_create_file).
  destruct valid; cbn [negb].
  - apply wp_t_skip. intros s en2 h2. destruct (negb (Z.land s _ =? 0)); [by apply Hf, Hc |].
    destruct (negb (h_capacity hd =? _) || _ || _ || _) eqn:E.
    { apply Hf. destruct (negb (Z.land (o_flags o) _ =? 0)); [by apply Hc | refused]. }
    destruct (negb (h_version_minor hd =? _)); [by apply Hf, Hc |].
    bool_hyps. apply wp_ret. intros _. unfold as_asked, writer_attach.
    cbn [snd w_capacity w_slot_count w_notify w_open_slot]. by repeat split; try lia; congruence.
  - apply Hf. destruct (negb (Z.land (o_flags o) _ =? 0)); [by apply Hc | refused].
Qed.

Lemma told_open_data (w : psmsgr_state_writer) (o : psmsgr_state_options) (p : paths) (en : Z)
    (h : heads) :
  geometry_ok (new_geometry o) ->
  wp (HS := told_sem) (open_data w o p) en h (fun x _ _ => result_asked o x).
Proof.
  intros Hg. unfold open_data. apply wp_t_skip. intros [fd|e] en1 h1.
  2: { apply wp_t_skip. intros e1 en2 h2. destruct (e1 =? ENOENT); [| refused].
       apply wp_t_skip. intros g en3 h3. by apply told_create_file. }
  apply wp_t_skip. intros [rc sh] en2 h2. destruct (Z.eqb_spec rc PSMSGR_E_SYS) as [->|_].
  { apply wp_t_skip. intros ? ? ?. refused. }
  cbv zeta. apply wp_t_skip. intros [old|] en3 h3; [| apply wp_t_skip; intros ? ? ?; refused].
  do 2 (apply wp_t_skip; intros ? ? ?). by apply told_open_decide.
Qed.

Definition handle_asked (opt : option psmsgr_state_options) (x : Z * option psmsgr_state_writer)
    : Prop :=
  match snd x with Some w => as_asked (snd (load_options opt)) w | None => True end.

Lemma told_writer_open (fuel : nat) (name : option string) (opt : option psmsgr_state_options)
    (out_null : bool) (en : Z) (h : heads) :
  opt_arg opt -> 0 <= sizeof_pointer < 4294967000 ->
  wp (HS := told_sem) (psmsgr_state_writer_open fuel name opt out_null) en h
    (fun x _ _ => handle_asked opt x).
Proof.
  intros Ho Hptr. unfold psmsgr_state_writer_open, handle_asked. destruct out_null; [by apply wp_ret |].
  pose proof (load_options_result opt Ho Hptr) as Hres.
  destruct (load_options opt) as [rc o]. cbn [fst snd] in *.
  destruct Hres as [(-> & Hg & _) | ->]; [| by apply wp_ret]. cbn [Z.eqb PSMSGR_OK negb].
  destruct (negb (name_valid name)); [by apply wp_ret |].
  apply wp_t_skip. intros [rc1 [p|]] en1 h1; [| by apply wp_ret].
  apply wp_t_skip. intros [b|] en2 h2; [| apply wp_t_skip; intros ? ? ?; by apply wp_ret].
  cbv zeta. apply wp_t_skip. intros [rc2 fd] en3 h3. apply wp_bind.
  assert (Hk : forall rc w en' h', result_asked o (rc, w) ->
    wp (HS := told_sem) (paths_free p ;;;
        (if negb (rc =? PSMSGR_OK) then
           let* e := get_errno in let* _ := call (Free (w_block w)) in set_errno e ;;; ret (rc, None)
         else
           let* pid := call SysGetpid in
           plain_store (ptr_add (w_hdr w) HOff.writer_pid) 4 (u32 pid) ;;;
           ret (PSMSGR_OK, Some w))) en' h'
      (fun x _ _ => match snd x with Some w => as_asked o w | None => True end)).
  { intros rc3 w en' h' H. apply wp_t_skip. intros ? ? ?.
    destruct (Z.eqb_spec rc3 PSMSGR_OK) as [E|_]; cbn [negb].
    - do 2 (apply wp_t_skip; intros ? ? ?). apply wp_ret. by apply H.
    - do 3 (apply wp_t_skip; intros ? ? ?). by apply wp_ret. }
  destruct (rc2 =? PSMSGR_OK) eqn:E2.
  - apply wp_t_skip. intros ? en4 h4. apply wp_bind.
    eapply wp_mono; [by apply told_open_data |]. intros [rc3 w] en5 h5 H.
    apply wp_t_skip. intros ? ? ?. by apply wp_ret, Hk.
  - apply wp_ret, Hk. intros E. cbn in E. by rewrite E in E2.
Qed.

(** The same on the monitor. *)
Lemma wp_os_writer_open_asked (fuel : nat) (name : option string)
    (opt : option psmsgr_state_options) (out_null : bool) (en : Z) (base : world) :
  opt_arg opt -> 0 <= sizeof_pointer < 4294967000 ->
  wp (psmsgr_state_writer_open fuel name opt out_null) en base
    (fun x _ wd => handle_asked opt x /\ writer_open_post base (fst x) (snd x) wd).
Proof.
  intros Ho Hp. apply (wp_refine (HS := told_sem) wd_head _ _ _ (fun x _ _ => handle_asked opt x)).
  - intros e t r t' _. apply told_of_world.
  - by apply told_writer_open.
  - eapply wp_mono; [by apply wp_os_writer_open |]. by intros [rc h].
Qed.

(** ** Property *)

(** C27. A writer that was opened writes to the channel it asked for: whatever
    the system answers and whatever the data file holds - a valid channel with
    other properties, garbage, nothing - a handle returned by
    [psmsgr_state_writer_open] has the capacity, the slot count and the
    notification of the options (or their defaults), with no begin open.  Of a
    file it created the handle takes them from the mapping, where they are
    what was stored there: no byte of the new header is assumed but those the
    call itself stored, and those only in its constant fields. *)
Theorem writer_open_as_asked (fuel : nat) (name : option string)
    (opt : option psmsgr_state_options) (out_null : bool) (en : Z) (h : heads) :
  opt_arg opt -> 0 <= sizeof_pointer < 4294967000 ->
  wp (HS := told_sem) (psmsgr_state_writer_open fuel name opt out_null) en h
    (fun '(_, w) _ _ =>
       match w with Some w => as_asked (snd (load_options opt)) w | None => True end).
Proof.
  intros Ho Hp. eapply wp_mono; [by apply told_writer_open |]. by intros [rc w] en' h'.
Qed.
End opened.

(** ** Witness *)

Lemma writer_open_as_asked_witness :
  wp (HS := told_sem) (psmsgr_state_writer_open (C := config64) 100 (Some "motor")
      (Some example_options) false) 0 ∅
    (fun '(_, w) _ _ =>
       match w with
       | Some w => as_asked (snd (load_options (C := config64) (Some example_options))) w
       | None => True
       end).
Proof.
  apply (writer_open_as_asked (C := config64)); [apply example_opt_arg | cbn; lia].
Defined.
