(* ===== verification/Bench.v ===== *)
(** * The benchmark (src/bench/psmsgr-bench.c)

    The samples of a row and its percentiles, the operations it times, the
    writer process it measures against, the contended and wake-up runs, the
    parsing of numbers and the clean-up.  What it prints about the machine and
    [main] are in BenchMain.v. *)
From S2P Require Import Prelude Prog Common Layout Names Options Writer Reader Channel Text.
From Stdlib Require Import Ascii.
From Stdlib.Floats Require Import SpecFloat.
From stdpp Require Import sorting.
#[local] Open Scope string_scope.
#[local] Open Scope list_scope.
#[local] Open Scope Z_scope.

Definition CLOCK_BATCH : Z := 100.

Definition sizes : list Z := [16; 256; 4096; 65536].

Record config := {
  iterations : Z;
  warmup : Z;
  batch : Z;
  seconds : spec_float;
  rate : Z;
  poll_us : Z;
  base : option string;
  csv : bool;
  bdir : string             (* private channel directory under [base] *)
}.

Definition default_cfg : config := {|
  iterations := 100000; warmup := 1000; batch := 1; seconds := double_of 5; rate := 500;
  poll_us := 100; base := None; csv := false; bdir := "" |}.

(** ** Samples *)

(** Exact count, min and max; percentiles from a uniform reservoir of at most
    [s_cap] samples. *)
Record samples := {
  s_blk : Z;                (* the allocation of [s_v] *)
  s_v : list Z;
  s_cap : Z;
  s_n : Z;
  s_seen : Z;
  s_min : Z;
  s_max : Z;
  s_rng : Z
}.

(** After [calloc] has given [blk]. *)
Definition samples_fresh (blk cap : Z) : samples := {|
  s_blk := blk; s_v := replicate (Z.to_nat cap) 0; s_cap := cap; s_n := 0; s_seen := 0;
  s_min := UINT64_MAX; s_max := 0; s_rng := 0x9E3779B97F4A7C15 |}.

(** xorshift64. *)
Definition xorshift (r : Z) : Z :=
  let r := Z.lxor r (u64 (Z.shiftl r 13)) in
  let r := Z.lxor r (Z.shiftr r 7) in
  Z.lxor r (u64 (Z.shiftl r 17)).

Definition samples_add (s : samples) (x : Z) : samples :=
  let seen := u64 (s_seen s + 1) in
  let mn := if x <? s_min s then x else s_min s in
  let mx := if s_max s <? x then x else s_max s in
  if s_n s <? s_cap s then
    {| s_blk := s_blk s; s_v := <[Z.to_nat (s_n s) := x]> (s_v s); s_cap := s_cap s;
       s_n := s_n s + 1; s_seen := seen; s_min := mn; s_max := mx; s_rng := s_rng s |}
  else
    let rng := xorshift (s_rng s) in
    let j := rng mod seen in
    {| s_blk := s_blk s; s_v := if j <? s_cap s then <[Z.to_nat j := x]> (s_v s) else s_v s;
       s_cap := s_cap s; s_n := s_n s; s_seen := seen; s_min := mn; s_max := mx; s_rng := rng |}.

Definition cmp_u64 (x y : Z) : Z := (if y <? x then 1 else 0) - (if x <? y then 1 else 0).

(** [qsort(v, n, sizeof *v, cmp_u64)]. *)
Definition cmp_le (x y : Z) : Prop := cmp_u64 x y <= 0.
#[export] Instance cmp_le_dec (x y : Z) : Decision (cmp_le x y) := Z_le_dec _ _.
Definition qsort (v : list Z) (n : Z) : list Z :=
  merge_sort cmp_le (take (Z.to_nat n) v) ++ drop (Z.to_nat n) v.

(** ** Output *)

Definition print_table_header (cfg : config) : prog unit :=
  if csv cfg
  then call (Print false ("test,size_bytes,n,min_ns,median_ns,p99_ns,max_ns,busy,missed" ++
                          char_str NL)%string)
  else call (Print false (left_justify 28 "test" ++ " " ++ right_justify 8 "size" ++ " " ++
    right_justify 9 "n" ++ " " ++ right_justify 9 "min" ++ " " ++ right_justify 9 "median" ++ " " ++
    right_justify 9 "p99" ++ " " ++ right_justify 9 "max" ++ "  notes" ++ char_str NL)%string).

(** A sample divided by the operations per sample. *)
Definition per_op (x per : Z) : spec_float := double_div (double_of x) (double_of per).

(** The four figures of a row: min, median, p99, max, before the division. *)
Definition row_values (s : samples) : option (Z * Z * Z * Z) :=
  if 0 <? s_n s then
    let v := qsort (s_v s) (s_n s) in
    match v !! Z.to_nat (s_n s / 2), v !! Z.to_nat (s_n s - 1 - s_n s / 100) with
    | Some med, Some p99 => Some (s_min s, med, p99, s_max s)
    | _, _ => None (* out of the array *)
    end
  else Some (0, 0, 0, 0).

Definition row_line (cfg : config) (test : string) (size : Z) (seen : Z) (f : Z * Z * Z * Z)
    (per busy missed : Z) : string :=
  let '(mn, med, p99, mx) := f in
  let fmt x := fixed 0 (per_op x per) in
  let sz := if negb (size =? 0) then dec size else "-" in
  if csv cfg then
    (test ++ "," ++ (if negb (size =? 0)%Z then sz else "") ++ "," ++ dec seen ++ "," ++ fmt mn ++
     "," ++ fmt med ++ "," ++ fmt p99 ++ "," ++ fmt mx ++ "," ++
     (if (0 <=? busy)%Z then dec busy else "") ++ "," ++
     (if (0 <=? missed)%Z then dec missed else "") ++ char_str NL)%string
  else
    (left_justify 28 test ++ " " ++ right_justify 8 sz ++ " " ++ right_justify 9 (dec seen) ++
     " " ++ right_justify 9 (fmt mn) ++ " " ++ right_justify 9 (fmt med) ++ " " ++
     right_justify 9 (fmt p99) ++ " " ++ right_justify 9 (fmt mx) ++
     (if (0 <=? busy)%Z then "  busy " ++ dec busy else "") ++
     (if (0 <=? missed)%Z then "  missed " ++ dec missed else "") ++ char_str NL)%string.

(** One row. [busy] and [missed] < 0: not applicable. *)
Definition print_row (cfg : config) (test : string) (size : Z) (s : samples)
    (per busy missed : Z) : prog unit :=
  match row_values s with
  | Some f => call (Print false (row_line cfg test size (s_seen s) f per busy missed))
  | None => call (Load8 NULL_PTR) ;;; ret tt
  end.

(** ** Ending early

    [exit] runs the clean-up, [_exit] does not. *)
Inductive ending := Exit (status : Z) | UExit (status : Z).

Definition xprog (A : Type) : Type := prog (A + ending).
Definition xret {A : Type} (a : A) : xprog A := ret (inl a).
Definition stop {A : Type} (e : ending) : xprog A := ret (inr e).
Definition xbind {A B : Type} (m : xprog A) (f : A -> xprog B) : xprog B :=
  let* x := m in
  match x with inl a => f a | inr e => ret (inr e) end.

Notation "'let!' p ':=' m 'in' k" := (xbind m (fun p => k))
  (at level 10, p pattern, m at level 200, k at level 200) : prog_scope.

(** A call that does not end the program. *)
Definition lift {A : Type} (m : prog A) : xprog A := let* a := m in xret a.

(** [for (i = 0; i < n; ++i)]. *)
Fixpoint times {A : Type} (n : nat) (f : A -> xprog A) (a : A) : xprog A :=
  match n with
  | O => xret a
  | S n => let! a := f a in times n f a
  end.

Section bench.
Context {C : Config}.
(** [strerror]; what fresh memory holds; [getpid()] of the program that was
    started. *)
Context (strerror : Z -> string) (junk : Z -> list Z) (main_pid : Z).
Context (cfg : config).

Definition die {A : Type} (what : string) (rc : Z) : xprog A :=
  let* e := get_errno in
  call (Print true ("psmsgr-bench: " ++ what ++ ": " ++
    (if (rc =? PSMSGR_E_SYS)%Z then strerror e else psmsgr_strerror rc) ++ char_str NL)%string) ;;;
  let* pid := call SysGetpid in
  stop (if negb (pid =? main_pid) then UExit 1 else Exit 1).

Definition now_ns : prog Z :=
  let* (sec, nsec) := call (SysClockGettime CLOCK_MONOTONIC) in
  ret (timespec_ns sec nsec).

Definition sleep_until (fuel : nat) (t : Z) : prog unit :=
  loop fuel (fun _ =>
    let* e := call (SysSleepUntil (t / 1000000000) (t mod 1000000000)) in
    ret (if e =? EINTR then inl tt else inr tt)) tt.

Definition samples_init (cap : Z) : xprog samples :=
  let* b := call (Malloc (cap * 8)) in
  match b with
  | Some b => xret (samples_fresh b cap)
  | None => call (Print true ("psmsgr-bench: out of memory" ++ char_str NL)%string) ;;; stop (Exit 1)
  end.

(** ** The operations *)

Record op_ctx := {
  c_w : option psmsgr_state_writer;
  c_r : option psmsgr_state_reader;
  c_blk : option Z;        (* the allocation of [c_buf] *)
  c_buf : list Z;
  c_size : Z;
  c_fill : Z
}.

Definition with_w (c : op_ctx) (w : option psmsgr_state_writer) : op_ctx :=
  {| c_w := w; c_r := c_r c; c_blk := c_blk c; c_buf := c_buf c; c_size := c_size c;
     c_fill := c_fill c |}.
Definition with_r (c : op_ctx) (r : option psmsgr_state_reader) : op_ctx :=
  {| c_w := c_w c; c_r := r; c_blk := c_blk c; c_buf := c_buf c; c_size := c_size c;
     c_fill := c_fill c |}.
Definition with_buf (c : op_ctx) (b : list Z) : op_ctx :=
  {| c_w := c_w c; c_r := c_r c; c_blk := c_blk c; c_buf := b; c_size := c_size c;
     c_fill := c_fill c |}.
(** [c->fill++]. *)
Definition next_fill (c : op_ctx) : op_ctx :=
  {| c_w := c_w c; c_r := c_r c; c_blk := c_blk c; c_buf := c_buf c; c_size := c_size c;
     c_fill := (c_fill c + 1) mod 256 |}.

Definition op_nothing (c : op_ctx) : xprog op_ctx := xret c.

Definition op_clock_gettime (c : op_ctx) : xprog op_ctx :=
  let* _ := call (SysClockGettime CLOCK_MONOTONIC) in xret c.

Definition op_clock_syscall (c : op_ctx) : xprog op_ctx :=
  let* _ := call (SysClockGettime CLOCK_MONOTONIC) in xret c.

Definition op_getppid (c : op_ctx) : xprog op_ctx := let* _ := call SysGetppid in xret c.

Definition op_now (c : op_ctx) : xprog op_ctx := let* _ := psmsgr_now_ns in xret c.

Definition op_publish (c : op_ctx) : xprog op_ctx :=
  let* (rc, w, _) := psmsgr_state_publish (c_w c) (Some (c_buf c)) (c_size c) in
  if negb (rc =? PSMSGR_OK) then die "publish" rc else xret (with_w c w).

(** The producer writes the whole payload: into its own buffer and then
    publish copies it, or in place between begin and commit. *)
Definition op_fill_publish (c : op_ctx) : xprog op_ctx :=
  let c' := with_buf c (overwrite (c_buf c) (replicate (Z.to_nat (c_size c)) (c_fill c))) in
  op_publish (next_fill c').

Definition op_begin_fill_commit (c : op_ctx) : xprog op_ctx :=
  let* (rc, w, p) := psmsgr_state_begin (c_w c) false in
  if negb (rc =? PSMSGR_OK) then die "begin" rc
  else
    store_bytes (default NULL_PTR p) (replicate (Z.to_nat (c_size c)) (c_fill c)) ;;;
    let* (rc, w, _) := psmsgr_state_commit w (c_size c) in
    if negb (rc =? PSMSGR_OK) then die "commit" rc else xret (with_w (next_fill c) w).

Definition op_begin_commit (c : op_ctx) : xprog op_ctx :=
  let* (rc, w, p) := psmsgr_state_begin (c_w c) false in
  if negb (rc =? PSMSGR_OK) then die "begin" rc
  else
    let* (rc, w, _) := psmsgr_state_commit w (c_size c) in
    if negb (rc =? PSMSGR_OK) then die "commit" rc else xret (with_w c w).

Definition op_read (c : op_ctx) : xprog op_ctx :=
  let* (r, (rc, b, _)) := psmsgr_state_read (c_r c) (Some (c_buf c)) (c_size c) false in
  if negb (rc =? PSMSGR_OK) then die "read" rc else xret (with_buf (with_r c r) b).

Definition op_peek (c : op_ctx) : xprog op_ctx :=
  let* (r, (rc, _)) := psmsgr_state_peek (c_r c) false in
  if negb (rc =? PSMSGR_OK) then die "peek" rc else xret (with_r c r).

(** ** Measuring *)

(** One timed sample of [batch] operations. *)
Definition timed (op : op_ctx -> xprog op_ctx) (batch : Z) (x : op_ctx * samples)
    : xprog (op_ctx * samples) :=
  let (c, s) := x in
  let* t0 := now_ns in
  let! c := times (Z.to_nat batch) op c in
  let* t1 := now_ns in
  xret (c, samples_add s (u64 (t1 - t0))).

Definition measure (test : string) (op : op_ctx -> xprog op_ctx) (c : op_ctx) (batch n : Z)
    : xprog op_ctx :=
  let! c := times (Z.to_nat (warmup cfg)) op c in
  let! s := samples_init n in
  let! (c, s) := times (Z.to_nat n) (timed op batch) (c, s) in
  print_row cfg test (c_size c) s batch (-1) (-1) ;;;
  call (Free (s_blk s)) ;;;
  xret c.

(** [snprintf] into a buffer of 64. *)
Definition chan_name (what : string) (size : Z) : string :=
  String.substring 0 63 (what ++ "-" ++ dec size)%string.

(** [fuel] bounds the retries of the lock. *)
Definition open_writer (fuel : nat) (name : string) (capacity flags : Z)
    : xprog (option psmsgr_state_writer) :=
  let d := psmsgr_state_options_init in
  let o := {| o_struct_size := o_struct_size d; o_capacity := capacity;
              o_payload_type := o_payload_type d; o_slot_count := o_slot_count d;
              o_flags := flags; o_mode := o_mode d; o_dir := Some (bdir cfg) |} in
  let* (rc, w) := psmsgr_state_writer_open fuel (Some name) (Some o) false in
  if negb (rc =? PSMSGR_OK) then die "writer_open" rc else xret w.

Definition open_reader (name : string) : xprog (option psmsgr_state_reader) :=
  let* (rc, r) := psmsgr_state_reader_open (Some name) (Some (bdir cfg)) false in
  if negb (rc =? PSMSGR_OK) then die "reader_open" rc else xret r.

Definition no_ctx : op_ctx :=
  {| c_w := None; c_r := None; c_blk := None; c_buf := []; c_size := 0; c_fill := 0 |}.

Definition bench_clock : xprog unit :=
  let c := no_ctx in
  let n := if 100 <? iterations cfg / CLOCK_BATCH then iterations cfg / CLOCK_BATCH else 100 in
  let! c := measure "timer overhead" op_nothing c (batch cfg) (iterations cfg) in
  let! c := measure "clock_gettime" op_clock_gettime c CLOCK_BATCH n in
  let! c := measure "clock_gettime syscall" op_clock_syscall c CLOCK_BATCH n in
  let! c := measure "getppid syscall" op_getppid c CLOCK_BATCH n in
  let! c := measure "psmsgr_now_ns" op_now c CLOCK_BATCH n in
  xret tt.

(** One size of [bench_uncontended]. *)
Definition uncontended_size (fuel : nat) (size : Z) (_ : unit) : xprog unit :=
  let* b := call (Malloc size) in
  match b with
  | None => die "calloc" PSMSGR_E_SYS
  | Some blk =>
      let c := {| c_w := None; c_r := None; c_blk := Some blk;
                  c_buf := replicate (Z.to_nat size) 0; c_size := size; c_fill := 0 |} in
      let! w := open_writer fuel (chan_name "nonotify" size) size PSMSGR_STATE_NO_NOTIFY in
      let c := with_w c w in
      let! c := measure "publish NO_NOTIFY" op_publish c (batch cfg) (iterations cfg) in
      let! c := measure "fill/publish NO_NOTIFY" op_fill_publish c (batch cfg) (iterations cfg) in
      let! c := measure "begin/fill/commit NO_NOTIFY" op_begin_fill_commit c (batch cfg) (iterations cfg) in
      let! c := measure "begin/commit NO_NOTIFY" op_begin_commit c (batch cfg) (iterations cfg) in
      psmsgr_state_writer_close (c_w c) ;;;
      let name := chan_name "plain" size in
      let! w := open_writer fuel name size 0 in
      let! r := open_reader name in
      let c := with_r (with_w c w) r in
      let! c := measure "publish" op_publish c (batch cfg) (iterations cfg) in
      let! c := measure "read" op_read c (batch cfg) (iterations cfg) in
      let! c := measure "peek" op_peek c (batch cfg) (iterations cfg) in
      psmsgr_state_reader_close (c_r c) ;;;
      psmsgr_state_writer_close (c_w c) ;;;
      call (Free blk) ;;;
      xret tt
  end.

(** A loop over the entries of a constant array. *)
Fixpoint for_each {A B : Type} (l : list A) (f : A -> B -> xprog B) (b : B) : xprog B :=
  match l with
  | [] => xret b
  | a :: l => let! b := f a b in for_each l f b
  end.

Definition bench_uncontended (fuel : nat) : xprog unit := for_each sizes (uncontended_size fuel) tt.

(** ** The writer process *)

Record writer_proc := { wp_pid : Z; wp_fd : Z }.

(** [(uint64_t)(cfg.seconds * 1e9)]. *)
Definition run_ns : Z := double_trunc (double_mul (seconds cfg) (double_of 1000000000)).

(** The child's loop: publishes at [next], [next + period], .. until [till];
    [fuel] bounds the publishes and the interrupted sleeps. *)
Definition child_body (fuel : nat) (size period till : Z) (stamp : bool)
    (s : option psmsgr_state_writer * list Z * Z * Z)
    : prog ((option psmsgr_state_writer * list Z * Z * Z) +
            (option psmsgr_state_writer * Z + ending)) :=
  let '(w, buf, next, count) := s in
  if till <=? next then ret (inr (inl (w, count)))
  else
    sleep_until fuel next ;;;
    let* buf := if stamp then let* t := psmsgr_now_ns in ret (overwrite buf (le_bytes 8 t))
                else ret buf in
    let* (rc, w, _) := psmsgr_state_publish w (Some buf) size in
    if negb (rc =? PSMSGR_OK) then ret (inr (inr (UExit 1)))
    else ret (inl (w, buf, u64 (next + period), u64 (count + 1))).

(** [write(fd, &count, sizeof count) == sizeof count]. *)
Definition write_count (fd count : Z) : prog bool :=
  let* x := call (SysWrite fd (le_bytes 8 count)) in
  ret (match x with inl n => n =? 8 | inr _ => false end).

(** The child: it never returns. *)
Definition child_main (fuel : nat) (rfd wfd : Z) (name : string) (size flags : Z) (stamp : bool)
    : xprog writer_proc :=
  let* _ := call (SysClose rfd) in
  let! w := open_writer fuel name size flags in
  let* b := call (Malloc size) in
  match b with
  | None => stop (UExit 1)
  | Some _ =>
      let buf := replicate (Z.to_nat size) 0 in
      let* (rc, w, _) := psmsgr_state_publish w (Some buf) size in
      let* ok := if negb (rc =? PSMSGR_OK) then ret false else write_count wfd 0 in
      if negb ok then stop (UExit 1)
      else
        let period := 1000000000 / rate cfg in
        let* start := now_ns in
        let till := u64 (start + run_ns) in
        let! (w, count) := loop fuel (child_body fuel size period till stamp)
                             (w, buf, u64 (start + period), 0) in
        psmsgr_state_writer_close w ;;;
        let* ok := write_count wfd count in
        stop (UExit (if ok then 0 else 1))
  end.

Definition writer_child (fuel : nat) (parent rfd wfd : Z) (name : string) (size flags : Z)
    (stamp : bool) : xprog writer_proc :=
  let* x := call SysPrctlPdeathsig in
  let* orphan := match x with
                 | inr _ => ret true
                 | inl _ => let* pp := call SysGetppid in ret (negb (pp =? parent))
                 end in
  if orphan then stop (UExit 1) else child_main fuel rfd wfd name size flags stamp.

(** [read(fd, &x, sizeof x)]: the value, unless it is short. *)
Definition read_count (fd : Z) : prog (option Z + Z) :=
  let* x := call (SysRead fd 8) in
  ret (match x with
       | inl bs => inl (if Z.of_nat (length bs) =? 8 then Some (le_val bs) else None)
       | inr e => inr e
       end).

Definition writer_start (fuel : nat) (name : string) (size flags : Z) (stamp : bool)
    : xprog writer_proc :=
  let* p := call SysPipe in
  match p with
  | inr _ => die "pipe" PSMSGR_E_SYS
  | inl (rfd, wfd) =>
      let* parent := call SysGetpid in
      let* pid := call SysFork in
      match pid with
      | inr _ => die "fork" PSMSGR_E_SYS
      | inl pid =>
          if pid =? 0 then writer_child fuel parent rfd wfd name size flags stamp
          else
            let* _ := call (SysClose wfd) in
            let* ready := read_count rfd in
            match ready with
            | inl (Some _) => xret {| wp_pid := pid; wp_fd := rfd |}
            | _ =>
                call (Print true ("psmsgr-bench: writer process failed to start" ++ char_str NL)%string) ;;;
                stop (Exit 1)
            end
      end
  end.

(** Waits for the writer to finish; its publish count. *)
Definition writer_finish (fuel : nat) (p : writer_proc) : xprog Z :=
  let* got := loop fuel (fun _ =>
    let* x := read_count (wp_fd p) in
    ret (match x with
         | inr e => if e =? EINTR then inl tt else inr None
         | inl c => inr c
         end)) tt in
  let* _ := call (SysClose (wp_fd p)) in
  let* status := loop fuel (fun _ =>
    let* x := call (SysWaitpid (wp_pid p)) in
    ret (match x with
         | inr e => if e =? EINTR then inl tt else inr (Some 0) (* status is still 0 *)
         | inl st => inr st
         end)) tt in
  match got, status with
  | Some count, Some 0 => xret count
  | _, _ =>
      call (Print true ("psmsgr-bench: writer process failed" ++ char_str NL)%string) ;;;
      stop (Exit 1)
  end.

(** ** Contended *)

Definition contended_body (size till : Z)
    (x : option psmsgr_state_reader * list Z * samples * Z * Z)
    : prog ((option psmsgr_state_reader * list Z * samples * Z * Z) +
            (option psmsgr_state_reader * samples * Z + ending)) :=
  let '(r, buf, s, busy, t0) := x in
  if till <=? t0 then ret (inr (inl (r, s, busy)))
  else
    let* (r, (rc, buf, _)) := psmsgr_state_read r (Some buf) size false in
    let* t1 := now_ns in
    if rc =? PSMSGR_OK then ret (inl (r, buf, samples_add s (u64 (t1 - t0)), busy, t1))
    else if rc =? PSMSGR_E_BUSY then ret (inl (r, buf, s, busy + 1, t1))
    else let* e := die "read" rc in ret (inr e).

(** A reader polling as fast as it can against a writer at a fixed rate. *)
Definition contended_size (fuel : nat) (size : Z) (_ : unit) : xprog unit :=
  let name := chan_name "contended" size in
  let* b := call (Malloc size) in
  match b with
  | None => die "malloc" PSMSGR_E_SYS
  | Some blk =>
      let! wp := writer_start fuel name size 0 false in
      let! r := open_reader name in
      let! s := samples_init (iterations cfg) in
      let* start := now_ns in
      let till := u64 (start + run_ns) in
      let* t0 := now_ns in
      let! (r, s, busy) := loop fuel (contended_body size till) (r, junk size, s, 0, t0) in
      let! _ := writer_finish fuel wp in
      print_row cfg "read (writer active)" size s 1 busy (-1) ;;;
      call (Free (s_blk s)) ;;;
      psmsgr_state_reader_close r ;;;
      call (Free blk) ;;;
      xret tt
  end.

Definition bench_contended (fuel : nat) : xprog unit := for_each sizes (contended_size fuel) tt.

(** ** Wake-up *)

(** The values between the last one seen and this one. *)
Definition missed_between (seen gen : Z) : Z := u32 (gen - seen - 1).

Definition wake_state : Type := option psmsgr_state_reader * list Z * samples * Z * Z.

(** The part of a pass after the wait: [seen] and [missed] so far. *)
Definition wake_read (r : option psmsgr_state_reader) (buf : list Z) (s : samples)
    (missed seen : Z) : prog (wake_state + (option psmsgr_state_reader * samples * Z + ending)) :=
  let* (r, (rc, buf, info)) := psmsgr_state_read r (Some buf) 16 false in
  let* t := psmsgr_now_ns in
  if rc =? PSMSGR_E_BUSY then ret (inl (r, buf, s, missed, seen))
  else if negb (rc =? PSMSGR_OK) then let* e := die "read" rc in ret (inr e)
  else
    match info with
    | None => call (Load8 NULL_PTR) ;;; ret (inl (r, buf, s, missed, seen))
    | Some i =>
        let stamp := field buf 0 8 in
        ret (inl (r, buf, samples_add s (u64 (t - stamp)),
                  missed + missed_between seen (i_generation i), i_generation i))
    end.

Definition wake_body (fuel : nat) (notify : bool) (till : Z) (x : wake_state)
    : prog (wake_state + (option psmsgr_state_reader * samples * Z + ending)) :=
  let '(r, buf, s, missed, seen) := x in
  let* now := now_ns in
  if till <=? now then ret (inr (inl (r, s, missed)))
  else if notify then
    let* (rc, r) := psmsgr_state_wait fuel r seen 100 in
    if rc =? PSMSGR_E_TIMEOUT then ret (inl (r, buf, s, missed, seen))
    else if negb (rc =? PSMSGR_OK) then let* e := die "wait" rc in ret (inr e)
    else wake_read r buf s missed seen
  else
    let* (r, (rc, info)) := psmsgr_state_peek r false in
    if negb (rc =? PSMSGR_OK) && negb (rc =? PSMSGR_E_BUSY)
    then let* e := die "peek" rc in ret (inr e)
    else if negb (rc =? PSMSGR_OK) ||
            match info with Some i => i_generation i =? seen | None => false end
    then
      let* _ := call (SysNanosleep (poll_us cfg / 1000000) (poll_us cfg mod 1000000 * 1000)) in
      ret (inl (r, buf, s, missed, seen))
    else wake_read r buf s missed seen.

(** Publish-to-reader latency: the writer stamps the time into the payload,
    the reader subtracts it once it has the value. *)
Definition bench_wake (fuel : nat) (notify : bool) : xprog unit :=
  let name := chan_name (if notify then "wake" else "poll") 16 in
  let! wp := writer_start fuel name 16 (if notify then 0 else PSMSGR_STATE_NO_NOTIFY) true in
  let! r := open_reader name in
  let! s := samples_init (iterations cfg) in
  let* (r, (rc, buf, info)) := psmsgr_state_read r (Some (junk 16)) 16 false in
  if negb (rc =? PSMSGR_OK) then die "read" rc
  else
    let* seen := match info with
                 | Some i => ret (i_generation i)
                 | None => let* _ := call (Load8 NULL_PTR) in ret 0
                 end in
    let* start := now_ns in
    let till := u64 (start + run_ns) in
    let! (r, s, missed) := loop fuel (wake_body fuel notify till) (r, buf, s, 0, seen) in
    let! _ := writer_finish fuel wp in
    let test := if notify then "wait wake-up"
                else ("poll wake-up (" ++ dec (poll_us cfg) ++ " us)")%string in
    print_row cfg test 16 s 1 (-1) missed ;;;
    call (Free (s_blk s)) ;;;
    psmsgr_state_reader_close r ;;;
    xret tt.

(** ** The clean-up *)

Definition kinds : list string := ["nonotify"; "plain"; "contended"].

Definition cleanup_names : list string :=
  (k ← kinds; chan_name k <$> sizes) ++ [chan_name "wake" 16; chan_name "poll" 16].

Fixpoint unlink_all (fuel : nat) (l : list string) : prog unit :=
  match l with
  | [] => ret tt
  | name :: l =>
      let* _ := psmsgr_state_unlink fuel (Some name) (Some (bdir cfg)) in unlink_all fuel l
  end.

(** Run at exit. *)
Definition cleanup (fuel : nat) : prog unit :=
  unlink_all fuel cleanup_names ;;;
  let* _ := call (SysRmdir (bdir cfg)) in
  ret tt.

(** [main], from the table header to the end of the program: the status. *)
Definition bench_run (fuel : nat) : prog Z :=
  let* x :=
    (print_table_header cfg ;;;
     let! _ := bench_clock in
     let! _ := bench_uncontended fuel in
     let! _ := bench_contended fuel in
     let! _ := bench_wake fuel true in
     let! _ := bench_wake fuel false in
     stop (Exit 0)) in
  match x with
  | inr (UExit status) => ret status
  | inr (Exit status) => cleanup fuel ;;; ret status
  | inl tt => cleanup fuel ;;; ret 0
  end.
End bench.

(** ** Numbers on the command line *)

Section numbers.
Context {C : Config}.

(** [ULONG_MAX]: a long is as wide as a pointer. *)
Definition ULONG_MAX : Z := 256 ^ sizeof_pointer - 1.

Definition strtoul : list ascii -> Z * list ascii * bool := strtou ULONG_MAX.

(** [parse_u32(s, min, &out)]: [None] is false. *)
Definition parse_u32 (s : string) (min : Z) : option Z :=
  let l := chars s in
  let '(v, rest, range) := strtoul l in
  if range || (length rest =? length l)%nat || negb (length rest =? 0)%nat || (v <? min) ||
     (UINT32_MAX <? v)
  then None else Some v.

(** The cases of the option switch with a number, on [--csv] and [--dir];
    [strtod] gives the value if it is the whole argument.  [None]: an invalid
    value. *)
Definition set_option (strtod : string -> option spec_float) (cfg : config) (c : ascii) (optarg : string) : option config :=
  if (c =? "i")%char then
    v ← parse_u32 optarg 1;
    Some {| iterations := v; warmup := warmup cfg; batch := batch cfg; seconds := seconds cfg;
            rate := rate cfg; poll_us := poll_us cfg; base := base cfg; csv := csv cfg; bdir := bdir cfg |}
  else if (c =? "w")%char then
    v ← parse_u32 optarg 0;
    Some {| iterations := iterations cfg; warmup := v; batch := batch cfg; seconds := seconds cfg;
            rate := rate cfg; poll_us := poll_us cfg; base := base cfg; csv := csv cfg; bdir := bdir cfg |}
  else if (c =? "b")%char then
    v ← parse_u32 optarg 1;
    Some {| iterations := iterations cfg; warmup := warmup cfg; batch := v; seconds := seconds cfg;
            rate := rate cfg; poll_us := poll_us cfg; base := base cfg; csv := csv cfg; bdir := bdir cfg |}
  else if (c =? "r")%char then
    v ← parse_u32 optarg 1;
    if v <=? 1000000
    then Some {| iterations := iterations cfg; warmup := warmup cfg; batch := batch cfg; seconds := seconds cfg;
            rate := v; poll_us := poll_us cfg; base := base cfg; csv := csv cfg; bdir := bdir cfg |}
    else None
  else if (c =? "p")%char then
    v ← parse_u32 optarg 0;
    Some {| iterations := iterations cfg; warmup := warmup cfg; batch := batch cfg; seconds := seconds cfg;
            rate := rate cfg; poll_us := v; base := base cfg; csv := csv cfg; bdir := bdir cfg |}
  else if (c =? "d")%char then
    Some {| iterations := iterations cfg; warmup := warmup cfg; batch := batch cfg; seconds := seconds cfg;
            rate := rate cfg; poll_us := poll_us cfg; base := Some optarg; csv := csv cfg; bdir := bdir cfg |}
  else if (c =? "c")%char then
    Some {| iterations := iterations cfg; warmup := warmup cfg; batch := batch cfg; seconds := seconds cfg;
            rate := rate cfg; poll_us := poll_us cfg; base := base cfg; csv := true; bdir := bdir cfg |}
  else if (c =? "s")%char then
    v ← strtod optarg;
    if SFltb (S754_zero false) v && SFleb v (double_of 3600)
    then Some {| iterations := iterations cfg; warmup := warmup cfg; batch := batch cfg; seconds := v;
            rate := rate cfg; poll_us := poll_us cfg; base := base cfg; csv := csv cfg; bdir := bdir cfg |}
    else None
  else None.
End numbers.
