(* ===== verification/BenchProof.v ===== *)
(** * What the benchmark's figures mean

    The samples of a row, its percentiles, the values missed between two
    wake-ups, and the numbers of its options. *)
From S2P Require Import Prelude Prog Common Layout Names Options Writer Reader Channel Text Bench.
From S2P Require Import Protocol.
From Stdlib Require Import Ascii.
From stdpp Require Import sorting.
#[local] Open Scope string_scope.
#[local] Open Scope list_scope.
#[local] Open Scope Z_scope.

(** ** The samples *)

Definition list_min (xs : list Z) : Z := foldr Z.min UINT64_MAX xs.
Definition list_max (xs : list Z) : Z := foldr Z.max 0 xs.

Lemma samples_add_seen (s : samples) (x : Z) : s_seen (samples_add s x) = u64 (s_seen s + 1).
Proof. unfold samples_add. by destruct (s_n s <? s_cap s). Qed.

(** What [samples] knows of the values [xs] added to it. *)
Record samples_ok (blk cap : Z) (xs : list Z) (s : samples) : Prop := {
  so_blk : s_blk s = blk;
  so_cap : s_cap s = cap;
  so_v : length (s_v s) = Z.to_nat cap;
  so_n : s_n s = Z.min (Z.of_nat (length xs)) cap;
  so_seen : s_seen s = Z.of_nat (length xs);
  so_min : s_min s = list_min xs;
  so_max : s_max s = list_max xs;
  so_kept : Forall (fun x => x ∈ xs) (take (Z.to_nat (s_n s)) (s_v s));
  so_all : Z.of_nat (length xs) <= cap -> take (Z.to_nat (s_n s)) (s_v s) = xs
}.

Lemma list_min_snoc (xs : list Z) (x : Z) : list_min (xs ++ [x]) = Z.min (list_min xs) (Z.min x UINT64_MAX).
Proof. unfold list_min. induction xs as [|y xs IH]; cbn; [lia |]. rewrite IH. lia. Qed.

Lemma list_max_snoc (xs : list Z) (x : Z) : list_max (xs ++ [x]) = Z.max (list_max xs) (Z.max x 0).
Proof. unfold list_max. induction xs as [|y xs IH]; cbn; [lia |]. rewrite IH. lia. Qed.

Lemma samples_fresh_ok (blk cap : Z) : 0 <= cap -> samples_ok blk cap [] (samples_fresh blk cap).
Proof.
  intros H. split; try done; cbn [samples_fresh s_v s_n]; [by rewrite length_replicate | cbn; lia].
Qed.

Lemma take_insert_last {A : Type} (l : list A) (n : nat) (x : A) :
  (n < length l)%nat -> take (S n) (<[n:=x]> l) = take n l ++ [x].
Proof.
  intros H. rewrite (take_S_r _ _ x) by (by rewrite list_lookup_insert_eq).
  by rewrite take_insert_ge.
Qed.

Lemma samples_add_ok (blk cap : Z) (xs : list Z) (x : Z) (s : samples) :
  1 <= cap -> 0 <= x <= UINT64_MAX -> Z.of_nat (length xs) < UINT64_MAX ->
  samples_ok blk cap xs s -> samples_ok blk cap (xs ++ [x]) (samples_add s x).
Proof.
  intros Hcap Hx Hlen [Eb Ec Hv En Es Emin Emax Hk Ha]. unfold samples_add.
  assert (Eseen : u64 (s_seen s + 1) = Z.of_nat (length (xs ++ [x]))).
  { rewrite Es, length_app. cbn [length]. rewrite u64_small by (unfold UINT64_MAX in *; lia). lia. }
  assert (Hmn : (if x <? s_min s then x else s_min s) = list_min (xs ++ [x])).
  { rewrite list_min_snoc, Emin. destruct (Z.ltb_spec x (list_min xs)); lia. }
  assert (Hmx : (if s_max s <? x then x else s_max s) = list_max (xs ++ [x])).
  { rewrite list_max_snoc, Emax. destruct (Z.ltb_spec (list_max xs) x); lia. }
  rewrite Eseen, Hmn, Hmx. assert (El : length (xs ++ [x]) = S (length xs)) by (rewrite length_app; cbn; lia).
  assert (Hmono : Forall (fun y => y ∈ xs ++ [x]) (take (Z.to_nat (s_n s)) (s_v s))).
  { eapply Forall_impl; [exact Hk |]. intros y Hy. apply elem_of_app. by left. }
  destruct (Z.ltb_spec (s_n s) (s_cap s)) as [Hn|Hn].
  - assert (Ex : s_n s = Z.of_nat (length xs)) by lia.
    replace (Z.to_nat (s_n s + 1)) with (S (Z.to_nat (s_n s))) in * by lia.
    split; cbn [s_blk s_cap s_v s_n s_seen s_min s_max]; try done; try lia.
    + by rewrite length_insert.
    + replace (Z.to_nat (s_n s + 1)) with (S (Z.to_nat (s_n s))) by lia.
      rewrite take_insert_last by lia. apply Forall_app. split; [done |].
      apply Forall_singleton, elem_of_app. right. by apply list_elem_of_singleton.
    + intros _. replace (Z.to_nat (s_n s + 1)) with (S (Z.to_nat (s_n s))) by lia.
      rewrite take_insert_last by lia. rewrite Ha by lia. done.
  - assert (Ex : s_n s = cap) by lia.
    split; cbn [s_blk s_cap s_v s_n s_seen s_min s_max]; try done; try lia.
    + match goal with |- context [if ?b then _ else _] => destruct b end; [by rewrite length_insert | done].
    + destruct (Z.ltb_spec (xorshift (s_rng s) mod Z.of_nat (length (xs ++ [x]))) (s_cap s)); [| done].
      pose proof (Z.mod_pos_bound (xorshift (s_rng s)) (Z.of_nat (length (xs ++ [x]))) ltac:(lia)).
      rewrite take_insert_lt by lia. apply Forall_insert; [done |]. apply elem_of_app. right.
      by apply list_elem_of_singleton.
Qed.

Lemma samples_add_all_ok (blk cap : Z) (xs ys : list Z) (s : samples) :
  1 <= cap -> Forall (fun x => 0 <= x <= UINT64_MAX) ys ->
  Z.of_nat (length xs + length ys) <= UINT64_MAX ->
  samples_ok blk cap xs s -> samples_ok blk cap (xs ++ ys) (foldl samples_add s ys).
Proof.
  intros Hcap Hys. revert xs s. induction Hys as [|y ys Hy _ IH]; intros xs s Hl H; cbn [foldl].
  - by rewrite app_nil_r.
  - rewrite cons_middle, app_assoc. apply IH; [rewrite length_app; cbn in *; lia |].
    apply samples_add_ok; try done. cbn in Hl. lia.
Qed.

(** ** Percentiles *)

#[local] Instance cmp_le_total : Total cmp_le.
Proof. intros x y. unfold cmp_le, cmp_u64. destruct (Z.ltb_spec y x), (Z.ltb_spec x y); lia. Qed.

Lemma cmp_le_spec (x y : Z) : cmp_le x y <-> x <= y.
Proof. unfold cmp_le, cmp_u64. destruct (Z.ltb_spec y x), (Z.ltb_spec x y); lia. Qed.

#[local] Instance cmp_le_trans : Transitive cmp_le.
Proof. intros x y z. rewrite !cmp_le_spec. lia. Qed.

(** [k + 1] of the elements are at most the [k]th of a sorted list, and the
    rest, with it, at least. *)
Definition at_most (m : Z) (l : list Z) : nat := length (filter (fun x => x <= m) l).
Definition at_least (m : Z) (l : list Z) : nat := length (filter (fun x => m <= x) l).

Lemma at_most_perm (m : Z) (l l' : list Z) : l ≡ₚ l' -> at_most m l = at_most m l'.
Proof. intros H. unfold at_most. by rewrite H. Qed.

Lemma at_least_perm (m : Z) (l l' : list Z) : l ≡ₚ l' -> at_least m l = at_least m l'.
Proof. intros H. unfold at_least. by rewrite H. Qed.

Lemma filter_all (P : Z -> Prop) `{forall x, Decision (P x)} (l : list Z) :
  Forall P l -> filter P l = l.
Proof.
  induction 1 as [|x l Hx _ IH]; [done |]. rewrite filter_cons_True by done. by rewrite IH.
Qed.

Lemma sorted_split (l : list Z) (k : nat) (m : Z) :
  StronglySorted cmp_le l -> l !! k = Some m ->
  Forall (fun x => x <= m) (take (S k) l) /\ Forall (fun x => m <= x) (drop k l).
Proof.
  revert k. induction l as [|y l IH]; intros k Hs Hk; [done |].
  apply StronglySorted_inv in Hs as [Hs Hy]. destruct k as [|k].
  - injection Hk as ->. cbn [take drop]. rewrite take_0.
    split; [by repeat constructor |]. constructor; [done |].
    eapply Forall_impl; [exact Hy |]. intros x. by rewrite cmp_le_spec.
  - cbn in Hk. destruct (IH k Hs Hk) as [H1 H2]. cbn [drop]. split; [| done].
    rewrite firstn_cons. constructor; [| done].
    rewrite Forall_forall in Hy. apply cmp_le_spec, Hy. by eapply list_elem_of_lookup_2.
Qed.

Lemma sorted_rank (l : list Z) (k : nat) (m : Z) :
  StronglySorted cmp_le l -> l !! k = Some m ->
  (S k <= at_most m l)%nat /\ (length l - k <= at_least m l)%nat.
Proof.
  intros Hs Hk. destruct (sorted_split l k m Hs Hk) as [H1 H2].
  pose proof (lookup_lt_Some _ _ _ Hk). unfold at_most, at_least. split.
  - rewrite <- (take_drop (S k) l) at 1. rewrite filter_app, length_app.
    rewrite (filter_all _ _ H1), length_take. lia.
  - rewrite <- (take_drop k l) at 2. rewrite filter_app, length_app.
    rewrite (filter_all _ _ H2), length_drop. lia.
Qed.

Lemma qsort_lookup (v : list Z) (n k : Z) :
  0 <= k < n -> n <= Z.of_nat (length v) ->
  exists m, qsort v n !! Z.to_nat k = Some m /\ m ∈ take (Z.to_nat n) v /\
    k + 1 <= Z.of_nat (at_most m (take (Z.to_nat n) v)) /\
    n - k <= Z.of_nat (at_least m (take (Z.to_nat n) v)).
Proof.
  intros Hk Hn. unfold qsort. set (l := take (Z.to_nat n) v).
  pose proof (merge_sort_Permutation cmp_le l) as Hp.
  pose proof (StronglySorted_merge_sort cmp_le l) as Hs.
  assert (Hl : length l = Z.to_nat n) by (unfold l; rewrite length_take; lia).
  assert (Hls : length (merge_sort cmp_le l) = Z.to_nat n) by (by rewrite Hp).
  destruct (lookup_lt_is_Some_2 (merge_sort cmp_le l) (Z.to_nat k) ltac:(lia)) as [m Hm].
  exists m. rewrite lookup_app_l by lia. split; [done |].
  destruct (sorted_rank _ _ _ Hs Hm) as [H1 H2]. rewrite Hls in H2.
  rewrite (at_most_perm _ _ _ Hp) in H1. rewrite (at_least_perm _ _ _ Hp) in H2.
  split; [| lia]. rewrite <- Hp. by eapply list_elem_of_lookup_2.
Qed.

Lemma list_min_le (xs : list Z) (x : Z) : x ∈ xs -> list_min xs <= x.
Proof.
  intros H. induction H as [x l | x y l _ IH]; unfold list_min in *; cbn; lia.
Qed.

Lemma list_max_ge (xs : list Z) (x : Z) : x ∈ xs -> x <= list_max xs.
Proof.
  intros H. induction H as [x l | x y l _ IH]; unfold list_max in *; cbn; lia.
Qed.

Lemma list_min_in (xs : list Z) :
  xs <> [] -> Forall (fun x => 0 <= x <= UINT64_MAX) xs -> list_min xs ∈ xs.
Proof.
  intros Hne H. induction H as [|x xs Hx H IH]; [done |].
  destruct xs as [|y xs]; [unfold list_min; cbn; rewrite Z.min_l by lia; left |].
  change (Z.min x (list_min (y :: xs)) ∈ x :: y :: xs).
  destruct (Z.min_spec x (list_min (y :: xs))) as [[_ ->] | [_ ->]]; [left | right; by apply IH].
Qed.

Lemma list_max_in (xs : list Z) :
  xs <> [] -> Forall (fun x => 0 <= x <= UINT64_MAX) xs -> list_max xs ∈ xs.
Proof.
  intros Hne H. induction H as [|x xs Hx H IH]; [done |].
  destruct xs as [|y xs]; [unfold list_max; cbn; rewrite Z.max_l by lia; left |].
  change (Z.max x (list_max (y :: xs)) ∈ x :: y :: xs).
  destruct (Z.max_spec x (list_max (y :: xs))) as [[_ ->] | [_ ->]]; [right; by apply IH | left].
Qed.

Lemma qsort_le (v : list Z) (n i j a b : Z) :
  0 <= i <= j -> j < n -> n <= Z.of_nat (length v) ->
  qsort v n !! Z.to_nat i = Some a -> qsort v n !! Z.to_nat j = Some b -> a <= b.
Proof.
  intros Hij Hj Hn. unfold qsort. set (l := take (Z.to_nat n) v).
  pose proof (merge_sort_Permutation cmp_le l) as Hp.
  pose proof (StronglySorted_merge_sort cmp_le l) as Hs.
  assert (Hls : length (merge_sort cmp_le l) = Z.to_nat n).
  { rewrite Hp. unfold l. rewrite length_take. lia. }
  rewrite !lookup_app_l by lia. intros Ha Hb.
  destruct (sorted_split _ _ _ Hs Ha) as [_ H]. rewrite Forall_forall in H. apply H.
  apply (list_elem_of_lookup_2 _ (Z.to_nat j - Z.to_nat i)). rewrite lookup_drop.
  by replace (Z.to_nat i + (Z.to_nat j - Z.to_nat i))%nat with (Z.to_nat j) by lia.
Qed.

(** ** The numbers *)

Lemma is_digit_digit (d : Z) : 0 <= d < 10 -> is_digit (digit d) = true /\ digit_val (digit d) = d.
Proof.
  intros H. split; [| apply digit_val_digit; lia].
  assert (Hd : d ∈ seqZ 0 10) by (apply elem_of_seqZ; lia). revert d Hd H.
  apply (Forall_forall (fun d => 0 <= d < 10 -> is_digit (digit d) = true)). repeat constructor.
Qed.

Lemma digits_forall (fuel : nat) (n : Z) :
  0 <= n -> Forall (fun c => is_digit c = true) (digits fuel 10 n []).
Proof.
  revert n. induction fuel as [|fuel IH]; intros n Hn; cbn [digits]; [constructor |].
  pose proof (Z.mod_pos_bound n 10 ltac:(lia)) as Hm.
  destruct (is_digit_digit (n mod 10) Hm) as [Hd _].
  destruct (n / 10 =? 0); [by repeat constructor |].
  rewrite digits_acc. apply Forall_app. split; [| by repeat constructor].
  apply IH, Z.div_pos; lia.
Qed.

Lemma digits_nonempty (fuel : nat) (base n : Z) : digits (S fuel) base n [] <> [].
Proof.
  cbn [digits]. destruct (_ =? 0); [done |]. rewrite digits_acc. by destruct (digits _ _ _ _).
Qed.

Lemma scan_digits_all (l : list ascii) (acc : Z) :
  Forall (fun c => is_digit c = true) l ->
  scan_digits acc l = (foldl (fun a c => a * 10 + digit_val c) acc l, []).
Proof.
  intros H. revert acc. induction H as [|c l Hc _ IH]; intros acc; cbn [scan_digits foldl]; [done |].
  by rewrite Hc, IH.
Qed.

Lemma digit_not_other (c : ascii) :
  is_digit c = true -> is_space c = false /\ (c =? "-")%char = false /\ (c =? "+")%char = false.
Proof. destruct c as [[] [] [] [] [] [] [] []]; vm_compute; intuition congruence. Qed.

(** What [strtoul] makes of a string of digits. *)
Lemma strtoul_digits {C : Config} (l : list ascii) :
  l <> [] -> Forall (fun c => is_digit c = true) l ->
  strtoul l = if ULONG_MAX <? digits_val 10 l then (ULONG_MAX, [], true)
              else (digits_val 10 l, [], false).
Proof.
  intros Hne H. destruct l as [|c l]; [done |]. pose proof (Forall_inv H) as Hc.
  destruct (digit_not_other c Hc) as (Hs & Hm & Hp). unfold strtoul, strtou, scan_number. cbn [skip_spaces].
  rewrite Hs, Hm, Hp, Hc, scan_digits_all by done. done.
Qed.

(** Whatever [parse_u32] accepts is in range. *)
Lemma parse_u32_range {C : Config} (s : string) (mn v : Z) :
  parse_u32 s mn = Some v -> mn <= v <= UINT32_MAX.
Proof.
  unfold parse_u32. destruct (strtoul (chars s)) as [[v' rest] e].
  destruct (_ || _) eqn:E; [done |]. intros [= ->]. bool_hyps. lia.
Qed.

(** ** Properties *)

(** C24. The figures of a benchmark row are what they say.  After any samples
    [xs] (64-bit, at least one), with room for [cap]: the count, the minimum
    and the maximum are exact; the kept samples are [min(count, cap)] of them,
    and all of them while they fit; no index is out of the array; the median
    has at least half of the kept samples on either side, at least 99% of them
    are at most the 99th percentile; and min <= median <= p99 <= max. *)
Theorem row_figures (blk cap : Z) (xs : list Z) :
  1 <= cap -> xs <> [] -> Forall (fun x => 0 <= x <= UINT64_MAX) xs ->
  Z.of_nat (length xs) <= UINT64_MAX ->
  let s := foldl samples_add (samples_fresh blk cap) xs in
  let kept := take (Z.to_nat (s_n s)) (s_v s) in
  let n := Z.of_nat (length kept) in
  s_seen s = Z.of_nat (length xs) /\ n = Z.min (Z.of_nat (length xs)) cap /\
  Forall (fun x => x ∈ xs) kept /\ (Z.of_nat (length xs) <= cap -> kept = xs) /\
  exists mn med p99 mx, row_values s = Some (mn, med, p99, mx) /\
    mn ∈ xs /\ mx ∈ xs /\ Forall (fun x => mn <= x <= mx) xs /\
    med ∈ kept /\ p99 ∈ kept /\ mn <= med <= p99 /\ p99 <= mx /\
    n < 2 * Z.of_nat (at_most med kept) /\ n <= 2 * Z.of_nat (at_least med kept) /\
    99 * n <= 100 * Z.of_nat (at_most p99 kept) /\ n < 100 * Z.of_nat (at_least p99 kept).
Proof.
  intros Hcap Hne Hx Hlen s kept n.
  destruct (samples_add_all_ok blk cap [] xs (samples_fresh blk cap) Hcap Hx ltac:(cbn; lia)
    (samples_fresh_ok blk cap ltac:(lia))) as [_ _ Hv En Es Emin Emax Hk Ha].
  cbn [app] in *. fold s in Hv, En, Es, Emin, Emax, Hk, Ha. fold kept in Hk, Ha.
  assert (Hpos : 0 < Z.of_nat (length xs)) by (destruct xs; [done | cbn; lia]).
  assert (Hn : n = s_n s) by (unfold n, kept; rewrite length_take; lia).
  split; [done |]. split; [lia |]. do 2 (split; [done |]).
  destruct (qsort_lookup (s_v s) (s_n s) (s_n s / 2)) as (med & M1 & M2 & M3 & M4);
    [div_lia | lia |].
  destruct (qsort_lookup (s_v s) (s_n s) (s_n s - 1 - s_n s / 100)) as (p99 & P1 & P2 & P3 & P4);
    [div_lia | lia |].
  fold kept in M2, M3, M4, P2, P3, P4. rewrite Forall_forall in Hk.
  exists (s_min s), med, p99, (s_max s). rewrite Emin, Emax.
  split; [unfold row_values; rewrite M1, P1, Emin, Emax; by destruct (Z.ltb_spec 0 (s_n s)); [| lia] |].
  split; [by apply list_min_in |]. split; [by apply list_max_in |].
  split; [apply Forall_forall; intros x Hxs; split; [by apply list_min_le | by apply list_max_ge] |].
  do 2 (split; [done |]). split; [split; [by apply list_min_le, Hk |] | split; [by apply list_max_ge, Hk |]].
  - eapply qsort_le; [| | | exact M1 | exact P1]; [div_lia | div_lia | lia].
  - rewrite Hn. split; [div_lia | split; [div_lia | split; div_lia]].
Qed.

(** A number printed in decimal is read back by the benchmark's options,
    if it is in the option's range, and only numbers in the range are ever
    accepted. *)
Theorem parse_u32_roundtrip {C : Config} (mn : Z) :
  sizeof_pointer = 4 \/ sizeof_pointer = 8 ->
  (forall v, 0 <= v <= UINT32_MAX -> parse_u32 (dec v) mn = if v <? mn then None else Some v) /\
  (forall s v, parse_u32 s mn = Some v -> mn <= v <= UINT32_MAX).
Proof.
  intros Hp. split; [| intros s v; apply parse_u32_range].
  intros v Hv. unfold parse_u32, dec. rewrite chars_of_chars.
  assert (Hu : UINT32_MAX <= ULONG_MAX).
  { unfold ULONG_MAX, UINT32_MAX. destruct Hp as [-> | ->]; vm_compute; discriminate. }
  unfold UINT32_MAX in Hv.
  rewrite strtoul_digits; [| apply digits_nonempty | apply digits_forall; lia].
  rewrite digits_spec by (cbn; lia).
  destruct (Z.ltb_spec ULONG_MAX v); [unfold UINT32_MAX in Hu; lia |].
  pose proof (digits_nonempty 19 10 v) as Hd. destruct (digits 20 10 v []) as [|c l]; [done |].
  cbn [length Nat.eqb negb orb]. destruct (Z.ltb_spec v mn); [done |]. cbn [orb].
  destruct (Z.ltb_spec UINT32_MAX v); [unfold UINT32_MAX in *; lia | done].
Qed.

(** [k] values after [gen]. *)
Lemma gen_iter (gen : Z) (k : nat) :
  1 <= gen <= UINT32_MAX -> Nat.iter k gen_succ gen = (gen - 1 + Z.of_nat k) mod UINT32_MAX + 1.
Proof.
  intros Hg. induction k as [|k IH]; cbn [Nat.iter nat_rect].
  - rewrite Z.mod_small by (unfold UINT32_MAX in *; lia). lia.
  - change (nat_rect (fun _ => Z) gen (fun _ => gen_succ) k) with (Nat.iter k gen_succ gen).
    rewrite IH. unfold gen_succ. unfold UINT32_MAX in *. div_lia.
Qed.

(** Between a value and the [k]th after it there are [k - 1]; the formula says
    so while the generations do not wrap, and one more when they do, because
    generation 0 is never used. *)
Lemma missed_iter (seen : Z) (k : nat) :
  1 <= seen <= UINT32_MAX -> 1 <= Z.of_nat k < UINT32_MAX ->
  missed_between seen (Nat.iter k gen_succ seen) =
  Z.of_nat k - 1 + (if UINT32_MAX <? seen + Z.of_nat k then 1 else 0).
Proof.
  intros Hs Hk. rewrite gen_iter by done. unfold missed_between, u32, UINT32_MAX in *.
  destruct (Z.ltb_spec 4294967295 (seen + Z.of_nat k)).
  - rewrite <- (Z.mod_unique (seen - 1 + Z.of_nat k) 4294967295 1 (seen - 1 + Z.of_nat k - 4294967295))
      by lia. rewrite <- (Z.mod_unique _ 4294967296 (-1) (Z.of_nat k)) by lia. lia.
  - rewrite (Z.mod_small (_ + _)) by lia. rewrite Z.mod_small by lia. lia.
Qed.

(** ** Witnesses *)

Lemma row_figures_witness :
  let xs := [70; 10; 30; 20] in
  let s := foldl samples_add (samples_fresh 8 3) xs in
  s_seen s = 4 /\ exists med p99, row_values s = Some (10, med, p99, 70) /\ 10 <= med <= p99.
Proof.
  intros xs s.
  destruct (row_figures 8 3 xs ltac:(lia) ltac:(done)
    ltac:(repeat constructor; unfold UINT64_MAX; lia) ltac:(cbn; unfold UINT64_MAX; lia))
    as (H1 & _ & _ & _ & mn & med & p99 & mx & H2 & _ & _ & _ & _ & _ & H3 & _).
  split; [exact H1 |]. exists med, p99.
  assert (E : mn = 10 /\ mx = 70).
  { change (Some (10, 30, 70, 70) = Some (mn, med, p99, mx)) in H2. by injection H2 as <- _ _ <-. }
  destruct E as [-> ->]. split; [exact H2 | exact H3].
Defined.

Lemma parse_u32_roundtrip_witness :
  parse_u32 (C := config64) (dec 500) 1 = Some 500 /\ parse_u32 (C := config64) (dec 0) 1 = None.
Proof.
  destruct (parse_u32_roundtrip (C := config64) 1 (or_intror eq_refl)) as [H _].
  split; [apply (H 500); unfold UINT32_MAX; lia | apply (H 0); unfold UINT32_MAX; lia].
Defined.

(** On a 32-bit build [strtoul] makes a number that [parse_u32] accepts of a
    negative one. *)
Definition config32 : Config :=
  {| sizeof_pointer := 4; sizeof_writer := 48; sizeof_reader := 96;
     psmi_test_lock_opened := false; psmi_test_skip_seq_recheck := false |}.

Example parse_u32_negative :
  parse_u32 (C := config32) "-1" 1 = Some 4294967295 /\ parse_u32 (C := config64) "-1" 1 = None /\
  parse_u32 (C := config64) "-18446744073709551615" 1 = Some 1.
Proof. repeat split. Qed.
