(* ===== verification/BenchSafety.v ===== *)
(** * The benchmark on a hostile system

    The benchmark's measurements on the monitor of World.v: the operations on
    a writer and a reader of one process, the rows, and the runs against a
    writer process, in the parent and in the child. *)
From S2P Require Import Prelude Prog Common Layout Names Options Writer Reader Channel Text Bench.
From S2P Require Import Protocol Seqlock World ReaderSafety WriterSafety DumpProof Opened BenchProof.
#[local] Open Scope string_scope.
#[local] Open Scope list_scope.
#[local] Open Scope Z_scope.

(** ** Programs that may end *)

(** The status of an exit. *)
Definition ended (e : ending) : Prop :=
  match e with Exit st | UExit st => st = 0 \/ st = 1 end.

(** What holds of a result; of a program that has ended, its status. *)
Definition xpost {A : Type} (Q : A -> world -> Prop) (x : A + ending) (w : world) : Prop :=
  match x with inl a => Q a w | inr e => ended e end.

Definition xwp {A : Type} (m : xprog A) (en : Z) (w : world) (Q : A -> world -> Prop) : Prop :=
  wp m en w (fun x _ w' => xpost Q x w').

Lemma xwp_ret {A : Type} (a : A) (en : Z) (w : world) (Q : A -> world -> Prop) :
  Q a w -> xwp (xret a) en w Q.
Proof. intros H. by apply wp_ret. Qed.

Lemma xwp_stop {A : Type} (e : ending) (en : Z) (w : world) (Q : A -> world -> Prop) :
  ended e -> xwp (stop e) en w Q.
Proof. intros H. by apply wp_ret. Qed.

Ltac stops := apply xwp_stop; cbn [ended]; first [by left | by right].

Lemma xwp_mono {A : Type} (m : xprog A) (en : Z) (w : world) (Q Q' : A -> world -> Prop) :
  xwp m en w Q -> (forall a w', Q a w' -> Q' a w') -> xwp m en w Q'.
Proof. intros H HQ. eapply wp_mono; [exact H |]. intros [a|e] en' w'; [apply HQ | done]. Qed.

Lemma xwp_bind {A B : Type} (m : xprog A) (f : A -> xprog B) (en : Z) (w : world)
    (P : A -> world -> Prop) (Q : B -> world -> Prop) :
  xwp m en w P -> (forall a en' w', P a w' -> xwp (f a) en' w' Q) -> xwp (xbind m f) en w Q.
Proof.
  intros Hm Hf. apply wp_bind. eapply wp_mono; [exact Hm |]. intros [a|e] en' w' H; [by apply Hf |].
  by apply wp_ret.
Qed.

Lemma xwp_times {A : Type} (n : nat) (f : A -> xprog A) (a : A) (en : Z) (w : world)
    (I : A -> world -> Prop) :
  I a w -> (forall a en w, I a w -> xwp (f a) en w I) -> xwp (times n f a) en w I.
Proof.
  intros H Hf. revert a en w H. induction n as [|n IH]; intros a en w H; cbn [times].
  - by apply xwp_ret.
  - eapply xwp_bind; [by apply Hf |]. intros a' en' w' H'. by apply IH.
Qed.

Lemma xwp_for_each {A B : Type} (l : list A) (f : A -> B -> xprog B) (b : B) (en : Z) (w : world)
    (I : B -> world -> Prop) :
  I b w -> (forall a b en w, I b w -> a ∈ l -> xwp (f a b) en w I) -> xwp (for_each l f b) en w I.
Proof.
  intros H Hf. revert b en w H. induction l as [|a l IH]; intros b en w H; cbn [for_each].
  - by apply xwp_ret.
  - eapply xwp_bind; [apply Hf; [done | left] |]. intros b' en' w' H'. apply IH; [| done].
    intros a0 b0 en0 w0 H0 Hin. apply Hf; [done | by right].
Qed.

(** ** Samples and rows *)

Definition samples_inv (s : samples) : Prop :=
  length (s_v s) = Z.to_nat (s_cap s) /\ 0 <= s_n s <= s_cap s.

Lemma samples_inv_add (s : samples) (x : Z) :
  samples_inv s -> samples_inv (samples_add s x) /\ s_blk (samples_add s x) = s_blk s.
Proof.
  intros [Hv Hn]. unfold samples_add, samples_inv.
  destruct (Z.ltb_spec (s_n s) (s_cap s)); cbn [s_v s_cap s_n s_blk].
  - rewrite length_insert. repeat split; lia.
  - destruct (_ <? _); rewrite ?length_insert; repeat split; lia.
Qed.

Lemma row_values_some (s : samples) : samples_inv s -> is_Some (row_values s).
Proof.
  intros [Hv Hn]. unfold row_values. destruct (Z.ltb_spec 0 (s_n s)); [| done].
  destruct (qsort_lookup (s_v s) (s_n s) (s_n s / 2)) as (a & -> & _); [div_lia | lia |].
  destruct (qsort_lookup (s_v s) (s_n s) (s_n s - 1 - s_n s / 100)) as (b & -> & _); [div_lia | lia |].
  done.
Qed.

Section bench.
Context {C : Config} (strerror : Z -> string) (junk : Z -> list Z) (main_pid : Z) (cfg : config).
Context (Hptr : 0 <= sizeof_pointer < 4294967000).
Context (Hjunk : forall n, 0 <= n -> Z.of_nat (length (junk n)) = n).
Context (Hdir : cstring (bdir cfg)) (Hiter : 0 <= iterations cfg).

Abbreviation die := (die strerror main_pid).

Lemma xwp_die {A : Type} (what : string) (rc en : Z) (w : world) (Q : A -> world -> Prop) :
  xwp (die what rc) en w Q.
Proof.
  unfold Bench.die. apply wp_bind, wp_get_errno, wp_bind, wp_os; [done |]. intros [] w' ->.
  apply wp_bind, wp_os; [done |]. intros pid w' ->. destruct (negb _); stops.
Qed.

Lemma wp_os_now (en : Z) (w : world) (Q : Z -> Z -> world -> Prop) :
  (forall t, Q t en w) -> wp now_ns en w Q.
Proof.
  intros HQ. unfold now_ns. apply wp_bind, wp_os; [done |]. intros [sec nsec] w' ->. by apply wp_ret.
Qed.

Lemma wp_os_print_row (test : string) (size : Z) (s : samples) (per busy missed en : Z) (w : world)
    (Q : unit -> Z -> world -> Prop) :
  samples_inv s -> Q tt en w -> wp (print_row cfg test size s per busy missed) en w Q.
Proof.
  intros Hs HQ. unfold print_row. destruct (row_values_some s Hs) as [f ->].
  apply wp_os; [done |]. by intros [] w' ->.
Qed.

Lemma xwp_samples_init (cap en : Z) (w : world) (Q : samples -> world -> Prop) :
  0 <= cap ->
  (forall b, b ∉ wd_heap w -> Q (samples_fresh b cap) (add_blk b w)) ->
  xwp (samples_init cap) en w Q.
Proof.
  intros Hc HQ. unfold samples_init. apply wp_bind, wp_os; [done |].
  intros [b|] w' Hs; cbn [world_step] in Hs.
  - destruct Hs as [Hb ->]. by apply xwp_ret, HQ.
  - apply wp_bind, wp_os; [done |]. intros [] w2 _. stops.
Qed.

Lemma samples_fresh_inv (b cap : Z) : 0 <= cap -> samples_inv (samples_fresh b cap).
Proof. intros H. split; cbn; [by rewrite length_replicate | lia]. Qed.

(** ** The context of the operations *)

Definition writer_in (base : world) (h : option psmsgr_state_writer) (size : Z) (mid : world) : Prop :=
  match h with
  | None => mid = base
  | Some wr => writer_ok wr /\ size <= w_capacity wr /\ wd_maps base !! p_blk (w_hdr wr) = None /\
               mid = writer_world base wr
  end.

Definition reader_in (mid : world) (h : option psmsgr_state_reader) (w : world) : Prop :=
  match h with None => w = mid | Some r => attached_in mid r w end.

(** The process holds [base], what the writer and the reader map, and a
    buffer of [c_size] bytes. *)
Definition ctx_in (base : world) (c : op_ctx) (w : world) : Prop :=
  0 <= c_size c /\ Z.of_nat (length (c_buf c)) = c_size c /\
  exists mid, writer_in base (c_w c) (c_size c) mid /\ reader_in mid (c_r c) w.

Definition same_opt {A : Type} (same : A -> A -> Prop) (x y : option A) : Prop :=
  match x, y with Some a, Some b => same a b | None, None => True | _, _ => False end.

(** The handles are the ones of [c], used. *)
Definition keeps (c c' : op_ctx) : Prop :=
  c_size c' = c_size c /\ same_opt same_writer (c_w c) (c_w c') /\ same_opt same_handle (c_r c) (c_r c').

Lemma same_writer_trans (a b c : psmsgr_state_writer) :
  same_writer a b -> same_writer b c -> same_writer a c.
Proof. intros (? & ? & ? & ? & ?) (? & ? & ? & ? & ?). repeat split; congruence. Qed.

Lemma same_opt_trans {A : Type} (same : A -> A -> Prop) (x y z : option A) :
  (forall a b c, same a b -> same b c -> same a c) ->
  same_opt same x y -> same_opt same y z -> same_opt same x z.
Proof. intros H. destruct x, y, z; cbn; try done. apply H. Qed.

Lemma same_opt_refl {A : Type} (same : A -> A -> Prop) (x : option A) :
  (forall a, same a a) -> same_opt same x x.
Proof. intros H. destruct x; [apply H | done]. Qed.

Lemma same_writer_refl (w : psmsgr_state_writer) : same_writer w w.
Proof. by repeat split. Qed.

Lemma same_handle_refl (r : psmsgr_state_reader) : same_handle r r.
Proof. by split. Qed.

Lemma keeps_refl (c : op_ctx) : keeps c c.
Proof.
  split; [done |]. split; apply same_opt_refl; [apply same_writer_refl | apply same_handle_refl].
Qed.

Lemma keeps_trans (a b c : op_ctx) : keeps a b -> keeps b c -> keeps a c.
Proof.
  intros (E1 & W1 & R1) (E2 & W2 & R2). split; [congruence |]. split.
  - eapply same_opt_trans; [apply same_writer_trans | exact W1 | exact W2].
  - eapply same_opt_trans; [apply same_handle_trans | exact R1 | exact R2].
Qed.

(** What every operation does. *)
Definition op_ok (op : op_ctx -> xprog op_ctx) : Prop :=
  forall base c en w, ctx_in base c w ->
    xwp (op c) en w (fun c' w' => ctx_in base c' w' /\ keeps c c').

(** The writer's mapping is under the reader's. *)
Lemma writer_under (base w : world) (wr : psmsgr_state_writer) (h : option psmsgr_state_reader) :
  reader_in (writer_world base wr) h w -> exists base2, w = writer_world base2 wr.
Proof.
  destruct h as [r|]; [| by exists base]. unfold reader_in, attached_in.
  destruct (r_hdr r) as [p|]; [| by exists base]. intros (_ & Hn & -> & _).
  exists (add_map (p_blk p) (r_map_size r) false base).
  apply world_eq; try done. cbn [add_map writer_world wd_maps].
  unfold free_blk in Hn. cbn [writer_world add_map wd_maps] in Hn. rewrite insert_insert_ne; [done |].
  destruct Hn as [Hn _]. intros E. rewrite E, lookup_insert_eq in Hn. done.
Qed.

(** A step of the writer: the same world, a handle that has moved on. *)
Lemma ctx_writer (base w : world) (c : op_ctx) (wr wr' : psmsgr_state_writer) :
  ctx_in base c w -> c_w c = Some wr -> writer_ok wr' -> same_writer wr wr' ->
  ctx_in base (with_w c (Some wr')) w /\ keeps c (with_w c (Some wr')).
Proof.
  intros (H0 & Hb & mid & Hw & Hr) E H' S. split.
  - split; [done |]. split; [done |]. exists mid. split; [| done]. rewrite E in Hw.
    destruct Hw as (_ & Hc & Hn & ->). cbn [with_w c_w c_size writer_in].
    split; [done |]. pose proof S as (_ & _ & Eh & _ & Eg). injection Eg as _ _ Ec.
    split; [lia |]. rewrite Eh. split; [done |]. by apply same_writer_world.
  - split; [done |]. split; [by rewrite E | apply same_opt_refl, same_handle_refl].
Qed.
(** ** The operations *)

Lemma wp_os_ctx_publish (base w : world) (c : op_ctx) (en : Z) :
  ctx_in base c w ->
  wp (psmsgr_state_publish (c_w c) (Some (c_buf c)) (c_size c)) en w
    (fun '(rc, h, _) _ w' => rc = PSMSGR_OK -> ctx_in base (with_w c h) w' /\ keeps c (with_w c h)).
Proof.
  intros H. pose proof H as (_ & Hb & mid & Hw & Hr). destruct (c_w c) as [wr|] eqn:E.
  2: { apply wp_ret. intros E'. discriminate E'. }
  cbn in Hw. destruct Hw as (Hok & _ & _ & ->). destruct (writer_under _ _ _ _ Hr) as [base2 ->].
  rewrite <- Hb. eapply wp_mono; [by apply wp_os_publish |].
  intros [[rc h] gen] en' wd (wr' & -> & Hok' & S & ->) _. by apply (ctx_writer base _ c wr).
Qed.

Lemma ctx_buf (base w : world) (c : op_ctx) (b : list Z) :
  ctx_in base c w -> length b = length (c_buf c) ->
  ctx_in base (next_fill (with_buf c b)) w /\ ctx_in base (with_buf c b) w.
Proof. intros (H0 & Hb & H) E. split; (split; [done | split; [cbn; lia | done]]). Qed.

Lemma xwp_op_publish : op_ok (op_publish strerror main_pid).
Proof.
  intros base c en w H. unfold op_publish. apply wp_bind.
  eapply wp_mono; [by apply (wp_os_ctx_publish base) |]. intros [[rc h] gen] en' w' Hk.
  destruct (Z.eqb_spec rc PSMSGR_OK); cbn [negb]; [by apply xwp_ret, Hk | apply xwp_die].
Qed.

Lemma xwp_op_fill_publish : op_ok (op_fill_publish strerror main_pid).
Proof.
  intros base c en w H. unfold op_fill_publish. pose proof H as (H0 & Hb & _).
  assert (El : length (overwrite (c_buf c) (replicate (Z.to_nat (c_size c)) (c_fill c))) = length (c_buf c)).
  { unfold overwrite. rewrite length_app, length_drop, length_replicate. lia. }
  destruct (ctx_buf _ _ c _ H El) as [Hc _].
  eapply xwp_mono; [by apply (xwp_op_publish base) |]. intros c' w' [H1 H2].
  split; [exact H1 |]. eapply keeps_trans; [| exact H2]. exact (keeps_refl c).
Qed.

(** [begin] with the pointer it hands out. *)
Lemma wp_os_ctx_begin (base w : world) (c : op_ctx) (en : Z) :
  ctx_in base c w ->
  wp (psmsgr_state_begin (c_w c) false) en w
    (fun '(rc, h, p) _ w' => rc = PSMSGR_OK ->
       ctx_in base (with_w c h) w' /\ keeps c (with_w c h) /\
       mapped w' (default NULL_PTR p) (c_size c) true /\ HOff.state <= p_off (default NULL_PTR p)).
Proof.
  intros H. pose proof H as (H0 & Hb & mid & Hw & Hr). destruct (c_w c) as [wr|] eqn:E.
  2: { apply wp_ret. intros E'. discriminate E'. }
  cbn in Hw. destruct Hw as (Hok & Hc & _ & ->). destruct (writer_under _ _ _ _ Hr) as [base2 ->].
  unfold psmsgr_state_begin. destruct (negb _); [apply wp_ret; intros E'; discriminate E' |].
  apply wp_bind, wp_os_begin_slot; [done |]. intros w1 i H1 S1 Hi _. apply wp_ret. intros _.
  destruct (ctx_writer base _ c wr w1 H E H1 S1) as [Hctx Hk]. split; [exact Hctx |].
  split; [exact Hk |]. cbn [default from_option].
  split; [apply writer_slot_mapped | apply writer_slot_off];
    first [done | unfold PSMI_SLOT_HEADER_SIZE; lia].
Qed.

Lemma wp_os_ctx_commit (base w : world) (c : op_ctx) (len en : Z) :
  ctx_in base c w ->
  wp (psmsgr_state_commit (c_w c) len) en w
    (fun '(rc, h, _) _ w' => rc = PSMSGR_OK -> ctx_in base (with_w c h) w' /\ keeps c (with_w c h)).
Proof.
  intros H. pose proof H as (_ & _ & mid & Hw & Hr). destruct (c_w c) as [wr|] eqn:E.
  2: { apply wp_ret. intros E'. discriminate E'. }
  cbn in Hw. destruct Hw as (Hok & _ & _ & ->). destruct (writer_under _ _ _ _ Hr) as [base2 ->].
  eapply wp_mono; [by apply wp_os_commit |].
  intros [[rc h] gen] en' wd (wr' & -> & Hok' & S & ->) _. by apply (ctx_writer base _ c wr).
Qed.

Lemma ctx_fill (base w : world) (c : op_ctx) : ctx_in base c w -> ctx_in base (next_fill c) w.
Proof. done. Qed.

(** The commit that ends an operation begun from [c0]. *)
Lemma xwp_finish (base w : world) (c0 c : op_ctx) (en : Z) :
  ctx_in base c w -> keeps c0 c ->
  xwp (let* (rc, h, _) := psmsgr_state_commit (c_w c) (c_size c) in
       if negb (rc =? PSMSGR_OK) then die "commit" rc else xret (with_w c h)) en w
    (fun c' w' => ctx_in base c' w' /\ keeps c0 c').
Proof.
  intros H Hk. apply wp_bind. eapply wp_mono; [by apply (wp_os_ctx_commit base) |].
  intros [[rc h] gen] en' w' H'. destruct (Z.eqb_spec rc PSMSGR_OK) as [E|]; cbn [negb]; [| apply xwp_die].
  destruct (H' E) as [H1 H2]. apply xwp_ret. split; [exact H1 |]. by eapply keeps_trans.
Qed.

Lemma xwp_op_begin_commit : op_ok (op_begin_commit strerror main_pid).
Proof.
  intros base c en w H. unfold op_begin_commit. apply wp_bind.
  eapply wp_mono; [by apply (wp_os_ctx_begin base) |]. intros [[rc h] p] en' w' Hk.
  destruct (Z.eqb_spec rc PSMSGR_OK) as [E|]; cbn [negb]; [| apply xwp_die].
  destruct (Hk E) as (H1 & H2 & _). exact (xwp_finish base w' c (with_w c h) en' H1 H2).
Qed.

Lemma xwp_op_begin_fill_commit : op_ok (op_begin_fill_commit strerror main_pid).
Proof.
  intros base c en w H. unfold op_begin_fill_commit. apply wp_bind.
  eapply wp_mono; [by apply (wp_os_ctx_begin base) |]. intros [[rc h] p] en' w' Hk.
  destruct (Z.eqb_spec rc PSMSGR_OK) as [E|]; cbn [negb]; [| apply xwp_die].
  destruct (Hk E) as (H1 & H2 & Hm & Ho). pose proof H as (H0 & _).
  apply wp_bind, wp_os_store_bytes; [by rewrite length_replicate, Z2Nat.id | done |].
  exact (xwp_finish base w' c (next_fill (with_w c h)) en' H1 H2).
Qed.
(** A step of the reader: the mapping may come and go. *)
Lemma ctx_reader (base mid w : world) (c : op_ctx) (r r' : psmsgr_state_reader) (b : list Z) :
  0 <= c_size c -> Z.of_nat (length b) = c_size c -> writer_in base (c_w c) (c_size c) mid ->
  c_r c = Some r -> reader_post mid r r' w ->
  ctx_in base (with_buf (with_r c (Some r')) b) w /\ keeps c (with_buf (with_r c (Some r')) b).
Proof.
  intros H0 Hb Hw E [Hs Ha]. split.
  - split; [done |]. split; [done |]. by exists mid.
  - split; [done |]. split; [apply same_opt_refl, same_writer_refl | by rewrite E].
Qed.

Lemma api_buf (cap size : Z) (copy : bool) (buf b : list Z) (rc : Z)
    (info : option psmsgr_state_info) :
  api_ok cap size copy buf (rc, b, info) -> length b = length buf.
Proof. by intros [[[Hl _] _] | (rc' & [= _ -> _] & _)]. Qed.

Lemma xwp_op_read : op_ok (op_read strerror main_pid).
Proof.
  intros base c en w H. unfold op_read. pose proof H as (H0 & Hb & mid & Hw & Hr). apply wp_bind.
  destruct (c_r c) as [r|] eqn:E; [| by apply wp_ret, xwp_die].
  eapply wp_mono; [apply (wp_os_state_read mid); [exact Hr | lia] |].
  intros [h [[rc b] info]] en' w' (r' & -> & Hp & Ha). pose proof (api_buf _ _ _ _ _ _ _ Ha) as El.
  destruct (negb _); [apply xwp_die | apply xwp_ret].
  change (default [] (Some (c_buf c))) with (c_buf c) in El.
  exact (ctx_reader base mid w' c r r' b H0 ltac:(lia) Hw E Hp).
Qed.

Lemma xwp_op_peek : op_ok (op_peek strerror main_pid).
Proof.
  intros base c en w H. unfold op_peek. pose proof H as (H0 & Hb & mid & Hw & Hr). apply wp_bind.
  destruct (c_r c) as [r|] eqn:E; [| by apply wp_ret, xwp_die].
  eapply wp_mono; [apply (wp_os_state_peek mid), Hr |].
  intros [h [rc info]] en' w' (r' & -> & Hp & _).
  destruct (negb _); [apply xwp_die | apply xwp_ret].
  exact (ctx_reader base mid w' c r r' (c_buf c) H0 Hb Hw E Hp).
Qed.

(** An operation that is one call the process may always make. *)
Lemma xwp_op_call (e : ev) :
  (forall w, world_pre e w) -> (forall w r w', world_step e w r w' -> w' = w) ->
  op_ok (fun c => let* _ := call e in xret c).
Proof.
  intros Hp Hs base c en w H. apply wp_bind, wp_os; [apply Hp |]. intros r w' Hw.
  rewrite (Hs _ _ _ Hw). apply xwp_ret. split; [done | apply keeps_refl].
Qed.

Lemma xwp_op_nothing : op_ok op_nothing.
Proof. intros base c en w H. apply xwp_ret. split; [done | apply keeps_refl]. Qed.

Lemma xwp_op_now : op_ok op_now.
Proof.
  intros base c en w H. unfold op_now. apply wp_bind, wp_os_clock. intros t _. apply xwp_ret.
  split; [done | apply keeps_refl].
Qed.

(** ** Measuring *)

Lemma ctx_add_blk (base w : world) (c : op_ctx) (b : Z) :
  ctx_in base c w -> ctx_in (add_blk b base) c (add_blk b w).
Proof.
  intros (H0 & Hb & mid & Hw & Hr). split; [done |]. split; [done |]. exists (add_blk b mid). split.
  - destruct (c_w c) as [wr|]; cbn in *; [| by rewrite Hw]. destruct Hw as (H1 & H2 & H3 & ->). done.
  - destruct (c_r c) as [r|]; cbn in *; [by apply attached_add_blk | by rewrite Hr].
Qed.

Lemma writer_in_heap (base mid : world) (h : option psmsgr_state_writer) (size : Z) :
  writer_in base h size mid -> wd_heap mid = wd_heap base.
Proof. destruct h; [| by intros ->]. by intros (_ & _ & _ & ->). Qed.

Lemma ctx_heap (base w : world) (c : op_ctx) : ctx_in base c w -> wd_heap w = wd_heap base.
Proof.
  intros (_ & _ & mid & Hw & Hr). rewrite <- (writer_in_heap _ _ _ _ Hw).
  destruct (c_r c) as [r|]; [by apply (attached_heap mid w r) | by rewrite Hr].
Qed.

Lemma ctx_del_blk (base w : world) (c : op_ctx) (b : Z) :
  b ∉ wd_heap base -> ctx_in (add_blk b base) c w -> b ∈ wd_heap w /\ ctx_in base c (del_blk b w).
Proof.
  intros Hn H. split; [rewrite (ctx_heap _ _ _ H); cbn; set_solver |].
  destruct H as (H0 & Hb & mid & Hw & Hr). split; [done |]. split; [done |].
  assert (Hm : exists mid', mid = add_blk b mid' /\ writer_in base (c_w c) (c_size c) mid').
  { destruct (c_w c) as [wr|]; cbn in *; [| by exists base].
    destruct Hw as (H1 & H2 & H3 & ->). by exists (writer_world base wr). }
  destruct Hm as (mid' & -> & Hw'). exists mid'. split; [done |].
  assert (Hn' : b ∉ wd_heap mid') by (by rewrite (writer_in_heap _ _ _ _ Hw')).
  destruct (c_r c) as [r|]; cbn in *; [by apply (attached_del_blk mid' w r b) |].
  subst w. by apply del_add_blk.
Qed.
Lemma xwp_timed (op : op_ctx -> xprog op_ctx) (batch : Z) (base w : world) (c0 c : op_ctx)
    (s : samples) (blk en : Z) :
  op_ok op -> ctx_in base c w -> keeps c0 c -> samples_inv s -> s_blk s = blk ->
  xwp (timed op batch (c, s)) en w (fun '(c', s') w' =>
    ctx_in base c' w' /\ keeps c0 c' /\ samples_inv s' /\ s_blk s' = blk).
Proof.
  intros Hop H Hk Hs Hb. unfold timed. apply wp_bind, wp_os_now. intros t0.
  eapply xwp_bind.
  { apply (xwp_times _ _ _ _ _ (fun c' w' => ctx_in base c' w' /\ keeps c0 c')); [done |].
    intros c1 en1 w1 [H1 K1]. eapply xwp_mono; [by apply Hop |]. intros c2 w2 [H2 K2].
    split; [done | by eapply keeps_trans]. }
  intros c1 en1 w1 [H1 K1]. apply wp_bind, wp_os_now. intros t1. apply xwp_ret.
  destruct (samples_inv_add s (u64 (t1 - t0)) Hs) as [H2 E]. rewrite E. done.
Qed.

Lemma xwp_measure (test : string) (op : op_ctx -> xprog op_ctx) (batch n : Z) (base w : world)
    (c0 c : op_ctx) (en : Z) :
  op_ok op -> 0 <= n -> ctx_in base c w -> keeps c0 c ->
  xwp (measure cfg test op c batch n) en w (fun c' w' => ctx_in base c' w' /\ keeps c0 c').
Proof.
  intros Hop Hn H Hk. unfold measure. eapply xwp_bind.
  { apply (xwp_times _ _ _ _ _ (fun c' w' => ctx_in base c' w' /\ keeps c0 c')); [done |].
    intros c1 en1 w1 [H1 K1]. eapply xwp_mono; [by apply Hop |]. intros c2 w2 [H2 K2].
    split; [done | by eapply keeps_trans]. }
  intros c1 en1 w1 [H1 K1]. eapply xwp_bind.
  { apply (xwp_samples_init n en1 w1 (fun s w' => exists b, b ∉ wd_heap base /\ s_blk s = b /\
      samples_inv s /\ ctx_in (add_blk b base) c1 w')); [done |].
    intros b Hb. exists b. rewrite (ctx_heap _ _ _ H1) in Hb. do 2 (split; [done |]).
    split; [by apply samples_fresh_inv | by apply ctx_add_blk]. }
  intros s en2 w2 (b & Hb & Eb & Hs & H2). eapply xwp_bind.
  { apply (xwp_times _ _ _ _ _ (fun '(c', s') w' => ctx_in (add_blk b base) c' w' /\ keeps c0 c' /\
      samples_inv s' /\ s_blk s' = b)); [done |].
    intros [c2 s2] en3 w3 (H3 & K3 & S3 & E3). by apply (xwp_timed op batch (add_blk b base)). }
  intros [c3 s3] en3 w3 (H3 & K3 & S3 & E3). apply wp_bind, wp_os_print_row; [done |].
  destruct (ctx_del_blk _ _ _ _ Hb H3) as [Hin H4].
  apply wp_bind, wp_os; [cbn; by rewrite E3 |]. intros [] w4 ->. rewrite E3. by apply xwp_ret.
Qed.

Lemma no_ctx_in (w : world) : ctx_in w no_ctx w.
Proof. split; [done |]. split; [done |]. by exists w. Qed.

Lemma ctx_without (base w : world) (c : op_ctx) :
  ctx_in base c w -> keeps no_ctx c -> w = base.
Proof.
  intros (_ & _ & mid & Hw & Hr) (_ & Kw & Kr). cbn in Kw, Kr.
  destruct (c_w c); [done |]. destruct (c_r c); [done |]. cbn in Hw, Hr. congruence.
Qed.

Lemma xwp_bench_clock (w : world) (en : Z) : xwp (bench_clock cfg) en w (fun _ w' => w' = w).
Proof.
  unfold bench_clock. cbv zeta. set (n := if _ <? _ then _ else _).
  assert (Hn : 0 <= n).
  { unfold n, CLOCK_BATCH. destruct (Z.ltb_spec 100 (iterations cfg / 100)); lia. }
  assert (Hone : forall test op batch k c en w1, op_ok op -> 0 <= k ->
    ctx_in w c w1 /\ keeps no_ctx c ->
    xwp (measure cfg test op c batch k) en w1 (fun c' w' => ctx_in w c' w' /\ keeps no_ctx c')).
  { intros test op batch k c en1 w1 Hop Hk [H1 K1]. by apply xwp_measure. }
  eapply xwp_bind; [apply Hone; [apply xwp_op_nothing | done | split; [apply no_ctx_in | apply keeps_refl]] |].
  intros c1 en1 w1 H1. eapply xwp_bind; [apply Hone; [by apply xwp_op_call; [| intros ? ? ? ->] | done | done] |].
  intros c2 en2 w2 H2. eapply xwp_bind; [apply Hone; [by apply xwp_op_call; [| intros ? ? ? ->] | done | done] |].
  intros c3 en3 w3 H3. eapply xwp_bind; [apply Hone; [by apply xwp_op_call; [| intros ? ? ? ->] | done | done] |].
  intros c4 en4 w4 H4. eapply xwp_bind; [apply Hone; [apply xwp_op_now | done | done] |].
  intros c5 en5 w5 [H5 K5]. apply xwp_ret. by apply (ctx_without w w5 c5).
Qed.
(** ** The runs in one process *)

(** The options of [open_writer]. *)
Definition bench_options (capacity flags : Z) : psmsgr_state_options := {|
  o_struct_size := sizeof_options; o_capacity := capacity; o_payload_type := 0; o_slot_count := 3;
  o_flags := flags; o_mode := 420; o_dir := Some (bdir cfg) |}.

Lemma bench_options_arg (capacity flags : Z) :
  0 <= capacity < 4294967296 -> 0 <= flags < 4294967296 ->
  opt_arg (Some (bench_options capacity flags)) /\
  o_capacity (snd (load_options (Some (bench_options capacity flags)))) = capacity.
Proof.
  intros Hc Hf.
  assert (Ho : options_ok (bench_options capacity flags)).
  { unfold options_ok, bench_options, sizeof_options.
    cbn [o_struct_size o_capacity o_payload_type o_slot_count o_flags o_mode]. lia. }
  split; [by split |].
  assert (H0 : o_struct_size (bench_options capacity flags) <> 0).
  { cbn [bench_options o_struct_size]. unfold sizeof_options. lia. }
  destruct (load_options_unfold _ H0 Ho Hptr) as (r & _ & Ec & _ & _ & _ & _ & _ & -> & _).
  rewrite Ec. unfold opt_has, bench_options, sizeof_options, OOff.capacity.
  cbn [o_struct_size o_capacity]. by destruct (Z.leb_spec (4 + 4) (24 + sizeof_pointer)); [| lia].
Qed.

(** What a writer owns but its mapping, with what was noted of its header if
    it created the file. *)
Definition opened_base (base : world) (wr : psmsgr_state_writer) (hd : option (gmap Z Z)) : world :=
  writer_base (with_head (p_blk (w_hdr wr)) hd base) wr.

(** An open writer: what it owns over [base], ready to publish [size] bytes. *)
Definition writer_open_in (base : world) (size : Z) (h : option psmsgr_state_writer) (w : world) : Prop :=
  exists wr hd, h = Some wr /\ writer_ok wr /\ size <= w_capacity wr /\ writer_owns base wr /\
                w = writer_world (opened_base base wr hd) wr.

Lemma xwp_open_writer (fuel : nat) (name : string) (capacity flags en : Z) (base : world) :
  0 <= capacity < 4294967296 -> 0 <= flags < 4294967296 ->
  xwp (open_writer strerror main_pid cfg fuel name capacity flags) en base
    (fun h w => writer_open_in base capacity h w).
Proof.
  intros Hc Hf. unfold open_writer. cbv zeta.
  destruct (bench_options_arg capacity flags Hc Hf) as [Ho Ecap].
  change (psmsgr_state_writer_open fuel (Some name) (Some {| o_struct_size := _ |}) false) with
    (psmsgr_state_writer_open fuel (Some name) (Some (bench_options capacity flags)) false).
  apply wp_bind. eapply wp_mono; [by apply wp_os_writer_open_asked |].
  intros [rc h] en' w [Ha Hp]. unfold handle_asked in Ha. cbn [fst snd] in Ha, Hp. destruct (Z.eqb_spec rc PSMSGR_OK) as [->|]; cbn [negb]; [| apply xwp_die].
  apply xwp_ret. destruct h as [wr|].
  - destruct Hp as (_ & Hok & Hown & _ & [hd ->]). destruct Ha as [Ec _]. exists wr, hd.
    split; [done |]. split; [done |]. split; [rewrite Ec, Ecap; lia |]. by split.
  - destruct Hp as [Hrc _]. unfold open_code in Hrc. exfalso. by intuition discriminate.
Qed.

Lemma xwp_open_reader (name : string) (en : Z) (base : world) :
  xwp (open_reader strerror main_pid cfg name) en base (fun h w =>
    exists r, h = Some r /\ r_hdr r = None /\ reader_owns base r /\ w = reader_base base r).
Proof.
  unfold open_reader. apply wp_bind. eapply wp_mono; [by apply wp_os_reader_open |].
  intros [rc [r|]] en' w H.
  - destruct H as (-> & Hn & Ho & -> & _). apply xwp_ret. by exists r.
  - destruct H as [-> ->]. destruct (_ || _); apply xwp_die.
Qed.

Lemma wp_os_close_writer (base w : world) (size en : Z) (wr wr' : psmsgr_state_writer)
    (hd : option (gmap Z Z)) (Q : unit -> Z -> world -> Prop) :
  writer_owns base wr -> same_writer wr wr' -> w = writer_world (opened_base base wr hd) wr ->
  (forall en', Q tt en' base) -> wp (psmsgr_state_writer_close (Some wr')) en w Q.
Proof.
  intros Hown S -> HQ. destruct (same_writer_owns base _ _ S Hown) as [E Hown'].
  unfold opened_base. rewrite (same_writer_world _ _ _ S), E. by apply wp_os_writer_close.
Qed.

(** What is left to close after some measurements. *)
Lemma ctx_writer_only (B w : world) (c0 c : op_ctx) (wr : psmsgr_state_writer) :
  ctx_in B c w -> keeps c0 c -> c_w c0 = Some wr -> c_r c0 = None ->
  exists wr', c_w c = Some wr' /\ same_writer wr wr' /\ w = writer_world B wr.
Proof.
  intros (_ & _ & mid & Hw & Hr) (_ & Kw & Kr) Ew Er. rewrite Ew in Kw. rewrite Er in Kr. cbn in Kw, Kr.
  destruct (c_w c) as [wr'|]; [| done]. destruct (c_r c) as [r|]; [done |]. cbn in Hw, Hr.
  exists wr'. split; [done |]. split; [done |]. destruct Hw as (_ & _ & _ & ->).
  rewrite Hr. symmetry. by apply same_writer_world.
Qed.

Lemma ctx_both (B w : world) (c0 c : op_ctx) (wr : psmsgr_state_writer) (r : psmsgr_state_reader) :
  ctx_in B c w -> keeps c0 c -> c_w c0 = Some wr -> c_r c0 = Some r ->
  exists wr' r', c_w c = Some wr' /\ same_writer wr wr' /\ c_r c = Some r' /\ same_handle r r' /\
    attached_in (writer_world B wr) r' w.
Proof.
  intros (_ & _ & mid & Hw & Hr) (_ & Kw & Kr) Ew Er. rewrite Ew in Kw. rewrite Er in Kr. cbn in Kw, Kr.
  destruct (c_w c) as [wr'|]; [| done]. destruct (c_r c) as [r'|]; [| done]. cbn in Hw, Hr.
  exists wr', r'. do 4 (split; [done |]). destruct Hw as (_ & _ & _ & ->).
  by rewrite (same_writer_world _ _ _ Kw).
Qed.

(** The rows of a list, one after the other. *)
Lemma xwp_row {A : Type} (test : string) (op : op_ctx -> xprog op_ctx) (B w : world) (c0 c : op_ctx)
    (k : op_ctx -> xprog A) (en : Z) (Q : A -> world -> Prop) :
  op_ok op -> ctx_in B c w -> keeps c0 c ->
  (forall c' en' w', ctx_in B c' w' -> keeps c0 c' -> xwp (k c') en' w' Q) ->
  xwp (let! c' := measure cfg test op c (batch cfg) (iterations cfg) in k c') en w Q.
Proof.
  intros Hop H K Hk. eapply xwp_bind; [by apply (xwp_measure _ _ _ _ B w c0) |].
  intros c' en' w' [H' K']. by apply Hk.
Qed.

(** The second half of a size: a writer and a reader of the same channel. *)
Lemma xwp_plain (fuel : nat) (size blk en : Z) (c : op_ctx) (w : world) :
  0 <= size < 4294967296 -> blk ∉ wd_heap w -> c_size c = size -> Z.of_nat (length (c_buf c)) = size ->
  xwp (let name := chan_name "plain" size in
       let! w := open_writer strerror main_pid cfg fuel name size 0 in
       let! r := open_reader strerror main_pid cfg name in
       let c := with_r (with_w c w) r in
       let! c := measure cfg "publish" (op_publish strerror main_pid) c (batch cfg) (iterations cfg) in
       let! c := measure cfg "read" (op_read strerror main_pid) c (batch cfg) (iterations cfg) in
       let! c := measure cfg "peek" (op_peek strerror main_pid) c (batch cfg) (iterations cfg) in
       psmsgr_state_reader_close (c_r c) ;;;
       psmsgr_state_writer_close (c_w c) ;;;
       call (Free blk) ;;;
       xret tt) en (add_blk blk w) (fun _ w' => w' = w).
Proof.
  intros Hs Hblk Es Hb. cbv zeta. set (base := add_blk blk w).
  eapply xwp_bind; [by apply (xwp_open_writer fuel _ size 0 en base) |].
  intros h en1 w1 (wr & hd & -> & Hok & Hcap & Hown & ->).
  set (W := writer_world (opened_base base wr hd) wr). eapply xwp_bind; [by apply (xwp_open_reader _ en1 W) |].
  intros h en2 w2 (r & -> & Hn & Hro & ->).
  set (B := reader_base (opened_base base wr hd) r). set (c0 := with_r (with_w c (Some wr)) (Some r)).
  assert (H0 : ctx_in B c0 (reader_base W r)).
  { split; [cbn; lia |]. split; [cbn; lia |]. exists (writer_world B wr). split.
    - split; [done |]. split; [cbn; lia |]. split; [| done]. destruct Hown as (_ & _ & Hm & _). by destruct hd.
    - cbn [c0 with_r c_r reader_in]. unfold attached_in. by rewrite Hn. }
  apply (xwp_row _ _ B _ c0 c0); [apply xwp_op_publish | done | apply keeps_refl |].
  intros c1 en3 w3 H1 K1. apply (xwp_row _ _ B _ c0 c1); [apply xwp_op_read | done | done |].
  intros c2 en4 w4 H2 K2. apply (xwp_row _ _ B _ c0 c2); [apply xwp_op_peek | done | done |].
  intros c3 en5 w5 H3 K3.
  destruct (ctx_both B w5 c0 c3 wr r H3 K3 eq_refl eq_refl) as (wr' & r' & -> & Sw & -> & Sr & Ha).
  change (writer_world B wr) with (reader_base W r) in Ha.
  destruct (reader_owns_same W r r' Sr Hro) as [Hro' Eb]. rewrite <- Eb in Ha.
  apply wp_bind, (wp_os_reader_close W); [done | done |]. intros en6.
  apply wp_bind, (wp_os_close_writer base W size _ wr wr' hd); [done | done | done |]. intros en7.
  apply wp_bind, wp_os; [cbn; set_solver |]. intros [] w6 ->. apply xwp_ret. by apply del_add_blk.
Qed.
Lemma xwp_uncontended_size (fuel : nat) (size en : Z) (w : world) :
  0 <= size < 4294967296 ->
  xwp (uncontended_size strerror main_pid cfg fuel size tt) en w (fun _ w' => w' = w).
Proof.
  intros Hs. unfold uncontended_size. apply wp_bind, wp_os; [done |].
  intros [blk|] w1 Hw; cbn [world_step] in Hw; [| apply xwp_die]. destruct Hw as [Hblk ->].
  set (base := add_blk blk w). cbv zeta. eapply xwp_bind.
  { apply (xwp_open_writer fuel _ size PSMSGR_STATE_NO_NOTIFY _ base); [done |]. done. }
  intros h en1 w1 (wr & hd & -> & Hok & Hcap & Hown & ->).
  set (B := opened_base base wr hd).
  set (c0 := with_w {| c_w := None; c_r := None; c_blk := Some blk;
                       c_buf := replicate (Z.to_nat size) 0; c_size := size; c_fill := 0 |} (Some wr)).
  assert (H0 : ctx_in B c0 (writer_world B wr)).
  { split; [cbn; lia |]. split; [cbn; rewrite length_replicate; lia |]. exists (writer_world B wr).
    split; [| done]. split; [done |]. split; [cbn; lia |]. split; [| done].
    destruct Hown as (_ & _ & Hm & _). by destruct hd. }
  apply (xwp_row _ _ B _ c0 c0); [apply xwp_op_publish | done | apply keeps_refl |].
  intros c1 en2 w2 H1 K1. apply (xwp_row _ _ B _ c0 c1); [apply xwp_op_fill_publish | done | done |].
  intros c2 en3 w3 H2 K2. apply (xwp_row _ _ B _ c0 c2); [apply xwp_op_begin_fill_commit | done | done |].
  intros c3 en4 w4 H3 K3. apply (xwp_row _ _ B _ c0 c3); [apply xwp_op_begin_commit | done | done |].
  intros c4 en5 w5 H4 K4.
  destruct (ctx_writer_only B w5 c0 c4 wr H4 K4 eq_refl eq_refl) as (wr' & -> & Sw & ->).
  apply wp_bind, (wp_os_close_writer base _ size _ wr wr' hd); [done | done | done |]. intros en6.
  pose proof (proj1 K4) as Es. cbn in Es. destruct H4 as (_ & Hb & _).
  apply (xwp_plain fuel size blk en6 c4 w); [done | done | done | lia].
Qed.

Lemma xwp_bench_uncontended (fuel : nat) (en : Z) (w : world) :
  xwp (bench_uncontended strerror main_pid cfg fuel) en w (fun _ w' => w' = w).
Proof.
  apply xwp_for_each; [done |]. intros size [] en1 w1 -> Hin.
  apply xwp_uncontended_size. unfold sizes in Hin. clear - Hin. set_unfold. intuition lia.
Qed.

(** ** The writer process *)

(** Every step of the child; it never returns. *)
Definition child_in (base : world) (wr : psmsgr_state_writer) (size : Z)
    (h : option psmsgr_state_writer) (buf : list Z) (w : world) : Prop :=
  exists wr', h = Some wr' /\ writer_ok wr' /\ same_writer wr wr' /\
    Z.of_nat (length buf) = size /\ w = writer_world base wr.

Lemma wp_os_child_publish (base : world) (wr : psmsgr_state_writer) (size en : Z)
    (h : option psmsgr_state_writer) (buf : list Z) (w : world) :
  child_in base wr size h buf w ->
  wp (psmsgr_state_publish h (Some buf) size) en w
    (fun '(_, h', _) _ w' => child_in base wr size h' buf w').
Proof.
  intros (wr' & -> & Hok & S & Hb & ->). rewrite <- Hb, (same_writer_world _ _ _ S).
  eapply wp_mono; [by apply wp_os_publish |]. intros [[rc h] gen] en' w' (wr2 & -> & Hok2 & S2 & ->).
  exists wr2. split; [done |]. split; [done |]. split; [by eapply same_writer_trans |].
  split; [done | symmetry; by apply same_writer_world].
Qed.

Lemma wp_os_sleep_until (fuel : nat) (t en : Z) (w : world) (Q : unit -> Z -> world -> Prop) :
  (forall en', Q tt en' w) -> wp (sleep_until fuel t) en w Q.
Proof.
  intros HQ. unfold sleep_until. apply (wp_loop (fun _ _ w' => w' = w)); [done | | done].
  intros [] en1 w1 ->. apply wp_bind, wp_os; [done |]. intros e w2 ->. apply wp_ret.
  by destruct (e =? EINTR).
Qed.

Lemma wp_os_write_count (fd count en : Z) (w : world) (Q : bool -> Z -> world -> Prop) :
  fd ∈ wd_fds w -> (forall b en', Q b en' w) -> wp (write_count fd count) en w Q.
Proof.
  intros Hf HQ. unfold write_count. apply wp_bind, wp_os; [done |]. intros x w' ->. by apply wp_ret.
Qed.

Lemma wp_os_child_body (base : world) (wr : psmsgr_state_writer) (fuel : nat)
    (size period till next count en : Z) (stamp : bool) (h : option psmsgr_state_writer)
    (buf : list Z) (w : world) :
  8 <= size -> child_in base wr size h buf w ->
  wp (child_body fuel size period till stamp (h, buf, next, count)) en w (fun x _ w' =>
    match x with
    | inl (h', buf', _, _) => child_in base wr size h' buf' w'
    | inr (inl (h', _)) => exists buf', child_in base wr size h' buf' w'
    | inr (inr e) => ended e
    end).
Proof.
  intros H8 H. unfold child_body. destruct (till <=? next); [apply wp_ret; by exists buf |].
  apply wp_bind, wp_os_sleep_until. intros en1.
  assert (Hk : forall buf' en', child_in base wr size h buf' w ->
    wp (let* (rc, w, _) := psmsgr_state_publish h (Some buf') size in
        if negb (rc =? PSMSGR_OK) then ret (inr (inr (UExit 1)))
        else ret (inl (w, buf', u64 (next + period), u64 (count + 1)))) en' w
      (fun (x : (option psmsgr_state_writer * list Z * Z * Z) + (option psmsgr_state_writer * Z + ending)) _ w' =>
       match x with
       | inl (h', buf', _, _) => child_in base wr size h' buf' w'
       | inr (inl (h', _)) => exists buf', child_in base wr size h' buf' w'
       | inr (inr e) => ended e
       end)).
  { intros buf' en' Hb. apply wp_bind. eapply wp_mono; [by apply (wp_os_child_publish base wr) |].
    intros [[rc h'] gen] en2 w2 H2. destruct (negb _); apply wp_ret; [by right | done]. }
  apply wp_bind. destruct stamp.
  - apply wp_bind, wp_os_clock. intros t _. apply wp_ret. apply Hk.
    destruct H as (wr' & -> & Hok & S & Hb & ->). exists wr'. do 3 (split; [done |]).
    split; [| done]. unfold overwrite. rewrite length_app, length_drop, length_le_bytes. lia.
  - by apply wp_ret, Hk.
Qed.
(** A block allocated with the writer open. *)
Lemma opened_base_blk (W : world) (wr : psmsgr_state_writer) (b : Z) (hd : option (gmap Z Z)) :
  writer_owns W wr -> b ∉ wd_heap (writer_world (opened_base W wr hd) wr) ->
  writer_owns (add_blk b W) wr /\ add_blk b (opened_base W wr hd) = opened_base (add_blk b W) wr hd.
Proof.
  intros (Hb & Hl & Hm) Hn. assert (b ∉ {[w_block wr]} ∪ wd_heap W) by (by destruct hd). split.
  - split; [| split; [exact Hl | exact Hm]]. cbn. clear - Hb H. set_solver.
  - destruct hd; (apply world_eq; cbn; [done | done | clear; set_solver | done ..]).
Qed.

(** The child's loop and what follows it. *)
Lemma xwp_child_run {A : Type} (fuel : nat) (W : world) (wr : psmsgr_state_writer)
    (wfd size till next en : Z) (stamp : bool) (h : option psmsgr_state_writer) (buf : list Z)
    (w : world) (hd : option (gmap Z Z)) (Q : A -> world -> Prop) :
  8 <= size -> wfd ∈ wd_fds W -> writer_owns W wr -> child_in (opened_base W wr hd) wr size h buf w ->
  xwp (let! (w, count) := loop fuel (child_body fuel size (1000000000 / rate cfg) till stamp) (h, buf, next, 0) in
       psmsgr_state_writer_close w ;;;
       let* ok := write_count wfd count in
       stop (UExit (if ok then 0 else 1))) en w Q.
Proof.
  intros H8 Hf Hown H. apply wp_bind.
  apply (wp_loop (fun '(h, buf, _, _) _ w => child_in (opened_base W wr hd) wr size h buf w)); [done | | done].
  clear en h buf next w H. intros [[[h buf] next] count] en w H.
  eapply wp_mono; [by apply (wp_os_child_body (opened_base W wr hd) wr) |].
  intros [[[[h1 b1] n1] c1] | [[h1 c1] | e]] en1 w1 H1; [exact H1 | | by apply wp_ret].
  destruct H1 as (b1 & wr1 & -> & _ & S & _ & ->).
  apply wp_bind, (wp_os_close_writer W _ size _ wr wr1 hd); [done | done | done |]. intros en2.
  apply wp_bind, wp_os_write_count; [done |]. intros [|] en3; stops.
Qed.

Lemma xwp_child_main (fuel : nat) (rfd wfd size flags en : Z) (name : string) (stamp : bool)
    (w : world) (Q : writer_proc -> world -> Prop) :
  8 <= size < 4294967296 -> 0 <= flags < 4294967296 ->
  rfd ∈ wd_fds w -> wfd ∈ wd_fds w -> rfd <> wfd ->
  xwp (child_main strerror main_pid cfg fuel rfd wfd name size flags stamp) en w Q.
Proof.
  intros Hs Hfl Hr Hw Hne. unfold child_main. apply wp_bind, wp_os; [done |]. intros y w1 ->.
  set (W := del_fd rfd w). assert (HfW : wfd ∈ wd_fds W) by (cbn; clear - Hw Hne; set_solver).
  eapply xwp_bind; [apply (xwp_open_writer fuel name size flags _ W); lia |].
  intros h en1 w1 (wr & hd & -> & Hok & Hcap & Hown & ->). apply wp_bind, wp_os; [done |].
  intros [b|] w1 Hb; cbn [world_step] in Hb; [| stops]. destruct Hb as [Hb ->]. cbv zeta.
  destruct (opened_base_blk W wr b hd Hown Hb) as [Hown2 Ebase]. apply wp_bind.
  eapply wp_mono.
  { apply (wp_os_child_publish (opened_base (add_blk b W) wr hd) wr size). exists wr.
    split; [done |]. split; [done |]. split; [apply same_writer_refl |].
    split; [rewrite length_replicate; lia | by rewrite <- Ebase]. }
  intros [[rc h] gen] en2 w2 H2. cbv beta iota.
  assert (Hf2 : wfd ∈ wd_fds w2).
  { destruct H2 as (_ & _ & _ & _ & _ & ->). destruct hd; cbn; clear - HfW; cbn in HfW; set_solver. }
  apply wp_bind. destruct (negb (rc =? PSMSGR_OK)).
  - apply wp_ret. stops.
  - apply wp_os_write_count; [done |]. intros [|] en3; [| stops]. cbn [negb].
    apply wp_bind, wp_os_now. intros start.
    apply (xwp_child_run fuel (add_blk b W) wr wfd size _ _ _ _ _ _ _ hd); [lia | done | done | done].
Qed.

Lemma xwp_writer_child (fuel : nat) (parent rfd wfd size flags en : Z) (name : string) (stamp : bool)
    (w : world) (Q : writer_proc -> world -> Prop) :
  8 <= size < 4294967296 -> 0 <= flags < 4294967296 ->
  rfd ∈ wd_fds w -> wfd ∈ wd_fds w -> rfd <> wfd ->
  xwp (writer_child strerror main_pid cfg fuel parent rfd wfd name size flags stamp) en w Q.
Proof.
  intros Hs Hfl Hr Hw Hne. unfold writer_child. apply wp_bind, wp_os; [done |]. intros x w1 ->.
  apply wp_bind. destruct x as [[]|e]; [| apply wp_ret; stops].
  apply wp_bind, wp_os; [done |]. intros pp w1 ->. apply wp_ret.
  destruct (negb _); [stops | by apply xwp_child_main].
Qed.

(** ** The parent *)

Lemma wp_os_read_count (fd en : Z) (w : world) (Q : option Z + Z -> Z -> world -> Prop) :
  fd ∈ wd_fds w -> (forall x en', Q x en' w) -> wp (read_count fd) en w Q.
Proof.
  intros Hf HQ. unfold read_count. apply wp_bind, wp_os; [done |]. intros x w' [_ ->]. by apply wp_ret.
Qed.

(** The parent goes on with the read end of the pipe. *)
Lemma xwp_writer_start (fuel : nat) (size flags en : Z) (name : string) (stamp : bool) (w : world) :
  8 <= size < 4294967296 -> 0 <= flags < 4294967296 ->
  xwp (writer_start strerror main_pid cfg fuel name size flags stamp) en w
    (fun p w' => wp_fd p ∉ wd_fds w /\ w' = add_fd (wp_fd p) w).
Proof.
  intros Hs Hfl. unfold writer_start. apply wp_bind, wp_os; [done |].
  intros [[rfd wfd]|e] w1 Hw; cbn [world_step] in Hw; [| apply xwp_die].
  destruct Hw as (_ & _ & Hne & Hr & Hw & ->).
  apply wp_bind, wp_os; [done |]. intros parent w1 ->. apply wp_bind, wp_os; [done |].
  intros [pid|e] w1 ->; [| apply xwp_die]. destruct (pid =? 0).
  { apply xwp_writer_child; cbn; first [lia | done | set_solver]. }
  apply wp_bind, wp_os; [cbn; set_solver |]. intros y w1 ->.
  assert (E : del_fd wfd (add_fd rfd (add_fd wfd w)) = add_fd rfd w).
  { rewrite del_add_fd_ne by done. by rewrite del_add_fd. }
  rewrite E. apply wp_bind, wp_os_read_count; [cbn; set_solver |].
  intros [[c|]|e] en2; [by apply xwp_ret | |];
    (apply wp_bind, wp_os; [done |]; intros [] w1 ->; stops).
Qed.

(** At the end the pipe is closed. *)
Lemma xwp_writer_finish (fuel : nat) (p : writer_proc) (en : Z) (w : world) :
  wp_fd p ∈ wd_fds w ->
  xwp (writer_finish fuel p) en w (fun _ w' => w' = del_fd (wp_fd p) w).
Proof.
  intros Hf. unfold writer_finish. apply wp_bind.
  apply (wp_loop (fun _ _ w' => w' = w)); [done | | done].
  intros [] en1 w1 ->. apply wp_bind, wp_os_read_count; [done |]. intros x en2.
  assert (Hk : forall got : option Z, wp (let* _ := call (SysClose (wp_fd p)) in
    let* status := loop fuel (fun _ =>
      let* x := call (SysWaitpid (wp_pid p)) in
      ret (match x with
           | inr e => if e =? EINTR then inl tt else inr (Some 0)
           | inl st => inr st
           end)) tt in
    match got, status with
    | Some count, Some 0 => xret count
    | _, _ =>
        call (Print true ("psmsgr-bench: writer process failed" ++ char_str NL)%string) ;;;
        stop (Exit 1)
    end) en2 w (fun x _ w' => xpost (fun _ w' => w' = del_fd (wp_fd p) w) x w')).
  { intros got. apply wp_bind, wp_os; [done |]. intros y w1 ->. apply wp_bind.
    apply (wp_loop (fun _ _ w' => w' = del_fd (wp_fd p) w)); [done | | done].
    intros [] en3 w1 ->. apply wp_bind, wp_os; [done |]. intros z w1 ->. apply wp_ret.
    assert (Hend : forall st, wp (match got, st with
      | Some count, Some 0 => xret count
      | _, _ => call (Print true ("psmsgr-bench: writer process failed" ++ char_str NL)%string) ;;; stop (Exit 1)
      end) (resp_errno (SysWaitpid (wp_pid p)) z en3) (del_fd (wp_fd p) w)
      (fun x _ w' => xpost (fun _ w' => w' = del_fd (wp_fd p) w) x w')).
    { intros st.
      assert (Hfail : forall en', wp (call (Print true ("psmsgr-bench: writer process failed" ++ char_str NL)%string) ;;; stop (Exit 1))
        en' (del_fd (wp_fd p) w) (fun (x : Z + ending) _ w' => xpost (fun _ w' => w' = del_fd (wp_fd p) w) x w')).
      { intros en'. apply wp_bind, wp_os; [done |]. intros [] w1 ->. apply wp_ret. by right. }
      destruct got as [c|]; [| exact (Hfail _)]. destruct st as [[| |]|]; [by apply wp_ret | exact (Hfail _) ..]. }
    destruct z as [st|e]; [exact (Hend st) |]. destruct (e =? EINTR); [done | exact (Hend (Some 0))]. }
  apply wp_ret. destruct x as [c|e]; [exact (Hk c) |]. destruct (e =? EINTR); [done | exact (Hk None)].
Qed.
(** The reader's side of a run, while the pipe is open and the samples are
    kept. *)
Definition run_base (base : world) (r : psmsgr_state_reader) (rfd blk : Z) : world :=
  add_blk blk (reader_base (add_fd rfd base) r).

Lemma attached_fds (base w : world) (r : psmsgr_state_reader) :
  attached_in base r w -> wd_fds w = wd_fds base.
Proof. unfold attached_in. destruct (r_hdr r); [| by intros ->]. by intros (_ & _ & -> & _). Qed.

Lemma attached_del_fd (base w : world) (r : psmsgr_state_reader) (fd : Z) :
  attached_in base r w -> attached_in (del_fd fd base) r (del_fd fd w).
Proof.
  unfold attached_in. destruct (r_hdr r) as [p|]; [| by intros ->].
  intros (H1 & H2 & -> & H3). do 2 (split; [done |]). by split.
Qed.

(** The end of a run: the writer reaped, the row printed, everything freed. *)
Lemma xwp_run_end {A : Type} (fuel : nat) (base w : world) (p : writer_proc) (s : samples)
    (r r' : psmsgr_state_reader) (test : string) (size per busy missed en : Z) (k : xprog A)
    (Q : A -> world -> Prop) :
  wp_fd p ∉ wd_fds base -> s_blk s ∉ wd_heap (reader_base base r) -> reader_owns base r ->
  samples_inv s -> reader_post (run_base base r (wp_fd p) (s_blk s)) r r' w ->
  (forall en', xwp k en' base Q) ->
  xwp (let! _ := writer_finish fuel p in
       print_row cfg test size s per busy missed ;;;
       call (Free (s_blk s)) ;;;
       psmsgr_state_reader_close (Some r') ;;;
       k) en w Q.
Proof.
  intros Hfd Hblk Hown Hs [Sr Ha] Hk. eapply xwp_bind.
  { apply xwp_writer_finish. rewrite (attached_fds _ _ _ Ha). cbn. clear. set_solver. }
  intros count en1 w1 ->. apply (attached_del_fd _ _ _ (wp_fd p)) in Ha.
  assert (E : del_fd (wp_fd p) (run_base base r (wp_fd p) (s_blk s)) = add_blk (s_blk s) (reader_base base r)).
  { apply world_eq; cbn; [clear - Hfd; set_solver | done ..]. }
  rewrite E in Ha. apply wp_bind, wp_os_print_row; [done |].
  destruct (attached_del_blk _ _ _ _ Hblk Ha) as [Hin Ha2].
  apply wp_bind, wp_os; [done |]. intros [] w2 ->.
  destruct (reader_owns_same base r r' Sr Hown) as [Hown' Eb]. rewrite <- Eb in Ha2.
  apply wp_bind, (wp_os_reader_close base); [done | done |]. intros en2. apply Hk.
Qed.

(** A pass that ends the program. *)
Lemma wp_die_step {X R : Type} (what : string) (rc en : Z) (w : world) (P : X + (R + ending) -> world -> Prop) :
  (forall e w', ended e -> P (inr (inr e)) w') ->
  wp (let* e := die what rc in ret (inr e)) en w (fun x _ w' => P x w').
Proof.
  intros HP. apply wp_bind. eapply wp_mono; [apply (xwp_die what rc en w (fun _ _ => False)) |].
  intros [a|e] en' w' H; [done |]. by apply wp_ret, HP.
Qed.

(** What a pass of a run keeps. *)
Definition run_in (B : world) (r : psmsgr_state_reader) (blk size : Z)
    (h : option psmsgr_state_reader) (buf : list Z) (s : samples) (w : world) : Prop :=
  exists r', h = Some r' /\ reader_post B r r' w /\ Z.of_nat (length buf) = size /\
    samples_inv s /\ s_blk s = blk.

Lemma run_add (B w : world) (r : psmsgr_state_reader) (blk size x : Z)
    (h : option psmsgr_state_reader) (buf : list Z) (s : samples) :
  run_in B r blk size h buf s w -> run_in B r blk size h buf (samples_add s x) w.
Proof.
  intros (r' & H1 & H2 & H3 & H4 & H5). destruct (samples_inv_add s x H4) as [H6 H7].
  exists r'. rewrite H7. done.
Qed.

(** A read in a run. *)
Lemma wp_os_run_read (B w : world) (r : psmsgr_state_reader) (blk size en : Z)
    (h : option psmsgr_state_reader) (buf : list Z) (s : samples) :
  run_in B r blk size h buf s w ->
  wp (psmsgr_state_read h (Some buf) size false) en w (fun '(h, (rc, b, info)) _ w' =>
    run_in B r blk size h b s w' /\ (rc = PSMSGR_OK -> is_Some info)).
Proof.
  intros (r1 & -> & [Sr Ha] & Hl & Hs & Hb).
  eapply wp_mono; [apply (wp_os_state_read B); [exact Ha | lia] |].
  intros [h [[rc b] info]] en' w' (r2 & -> & Hp & Hx). split.
  - exists r2. split; [done |]. split; [by eapply reader_post_trans |].
    pose proof (api_buf _ _ _ _ _ _ _ Hx) as El. change (default [] (Some buf)) with buf in El.
    split; [lia | done].
  - intros E. destruct (api_info _ _ _ _ _ _ _ Hx E) as (i & -> & _). done.
Qed.

Lemma wp_os_contended_body (B w : world) (r : psmsgr_state_reader) (blk size till en busy t0 : Z)
    (h : option psmsgr_state_reader) (buf : list Z) (s : samples) :
  run_in B r blk size h buf s w ->
  wp (contended_body strerror main_pid size till (h, buf, s, busy, t0)) en w (fun x _ w' =>
    match x with
    | inl (h', buf', s', _, _) => run_in B r blk size h' buf' s' w'
    | inr (inl (h', s', _)) => exists buf', run_in B r blk size h' buf' s' w'
    | inr (inr e) => ended e
    end).
Proof.
  intros H. unfold contended_body. destruct (till <=? t0); [apply wp_ret; by exists buf |].
  apply wp_bind. eapply wp_mono; [by apply (wp_os_run_read B) |].
  intros [h1 [[rc b] info]] en1 w1 [H1 _]. apply wp_bind, wp_os_now. intros t1.
  destruct (rc =? PSMSGR_OK); [apply wp_ret; by apply run_add |].
  destruct (rc =? PSMSGR_E_BUSY); [by apply wp_ret |].
  apply (wp_die_step "read" rc en1 w1 (fun x w' => match x with
    | inl (h', buf', s', _, _) => run_in B r blk size h' buf' s' w'
    | inr (inl (h', s', _)) => exists buf', run_in B r blk size h' buf' s' w'
    | inr (inr e) => ended e
    end)). by intros e w'.
Qed.
(** A reader and its samples, ready to run. *)
Lemma xwp_run_begin {A : Type} (name : string) (p : writer_proc) (base : world) (en : Z)
    (k : option psmsgr_state_reader -> samples -> xprog A) (Q : A -> world -> Prop) :
  (forall r s en' w, reader_owns base r -> s_blk s ∉ wd_heap (reader_base base r) ->
     samples_inv s -> attached_in (run_base base r (wp_fd p) (s_blk s)) r w ->
     xwp (k (Some r) s) en' w Q) ->
  xwp (let! r := open_reader strerror main_pid cfg name in
       let! s := samples_init (iterations cfg) in
       k r s) en (add_fd (wp_fd p) base) Q.
Proof.
  intros Hk. eapply xwp_bind; [apply xwp_open_reader |].
  intros h en1 w1 (r & -> & Hn & Hown & ->). eapply xwp_bind.
  { apply (xwp_samples_init _ en1 _ (fun s w' => s_blk s ∉ wd_heap (reader_base base r) /\
      samples_inv s /\ w' = run_base base r (wp_fd p) (s_blk s))); [done |].
    intros b Hb. split; [exact Hb |]. by split; [apply samples_fresh_inv |]. }
  intros s en2 w2 (Hb & Hs & ->). apply Hk; [exact Hown | done | done |].
  unfold attached_in. by rewrite Hn.
Qed.

Lemma xwp_contended_size (fuel : nat) (size en : Z) (w : world) :
  8 <= size < 4294967296 ->
  xwp (contended_size strerror junk main_pid cfg fuel size tt) en w (fun _ w' => w' = w).
Proof.
  intros Hs. unfold contended_size. cbv zeta. apply wp_bind, wp_os; [done |].
  intros [blk|] w1 Hw; cbn [world_step] in Hw; [| apply xwp_die]. destruct Hw as [Hblk ->].
  set (base := add_blk blk w). eapply xwp_bind.
  { by apply (xwp_writer_start fuel size 0 _ _ false base). }
  intros p en1 w1 [Hfd ->]. apply xwp_run_begin. intros r s en2 w2 Hown Hsb Hsi Ha.
  apply wp_bind, wp_os_now. intros start. apply wp_bind, wp_os_now. intros t0. apply wp_bind.
  apply (wp_loop (fun '(h, buf, s', _, _) _ w' =>
    run_in (run_base base r (wp_fd p) (s_blk s)) r (s_blk s) size h buf s' w')); [done | |].
  - clear Ha w2 en2 t0. intros [[[[h buf] s'] busy] t0] en2 w2 H2.
    eapply wp_mono; [by apply (wp_os_contended_body (run_base base r (wp_fd p) (s_blk s)) w2 r (s_blk s)) |].
    intros [[[[[h1 b1] s1] y1] t1] | [[[h1 s1] y1] | e]] en3 w3 H3; [exact H3 | | by apply wp_ret].
    destruct H3 as (b1 & r1 & -> & Hp & _ & Hs1 & Eb). rewrite <- Eb in Hp, Hsb.
    apply (xwp_run_end fuel base w3 p s1 r r1); [done | done | done | done | done |].
    intros en4. apply wp_bind, wp_os; [cbn; set_solver |]. intros [] w4 ->. apply xwp_ret.
    by apply del_add_blk.
  - exists r. split; [done |]. split; [by split |]. split; [apply Hjunk; lia | by split].
Qed.

Lemma xwp_bench_contended (fuel : nat) (en : Z) (w : world) :
  xwp (bench_contended strerror junk main_pid cfg fuel) en w (fun _ w' => w' = w).
Proof.
  apply xwp_for_each; [done |]. intros size [] en1 w1 -> Hin.
  apply xwp_contended_size. unfold sizes in Hin. clear - Hin. set_unfold. intuition lia.
Qed.

(** ** Wake-up *)

Definition wake_post (B : world) (r : psmsgr_state_reader) (blk : Z)
    (x : wake_state + (option psmsgr_state_reader * samples * Z + ending)) (w : world) : Prop :=
  match x with
  | inl (h, buf, s, _, _) => run_in B r blk 16 h buf s w
  | inr (inl (h, s, _)) => exists buf, run_in B r blk 16 h buf s w
  | inr (inr e) => ended e
  end.

Lemma wp_os_wake_read (B w : world) (r : psmsgr_state_reader) (blk missed seen en : Z)
    (h : option psmsgr_state_reader) (buf : list Z) (s : samples) :
  run_in B r blk 16 h buf s w ->
  wp (wake_read strerror main_pid h buf s missed seen) en w (fun x _ w' => wake_post B r blk x w').
Proof.
  intros H. unfold wake_read. apply wp_bind. eapply wp_mono; [by apply (wp_os_run_read B) |].
  intros [h1 [[rc b] info]] en1 w1 [H1 Hi]. apply wp_bind, wp_os_clock. intros t _.
  destruct (rc =? PSMSGR_E_BUSY); [by apply wp_ret |].
  destruct (Z.eqb_spec rc PSMSGR_OK) as [E|E]; cbn [negb]; [| by apply wp_die_step].
  destruct (Hi E) as [i ->]. apply wp_ret. by apply run_add.
Qed.

Lemma wp_os_wake_body (B w : world) (r : psmsgr_state_reader) (fuel : nat) (notify : bool)
    (till blk missed seen en : Z) (h : option psmsgr_state_reader) (buf : list Z) (s : samples) :
  run_in B r blk 16 h buf s w ->
  wp (wake_body strerror main_pid cfg fuel notify till (h, buf, s, missed, seen)) en w
    (fun x _ w' => wake_post B r blk x w').
Proof.
  intros H. unfold wake_body. apply wp_bind, wp_os_now. intros now.
  destruct (till <=? now); [apply wp_ret; by exists buf |].
  destruct H as (r1 & -> & [Sr Ha] & Hrest). destruct notify; apply wp_bind.
  - eapply wp_mono; [by apply (wp_os_state_wait B) |]. intros [rc h] en1 w1 (r2 & -> & _ & Hp).
    assert (H2 : run_in B r blk 16 (Some r2) buf s w1).
    { exists r2. split; [done |]. split; [by eapply reader_post_trans | done]. }
    destruct (rc =? PSMSGR_E_TIMEOUT); [by apply wp_ret |].
    destruct (negb _); [by apply wp_die_step | by apply wp_os_wake_read].
  - eapply wp_mono; [by apply (wp_os_state_peek B) |]. intros [h [rc info]] en1 w1 (r2 & -> & Hp & _).
    assert (H2 : run_in B r blk 16 (Some r2) buf s w1).
    { exists r2. split; [done |]. split; [by eapply reader_post_trans | done]. }
    destruct (negb _ && negb _); [by apply wp_die_step |].
    destruct (negb _ || _); [| by apply wp_os_wake_read].
    apply wp_bind, (wp_os_same (SysNanosleep _ _)); [done | by intros ? ? -> |]. intros e. by apply wp_ret.
Qed.
Lemma xwp_bench_wake (fuel : nat) (notify : bool) (en : Z) (w : world) :
  xwp (bench_wake strerror junk main_pid cfg fuel notify) en w (fun _ w' => w' = w).
Proof.
  unfold bench_wake. cbv zeta. eapply xwp_bind.
  { apply (xwp_writer_start fuel 16 _ _ _ true w); [lia | destruct notify; vm_compute; intuition congruence]. }
  intros p en1 w1 [Hfd ->]. apply xwp_run_begin. intros r s en2 w2 Hown Hsb Hsi Ha.
  set (B := run_base w r (wp_fd p) (s_blk s)) in *. apply wp_bind.
  assert (H0 : run_in B r (s_blk s) 16 (Some r) (junk 16) s w2).
  { exists r. split; [done |]. split; [by split |]. split; [by apply Hjunk | by split]. }
  eapply wp_mono; [by apply (wp_os_run_read B) |]. intros [h [[rc b] info]] en3 w3 [H1 Hi].
  destruct (Z.eqb_spec rc PSMSGR_OK) as [E|]; cbn [negb]; [| apply xwp_die].
  destruct (Hi E) as [i ->]. apply wp_bind, wp_ret.
  apply wp_bind, wp_os_now. intros start. apply wp_bind.
  apply (wp_loop (fun '(h, buf, s', _, _) _ w' => run_in B r (s_blk s) 16 h buf s' w')); [done | | done].
  clear Ha w2 H0 H1 Hi b h en3 w3. intros [[[[h buf] s'] missed] seen] en3 w3 H3.
  eapply wp_mono; [by apply (wp_os_wake_body B) |].
  intros [[[[[h1 b1] s1] y1] t1] | [[[h1 s1] y1] | e]] en4 w4 H4; [exact H4 | | by apply wp_ret].
  destruct H4 as (b1 & r1 & -> & Hp & _ & Hs1 & Eb). unfold B in Hp. rewrite <- Eb in Hp, Hsb.
  apply (xwp_run_end fuel w w4 p s1 r r1); [done | done | done | done | done |].
  intros en5. by apply xwp_ret.
Qed.

(** ** The program *)

Lemma wp_os_cleanup (fuel : nat) (en : Z) (w : world) (Q : unit -> Z -> world -> Prop) :
  (forall en', Q tt en' w) -> wp (cleanup cfg fuel) en w Q.
Proof.
  intros HQ. unfold cleanup. apply wp_bind.
  assert (Hu : forall l en' (Q' : unit -> Z -> world -> Prop), (forall en', Q' tt en' w) ->
    wp (unlink_all cfg fuel l) en' w Q').
  { induction l as [|name l IH]; intros en' Q' HQ'; cbn [unlink_all]; [by apply wp_ret |].
    apply wp_bind. eapply wp_mono; [by apply wp_os_unlink |]. intros rc en2 w2 [-> _]. by apply IH. }
  apply Hu. intros en2. apply wp_bind, wp_os; [done |]. intros x w' ->. by apply wp_ret.
Qed.

Lemma xwp_then {B : Type} (m : xprog unit) (k : xprog B) (en : Z) (w : world)
    (P : unit -> world -> Prop) (Q : B -> world -> Prop) :
  xwp m en w P -> (forall en' w', xwp k en' w' Q) -> xwp (let! _ := m in k) en w Q.
Proof. intros Hm Hk. eapply xwp_bind; [exact Hm |]. intros [] en' w' _. apply Hk. Qed.

(** ** Properties *)

Lemma wp_os_bench_run (fuel : nat) (en : Z) (w : world) :
  wp (bench_run strerror junk main_pid cfg fuel) en w (fun status _ _ => status = 0 \/ status = 1).
Proof.
  unfold bench_run. apply wp_bind.
  assert (Hend : forall x en' w', match x with inl _ => True | inr e => ended e end ->
    wp (match x with
        | inr (UExit status) => ret status
        | inr (Exit status) => cleanup cfg fuel ;;; ret status
        | inl tt => cleanup cfg fuel ;;; ret 0
        end) en' w' (fun status _ _ => status = 0 \/ status = 1)).
  { intros [[]|[st|st]] en' w' H; [| | by apply wp_ret];
      apply wp_bind, wp_os_cleanup; intros en2; apply wp_ret; [by left | done]. }
  eapply wp_mono; [| intros x en' w' H; exact (Hend x en' w' H)]. apply wp_bind.
  assert (Hh : wp (print_table_header cfg) en w (fun _ _ w' => w' = w)).
  { unfold print_table_header. destruct (csv cfg); apply wp_os; try done; by intros [] w' ->. }
  eapply wp_mono; [exact Hh |]. intros [] en1 w1 ->.
  apply (xwp_then _ _ _ _ _ _ (xwp_bench_clock _ _)). intros en2 w2.
  apply (xwp_then _ _ _ _ _ _ (xwp_bench_uncontended _ _ _)). intros en3 w3.
  apply (xwp_then _ _ _ _ _ _ (xwp_bench_contended _ _ _)). intros en4 w4.
  apply (xwp_then _ _ _ _ _ _ (xwp_bench_wake _ _ _ _)). intros en5 w5.
  apply (xwp_then _ _ _ _ _ _ (xwp_bench_wake _ _ _ _)). intros en6 w6.
  apply (xwp_stop (A := unit) (Exit 0) en6 w6 (fun _ _ => True)). by left.
Qed.

(** The benchmark is safe on any system.  From its table header to its
    exit - the rows of one process, the runs against a writer process in the
    parent and in the child, the clean-up; with every system call free to fail,
    the other process free to do anything to the file, and a fork that may come
    back as either side - it accesses live mappings only, uses open descriptors
    and live blocks only, takes no figure from outside its array of samples and
    no description that was not filled in, and exits with 0 or 1.  A run that
    comes to its end has closed the pipe, reaped the child, and released every
    descriptor, mapping and block. *)
Theorem bench_run_safe (fuel : nat) (en : Z) (w : world) :
  wp (bench_run strerror junk main_pid cfg fuel) en w (fun status _ _ => status = 0 \/ status = 1) /\
  xwp (bench_uncontended strerror main_pid cfg fuel) en w (fun _ w' => w' = w) /\
  xwp (bench_contended strerror junk main_pid cfg fuel) en w (fun _ w' => w' = w) /\
  (forall notify, xwp (bench_wake strerror junk main_pid cfg fuel notify) en w (fun _ w' => w' = w)).
Proof.
  split; [apply wp_os_bench_run |]. split; [apply xwp_bench_uncontended |].
  split; [apply xwp_bench_contended | intros notify; apply xwp_bench_wake].
Qed.
End bench.

(** ** Witness *)

Definition example_config : config := {|
  iterations := 1000; warmup := 10; batch := 1; seconds := seconds default_cfg; rate := 500;
  poll_us := 100; base := None; csv := false; bdir := "/dev/shm/psmsgr-bench-a1b2c3" |}.

Lemma bench_run_safe_witness :
  wp (bench_run (C := config64) (fun _ => "error") (fun n => replicate (Z.to_nat n) 255) 77
        example_config 100) 0 empty_world
    (fun status _ _ => status = 0 \/ status = 1).
Proof.
  apply (bench_run_safe (C := config64) (fun _ => "error") (fun n => replicate (Z.to_nat n) 255) 77
    example_config).
  - cbn. lia.
  - intros n Hn. rewrite length_replicate. lia.
  - by apply cstring_lit.
  - cbn. lia.
Defined.
