(* ===== verification/BenchMain.v ===== *)
(** * The machine and the command line of psmsgr-bench
    (src/bench/psmsgr-bench.c)

    What the benchmark prints about the machine it runs on - lines of files
    under /proc and /sys put together in fixed buffers - and [main] with its
    options. *)
From S2P Require Import Prelude Prog Common Layout Names Options Writer Reader Channel Text Bench.
From Stdlib Require Import Ascii.
From Stdlib.Floats Require Import SpecFloat.
#[local] Open Scope string_scope.
#[local] Open Scope list_scope.
#[local] Open Scope Z_scope.

Definition usage_text : string :=
"usage: psmsgr-bench [options]

Measures publish, read and peek latency for 16 B, 256 B, 4 KiB and 64 KiB
payloads, uncontended and against a writer in another process, publish
against the zero-copy begin/commit with the producer's fill, the wake-up
latency of wait (and of polling on a NO_NOTIFY channel), and the cost of
clock_gettime. All figures are ns per operation.

  --iterations N  timed samples per uncontended row, and the samples kept
                  for percentiles in the other rows (default 100000)
  --warmup N      untimed iterations before each row (default 1000)
  --batch N       operations per timed sample, uncontended rows (default 1)
  --seconds S     duration of each contended and wake-up run (default 5)
  --rate HZ       writer publish rate in those runs (default 500)
  --poll-us US    NO_NOTIFY wake-up: reader poll interval (default 100)
  --dir D         base directory, on tmpfs (default $PSMSGR_DIR, else /dev/shm)
  --csv           CSV instead of a table
  -h, --help
".

(** ** C strings *)

(** The C string in a buffer that holds [l] and a NUL. *)
Fixpoint c_string (l : list ascii) : list ascii :=
  match l with
  | c :: l => if (c =? NUL)%char then [] else c :: c_string l
  | [] => []
  end.

(** [snprintf(out, n, ..)] of a text: what [out] holds.  The call returns the
    length of the text. *)
Definition snprintf (n : Z) (l : list ascii) : list ascii := take (Z.to_nat (n - 1)) l.

(** [strncmp(l, prefix, strlen(prefix)) == 0]: what comes after. *)
Fixpoint after_prefix (prefix l : list ascii) : option (list ascii) :=
  match prefix, l with
  | [], _ => Some l
  | p :: prefix, c :: l => if (p =? c)%char then after_prefix prefix l else None
  | _ :: _, [] => None
  end.

(** [strchr(l, ':') + 1]. *)
Fixpoint after_colon (l : list ascii) : option (list ascii) :=
  match l with
  | c :: l => if (c =? ":")%char then Some l else after_colon l
  | [] => None
  end.

Definition TAB : ascii := ascii_of_nat 9.

(** [l + strspn(l, " \t")]. *)
Fixpoint skip_blanks (l : list ascii) : list ascii :=
  match l with
  | c :: l' => if ((c =? " ") || (c =? TAB))%char then skip_blanks l' else l
  | [] => []
  end.

(** The first [strcspn(l, "\n")] characters. *)
Fixpoint before_nl (l : list ascii) : list ascii :=
  match l with
  | c :: l => if (c =? NL)%char then [] else c :: before_nl l
  | [] => []
  end.

(** [%ld]. *)
Definition print_long (n : Z) : string := if n <? 0 then ("-" ++ dec (- n))%string else dec n.

(** ** Reading a line of a file *)

Definition NA : list ascii := chars "n/a".

(** One pass of the loop of [read_line] over [line]: the value, if the line
    has one. *)
Definition line_value (prefix : string) (line : list ascii) : option (list ascii) :=
  let line := c_string line in
  v ← match chars prefix with
      | [] => Some line
      | p => v ← after_prefix p line; after_colon v
      end;
  Some (before_nl (skip_blanks v)).

Definition LINE_SIZE : Z := 256.

(** One pass of the loop; [out] is what the buffer of [n] bytes holds. *)
Definition read_body (f : Z) (prefix : string) (n : Z) (out : list ascii) (_ : unit)
    : prog (unit + list ascii) :=
  let* line := call (Fgets f LINE_SIZE) in
  ret (match line with
       | None => inr out
       | Some l => match line_value prefix l with
                   | None => inl tt
                   | Some v => inr (snprintf n v)
                   end
       end).

(** What the buffer holds afterwards. A prefix of NULL is the empty one: both
    have [plen] 0. *)
Definition read_line (fuel : nat) (path prefix : string) (n : Z) : prog (list ascii) :=
  let out := snprintf n NA in
  let* f := call (Fopen path) in
  match f with
  | inr _ => ret out
  | inl f =>
      let* out := loop fuel (read_body f prefix n out) tt in
      call (Fclose f) ;;;
      ret out
  end.

(** ** The idle states of cpu0 *)

Definition CPU_BASE : string := "/sys/devices/system/cpu".

(** [snprintf(path, sizeof path, ..)]. *)
Definition path128 (s : string) : string := of_chars (snprintf 128 (chars s)).

Definition driver_path : string := path128 (CPU_BASE ++ "/cpuidle/current_driver").
Definition governor_path : string := path128 (CPU_BASE ++ "/cpuidle/current_governor").
Definition name_path (i : Z) : string :=
  path128 (CPU_BASE ++ "/cpu0/cpuidle/state" ++ dec i ++ "/name").
Definition disable_path (i : Z) : string :=
  path128 (CPU_BASE ++ "/cpu0/cpuidle/state" ++ dec i ++ "/disable").

(** The text of state [i]. *)
Definition idle_entry (i : Z) (name off : list ascii) : list ascii :=
  chars (if i =? 0 then ":" else ",") ++ chars " " ++ name ++
  (if decide (off = chars "1") then chars " (disabled)" else []).

(** One pass: [i], [len] and what is in [out]. *)
Definition cpuidle_body (fuel : nat) (n : Z) (x : Z * Z * list ascii)
    : prog ((Z * Z * list ascii) + list ascii) :=
  let '(i, len, out) := x in
  if negb (len <? n) then ret (inr out)
  else
    let* name := read_line fuel (name_path i) "" 64 in
    if decide (name = NA) then ret (inr out)
    else
      let* off := read_line fuel (disable_path i) "" 16 in
      let e := idle_entry i name off in
      (* snprintf(out + len, n - len, ..) *)
      ret (inl (i + 1, len + Z.of_nat (length e), take (Z.to_nat len) out ++ snprintf (n - len) e)).

(** The driver and governor, then the states; what [out], of [n] bytes, holds
    afterwards. *)
Definition cpuidle_info (fuel loop_fuel : nat) (n : Z) : prog (list ascii) :=
  let* drv := read_line fuel driver_path "" 64 in
  let* gov := read_line fuel governor_path "" 64 in
  let l := drv ++ chars "/" ++ gov in
  loop loop_fuel (cpuidle_body fuel n) (0, Z.of_nat (length l), snprintf n l).

(** ** What is printed about the machine *)

Section main.
Context {C : Config}.
(** [strerror]; what fresh memory holds; [strtod]: the value, if it is the
    whole argument. *)
Context (strerror : Z -> string) (junk : Z -> list Z) (strtod : string -> option spec_float).

(** [printf(fmt, key, value)]. *)
Definition print_pair (cfg : config) (key : string) (value : list ascii) : prog unit :=
  call (Print false
    (if csv cfg then ("# " ++ key ++ ": " ++ of_chars value ++ char_str NL)%string
     else (left_justify 12 key ++ " " ++ of_chars value ++ char_str NL)%string)).

(** [strtol(l, NULL, 10)]. *)
Definition strtol (l : list ascii) : Z := fst (fst (strtos (256 ^ sizeof_pointer / 2 - 1) l)).

(** The frequency in MHz, if there is one. *)
Definition freq_text (freq : list ascii) : list ascii :=
  if decide (freq = NA) then freq
  else snprintf 64 (chars (print_long (Z.quot (strtol freq) 1000) ++ " MHz")).

Definition version_text : string :=
  let v := psmsgr_version in
  (dec (Z.shiftr v 16) ++ "." ++ dec (Z.land (Z.shiftr v 8) 0xFF) ++ "." ++ dec (Z.land v 0xFF))%string.

Definition settings_text (cfg : config) : string :=
  ("iterations " ++ dec (iterations cfg) ++ ", warm-up " ++ dec (warmup cfg) ++ ", batch " ++
   dec (batch cfg) ++ ", " ++ fixed 1 (seconds cfg) ++ " s at " ++ dec (rate cfg) ++
   " Hz per run")%string.

(** [snprintf(buf, sizeof buf, ..)]. *)
Definition buf160 (s : string) : list ascii := snprintf 160 (chars s).

Definition print_system (fuel : nat) (cfg : config) : prog unit :=
  let* u := call SysUname in
  let kernel := match u with
                | Some (sysname, release, machine) =>
                    snprintf 256 (chars (sysname ++ " " ++ release ++ " " ++ machine))
                | None => NA
                end in
  let* cpu := read_line fuel "/proc/cpuinfo" "model name" 128 in
  let* hw := read_line fuel "/proc/cpuinfo" "Hardware" 128 in
  let* board := read_line fuel "/proc/device-tree/model" "" 128 in
  let* gov := read_line fuel "/sys/devices/system/cpu/cpu0/cpufreq/scaling_governor" "" 64 in
  let* freq := read_line fuel "/sys/devices/system/cpu/cpu0/cpufreq/scaling_cur_freq" "" 64 in
  let* clk := read_line fuel "/sys/devices/system/clocksource/clocksource0/current_clocksource" "" 64 in
  let freq := freq_text freq in
  print_pair cfg "psmsgr" (buf160 version_text) ;;;
  print_pair cfg "kernel" kernel ;;;
  print_pair cfg "cpu" cpu ;;;
  print_pair cfg "hardware" hw ;;;
  print_pair cfg "board" board ;;;
  let* procs := call SysNprocs in
  print_pair cfg "cpus" (buf160 (print_long procs ++ " online")) ;;;
  print_pair cfg "governor" (buf160 (of_chars gov ++ ", " ++ of_chars freq)) ;;;
  print_pair cfg "clocksource" clk ;;;
  let* idle := cpuidle_info fuel fuel 160 in
  print_pair cfg "cpuidle" idle ;;;
  print_pair cfg "dir" (chars (bdir cfg)) ;;;
  print_pair cfg "settings" (buf160 (settings_text cfg)) ;;;
  if csv cfg then ret tt else call (Print false (char_str NL)).

(** ** The program *)

Definition usage_error (msg : string) : prog Z :=
  call (Print true ("psmsgr-bench: " ++ msg ++ char_str NL ++ usage_text)%string) ;;;
  ret 2.

(** The options with a case of their own in the switch, [-h] apart. *)
Definition known_options : list ascii := chars "iwbrpdcs".

(** The loop over what [getopt_long] returns, each with its [optarg]: the
    configuration, or the exit status. *)
Fixpoint parse_options (l : list (ascii * string)) (cfg : config) : prog (config + Z) :=
  match l with
  | [] => ret (inl cfg)
  | (c, optarg) :: l =>
      if (c =? "h")%char then call (Print false usage_text) ;;; ret (inr 0)
      else if decide (c ∈ known_options) then
        match set_option strtod cfg c optarg with
        | Some cfg => parse_options l cfg
        | None => let* rc := usage_error "invalid option value" in ret (inr rc)
        end
      else ret (inr 2)
  end.

(** [cfg.base] after the options. *)
Definition base_of (cfg : config) (env : option string) : string :=
  match base cfg with
  | Some b => b
  | None => match env with
            | Some e => if (e =? "")%string then "/dev/shm" else e
            | None => "/dev/shm"
            end
  end.

Definition set_dirs (cfg : config) (b dir : string) : config := {|
  iterations := iterations cfg; warmup := warmup cfg; batch := batch cfg; seconds := seconds cfg;
  rate := rate cfg; poll_us := poll_us cfg; base := Some b; csv := csv cfg; bdir := dir |}.

Definition dir_template (b : string) : string :=
  of_chars (snprintf 512 (chars (b ++ "/psmsgr-bench-XXXXXX"))).

(** [main] with the options parsed. *)
Definition bench_start (fuel : nat) (cfg : config) : prog Z :=
  let* env := match base cfg with Some _ => ret None | None => call (Getenv "PSMSGR_DIR") end in
  let b := base_of cfg env in
  let* (dir, err) := call (SysMkdtemp (dir_template b)) in
  match err with
  | Some _ =>
      let* e := get_errno in
      call (Print true ("psmsgr-bench: mkdtemp " ++ dir ++ ": " ++ strerror e ++ char_str NL)%string) ;;;
      ret 1
  | None =>
      let cfg := set_dirs cfg b dir in
      let* main_pid := call SysGetpid in
      print_system fuel cfg ;;;
      bench_run strerror junk main_pid cfg fuel
  end.

(** [main]: [opts] is what [getopt_long] returns; [extra]: there are more
    arguments. *)
Definition bench_main (fuel : nat) (opts : list (ascii * string)) (extra : bool) : prog Z :=
  let* x := parse_options opts default_cfg in
  match x with
  | inr rc => ret rc
  | inl cfg => if extra then usage_error "unexpected argument" else bench_start fuel cfg
  end.
End main.
