(* ===== verification/BenchMainProof.v ===== *)
(** * What psmsgr-bench prints about the machine, and its command line

    The lines read from files and the text put together from them on a system
    whose files have any contents; the bounds of the options; the whole program
    on any system. *)
From S2P Require Import Prelude Prog Common Layout Names Options Writer Reader Channel Text Bench.
From S2P Require Import BenchProof BenchMain World ReaderSafety WriterSafety BenchSafety.
From Stdlib Require Import Ascii.
From Stdlib.Floats Require Import SpecFloat.
#[local] Open Scope string_scope.
#[local] Open Scope list_scope.
#[local] Open Scope Z_scope.

(** ** Files of text *)

Section files.
(** What the files hold. *)
Context (files : string -> option (list ascii)).

(** What [fgets] takes of [l] into [n] + 1 bytes, and what it leaves. *)
Fixpoint fgets_split (n : nat) (l : list ascii) : list ascii * list ascii :=
  match n, l with
  | S n, c :: l => if (c =? NL)%char then ([c], l)
                   else let (a, b) := fgets_split n l in (c :: a, b)
  | _, _ => ([], l)
  end.

(** The state: what is left to read on the open streams. *)
Definition files_sem : Sem (gmap Z (list ascii)) := {|
  sem_pre := fun e s =>
    match e with
    | Fgets f n => is_Some (s !! f) /\ 1 < n
    | Fclose f => is_Some (s !! f)
    | _ => True
    end;
  sem_step := fun e s =>
    match e return resp e -> gmap Z (list ascii) -> Prop with
    | Fopen path => fun r s' =>
        match r, files path with
        | inl f, Some l => s !! f = None /\ s' = <[f := l]> s
        | inr _, None => s' = s
        | _, _ => False
        end
    | Fgets f n => fun r s' =>
        exists l, s !! f = Some l /\
          match l with
          | [] => r = None /\ s' = s
          | _ => r = Some (fst (fgets_split (Z.to_nat (n - 1)) l)) /\
                 s' = <[f := snd (fgets_split (Z.to_nat (n - 1)) l)]> s
          end
    | Fclose f => fun _ s' => s' = delete f s
    | _ => fun _ s' => s' = s
    end;
  sem_out := False
|}.
#[local] Instance the_files : Sem (gmap Z (list ascii)) := files_sem.

(** The pieces [fgets] cuts a text into. *)
Fixpoint pieces (fuel : nat) (l : list ascii) : list (list ascii) :=
  match fuel, l with
  | S fuel, _ :: _ => let (a, b) := fgets_split 255 l in a :: pieces fuel b
  | _, _ => []
  end.

(** The value of the first line that has one. *)
Definition first_value (prefix : string) (n : Z) (lines : list (list ascii)) : list ascii :=
  snprintf n (default NA (head (omap (line_value prefix) lines))).

(** What [read_line] is to find. *)
Definition file_value (path prefix : string) (n : Z) : list ascii :=
  match files path with
  | Some l => first_value prefix n (pieces (length l) l)
  | None => snprintf n NA
  end.

Lemma fgets_split_shorter (n : nat) (c : ascii) (l : list ascii) :
  (length (snd (fgets_split (S n) (c :: l))) <= length l)%nat.
Proof.
  revert c l. induction n as [|n IH]; intros c l; cbn; (destruct (c =? NL)%char; [done |]).
  - by destruct l.
  - destruct l as [|d l]; [done |]. specialize (IH d l). cbn in IH |- *.
    destruct (d =? NL)%char; [cbn; lia |]. destruct (fgets_split n l). cbn in *. lia.
Qed.

Lemma pieces_fuel (k m : nat) (l : list ascii) :
  (length l <= k)%nat -> (length l <= m)%nat -> pieces k l = pieces m l.
Proof.
  revert m l. induction k as [|k IH]; intros m l Hk Hm.
  - destruct l; [by destruct m | cbn in Hk; lia].
  - destruct m as [|m]; [destruct l; [done | cbn in Hm; lia] |].
    destruct l as [|c l]; [done |]. cbn [pieces].
    pose proof (fgets_split_shorter 254 c l) as Hs. destruct (fgets_split 255 (c :: l)) as [a b].
    cbn [snd length] in *. f_equal. apply IH; lia.
Qed.

(** The lines of a text whose lines are not too long. *)
Lemma fgets_line (l rest : list ascii) (n : nat) :
  NL ∉ l -> (length l < n)%nat -> fgets_split n (l ++ NL :: rest) = (l ++ [NL], rest).
Proof.
  revert n. induction l as [|c l IH]; intros n Hl Hn; (destruct n as [|n]; [cbn in Hn; lia |]).
  - done.
  - cbn. destruct (Ascii.eqb_spec c NL) as [-> | Hc]; [exfalso; apply Hl; left |].
    rewrite IH; [done | | cbn in Hn; lia]. intros H. apply Hl. by right.
Qed.

Lemma pieces_lines (ls : list (list ascii)) (k : nat) :
  Forall (fun l => NL ∉ l /\ (length l < 255)%nat) ls ->
  (length (concat ((fun l => l ++ [NL]) <$> ls)) <= k)%nat ->
  pieces k (concat ((fun l => l ++ [NL]) <$> ls)) = (fun l => l ++ [NL]) <$> ls.
Proof.
  intros Hls. revert k. induction Hls as [|l ls [Hnl Hlen] _ IH]; intros k Hk; [by destruct k |].
  cbn [fmap list_fmap concat] in *. rewrite <- app_assoc in *. cbn [app] in *.
  destruct k as [|k]; [rewrite length_app in Hk; cbn in Hk; lia |].
  assert (E : exists c l', l ++ NL :: concat ((fun l => l ++ [NL]) <$> ls) = c :: l')
    by (destruct l; eauto).
  destruct E as (c & l' & E). cbn [pieces]. rewrite E. rewrite <- E, fgets_line by done.
  f_equal. apply IH. rewrite length_app in Hk. cbn in Hk. unfold fmap in *. lia.
Qed.

(** ** [read_line] *)

Lemma wp_read_loop (f n : Z) (prefix : string) (s : gmap Z (list ascii)) (k : nat)
    (l : list ascii) (en : Z) :
  s !! f = None -> (length l < k)%nat ->
  wp (loop k (read_body f prefix n (snprintf n NA)) tt) en (<[f := l]> s)
    (fun out _ s' => out = first_value prefix n (pieces (length l) l) /\
                     is_Some (s' !! f) /\ delete f s' = s).
Proof.
  intros Hf. revert l en. induction k as [|k IH]; intros l en Hk; [lia |]. cbn [loop].
  apply wp_bind, wp_bind, wp_call; [split; [by rewrite lookup_insert_eq; eexists | done] |].
  intros r s' (l0 & Hl0 & Hs). rewrite lookup_insert_eq in Hl0. injection Hl0 as <-.
  assert (Hend : forall l', is_Some (<[f := l']> s !! f) /\ delete f (<[f := l']> s) = s)
    by (intros l'; rewrite lookup_insert_eq, delete_insert_id; eauto).
  destruct l as [|c l]; [destruct Hs as [-> ->]; by do 2 apply wp_ret |].
  destruct Hs as [-> ->]. apply wp_ret. rewrite insert_insert_eq.
  change (Z.to_nat (LINE_SIZE - 1)) with 255%nat.
  pose proof (fgets_split_shorter 254 c l) as Hs. cbn [length] in Hk.
  unfold first_value. cbn [pieces length].
  destruct (fgets_split 255 (c :: l)) as [a b]. cbn [fst snd omap list_omap] in *.
  destruct (line_value prefix a) as [v|]; [by apply wp_ret |].
  rewrite (pieces_fuel (length l) (length b) b) by lia. apply IH. lia.
Qed.

Lemma wp_read_line (fuel : nat) (path prefix : string) (n en : Z) (s : gmap Z (list ascii))
    (Q : list ascii -> Z -> gmap Z (list ascii) -> Prop) :
  (forall l, files path = Some l -> (length l < fuel)%nat) ->
  (forall en', Q (file_value path prefix n) en' s) ->
  wp (read_line fuel path prefix n) en s Q.
Proof.
  intros Hfuel HQ. unfold read_line. apply wp_bind, wp_call; [done |].
  intros r s' Hs. cbn in Hs. unfold file_value in HQ.
  destruct r as [f | e], (files path) as [l|] eqn:El; try done; [| subst s'; by apply wp_ret].
  destruct Hs as [Hf ->]. apply wp_bind.
  eapply wp_mono; [apply wp_read_loop; [done | by apply Hfuel] |].
  cbn beta. intros out en' s' (-> & Ho & Hs'). apply wp_bind, wp_call; [done |].
  intros r s2 ->. cbn in Hs'. rewrite Hs'. by apply wp_ret.
Qed.

(** [read_line] on a file of lines of fewer than 255 characters terminates
    and finds the value of the first line that has one - after the prefix, the
    colon and the blanks, up to the end of the line -, cut to the buffer;
    n/a if there is none or no such file.  It leaves no stream open. *)
Theorem read_line_finds (fuel : nat) (path prefix : string) (n en : Z)
    (s : gmap Z (list ascii)) (lines : list (list ascii)) :
  Forall (fun l => NL ∉ l /\ (length l < 255)%nat) lines ->
  files path = Some (concat ((fun l => l ++ [NL]) <$> lines)) ->
  (length (concat ((fun l => l ++ [NL]) <$> lines)) < fuel)%nat ->
  wp (read_line fuel path prefix n) en s (fun out _ s' =>
    s' = s /\
    out = take (Z.to_nat (n - 1))
            (default (chars "n/a") (head (omap (fun l => line_value prefix (l ++ [NL])) lines)))).
Proof.
  intros Hl Hf Hk. apply wp_read_line; [by intros l [= <-]%(eq_trans (eq_sym Hf)) |].
  intros _. split; [done |]. unfold file_value, first_value, snprintf.
  rewrite Hf, pieces_lines by done. do 3 f_equal.
  clear. induction lines as [|l lines IH]; [done |]. cbn [fmap list_fmap omap list_omap].
  destruct (line_value prefix (l ++ [NL])); [f_equal |]; exact IH.
Qed.

(** ** The idle states *)

Definition state_name (i : nat) : list ascii := file_value (name_path (Z.of_nat i)) "" 64.
Definition state_off (i : nat) : list ascii := file_value (disable_path (Z.of_nat i)) "" 16.

(** The whole text, with the first [m] states. *)
Definition idle_text (m : nat) : list ascii :=
  file_value driver_path "" 64 ++ chars "/" ++ file_value governor_path "" 64 ++
  concat ((fun i => idle_entry (Z.of_nat i) (state_name i) (state_off i)) <$> seq 0 m).

Lemma idle_text_S (m : nat) :
  idle_text (S m) = idle_text m ++ idle_entry (Z.of_nat m) (state_name m) (state_off m).
Proof.
  unfold idle_text. rewrite seq_S, fmap_app, concat_app. cbn [fmap list_fmap concat].
  by rewrite app_nil_r, !app_assoc.
Qed.

Lemma idle_entry_length (i : Z) (name off : list ascii) : (2 <= length (idle_entry i name off))%nat.
Proof. unfold idle_entry. rewrite !length_app. destruct (i =? 0); cbn; lia. Qed.

(** [snprintf(out + len, n - len, ..)] continues the text that fills [len]. *)
Lemma snprintf_app (n : Z) (a b : list ascii) :
  Z.of_nat (length a) < n ->
  take (length a) (snprintf n a) ++ snprintf (n - Z.of_nat (length a)) b = snprintf n (a ++ b).
Proof.
  intros Hn. unfold snprintf. rewrite take_take, Nat.min_l, firstn_all by lia.
  rewrite take_app. f_equal; [by rewrite take_ge by lia |]. f_equal. lia.
Qed.

Lemma wp_cpuidle_loop (fuel k m : nat) (n en : Z) (s : gmap Z (list ascii)) :
  (forall path l, files path = Some l -> (length l < fuel)%nat) ->
  0 < Z.of_nat k -> n - Z.of_nat (length (idle_text m)) < Z.of_nat k ->
  (forall i, (i < m)%nat -> state_name i <> NA) ->
  wp (loop k (cpuidle_body fuel n)
        (Z.of_nat m, Z.of_nat (length (idle_text m)), snprintf n (idle_text m))) en s
    (fun out _ s' => s' = s /\ exists m, out = snprintf n (idle_text m) /\
       (forall i, (i < m)%nat -> state_name i <> NA) /\
       (state_name m = NA \/ n <= Z.of_nat (length (idle_text m)))).
Proof.
  intros Hfuel. revert m en. induction k as [|k IH]; intros m en Hk Hn Hm; [lia |].
  cbn [loop]. unfold cpuidle_body. apply wp_bind.
  destruct (Z.ltb_spec (Z.of_nat (length (idle_text m))) n) as [Hlt | Hge]; cbn [negb].
  2: { do 2 apply wp_ret. split; [done |]. exists m. eauto. }
  apply wp_bind, wp_read_line; [by apply Hfuel |]. intros en1.
  change (file_value (name_path (Z.of_nat m)) "" 64) with (state_name m).
  destruct (decide (state_name m = NA)) as [Hna | Hna].
  { do 2 apply wp_ret. split; [done |]. exists m. eauto. }
  apply wp_bind, wp_read_line; [by apply Hfuel |]. intros en2.
  change (file_value (disable_path (Z.of_nat m)) "" 16) with (state_off m).
  apply wp_ret. rewrite Nat2Z.id, snprintf_app by done. rewrite <- idle_text_S.
  rewrite <- Nat2Z.inj_add, <- length_app, <- idle_text_S.
  replace (Z.of_nat m + 1) with (Z.of_nat (S m)) by lia.
  pose proof (idle_entry_length (Z.of_nat m) (state_name m) (state_off m)) as Hl.
  assert (Hlen : length (idle_text (S m)) = (length (idle_text m) +
    length (idle_entry (Z.of_nat m) (state_name m) (state_off m)))%nat)
    by (by rewrite idle_text_S, length_app).
  apply IH; [lia | lia |].
  intros i Hi. destruct (decide (i = m)) as [-> |]; [done |]. apply Hm. lia.
Qed.

(** C28. [cpuidle_info] terminates on any files after at most [n] passes,
    however many states there are, and [out] holds the text of the driver, the
    governor and the states up to the first that is missing or does not fit,
    as one [snprintf] of the whole text would leave it. *)
Theorem cpuidle_info_text (fuel loop_fuel : nat) (n en : Z) (s : gmap Z (list ascii)) :
  (forall path l, files path = Some l -> (length l < fuel)%nat) ->
  0 < n -> n < Z.of_nat loop_fuel ->
  wp (cpuidle_info fuel loop_fuel n) en s (fun out _ s' =>
    s' = s /\ Z.of_nat (length out) < n /\
    exists m, out = snprintf n (idle_text m) /\
      (forall i, (i < m)%nat -> state_name i <> NA) /\
      (state_name m = NA \/ n <= Z.of_nat (length (idle_text m)))).
Proof.
  intros Hfuel Hn Hk. unfold cpuidle_info.
  apply wp_bind, wp_read_line; [by apply Hfuel |]. intros en1.
  apply wp_bind, wp_read_line; [by apply Hfuel |]. intros en2.
  assert (E : file_value driver_path "" 64 ++ chars "/" ++ file_value governor_path "" 64 = idle_text 0)
    by (unfold idle_text; cbn [seq fmap list_fmap concat]; by rewrite app_nil_r).
  rewrite E. eapply wp_mono; [apply (wp_cpuidle_loop _ _ 0); [done | lia | lia | lia] |].
  intros out en' s' (-> & m & -> & Hm). split; [done |]. split; [| by exists m].
  unfold snprintf. rewrite length_take. lia.
Qed.
End files.

(** ** The options *)

(** What a configuration has to be for a run: every number it divides by or
    loops to is in range. *)
Record config_ok (cfg : config) : Prop := {
  ok_iterations : 1 <= iterations cfg <= UINT32_MAX;
  ok_warmup : 0 <= warmup cfg <= UINT32_MAX;
  ok_batch : 1 <= batch cfg <= UINT32_MAX;
  ok_rate : 1 <= rate cfg <= 1000000;
  ok_poll : 0 <= poll_us cfg <= UINT32_MAX;
  ok_seconds : SFltb (S754_zero false) (seconds cfg) = true /\
               SFleb (seconds cfg) (double_of 3600) = true
}.

Lemma config_ok_default : config_ok default_cfg.
Proof. split; cbn; try lia; done. Qed.

Lemma config_ok_set_dirs (cfg : config) (b dir : string) :
  config_ok cfg -> config_ok (set_dirs cfg b dir).
Proof. by intros []. Qed.

Section options.
Context {C : Config} (strtod : string -> option spec_float).

Lemma set_option_ok (cfg cfg' : config) (c : ascii) (optarg : string) :
  config_ok cfg -> set_option strtod cfg c optarg = Some cfg' -> config_ok cfg'.
Proof.
  intros [] H. unfold set_option in H.
  repeat (destruct (_ =? _)%char in H;
    [ destruct (parse_u32 optarg _) eqn:Ep in H || destruct (strtod optarg) in H || idtac;
      cbn in H; try discriminate H;
      try (destruct (_ <=? _) eqn:El in H; [| discriminate H]);
      try (destruct (SFltb _ _ && SFleb _ _) eqn:El in H;
           [apply andb_true_iff in El | discriminate H]);
      try apply parse_u32_range in Ep; injection H as <-; split; cbn; (done || lia) |]).
  done.
Qed.

Section any_env.
Context {S : Type} {HS : Sem S} (Hout : sem_out).
(** Printing is harmless. *)
Context (Hprint : forall err t s, sem_pre (Print err t) s).
Context (Hsame : forall err t s s', sem_step (Print err t) s tt s' -> s' = s).

Lemma wp_print_usage (msg : string) (en : Z) (s : S) (Q : Z -> Z -> S -> Prop) :
  (forall en', Q 2 en' s) -> wp (usage_error msg) en s Q.
Proof.
  intros HQ. unfold usage_error. apply wp_bind, wp_call; [apply Hprint |].
  intros [] s' ->%Hsame. apply wp_ret, HQ.
Qed.

Lemma wp_parse_options (opts : list (ascii * string)) (cfg : config) (en : Z) (s : S)
    (Q : config + Z -> Z -> S -> Prop) :
  config_ok cfg ->
  (forall cfg' en', config_ok cfg' -> Q (inl cfg') en' s) ->
  (forall rc en', rc = 0 \/ rc = 2 -> Q (inr rc) en' s) ->
  wp (parse_options strtod opts cfg) en s Q.
Proof.
  intros Hc Hl Hr. revert cfg Hc. induction opts as [|[c optarg] opts IH]; intros cfg Hc.
  - by apply wp_ret, Hl.
  - cbn [parse_options]. destruct (c =? "h")%char.
    { apply wp_bind, wp_call; [apply Hprint |]. intros [] s' ->%Hsame.
      apply wp_ret, Hr. by left. }
    destruct (decide _); [| apply wp_ret, Hr; by right].
    destruct (set_option strtod cfg c optarg) as [cfg'|] eqn:E.
    + apply IH. by eapply set_option_ok.
    + apply wp_bind, wp_print_usage. intros en'. apply wp_ret, Hr. by right.
Qed.
End any_env.

(** Whatever the command line, the options psmsgr-bench goes on with have
    every number in its range - the rate, the batch and the iterations it
    divides by or loops to are not 0, the rate is at most 1000000, the runs
    last more than 0 and at most 3600 s -, else it stops with status 0 or 2. *)
Theorem parse_options_bounds (opts : list (ascii * string)) (en en' : Z) (tr : list event)
    (x : config + Z) :
  runs (parse_options strtod opts default_cfg) en tr x en' ->
  match x with inl cfg => config_ok cfg | inr rc => rc = 0 \/ rc = 2 end.
Proof.
  intros H. revert H.
  apply (wp_exec (parse_options strtod opts default_cfg) en tt
    (fun x _ _ => match x with inl cfg => config_ok cfg | inr rc => rc = 0 \/ rc = 2 end)).
  apply wp_parse_options; try done; [by intros err t [] []].
Qed.
End options.

(** ** The whole program on a hostile system *)

Section world.
Context {C : Config} (strerror : Z -> string) (junk : Z -> list Z)
  (strtod : string -> option spec_float).
Context (Hptr : 0 <= sizeof_pointer < 4294967000).
Context (Hjunk : forall n, 0 <= n -> Z.of_nat (length (junk n)) = n).

Lemma wp_os_read_line (fuel : nat) (path prefix : string) (n en : Z) (w : world)
    (Q : list ascii -> Z -> world -> Prop) :
  (forall out en', Q out en' w) -> wp (read_line fuel path prefix n) en w Q.
Proof.
  intros HQ. unfold read_line. apply wp_bind, wp_os; [done |].
  intros [f | e] w' Hs; [| cbn in Hs; subst w'; by apply wp_ret].
  destruct Hs as [Hf ->]. apply wp_bind.
  eapply (wp_loop (fun _ _ w' => w' = add_file f w)); [done | | done].
  intros [] en1 w1 ->. unfold read_body.
  apply wp_bind, wp_os; [cbn; set_solver |]. intros line w1 [_ ->]. apply wp_ret.
  assert (Hend : forall out en', wp (call (Fclose f) ;;; ret out) en' (add_file f w) Q).
  { intros out en'. apply wp_bind, wp_os; [cbn; clear; set_solver |].
    intros [] w1 ->. rewrite del_add_file by done. by apply wp_ret. }
  destruct line as [l|]; [destruct (line_value prefix l); [| done] |]; apply Hend.
Qed.

Lemma wp_os_cpuidle_info (fuel loop_fuel : nat) (n en : Z) (w : world)
    (Q : list ascii -> Z -> world -> Prop) :
  (forall out en', Q out en' w) -> wp (cpuidle_info fuel loop_fuel n) en w Q.
Proof.
  intros HQ. unfold cpuidle_info. do 2 (apply wp_bind, wp_os_read_line; intros ? ?).
  eapply (wp_loop (fun _ _ w' => w' = w)); [done | | done].
  intros [[i len] out'] en1 w1 ->. unfold cpuidle_body.
  destruct (negb _); [by apply wp_ret |]. apply wp_bind, wp_os_read_line. intros name en2.
  destruct (decide _); [by apply wp_ret |]. apply wp_bind, wp_os_read_line. intros off en3.
  by apply wp_ret.
Qed.

Lemma wp_os_print_pair (cfg : config) (key : string) (v : list ascii) (en : Z) (w : world)
    (Q : unit -> Z -> world -> Prop) :
  (forall en', Q tt en' w) -> wp (print_pair cfg key v) en w Q.
Proof. intros HQ. apply wp_os; [done |]. intros [] w' ->. apply HQ. Qed.

Lemma wp_os_print_system (fuel : nat) (cfg : config) (en : Z) (w : world)
    (Q : unit -> Z -> world -> Prop) :
  (forall en', Q tt en' w) -> wp (print_system fuel cfg) en w Q.
Proof.
  intros HQ. unfold print_system. apply wp_bind, wp_os; [done |]. intros u w' ->.
  do 6 (apply wp_bind, wp_os_read_line; intros ? ?).
  do 5 (apply wp_bind, wp_os_print_pair; intros ?).
  apply wp_bind, wp_os; [done |]. intros procs w' ->.
  do 3 (apply wp_bind, wp_os_print_pair; intros ?).
  apply wp_bind, wp_os_cpuidle_info. intros ? ?.
  do 3 (apply wp_bind, wp_os_print_pair; intros ?).
  destruct (csv cfg); [by apply wp_ret |]. apply wp_os; [done |]. intros [] w' ->. apply HQ.
Qed.

Lemma wp_os_bench_start (fuel : nat) (cfg : config) (en : Z) (w : world) :
  config_ok cfg ->
  wp (bench_start strerror junk fuel cfg) en w (fun status _ _ => status = 0 \/ status = 1).
Proof.
  intros Hok. unfold bench_start. apply wp_bind.
  assert (Hrest : forall env en1,
    wp (let* (dir, err) := call (SysMkdtemp (dir_template (base_of cfg env))) in
        match err with
        | Some _ =>
            let* e := get_errno in
            call (Print true ("psmsgr-bench: mkdtemp " ++ dir ++ ": " ++ strerror e ++ char_str NL)%string) ;;;
            ret 1
        | None =>
            let cfg := set_dirs cfg (base_of cfg env) dir in
            let* main_pid := call SysGetpid in
            print_system fuel cfg ;;;
            bench_run strerror junk main_pid cfg fuel
        end) en1 w (fun status _ _ => status = 0 \/ status = 1)).
  { intros env en1. apply wp_bind, wp_os; [done |]. intros [dir [e|]] w' [Hd ->].
    - apply wp_bind, wp_get_errno, wp_bind, wp_os; [done |]. intros [] w' ->.
      apply wp_ret. by right.
    - cbv zeta. apply wp_bind, wp_os; [done |]. intros pid w' ->.
      apply wp_bind, wp_os_print_system. intros en2.
      apply wp_os_bench_run; try done. cbn. pose proof (ok_iterations _ Hok). lia. }
  destruct (base cfg); [apply wp_ret, Hrest |].
  apply wp_os; [done |]. intros env w' [_ ->]. apply Hrest.
Qed.

(** C22. The whole of psmsgr-bench, from its command line to its exit in the
    parent and in the writer processes: on any system, with any files under
    /proc and /sys, it uses what is open only and accesses live mappings only,
    and exits with 0, 1 or 2; [print_system] closes every file it opens, and the
    runs, where they do not end the program, release all they acquired. *)
Theorem bench_main_safe (fuel : nat) (opts : list (ascii * string)) (extra : bool) (en : Z)
    (w : world) :
  wp (bench_main strerror junk strtod fuel opts extra) en w (fun status _ _ =>
    status = 0 \/ status = 1 \/ status = 2) /\
  (forall cfg, wp (print_system fuel cfg) en w (fun _ _ w' => w' = w)) /\
  (forall main_pid cfg, config_ok cfg -> cstring (bdir cfg) ->
     xwp (bench_uncontended strerror main_pid cfg fuel) en w (fun _ w' => w' = w) /\
     xwp (bench_contended strerror junk main_pid cfg fuel) en w (fun _ w' => w' = w) /\
     forall notify, xwp (bench_wake strerror junk main_pid cfg fuel notify) en w (fun _ w' => w' = w)).
Proof.
  split; [| split; [intros cfg; by apply wp_os_print_system |]].
  2: { intros main_pid cfg Hok Hd. assert (0 <= iterations cfg) by (pose proof (ok_iterations _ Hok); lia).
       split; [eapply xwp_bench_uncontended; eassumption |]. split; [eapply xwp_bench_contended; eassumption |].
       intros notify. eapply xwp_bench_wake; eassumption. }
  unfold bench_main. apply wp_bind.
  apply wp_parse_options; [done | by intros err t s s' -> | apply config_ok_default | |].
  - intros cfg en' Hok. destruct extra.
    + apply wp_print_usage; [done | by intros err t s s' -> |]. intros _. by do 2 right.
    + eapply wp_mono; [by apply wp_os_bench_start |]. intros st _ _ [-> | ->]; [by left | by right; left].
  - intros rc en' [-> | ->]; apply wp_ret; [by left | by do 2 right].
Qed.
End world.

(** ** Witnesses *)

Definition cpuinfo : list (list ascii) :=
  [chars "processor	: 0"; chars "model name	: ARMv7 Processor rev 2 (v7l)"; chars "Hardware	: AM33XX"].

(** The files of a machine with two idle states, one of them disabled. *)
Definition example_files (path : string) : option (list ascii) :=
  if (path =? "/proc/cpuinfo")%string then Some (concat ((fun l => l ++ [NL]) <$> cpuinfo))
  else if (path =? driver_path)%string then Some (chars "mpu_idle" ++ [NL])
  else if (path =? governor_path)%string then Some (chars "menu" ++ [NL])
  else if (path =? name_path 0)%string then Some (chars "WFI" ++ [NL])
  else if (path =? disable_path 0)%string then Some (chars "0" ++ [NL])
  else if (path =? name_path 1)%string then Some (chars "C1" ++ [NL])
  else if (path =? disable_path 1)%string then Some (chars "1" ++ [NL])
  else None.

Lemma example_files_short (path : string) (l : list ascii) :
  example_files path = Some l -> (length l < 1000)%nat.
Proof.
  unfold example_files.
  repeat (case_match; [intros [= <-]; vm_compute; lia |]). done.
Qed.

Lemma read_line_finds_witness :
  wp (HS := files_sem example_files) (read_line 1000 "/proc/cpuinfo" "model name" 128) 0 ∅
    (fun out _ s' => s' = ∅ /\ out = chars "ARMv7 Processor rev 2 (v7l)").
Proof.
  apply (read_line_finds example_files 1000 "/proc/cpuinfo" "model name" 128 0 ∅ cpuinfo).
  - refine (bool_decide_unpack _ _). vm_compute. exact I.
  - reflexivity.
  - vm_compute. lia.
Defined.

Lemma cpuidle_info_text_witness :
  wp (HS := files_sem example_files) (cpuidle_info 1000 161 160) 0 ∅
    (fun out _ s' => s' = ∅ /\ out = chars "mpu_idle/menu: WFI, C1 (disabled)").
Proof.
  eapply wp_mono.
  - apply (cpuidle_info_text example_files 1000 161 160 0 ∅);
      [apply example_files_short | done | vm_compute; reflexivity].
  - cbn beta. intros out en s (-> & _ & m & -> & Hm & Hend). split; [done |].
    destruct m as [|[|[|m]]].
    + exfalso. destruct Hend as [H | H]; vm_compute in H; [discriminate H | by destruct H].
    + exfalso. destruct Hend as [H | H]; vm_compute in H; [discriminate H | by destruct H].
    + reflexivity.
    + exfalso. apply (Hm 2%nat); [lia | reflexivity].
Defined.

Definition example_options : list (ascii * string) := [("r"%char, "1000"); ("c"%char, "")].

Lemma parse_options_bounds_witness :
  exists cfg, runs (parse_options (C := config64) (fun _ => None) example_options default_cfg) 0 []
                (inl cfg) 0 /\
    rate cfg = 1000 /\ config_ok cfg.
Proof.
  eexists. assert (H : runs (parse_options (C := config64) (fun _ => None) example_options default_cfg)
    0 [] (inl _) 0) by (apply steps_refl).
  split; [exact H |]. split; [reflexivity |].
  exact (parse_options_bounds (C := config64) (fun _ => None) example_options 0 0 [] _ H).
Defined.

Lemma bench_main_safe_witness :
  wp (bench_main (C := config64) (fun _ => "error") (fun n => replicate (Z.to_nat n) 255)
        (fun _ => None) 100 example_options false) 0 empty_world
    (fun status _ _ => status = 0 \/ status = 1 \/ status = 2).
Proof.
  apply (bench_main_safe (C := config64) (fun _ => "error") (fun n => replicate (Z.to_nat n) 255)
    (fun _ => None)).
  - cbn. lia.
  - intros n Hn. rewrite length_replicate. lia.
Defined.
