(* ===== verification/Motor.v ===== *)
(** * The example programs (src/examples/motor_status.h,
    src/examples/c/motor_writer.c, src/examples/c/motor_reader.c)

    The motor status and its bytes, the program that publishes it and the one
    that prints it.  [getopt_long] gives the options in order, [strtod] a value
    and whether it is the whole argument; the signal handler is the flag that
    [ReadStop] reads. *)
From S2P Require Import Prelude Prog Common Layout Names Options Writer Reader Channel Text.
From Stdlib Require Import Ascii.
From Stdlib.Floats Require Import SpecFloat.
#[local] Open Scope string_scope.
#[local] Open Scope list_scope.
#[local] Open Scope Z_scope.

Definition MOTOR_CHANNEL : string := "motor".
Definition MOTOR_STATUS_V1 : Z := 0x00010001.

(** The floats by their bits. *)
Record motor_status := {
  sequence : Z;
  speed_rpm : Z;
  current_a : Z;
  temperature_c : Z
}.

Definition sizeof_motor_status : Z := 24.

(** The bytes of the struct; [pad] is what its last four hold. *)
Definition encode_status (pad : list Z) (s : motor_status) : list Z :=
  le_bytes 8 (sequence s) ++ le_bytes 4 (speed_rpm s) ++ le_bytes 4 (current_a s) ++
  le_bytes 4 (temperature_c s) ++ pad.

Definition decode_status (bs : list Z) : motor_status := {|
  sequence := field bs 0 8;
  speed_rpm := field bs 8 4;
  current_a := field bs 12 4;
  temperature_c := field bs 16 4 |}.

(** [%.1f] and the like of the fields, after [seq=%llu]. *)
Definition status_line (s : motor_status) : string :=
  ("seq=" ++ dec (sequence s) ++ " speed=" ++ printf_float 1 (speed_rpm s) ++ " rpm current=" ++
   printf_float 2 (current_a s) ++ " A temperature=" ++ printf_float 1 (temperature_c s) ++ " C" ++
   char_str NL)%string.

(** [a + (float)(seq % m) * step]: the sum in floats. *)
Definition ramp (a : spec_float) (seq m : Z) (step : spec_float) : Z :=
  bits_of_float (float_add a (float_mul (float_of (seq mod m)) step)).

(** What the writer publishes as value [seq]. *)
Definition status_of (seq : Z) : motor_status := {|
  sequence := seq;
  speed_rpm := ramp (float_of 1500) seq 100 (float_of 5);
  current_a := ramp (float_of 2) seq 8 (float_div (float_of 1) (float_of 4));
  temperature_c := ramp (float_of 40) seq 40 (float_div (float_of 1) (float_of 2)) |}.

Section motor.
Context {C : Config}.
(** [strerror], [strtod], and what fresh memory holds. *)
Context (strerror : Z -> string) (strtod : string -> spec_float * bool) (junk : Z -> list Z).

(** [usage] of the program [who]: the exit status. *)
Definition usage (text : string) : prog Z :=
  call (Print true (text ++ char_str NL)%string) ;;; ret 2.

Definition fail (who : string) (rc : Z) : prog Z :=
  let* e := get_errno in
  call (Print true (who ++ ": " ++ MOTOR_CHANNEL ++ ": " ++
    (if (rc =? PSMSGR_E_SYS)%Z then strerror e else psmsgr_strerror rc) ++ char_str NL)%string) ;;;
  ret 1.

(** A use of memory that nobody wrote, or of a number that does not fit. *)
Definition undefined : prog unit := let* _ := call (Load8 NULL_PTR) in ret tt.

Definition strtoull (s : string) : Z * bool :=
  let '(v, rest, _) := strtou UINT64_MAX (chars s) in (v, (length rest =? 0)%nat).
Definition strtol (s : string) : Z * bool :=
  let '(v, rest, _) := strtos (256 ^ sizeof_pointer / 2 - 1) (chars s) in
  (v, (length rest =? 0)%nat).

(** ** motor_writer *)

Record writer_args := { wa_dir : option string; wa_rate : spec_float; wa_count : Z }.

Definition writer_defaults : writer_args :=
  {| wa_dir := None; wa_rate := double_of 10; wa_count := 0 |}.

(** [None]: the usage message. *)
Fixpoint writer_options (l : list (ascii * string)) (a : writer_args) : option writer_args :=
  match l with
  | [] => Some a
  | (c, optarg) :: l =>
      if (c =? "d")%char
      then writer_options l {| wa_dir := Some optarg; wa_rate := wa_rate a; wa_count := wa_count a |}
      else if (c =? "r")%char then
        let (v, whole) := strtod optarg in
        if whole : bool
        then writer_options l {| wa_dir := wa_dir a; wa_rate := v; wa_count := wa_count a |}
        else None
      else if (c =? "n")%char then
        let (v, whole) := strtoull optarg in
        if whole : bool
        then writer_options l {| wa_dir := wa_dir a; wa_rate := wa_rate a; wa_count := v |}
        else None
      else None
  end.

(** The options of the channel. *)
Definition motor_options (dir : option string) : psmsgr_state_options :=
  let d := psmsgr_state_options_init in
  {| o_struct_size := o_struct_size d; o_capacity := sizeof_motor_status;
     o_payload_type := MOTOR_STATUS_V1; o_slot_count := o_slot_count d;
     o_flags := PSMSGR_STATE_RECREATE; o_mode := o_mode d; o_dir := dir |}.

(** One pass of the loop: the handle, [seq] and [next_ns]; the handle and the
    status at the end. *)
Definition writer_step (count period : Z) (x : option psmsgr_state_writer * Z * Z)
    : prog ((option psmsgr_state_writer * Z * Z) + (option psmsgr_state_writer * Z)) :=
  let '(w, seq, next) := x in
  let* stop := call ReadStop in
  if stop then ret (inr (w, 0))
  else
    let s := status_of seq in
    let* (rc, w, _) := psmsgr_state_publish w (Some (encode_status (junk 4) s)) sizeof_motor_status in
    if negb (rc =? PSMSGR_OK) then let* st := fail "motor_writer" rc in ret (inr (w, st))
    else
      call (Print false (status_line s)) ;;;
      if seq =? count then ret (inr (w, 0))
      else
        let next := u64 (next + period) in
        let* _ := call (SysSleepUntil (next / 1000000000) (next mod 1000000000)) in
        ret (inl (w, u64 (seq + 1), next)).

(** [(uint64_t)(1e9 / rate)]: undefined from 2^64 on. *)
Definition period_of (rate : spec_float) : option Z :=
  match double_div (double_of 1000000000) rate with
  | S754_infinity _ | S754_nan => None
  | x => if 18446744073709551616 <=? double_trunc x then None else Some (double_trunc x)
  end.

(** [opts]: what [getopt_long] returns; [extra]: there are more arguments. *)
Definition motor_writer (lock_fuel fuel : nat) (opts : list (ascii * string)) (extra : bool)
    : prog Z :=
  let usage := usage "usage: motor_writer [--dir DIR] [--rate HZ] [--count N]" in
  match writer_options opts writer_defaults with
  | None => usage
  | Some a =>
      if extra || negb (SFltb (S754_zero false) (wa_rate a)) then usage
      else
        let* (rc, w) := psmsgr_state_writer_open lock_fuel (Some MOTOR_CHANNEL)
                          (Some (motor_options (wa_dir a))) false in
        if negb (rc =? PSMSGR_OK) then fail "motor_writer" rc
        else
          let* period := match period_of (wa_rate a) with
                         | Some p => ret p
                         | None => undefined ;;; ret 0
                         end in
          let* next := psmsgr_now_ns in
          let* (w, status) := loop fuel (writer_step (wa_count a) period) (w, 1, next) in
          psmsgr_state_writer_close w ;;;
          ret status
  end.

(** ** motor_reader *)

Definition INT32_MAX : Z := 2147483647.

Record reader_args := { ra_dir : option string; ra_count : Z; ra_timeout_ms : Z }.

Definition reader_defaults : reader_args :=
  {| ra_dir := None; ra_count := 0; ra_timeout_ms := 300 |}.

Fixpoint reader_options (l : list (ascii * string)) (a : reader_args) : option reader_args :=
  match l with
  | [] => Some a
  | (c, optarg) :: l =>
      if (c =? "d")%char
      then reader_options l {| ra_dir := Some optarg; ra_count := ra_count a;
                               ra_timeout_ms := ra_timeout_ms a |}
      else if (c =? "n")%char then
        let (v, whole) := strtoull optarg in
        if whole : bool
        then reader_options l {| ra_dir := ra_dir a; ra_count := v; ra_timeout_ms := ra_timeout_ms a |}
        else None
      else if (c =? "t")%char then
        let (v, whole) := strtol optarg in
        if whole : bool
        then reader_options l {| ra_dir := ra_dir a; ra_count := ra_count a; ra_timeout_ms := v |}
        else None
      else None
  end.

(** The type of the payload, if this is the first result from its file: an
    unexpected one. *)
Definition wrong_type (r : option psmsgr_state_reader) (info : psmsgr_state_info)
    : prog (option psmsgr_state_reader * option Z) :=
  if Z.land (i_flags info) PSMSGR_INFO_ATTACHED =? 0 then ret (r, None)
  else
    let* (r, (rc, d)) := psmsgr_state_describe r (Some (junk sizeof_desc)) in
    let t := field d 8 4 in
    ret (r, if (rc =? PSMSGR_OK) && negb (t =? MOTOR_STATUS_V1) then Some t else None).

Definition payload_ok (r : option psmsgr_state_reader) (info : psmsgr_state_info)
    : prog (option psmsgr_state_reader * bool) :=
  let* (r, wrong) := wrong_type r info in
  match wrong with
  | Some t =>
      call (Print true ("motor_reader: motor: payload type 0x" ++ hex 8 t ++
        ", expected 0x00010001 (MOTOR_STATUS_V1)" ++ char_str NL)%string) ;;;
      ret (r, false)
  | None =>
      if negb (i_length info =? sizeof_motor_status) then
        call (Print true ("motor_reader: motor: payload of " ++ dec (i_length info) ++
          " bytes, expected 24" ++ char_str NL)%string) ;;;
        ret (r, false)
      else ret (r, true)
  end.

Abbreviation reader_state := (option psmsgr_state_reader * Z * Z)%type.
Abbreviation reader_result := (option psmsgr_state_reader * Z)%type.

(** No new value in time: the age of the last one. *)
Definition show_stale (r : option psmsgr_state_reader) (seen n : Z)
    : prog (reader_state + reader_result) :=
  let* (r, (rc, info)) := psmsgr_state_peek r false in
  if negb (rc =? PSMSGR_OK)
  then call (Print false ("waiting for the writer" ++ char_str NL)%string) ;;; ret (inl (r, seen, n))
  else
    match info with
    | None => undefined ;;; ret (inl (r, seen, n))
    | Some i =>
        let* (r, ok) := payload_ok r i in
        if negb ok then ret (inr (r, 1))
        else
          let* (alive, r) := psmsgr_state_writer_alive r in
          let* now := psmsgr_now_ns in
          let age := double_div (double_of (u64 (now - i_timestamp_ns i))) (double_of 1000000000) in
          call (Print false ((if (alive =? 1)%Z then "stale" else "writer gone") ++ ": last value " ++
            fixed 1 age ++ " s old" ++ char_str NL)%string) ;;;
          ret (inl (r, seen, n))
    end.

(** What the loop does with a read: over again, out with a status, or print. *)
Inductive shown := Again | Done (status : Z) | Value (generation : Z) (s : motor_status).

(** The read and its checks: [s] is written in full only by a read that
    returns OK. *)
Definition next_value (r : option psmsgr_state_reader) : prog (option psmsgr_state_reader * shown) :=
  let* (r, (rc, s, info)) :=
    psmsgr_state_read r (Some (junk sizeof_motor_status)) sizeof_motor_status false in
  if (rc =? PSMSGR_E_NODATA) || (rc =? PSMSGR_E_BUSY) then ret (r, Again)
  else if negb (rc =? PSMSGR_OK) && negb (rc =? PSMSGR_E_TOOSMALL)
  then let* st := fail "motor_reader" rc in ret (r, Done st)
  else
    match info with
    | None => undefined ;;; ret (r, Again)
    | Some i =>
        let* (r, ok) := payload_ok r i in
        if negb ok then ret (r, Done 1)
        else
          (if rc =? PSMSGR_OK then ret tt else undefined) ;;;
          ret (r, Value (i_generation i) (decode_status s))
    end.

(** A new value, as a line. *)
Definition show_value (r : option psmsgr_state_reader) (seen n : Z)
    : prog (reader_state + reader_result) :=
  let* (r, x) := next_value r in
  match x with
  | Again => ret (inl (r, seen, n))
  | Done st => ret (inr (r, st))
  | Value generation s =>
      call (Print false (status_line s)) ;;; ret (inl (r, generation, u64 (n + 1)))
  end.

(** One pass of the loop: the handle, [seen] and [n]. *)
Definition reader_step (wait_fuel : nat) (count timeout_ms : Z) (x : reader_state)
    : prog (reader_state + reader_result) :=
  let '(r, seen, n) := x in
  let* stop := call ReadStop in
  if stop || negb ((count =? 0) || (n <? count)) then ret (inr (r, 0))
  else
    let* (rc, r) := psmsgr_state_wait wait_fuel r seen timeout_ms in
    if rc =? PSMSGR_E_TIMEOUT then show_stale r seen n
    else if rc =? PSMSGR_E_INTR then ret (inl (r, seen, n))
    else if negb (rc =? PSMSGR_OK)
    then let* st := fail "motor_reader" rc in ret (inr (r, st))
    else show_value r seen n.

Definition motor_reader (wait_fuel fuel : nat) (opts : list (ascii * string)) (extra : bool)
    : prog Z :=
  let usage := usage "usage: motor_reader [--dir DIR] [--count N] [--timeout MS]" in
  match reader_options opts reader_defaults with
  | None => usage
  | Some a =>
      if extra || (ra_timeout_ms a <=? 0) || (INT32_MAX <? ra_timeout_ms a) then usage
      else
        let* (rc, r) := psmsgr_state_reader_open (Some MOTOR_CHANNEL) (ra_dir a) false in
        if negb (rc =? PSMSGR_OK) then fail "motor_reader" rc
        else
          let* (r, status) := loop fuel (reader_step wait_fuel (ra_count a) (ra_timeout_ms a)) (r, 0, 0) in
          psmsgr_state_reader_close r ;;;
          ret status
  end.
End motor.
