(* ===== verification/MotorProof.v ===== *)
(** * What the example programs do

    The bytes of a motor status, the lines printed, and both programs on a
    system that answers anything. *)
From S2P Require Import Prelude Prog Common Layout Names Options Writer Reader Channel Text.
From S2P Require Import Protocol Session WriterProof World ReaderSafety WriterSafety DumpProof Motor.
From Stdlib Require Import Ascii.
From Stdlib.Floats Require Import SpecFloat.
#[local] Open Scope list_scope.
#[local] Open Scope Z_scope.

Section safe.
Context {C : Config} (strerror : Z -> string) (strtod : string -> spec_float * bool).
Context (junk : Z -> list Z).
Context (Hptr : 0 <= sizeof_pointer < 4294967000).
Context (Hjunk : forall n, 0 <= n -> Z.of_nat (length (junk n)) = n).

(** An exit status. *)
Definition exit_ok (st : Z) : Prop := st = 0 \/ st = 1 \/ st = 2.

Lemma wp_os_fail (who : string) (rc en : Z) (w : world) (Q : Z -> Z -> world -> Prop) :
  Q 1 en w -> wp (fail strerror who rc) en w Q.
Proof.
  intros HQ. unfold fail. apply wp_bind, wp_get_errno, wp_bind, wp_os; [done |].
  intros [] w' ->. by apply wp_ret.
Qed.

Lemma wp_os_usage (text : string) (en : Z) (w : world) :
  wp (usage text) en w (fun st _ w' => w' = w /\ exit_ok st).
Proof.
  unfold usage. apply wp_bind, wp_os; [done |]. intros [] w' ->. apply wp_ret.
  split; [done | by right; right].
Qed.

(** ** The reader *)

(** What a part of the loop does. *)
Definition step_post (base : world) (r0 : psmsgr_state_reader)
    (x : (option psmsgr_state_reader * Z * Z) + (option psmsgr_state_reader * Z)) (w' : world) : Prop :=
  match x with
  | inl (h, _, _) => exists r', h = Some r' /\ reader_post base r0 r' w'
  | inr (h, st) => (exists r', h = Some r' /\ reader_post base r0 r' w') /\ exit_ok st
  end.

Lemma step_post_fail (base w' : world) (r0 r' : psmsgr_state_reader) :
  reader_post base r0 r' w' -> step_post base r0 (inr (Some r', 1)) w'.
Proof. intros H. split; [by exists r' | by right; left]. Qed.

Lemma step_post_next (base w' : world) (r0 r' : psmsgr_state_reader) (seen n : Z) :
  reader_post base r0 r' w' -> step_post base r0 (inl (Some r', seen, n)) w'.
Proof. intros H. by exists r'. Qed.

Lemma wp_os_payload_ok (base w : world) (r0 r : psmsgr_state_reader) (info : psmsgr_state_info)
    (en : Z) :
  reader_post base r0 r w ->
  wp (payload_ok junk (Some r) info) en w (fun '(h, ok) _ w' =>
    (exists r', h = Some r' /\ reader_post base r0 r' w') /\
    (ok = true -> i_length info = sizeof_motor_status)).
Proof.
  intros Hp. unfold payload_ok, wrong_type. apply wp_bind.
  assert (Hk : forall r' w' en', reader_post base r0 r' w' -> forall wrong : option Z,
    wp (match wrong with
        | Some t =>
            call (Print true ("motor_reader: motor: payload type 0x" ++ hex 8 t ++
              ", expected 0x00010001 (MOTOR_STATUS_V1)" ++ char_str NL)%string) ;;;
            ret (Some r', false)
        | None =>
            if negb (i_length info =? sizeof_motor_status) then
              call (Print true ("motor_reader: motor: payload of " ++ dec (i_length info) ++
                " bytes, expected 24" ++ char_str NL)%string) ;;;
              ret (Some r', false)
            else ret (Some r', true)
        end) en' w' (fun '(h, ok) _ w' =>
      (exists r', h = Some r' /\ reader_post base r0 r' w') /\
      (ok = true -> i_length info = sizeof_motor_status))).
  { intros r' w' en' H [t|].
    - apply wp_bind, wp_os; [done |]. intros [] w2 ->. apply wp_ret. split; [by exists r' | done].
    - destruct (Z.eqb_spec (i_length info) sizeof_motor_status); cbn [negb].
      + apply wp_ret. split; [by exists r' | done].
      + apply wp_bind, wp_os; [done |]. intros [] w2 ->. apply wp_ret. split; [by exists r' | done]. }
  destruct (Z.land _ _ =? 0); [apply wp_ret; exact (Hk r w en Hp None) |]. unfold psmsgr_state_describe. apply wp_bind.
  eapply wp_mono; [apply (wp_os_describe base); [apply Hp | rewrite Hjunk by done; done] |].
  intros [h [rc mem]] en' w' (r' & -> & Hp' & _). cbv zeta. apply wp_ret.
  apply (Hk r' w' en'). eapply reader_post_trans; [apply Hp | exact Hp'].
Qed.

(** An info comes with OK and TOOSMALL, and TOOSMALL with a longer value. *)
Lemma read_info (cap size : Z) (buf b : list Z) (rc : Z) (info : option psmsgr_state_info) :
  api_ok cap size true buf (rc, b, info) -> rc = PSMSGR_OK \/ rc = PSMSGR_E_TOOSMALL ->
  exists i, info = Some i /\ (i_length i <= size -> rc = PSMSGR_OK).
Proof.
  intros [[_ H] | (rc' & [= -> -> ->] & H)] Hrc.
  - destruct info as [i|].
    + exists i. split; [done |]. intros Hl. destruct H as [_ H]. cbn [andb] in H.
      by destruct (Z.ltb_spec size (i_length i)); [lia |].
    + by destruct H as [-> | [-> | ->]]; destruct Hrc.
  - unfold attach_code in H. by destruct H as [[-> | [-> | ->]] | ->]; destruct Hrc.
Qed.

Lemma wp_os_next_value (base w : world) (r0 r : psmsgr_state_reader) (en : Z) :
  reader_post base r0 r w ->
  wp (next_value strerror junk (Some r)) en w (fun '(h, x) _ w' =>
    (exists r', h = Some r' /\ reader_post base r0 r' w') /\
    match x with Done st => exit_ok st | _ => True end).
Proof.
  intros Hp. unfold next_value. apply wp_bind.
  eapply wp_mono; [apply (wp_os_state_read base); [apply Hp |] |].
  { rewrite Hjunk; unfold sizeof_motor_status; lia. }
  intros [h [[rc b] info]] en1 w1 (r1 & -> & Hp1 & Ha).
  pose proof (reader_post_trans _ _ _ _ _ (proj1 Hp) Hp1) as Hp2.
  destruct (_ || _); [apply wp_ret; split; [by exists r1 | done] |].
  destruct (negb _ && negb _) eqn:E.
  { apply wp_bind, wp_os_fail, wp_ret. split; [by exists r1 | by right; left]. }
  destruct (read_info _ _ _ _ _ _ Ha) as (i & -> & Hi).
  { clear - E. destruct (Z.eqb_spec rc PSMSGR_OK); [by left |].
    destruct (Z.eqb_spec rc PSMSGR_E_TOOSMALL); [by right | done]. }
  apply wp_bind. eapply wp_mono; [by apply (wp_os_payload_ok base w1 r0) |].
  intros [h ok] en2 w2 [(r2 & -> & Hp3) Hok]. destruct ok; cbn [negb].
  - rewrite Hi by (rewrite Hok; done). cbn [Z.eqb PSMSGR_OK].
    apply wp_bind, wp_ret, wp_ret. split; [by exists r2 | done].
  - apply wp_ret. split; [by exists r2 | by right; left].
Qed.

Lemma wp_os_show_value (base w : world) (r0 r : psmsgr_state_reader) (seen n en : Z) :
  reader_post base r0 r w ->
  wp (show_value strerror junk (Some r) seen n) en w (fun x _ w' => step_post base r0 x w').
Proof.
  intros Hp. unfold show_value. apply wp_bind.
  eapply wp_mono; [by apply (wp_os_next_value base w r0) |].
  intros [h [|st|gen s]] en1 w1 [(r1 & -> & Hp1) Hst].
  - by apply wp_ret, step_post_next.
  - apply wp_ret. split; [by exists r1 | done].
  - apply wp_bind, wp_os; [done |]. intros [] w2 ->. by apply wp_ret, step_post_next.
Qed.

Lemma wp_os_show_stale (base w : world) (r0 r : psmsgr_state_reader) (seen n en : Z) :
  reader_post base r0 r w ->
  wp (show_stale junk (Some r) seen n) en w (fun x _ w' => step_post base r0 x w').
Proof.
  intros Hp. unfold show_stale. apply wp_bind.
  eapply wp_mono; [apply (wp_os_state_peek base), Hp |].
  intros [h [rc info]] en1 w1 (r1 & -> & Hp1 & Ha).
  pose proof (reader_post_trans _ _ _ _ _ (proj1 Hp) Hp1) as Hp2.
  destruct (Z.eqb_spec rc PSMSGR_OK) as [->|_]; cbn [negb].
  2: { apply wp_bind, wp_os; [done |]. intros [] w2 ->. by apply wp_ret, step_post_next. }
  destruct (api_info _ _ _ _ _ _ _ Ha eq_refl) as (i & -> & _).
  apply wp_bind. eapply wp_mono; [by apply (wp_os_payload_ok base w1 r0) |].
  intros [h ok] en2 w2 [(r2 & -> & Hp3) _]. destruct ok; cbn [negb];
    [| apply wp_ret; by apply step_post_fail].
  apply wp_bind. eapply wp_mono; [apply (wp_os_writer_alive base), Hp3 |].
  intros [alive h] en3 w3 (r3 & -> & Hp4 & _).
  apply wp_bind, wp_os_clock. intros now _. apply wp_bind, wp_os; [done |]. intros [] w4 ->.
  apply wp_ret, step_post_next. eapply reader_post_trans; [apply Hp3 | exact Hp4].
Qed.

Lemma wp_os_reader_step (base w : world) (wait_fuel : nat) (count timeout_ms : Z)
    (r0 r : psmsgr_state_reader) (seen n en : Z) :
  reader_post base r0 r w ->
  wp (reader_step strerror junk wait_fuel count timeout_ms (Some r, seen, n)) en w
    (fun x _ w' => step_post base r0 x w').
Proof.
  intros Hp. unfold reader_step. apply wp_bind, wp_os; [done |]. intros stop w' ->.
  destruct (_ || _). { apply wp_ret. split; [by exists r | by left]. }
  apply wp_bind. eapply wp_mono; [apply (wp_os_state_wait base), Hp |].
  intros [rc h] en1 w1 (r1 & -> & _ & Hp1).
  pose proof (reader_post_trans _ _ _ _ _ (proj1 Hp) Hp1) as Hp2.
  destruct (rc =? PSMSGR_E_TIMEOUT); [by apply wp_os_show_stale |].
  destruct (rc =? PSMSGR_E_INTR); [by apply wp_ret, step_post_next |].
  destruct (rc =? PSMSGR_OK); cbn [negb]; [by apply wp_os_show_value |].
  apply wp_bind, wp_os_fail, wp_ret. by apply step_post_fail.
Qed.

Lemma reader_options_dir (l : list (ascii * string)) (a a' : reader_args) :
  string_arg (ra_dir a) -> Forall (fun x => cstring (snd x)) l ->
  reader_options l a = Some a' -> string_arg (ra_dir a').
Proof.
  intros Ha Hl. revert a Ha. induction Hl as [|[c o] l Ho _ IH]; intros a Ha; cbn [reader_options];
    [by intros [= <-] |].
  destruct (c =? "d")%char; [by apply IH |].
  destruct (c =? "n")%char; [destruct (strtoull o) as [v [|]]; [by apply IH | done] |].
  destruct (c =? "t")%char; [destruct (strtol o) as [v [|]]; [by apply IH | done] | done].
Qed.

Lemma wp_os_motor_reader (wait_fuel fuel : nat) (opts : list (ascii * string)) (extra : bool)
    (en : Z) (w : world) :
  Forall (fun x => cstring (snd x)) opts ->
  wp (motor_reader strerror junk wait_fuel fuel opts extra) en w
    (fun st _ w' => w' = w /\ exit_ok st).
Proof.
  intros Ho. unfold motor_reader. cbv zeta.
  destruct (reader_options opts reader_defaults) as [a|] eqn:E; [| apply wp_os_usage].
  destruct (_ || _ || _); [apply wp_os_usage |].
  pose proof (reader_options_dir opts reader_defaults a I Ho E) as Hd.
  apply wp_bind. eapply wp_mono; [by apply wp_os_reader_open |]. intros [rc [r|]] en1 w1.
  - intros (-> & Hn & Hown & -> & _). cbn [Z.eqb PSMSGR_OK negb]. apply wp_bind.
    apply (wp_loop (fun '(h, _, _) _ w' => step_post (reader_base w r) r (inl (h, 0, 0)) w')); [done | |].
    + clear en1. intros [[h seen] n] en1 w1 (r1 & -> & Hp).
      eapply wp_mono; [by apply (wp_os_reader_step (reader_base w r) w1 wait_fuel _ _ r) |].
      intros [[[h' s'] n']|[h' st]] en2 w2 H2; [exact H2 |].
      destruct H2 as [(r2 & -> & Hs & Ha) Hst].
      destruct (reader_owns_same w r r2 Hs Hown) as [Ho2 Eb]. rewrite <- Eb in Ha.
      apply wp_bind, (wp_os_reader_close w); [done | done |]. intros en3. by apply wp_ret.
    + exists r. split; [done |]. split; [done |]. unfold attached_in. by rewrite Hn.
  - intros [-> ->]. destruct (_ || _); apply wp_os_fail; (split; [done | by right; left]).
Qed.

(** ** The writer *)

Lemma length_encode_status (pad : list Z) (s : motor_status) :
  length pad = 4%nat -> Z.of_nat (length (encode_status pad s)) = sizeof_motor_status.
Proof. intros H. unfold encode_status. rewrite !length_app, !length_le_bytes, H. done. Qed.

Lemma motor_options_arg (dir : option string) :
  string_arg dir -> opt_arg (Some (motor_options dir)).
Proof.
  intros H. split; [| done]. unfold options_ok, motor_options, psmsgr_state_options_init, default_options.
  cbn [o_struct_size o_capacity o_slot_count o_payload_type o_mode o_flags].
  unfold sizeof_motor_status, MOTOR_STATUS_V1, PSMSGR_STATE_RECREATE, sizeof_options, OOff.dir.
  unfold PSMSGR_STATE_DEFAULT_SLOTS. lia.
Qed.

(** A rate whose period fits. *)
Definition rate_ok (a : writer_args) : Prop :=
  SFltb (S754_zero false) (wa_rate a) = true -> is_Some (period_of (wa_rate a)).

Lemma writer_post_keep (base : world) (w0 w w' : psmsgr_state_writer) (wd : world) :
  same_writer w0 w -> writer_post base w w' wd ->
  writer_ok w' /\ same_writer w0 w' /\ wd = writer_world base w'.
Proof.
  intros S0 (H & S & ->). split; [done |].
  split; [| by apply same_writer_world].
  destruct S0 as (? & ? & ? & ? & ?), S as (? & ? & ? & ? & ?). repeat split; congruence.
Qed.

Lemma wp_os_writer_step (base : world) (w0 w : psmsgr_state_writer) (count period seq next en : Z) :
  writer_ok w -> same_writer w0 w ->
  wp (writer_step strerror junk count period (Some w, seq, next)) en (writer_world base w)
    (fun x _ wd => exists w', writer_ok w' /\ same_writer w0 w' /\ wd = writer_world base w' /\
       match x with
       | inl (h, _, _) => h = Some w'
       | inr (h, st) => h = Some w' /\ exit_ok st
       end).
Proof.
  intros H S. unfold writer_step. apply wp_bind, wp_os; [done |]. intros [|] wd ->.
  { apply wp_ret. exists w. do 3 (split; [done |]). split; [done | by left]. }
  cbv zeta. apply wp_bind.
  assert (Hl : length (junk 4) = 4%nat) by (specialize (Hjunk 4 ltac:(lia)); lia).
  rewrite <- (length_encode_status (junk 4) (status_of seq) Hl).
  eapply wp_mono; [by apply wp_os_publish |]. intros [[rc h] gen] en1 wd (w1 & -> & Hp).
  destruct (writer_post_keep base w0 w w1 wd S Hp) as (H1 & S1 & ->). cbv beta iota.
  destruct (rc =? PSMSGR_OK); cbn [negb].
  - apply wp_bind, (wp_os_same (Print false _)); [done | done |]. intros [].
    destruct (seq =? count).
    { apply wp_ret. exists w1. do 3 (split; [done |]). split; [done | by left]. }
    apply wp_bind, (wp_os_same (SysSleepUntil _ _)); [done | by intros r w' -> |]. intros e.
    apply wp_ret. by exists w1.
  - apply wp_bind, wp_os_fail, wp_ret. exists w1. do 3 (split; [done |]).
    split; [done | by right; left].
Qed.

Lemma wp_os_motor_writer (lock_fuel fuel : nat) (opts : list (ascii * string)) (extra : bool)
    (a : writer_args) (en : Z) (base : world) :
  writer_options strtod opts writer_defaults = Some a -> string_arg (wa_dir a) -> rate_ok a ->
  wp (motor_writer strerror strtod junk lock_fuel fuel opts extra) en base
    (fun st _ w' => w' = base /\ exit_ok st).
Proof.
  intros E Hd Hr. unfold motor_writer. cbv zeta. rewrite E.
  destruct (extra || _) eqn:Eu; [apply wp_os_usage |].
  apply orb_false_elim in Eu as [_ Eu]. apply negb_false_iff in Eu.
  apply wp_bind. eapply wp_mono; [apply wp_os_writer_open; [by apply motor_options_arg | done] |].
  intros [rc [w|]] en1 wd Hw.
  2: { destruct Hw as [Hrc ->]. cbv beta iota. destruct (rc =? PSMSGR_OK) eqn:Erc; cbn [negb].
       - apply Z.eqb_eq in Erc. subst rc. exfalso. unfold open_code in Hrc. by intuition discriminate.
       - apply wp_os_fail. split; [done | by right; left]. }
  destruct Hw as (-> & Hok & Hown & _ & [hd ->]). cbn [Z.eqb PSMSGR_OK negb]. apply wp_bind.
  destruct (Hr Eu) as [p ->]. apply wp_ret, wp_bind, wp_os_clock. intros next _. apply wp_bind.
  apply (wp_loop (fun '(h, _, _) _ wd => exists w', writer_ok w' /\ same_writer w w' /\
    wd = writer_world (writer_base (with_head (p_blk (w_hdr w)) hd base) w) w' /\ h = Some w')); [done | |].
  - clear en1. intros [[h seq] nx] en1 wd (w1 & H1 & S1 & -> & ->).
    eapply wp_mono; [by apply (wp_os_writer_step _ w) |].
    intros [[[h s2] n2]|[h st]] en2 wd2 (w2 & H2 & S2 & -> & Hh); [by exists w2 |].
    destruct Hh as [-> Hst].
    destruct (same_writer_owns base _ _ S2 Hown) as [-> Hown2]. apply wp_bind, wp_os_writer_close; [done |]. intros en3. by apply wp_ret.
  - exists w. split; [done |]. by split; [repeat split |].
Qed.
Lemma writer_options_dir (l : list (ascii * string)) (a a' : writer_args) :
  string_arg (wa_dir a) -> Forall (fun x => cstring (snd x)) l ->
  writer_options strtod l a = Some a' -> string_arg (wa_dir a').
Proof.
  intros Ha Hl. revert a Ha. induction Hl as [|[c o] l Ho _ IH]; intros a Ha; cbn [writer_options];
    [by intros [= <-] |].
  destruct (c =? "d")%char; [by apply IH |].
  destruct (c =? "r")%char; [destruct (strtod o) as [v [|]]; [by apply IH | done] |].
  destruct (c =? "n")%char; [destruct (strtoull o) as [v [|]]; [by apply IH | done] | done].
Qed.

(** ** Properties *)

(** C23. The example programs are safe on any system.  motor_reader and
    motor_writer, from their options to their exit - for any bytes in the data
    file, any answer of any system call and any moment at which they are
    stopped - access live mappings only, use no struct that was not filled in
    (no info without a value, no status that was not read in full), release
    every descriptor, mapping and block, and exit with 0, 1 or 2.  The writer
    must be asked for a rate whose period fits in 64 bits: from 2^64 ns on the
    conversion in the code is undefined. *)
Theorem motor_programs_safe (wait_fuel lock_fuel fuel : nat) (opts : list (ascii * string))
    (extra : bool) (en : Z) (w : world) :
  Forall (fun x => cstring (snd x)) opts ->
  wp (motor_reader strerror junk wait_fuel fuel opts extra) en w
    (fun st _ w' => w' = w /\ exit_ok st) /\
  ((forall a, writer_options strtod opts writer_defaults = Some a -> rate_ok a) ->
   wp (motor_writer strerror strtod junk lock_fuel fuel opts extra) en w
     (fun st _ w' => w' = w /\ exit_ok st)).
Proof.
  intros Ho. split; [by apply wp_os_motor_reader |]. intros Hr.
  destruct (writer_options strtod opts writer_defaults) as [a|] eqn:E.
  - apply (wp_os_motor_writer lock_fuel fuel opts extra a); [done | | by apply Hr].
    by apply (writer_options_dir opts writer_defaults a).
  - unfold motor_writer. rewrite E. apply wp_os_usage.
Qed.
End safe.

(** ** The payload *)

Definition not_nan (b : Z) : Prop := b / 8388608 mod 256 = 255 -> b mod 8388608 = 0.

(** Every float is its bits again. *)
Lemma bits_float_bits (b : Z) :
  0 <= b < 4294967296 -> not_nan b -> bits_of_float (float_of_bits b) = b.
Proof.
  intros Hb Hn. unfold float_of_bits.
  assert (Es : (if Z.testbit b 31 then 2147483648 else 0) = b / 2147483648 * 2147483648).
  { rewrite Z.testbit_eqb by lia. change (2 ^ 31) with 2147483648.
    destruct (Z.eqb_spec (b / 2147483648 mod 2) 1); div_lia. }
  assert (E : b = b / 2147483648 * 2147483648 + (b / 8388608 mod 256) * 8388608 + b mod 8388608).
  { div_lia. }
  pose proof (Z.mod_pos_bound b 8388608 ltac:(lia)) as Hm.
  pose proof (Z.mod_pos_bound (b / 8388608) 256 ltac:(lia)) as He.
  unfold not_nan in Hn. set (m := b mod 8388608) in *. set (e := b / 8388608 mod 256) in *.
  destruct (Z.eqb_spec e 255) as [E1|E1].
  { rewrite (Hn E1). cbn [Z.eqb bits_of_float]. rewrite Es. lia. }
  destruct (Z.eqb_spec e 0) as [E0|E0].
  - destruct m as [|p|p] eqn:Ep; cbn [bits_of_float]; rewrite Es; [lia | | lia].
    destruct (Z.ltb_spec (Z.pos p) 8388608); lia.
  - destruct (m + 8388608) as [|p|p] eqn:Ep; [lia | | lia]. cbn [bits_of_float]. rewrite Es.
    destruct (Z.ltb_spec (Z.pos p) 8388608); lia.
Qed.

Definition status_in_range (s : motor_status) : Prop :=
  0 <= sequence s <= UINT64_MAX /\ 0 <= speed_rpm s < 4294967296 /\
  0 <= current_a s < 4294967296 /\ 0 <= temperature_c s < 4294967296.

Lemma field_bytes (l1 l3 : list Z) (off n : nat) (v : Z) :
  length l1 = off -> 0 <= v < 256 ^ Z.of_nat n -> field (l1 ++ le_bytes n v ++ l3) off n = v.
Proof.
  intros H1 Hv. unfold field. rewrite drop_app_length' by done.
  rewrite take_app_length' by (by rewrite length_le_bytes). rewrite le_val_bytes. by apply Z.mod_small.
Qed.

Lemma decode_encode (pad : list Z) (s : motor_status) :
  status_in_range s -> decode_status (encode_status pad s) = s.
Proof.
  destruct s as [q a b c]. unfold status_in_range, decode_status, encode_status, UINT64_MAX.
  cbn [sequence speed_rpm current_a temperature_c]. intros (Hq & Ha & Hb & Hc).
  f_equal.
  - apply (field_bytes [] _ 0 8); [done | cbn; lia].
  - apply (field_bytes (le_bytes 8 q) _ 8 4); [apply length_le_bytes | cbn; lia].
  - rewrite app_assoc. apply (field_bytes (le_bytes 8 q ++ le_bytes 4 a) _ 12 4);
      [by rewrite length_app, !length_le_bytes | cbn; lia].
  - rewrite 2!app_assoc. apply (field_bytes ((le_bytes 8 q ++ le_bytes 4 a) ++ le_bytes 4 b) _ 16 4);
      [by rewrite !length_app, !length_le_bytes | cbn; lia].
Qed.

(** The ramps, value by value: the bits fit and are printed as [text]. *)
Definition prints (k : nat) (b : Z) (text : string) : bool :=
  (0 <=? b) && (b <? 4294967296) && bool_decide (printf_float k b = text).

Lemma prints_mod (k : nat) (m : Z) (bits : Z -> Z) (text : Z -> string) (n : Z) :
  0 < m -> forallb (fun i => prints k (bits i) (text i)) (seqZ 0 m) = true ->
  0 <= bits (n mod m) < 4294967296 /\ printf_float k (bits (n mod m)) = text (n mod m).
Proof.
  intros Hm H. rewrite forallb_forall in H.
  assert (Hi : prints k (bits (n mod m)) (text (n mod m)) = true).
  { apply H, list_elem_of_In, elem_of_seqZ. pose proof (Z.mod_pos_bound n m Hm). lia. }
  unfold prints in Hi. bool_hyps. split; [lia | done].
Qed.

Definition ramp_at (a : Z) (step : spec_float) (k : Z) : Z :=
  bits_of_float (float_add (float_of a) (float_mul (float_of k) step)).

Definition speed_at := ramp_at 1500 (float_of 5).
Definition current_at := ramp_at 2 (float_div (float_of 1) (float_of 4)).
Definition temperature_at := ramp_at 40 (float_div (float_of 1) (float_of 2)).

Lemma speed_line (n : Z) :
  0 <= speed_at (n mod 100) < 4294967296 /\
  printf_float 1 (speed_at (n mod 100)) = (dec (1500 + 5 * (n mod 100)) ++ ".0")%string.
Proof. by apply (prints_mod 1 100 speed_at (fun k => (dec (1500 + 5 * k) ++ ".0")%string)). Qed.

Lemma current_line (n : Z) :
  0 <= current_at (n mod 8) < 4294967296 /\
  printf_float 2 (current_at (n mod 8)) =
    (dec (2 + n mod 8 / 4) ++ "." ++ dec0 2 (n mod 8 mod 4 * 25))%string.
Proof.
  by apply (prints_mod 2 8 current_at (fun k => (dec (2 + k / 4) ++ "." ++ dec0 2 (k mod 4 * 25))%string)).
Qed.

Lemma temperature_line (n : Z) :
  0 <= temperature_at (n mod 40) < 4294967296 /\
  printf_float 1 (temperature_at (n mod 40)) =
    (dec (40 + n mod 40 / 2) ++ "." ++ dec0 1 (n mod 40 mod 2 * 5))%string.
Proof.
  by apply (prints_mod 1 40 temperature_at
    (fun k => (dec (40 + k / 2) ++ "." ++ dec0 1 (k mod 2 * 5))%string)).
Qed.

Lemma status_of_ramps (seq : Z) :
  status_of seq = {| sequence := seq; speed_rpm := speed_at (seq mod 100);
                     current_a := current_at (seq mod 8); temperature_c := temperature_at (seq mod 40) |}.
Proof. reflexivity. Qed.

Lemma status_of_range (seq : Z) : 0 <= seq <= UINT64_MAX -> status_in_range (status_of seq).
Proof.
  intros H. split; [done |]. rewrite status_of_ramps. cbn [speed_rpm current_a temperature_c].
  split; [apply (speed_line seq) | split; [apply (current_line seq) | apply (temperature_line seq)]].
Qed.

(** C25. The bytes of a motor status mean what the writer says they mean.  For
    every sequence number and whatever the padding holds, the payload has 24
    bytes and the reader's view of it is the writer's struct; the floats it
    holds are the exact figures - no rounding anywhere - and the line both
    programs print is [seq=N speed=1500 + 5 (N mod 100) rpm current=2 + (N mod
    8)/4 A temperature=40 + (N mod 40)/2 C] in decimal. *)
Theorem motor_roundtrip (pad : list Z) (seq : Z) :
  length pad = 4%nat -> 0 <= seq <= UINT64_MAX ->
  let bs := encode_status pad (status_of seq) in
  Z.of_nat (length bs) = sizeof_motor_status /\ decode_status bs = status_of seq /\
  status_line (decode_status bs) =
    ("seq=" ++ dec seq ++ " speed=" ++ dec (1500 + 5 * (seq mod 100)) ++ ".0 rpm current=" ++
     dec (2 + seq mod 8 / 4) ++ "." ++ dec0 2 (seq mod 8 mod 4 * 25) ++ " A temperature=" ++
     dec (40 + seq mod 40 / 2) ++ "." ++ dec0 1 (seq mod 40 mod 2 * 5) ++ " C" ++
     char_str NL)%string.
Proof.
  intros Hp Hs bs. split; [by apply length_encode_status |].
  assert (E : decode_status bs = status_of seq) by by apply decode_encode, status_of_range.
  split; [exact E |]. rewrite E, status_of_ramps. unfold status_line.
  cbn [sequence speed_rpm current_a temperature_c].
  rewrite (proj2 (speed_line seq)), (proj2 (current_line seq)), (proj2 (temperature_line seq)).
  by rewrite !string_app_assoc.
Qed.

(** ** Witnesses *)

Lemma motor_programs_safe_witness :
  let strtod (s : string) := if (s =? "50")%string then (double_of 50, true) else (double_of 0, false) in
  let junk n := replicate (Z.to_nat n) 255 in
  writer_options strtod [("r"%char, "50"%string)] writer_defaults =
    Some {| wa_dir := None; wa_rate := double_of 50; wa_count := 0 |} /\
  wp (motor_writer (C := config64) (fun _ => "error") strtod junk 3 100 [("r"%char, "50"%string)] false) 0 empty_world
    (fun st _ w' => w' = empty_world /\ exit_ok st).
Proof.
  intros strtod junk. split; [reflexivity |].
  apply (motor_programs_safe (C := config64) (fun _ => "error"%string) strtod junk
    ltac:(cbn; lia) ltac:(intros n Hn; unfold junk; rewrite length_replicate; lia) 3 3 100
    [("r"%char, "50"%string)] false 0 empty_world).
  - constructor; [by apply cstring_lit | constructor].
  - intros a [= <-] _. exists 20000000. reflexivity.
Defined.

Lemma motor_roundtrip_witness :
  status_line (decode_status (encode_status [1; 2; 3; 4] (status_of 107))) =
  ("seq=107 speed=1535.0 rpm current=2.75 A temperature=53.5 C" ++ char_str NL)%string.
Proof.
  destruct (motor_roundtrip [1; 2; 3; 4] 107 eq_refl ltac:(unfold UINT64_MAX; lia)) as (_ & _ & ->).
  reflexivity.
Defined.
