(* ===== verification/MotorDelivery.v ===== *)
(** * From motor_writer to motor_reader

    Both programs on one channel, on the memory model of Memory.v: what the
    writer's loop publishes and what the reader's loop shows. *)
From S2P Require Import Prelude Prog Common Layout Names Options Writer Reader Channel Text.
From S2P Require Import Memory Protocol History Published Seqlock WriterProof Session Delivery.
From S2P Require Import Opened Motor MotorProof.
#[local] Open Scope list_scope.
#[local] Open Scope Z_scope.

(** The value of a motor status: number [n] of its writer. *)
Definition carries (n : Z) (v : value) : Prop :=
  0 <= n <= UINT64_MAX /\ v_length v = sizeof_motor_status /\
  exists pad, length pad = 4%nat /\ v_data v = encode_status pad (status_of n).

(** An info comes with OK or TOOSMALL, and TOOSMALL with a longer value. *)
Definition info_says (sz : Z) (x : rresult) : Prop :=
  let '(rc, _, info) := x in
  match info with
  | Some i => rc = PSMSGR_OK \/ rc = PSMSGR_E_TOOSMALL /\ sz < i_length i
  | None => rc <> PSMSGR_OK /\ rc <> PSMSGR_E_TOOSMALL
  end.

Lemma any_read_attempt {C : Config} (r : psmsgr_state_reader) (sz en : Z) (buf : list Z) :
  wp (HS := any_sem) (read_attempt r sz true buf) en tt
    (fun x _ _ => match x with inl _ => True | inr x => info_says sz x end).
Proof.
  unfold read_attempt. apply wp_any_skip. intros latest en1.
  destruct (latest =? PSMI_LATEST_NONE); [by apply wp_ret |].
  destruct (negb _); [by apply wp_ret |]. apply wp_any_skip. intros q1 en2.
  destruct (_ && _); [| by apply wp_ret]. apply wp_any_skip. intros mb en3. cbv zeta.
  apply wp_any_skip. intros b en4. do 2 (apply wp_any_skip; intros ? ?).
  destruct (_ || _); [| by apply wp_ret]. destruct (_ <? s_length _); [by apply wp_ret |].
  apply wp_ret. cbn [negb orb info_says i_length].
  destruct (Z.leb_spec (s_length (decode_slot mb)) sz); [by left | by right].
Qed.

Lemma any_read_latest {C : Config} (r : psmsgr_state_reader) (sz en : Z) (buf : list Z) :
  wp (HS := any_sem) (read_latest r buf sz true) en tt (fun x _ _ => info_says sz x).
Proof.
  unfold read_latest. generalize 0 as attempt. revert buf en.
  induction READ_RETRIES as [|n IH]; intros buf en attempt; cbn [read_retry]; [by apply wp_ret |].
  apply wp_bind. eapply wp_mono; [apply any_read_attempt |]. intros [b|x] en1 [] H; [| by apply wp_ret].
  apply wp_any_skip. intros _ en2. apply IH.
Qed.

(** What every step keeps, a program keeps. *)
Lemma wp_keep {S A : Type} `{HS : Sem S} (P : S -> Prop) (m : prog A) (en : Z) (s : S)
    (Q : A -> Z -> S -> Prop) :
  (forall e s r s', P s -> sem_step e s r s' -> P s') -> P s -> wp m en s Q ->
  wp m en s (fun a en' s' => P s' /\ Q a en' s').
Proof.
  intros Hstep. unfold wp. generalize (m en) as p. intros p. revert s.
  induction p as [[a e] | e k IH |]; intros s HP HQ; cbn in *; [by split | | done].
  split; [apply HQ |]. intros r s' Hs. apply IH; [by eapply Hstep | by apply HQ].
Qed.

Section channel.
Context {C : Config} (strerror : Z -> string) (junk : Z -> list Z).
Context (Hjunk : forall n, 0 <= n -> Z.of_nat (length (junk n)) = n).
Context (g : geometry) (init : mem) (blk size : Z).

(** Only motor statuses have been published. *)
Definition motor_log (log : list wev) : Prop :=
  forall j v, published g init log j = Some v -> exists n, carries n v.

(** The reader's machine when the writers of the file are motor_writers. *)
Definition motor_grow (log log' : list wev) : Prop :=
  later g init blk size log log' /\ motor_log log'.
Definition motor_reader_of_file : Sem rstate := reader_sem init blk size motor_grow.

(** ** The reader *)

Section reader.
Context (F : data_file g init size) (Hhook : psmi_test_skip_seq_recheck = false).
#[local] Existing Instance motor_reader_of_file.

Lemma motor_grow_ext (log log' : list wev) :
  motor_grow log log' -> exists ext, log' = log ++ ext /\ accepted g init log'.
Proof. intros [H _]. exact (later_grow g init blk size F log log' H). Qed.

Lemma motor_grow_live (log log' : list wev) (t : nat) :
  motor_grow log log' -> (t <= length log')%nat ->
  Z.land (word (mem_at init log' t) HOff.state) PSMI_STATE_RETIRED = 0.
Proof. intros [H _] Ht. exact (later_live g init blk size log log' t H Ht). Qed.

(** On a channel of the right type the check is one of the length. *)
Lemma wp_payload_ok (r : psmsgr_state_reader) (i : psmsgr_state_info) (en : Z) (s : rstate) :
  attached_to g blk r -> rinv g init s -> r_payload_type r = MOTOR_STATUS_V1 ->
  wp (payload_ok junk (Some r) i) en s (fun '(h, ok) _ s' =>
    h = Some r /\ ok = (i_length i =? sizeof_motor_status) /\ rext g init s s').
Proof.
  intros Hr Hs Ht. unfold payload_ok, wrong_type. apply wp_bind.
  assert (Hk : forall s' en', rext g init s s' -> wp (
    if negb (i_length i =? sizeof_motor_status) then
      call (Print true ("motor_reader: motor: payload of " ++ dec (i_length i) ++
        " bytes, expected 24" ++ char_str NL)%string) ;;;
      ret (Some r, false)
    else ret (Some r, true)) en' s' (fun '(h, ok) _ s' =>
      h = Some r /\ ok = (i_length i =? sizeof_motor_status) /\ rext g init s s')).
  { intros s' en' Hx. destruct (i_length i =? sizeof_motor_status); cbn [negb]; [by apply wp_ret |].
    apply wp_bind, wp_call; [done |]. intros [] s2 (log & Hgr & ->). apply wp_ret.
    do 2 (split; [done |]). eapply rext_trans; [exact Hx |].
    destruct Hx as [Hi _]. pose proof Hi as (_ & Hc & Ha).
    destruct (motor_grow_ext _ _ Hgr) as (ext & El & _).
    assert (length (rs_log s') <= length log)%nat by (rewrite El, length_app; lia).
    apply (grow_rext g init motor_grow motor_grow_ext); [done | done | lia | lia]. }
  destruct (Z.land (i_flags i) PSMSGR_INFO_ATTACHED =? 0).
  { apply wp_ret. cbv beta iota. apply Hk, rext_refl. done. }
  unfold psmsgr_state_describe, psmsgr_state_describe_sized. apply wp_bind.
  change (sizeof_desc =? 0) with false. cbn match.
  apply wp_bind. eapply wp_mono.
  { exact (wp_reader_sync g (df_geometry _ _ _ F) init blk size (df_size _ _ _ F)
      motor_grow motor_grow_ext motor_grow_live r en s Hr Hs). }
  intros x en1 s1 (-> & -> & Hx). cbn [Z.eqb PSMSGR_OK negb]. cbv zeta.
  change (sizeof_desc <=? sizeof_desc) with true. cbn match. apply wp_ret, wp_ret.
  cbv beta iota.
  assert (Hd : field (take (Z.to_nat sizeof_desc) (encode_desc r) ++
      drop (Z.to_nat sizeof_desc) (junk sizeof_desc)) 8 4 = MOTOR_STATUS_V1).
  { assert (El : length (encode_desc r) = 16%nat) by (unfold encode_desc; by rewrite !length_app, !length_le_bytes).
    change (Z.to_nat sizeof_desc) with 16%nat. rewrite take_ge by lia.
    rewrite field_app_l by lia. unfold encode_desc. rewrite app_assoc.
    rewrite (field_bytes (le_bytes 4 (r_capacity r) ++ le_bytes 4 (r_slot_count r)) _ 8 4);
      [done | by rewrite length_app, !length_le_bytes | rewrite Ht; unfold MOTOR_STATUS_V1; cbn; lia]. }
  rewrite Hd. rewrite Z.eqb_refl. apply (Hk s1 en Hx).
Qed.

(** The read: what it learns, the handle it leaves. *)
Lemma wp_motor_read (r : psmsgr_state_reader) (buf : list Z) (sz en : Z) (s : rstate) :
  attached_to g blk r -> rinv g init s -> 0 <= sz <= Z.of_nat (length buf) ->
  wp (psmsgr_state_read (Some r) (Some buf) sz false) en s
    (fun '(h, x) _ s' => exists r', h = Some r' /\ attached_to g blk r' /\
       r_payload_type r' = r_payload_type r /\ rext g init s s' /\ info_says sz x /\
       buf_ok sz buf (snd (fst x)) /\ read_outcome g init true sz (info_flags r) s s' x).
Proof.
  intros Hr Hs Hsz. unfold psmsgr_state_read. cbn [orb]. change (default [] (Some buf)) with buf.
  pose proof F as [Hg Hfresh Hsize _ _]. apply wp_bind. eapply wp_mono.
  { exact (wp_reader_sync g Hg init blk size Hsize motor_grow motor_grow_ext motor_grow_live r en s Hr Hs). }
  intros x en1 s1 (-> & -> & Hx1). cbn [Z.eqb negb PSMSGR_OK]. apply wp_bind.
  eapply wp_mono.
  { apply wp_any_and; [apply any_read_latest |].
    apply (wp_read_latest g Hg init Hfresh blk size Hsize motor_grow motor_grow_ext Hhook);
      [done | apply Hx1 | lia | intros _; lia]. }
  intros [[rc b] info] en2 s2 (Hinfo & -> & Hx2 & Hb & Ho).
  assert (Hx : rext g init s s2) by (by eapply rext_trans).
  apply (read_outcome_later g init true sz 0 s s1) in Ho;
    [| by eapply rext_cur | by eapply quiet_sub].
  destruct ((rc =? PSMSGR_OK) || (rc =? PSMSGR_E_TOOSMALL)) eqn:E.
  - pose proof (attached_announce g blk r info Hr).
    pose proof (announce_outcome g init r _ _ _ _ _ _ _ Ho) as Ho'.
    assert (Hi : info_says sz (rc, b, snd (announce r info))).
    { unfold announce. destruct (r_announce r); [| done]. by destruct info. }
    assert (Ht : r_payload_type (fst (announce r info)) = r_payload_type r).
    { unfold announce. by destruct (r_announce r). }
    destruct (announce r info) as [r' info']. apply wp_ret. by exists r'.
  - apply wp_ret. apply orb_false_iff in E as [E1 E2]. apply Z.eqb_neq in E1, E2.
    exists r. do 6 (split; [done |]). by apply outcome_flags.
Qed.

(** What the reader may show after a read that began in [s]. *)
Definition shows (s s' : rstate) (x : shown) : Prop :=
  x = Again /\ ((forall j, (j < rs_cur s)%nat -> ~ is_Some (published g init (rs_log s') j)) \/
                ~ quiet s s') \/
  exists j v n, published g init (rs_log s') j = Some v /\ carries n v /\
    (forall j', (j' < rs_cur s)%nat -> is_Some (published g init (rs_log s') j') -> (j' <= j)%nat) /\
    (commits_since g (rs_log s') j (v_slot v) < 134217728 ->
     x = Value (v_generation v) (status_of n)).

Lemma decode_carried (n : Z) (v : value) (b : list Z) :
  carries n v -> Z.of_nat (length b) = sizeof_motor_status ->
  take (Z.to_nat (v_length v)) b = v_data v -> decode_status b = status_of n.
Proof.
  intros (Hn & Hl & pad & Hp & Hd) Hb Ht. rewrite Hl, take_ge in Ht by lia.
  rewrite Ht, Hd. by apply decode_encode, status_of_range.
Qed.

(** What the reader's loop does with one value: [s1] is when the read was
    done. *)
Definition next_post (r : psmsgr_state_reader) (s : rstate)
    (hx : option psmsgr_state_reader * shown) (s' : rstate) : Prop :=
  exists r' s1, fst hx = Some r' /\ attached_to g blk r' /\
    r_payload_type r' = r_payload_type r /\ rext g init s s1 /\ rext g init s1 s' /\
    shows s s1 (snd hx).

Lemma wp_reader_fail (who : string) (rc en : Z) (s : rstate) (Q : Z -> Z -> rstate -> Prop) :
  rinv g init s -> (forall s', rext g init s s' -> Q 1 en s') -> wp (fail strerror who rc) en s Q.
Proof.
  intros Hi HQ. unfold fail. apply wp_bind, wp_get_errno, wp_bind, wp_call; [done |].
  intros [] s2 (log & Hgr & ->). apply wp_ret, HQ.
  pose proof Hi as (_ & Hc & Ha). destruct (motor_grow_ext _ _ Hgr) as (ext & El & _).
  assert (length (rs_log s) <= length log)%nat by (rewrite El, length_app; lia).
  apply (grow_rext g init motor_grow motor_grow_ext); [done | done | lia | lia].
Qed.

Lemma motor_step (e : ev) (s : rstate) (r : resp e) (s' : rstate) :
  motor_log (rs_log s) -> sem_step e s r s' -> motor_log (rs_log s').
Proof.
  intros _ H. destruct e; cbn in H;
    try (destruct H as (log & t & [_ Hm] & _ & _ & ->); by rewrite rs_load_log);
    try (destruct H as (log & [_ Hm] & ->); exact Hm);
    try (destruct H as (log & t & [_ Hm] & _ & _ & ->); exact Hm).
  match goal with o : mo |- _ => destruct o end; destruct H as (log & [_ Hm] & ->); exact Hm.
Qed.

(** A read that returned an info: its checks, and what is shown. *)
Lemma wp_checked (r : psmsgr_state_reader) (i : psmsgr_state_info) (b : list Z) (rc en : Z)
    (s : rstate) :
  attached_to g blk r -> rinv g init s -> r_payload_type r = MOTOR_STATUS_V1 ->
  info_says sizeof_motor_status (rc, b, Some i) ->
  wp (let* (r, ok) := payload_ok junk (Some r) i in
      if negb ok then ret (r, Done 1)
      else (if rc =? PSMSGR_OK then ret tt else undefined) ;;;
           ret (r, Value (i_generation i) (decode_status b))) en s
    (fun '(h, x) _ s' => h = Some r /\ rext g init s s' /\
       (i_length i = sizeof_motor_status -> x = Value (i_generation i) (decode_status b))).
Proof.
  intros Hr Hs Ht Hi. apply wp_bind. eapply wp_mono; [by apply wp_payload_ok |].
  intros [h ok] en1 s1 (-> & -> & Hx).
  destruct (Z.eqb_spec (i_length i) sizeof_motor_status) as [E|E]; cbn [negb].
  - destruct Hi as [-> | [-> Hl]]; [| lia]. cbn [Z.eqb PSMSGR_OK]. by apply wp_bind, wp_ret, wp_ret.
  - by apply wp_ret.
Qed.

Lemma wp_next_value (r : psmsgr_state_reader) (en : Z) (s : rstate) :
  attached_to g blk r -> rinv g init s -> r_payload_type r = MOTOR_STATUS_V1 ->
  motor_log (rs_log s) ->
  wp (next_value strerror junk (Some r)) en s (fun hx _ s' => next_post r s hx s').
Proof.
  intros Hr Hs Ht Hm. unfold next_value. apply wp_bind.
  assert (Hj : Z.of_nat (length (junk sizeof_motor_status)) = sizeof_motor_status) by by apply Hjunk.
  eapply wp_mono.
  { apply (wp_keep (fun s => motor_log (rs_log s))); [apply motor_step | exact Hm |].
    apply wp_motor_read; [done | done | rewrite Hj; done]. }
  intros [h [[rc b] info]] en1 s1 (Hm1 & r' & -> & Hr' & Ht' & Hx & Hi & [Hbl _] & Ho). cbn [fst snd] in *.
  rewrite Ht in Ht'. pose proof (proj1 Hx) as Hs1.
  assert (Hret : forall en' x, shows s s1 x -> wp (ret (Some r', x)) en' s1 (fun hx _ s' => next_post r s hx s')).
  { intros en' x Hsh. apply wp_ret. exists r', s1. rewrite Ht.
    do 4 (split; [done |]). split; [by apply rext_refl | done]. }
  inversion Ho as [b' Hn | rc' b' i' j v H1 H2 H3 H4 H5 | b' Hn]; subst.
  - apply Hret. left. by split; [| left].
  - destruct (Hm1 j v H1) as [n Hc].
    assert (Hsh : forall x, (commits_since g (rs_log s1) j (v_slot v) < 134217728 ->
      x = Value (v_generation v) (status_of n)) -> shows s s1 x).
    { intros x Hx'. right. by exists j, v, n. }
    destruct ((rc =? PSMSGR_E_NODATA) || (rc =? PSMSGR_E_BUSY)) eqn:E1.
    { exfalso. destruct H4 as [-> | [-> | ->]]; discriminate. }
    destruct info as [i|].
    + destruct (negb (rc =? PSMSGR_OK) && negb (rc =? PSMSGR_E_TOOSMALL)) eqn:E2.
      { exfalso. cbn in Hi. destruct Hi as [-> | [-> _]]; discriminate. }
      eapply wp_mono; [apply (wp_checked r' i b rc); done |].
      intros [h x] en2 s2 (-> & Hx2 & Hval). exists r', s1. rewrite Ht.
      do 5 (split; [done |]). apply Hsh. intros Hlt.
      destruct (H5 Hlt) as (i0 & [= <-] & (Eg & El & _) & _ & Hrc). destruct Hc as (Hn & Hlen & Hpad).
      rewrite Hlen in Hrc. change (true && negb (sizeof_motor_status <=? sizeof_motor_status)) with false in Hrc.
      destruct Hrc as [_ Hd]. cbn [snd]. rewrite Hval by (by rewrite El). rewrite Eg. f_equal.
      apply (decode_carried n v); [by split | lia | rewrite Hlen; by apply Hd].
    + assert (Enot : negb (rc =? PSMSGR_OK) && negb (rc =? PSMSGR_E_TOOSMALL) = true).
      { cbn in Hi. destruct (Z.eqb_spec rc PSMSGR_OK), (Z.eqb_spec rc PSMSGR_E_TOOSMALL); tauto. }
      rewrite Enot. apply wp_bind, wp_reader_fail; [done |]. intros s2 Hx2. apply wp_ret.
      exists r', s1. rewrite Ht. do 5 (split; [done |]). apply Hsh. intros Hlt.
      destruct (H5 Hlt) as (i0 & [=] & _).
  - apply Hret. left. by split; [| right].
Qed.
End reader.

(** ** The writer *)

Lemma motor_log_spec (log : list wev) :
  motor_log log <-> Forall (fun v => exists n, carries n v) (publications g init log).
Proof.
  unfold motor_log, publications. rewrite Forall_forall. split.
  - intros H v (j & Hj & Hv)%list_elem_of_omap. by apply (H j).
  - intros H j v Hv. apply H, list_elem_of_omap. exists j. split; [| done].
    apply elem_of_seq. unfold published in Hv. destruct (log !! j) eqn:E; [| done].
    apply lookup_lt_Some in E. lia.
Qed.

Section writer.
Context (F : data_file g init size).
#[local] Existing Instance writer_of_file.

(** The handle of a motor_writer between two values. *)
Definition motor_handle (w : psmsgr_state_writer) (log : list wev) : Prop :=
  winv g init blk w log /\ w_open_slot w = PSMI_LATEST_NONE /\ w_capacity w = sizeof_motor_status.

(** One pass: stopped before it published, or one more value. *)
Definition step_published (w : psmsgr_state_writer) (seq : Z) (log log' : list wev)
    (x : (option psmsgr_state_writer * Z * Z) + (option psmsgr_state_writer * Z)) : Prop :=
  log' = log /\ x = inr (Some w, 0) \/
  exists w' v, motor_handle w' log' /\ carries seq v /\ v_generation v = w_gen w /\
    publications g init log' = publications g init log ++ [v] /\
    (x = inr (Some w', 0) \/ exists next, x = inl (Some w', u64 (seq + 1), next)).

Lemma wp_motor_step (w : psmsgr_state_writer) (count period seq next en : Z) (log : list wev) :
  motor_handle w log -> 0 <= seq <= UINT64_MAX ->
  wp (HS := writer_of_file g init blk size) (writer_step strerror junk count period (Some w, seq, next)) en log
    (fun x _ log' => step_published w seq log log' x).
Proof.
  intros (Hw & Ho & Hc) Hseq. pose proof F as [Hg Hfresh Hsize _ _]. unfold writer_step.
  apply wp_bind, wp_call; [split; [done | apply Hw] |]. intros [|] log1 [_ ->].
  { apply wp_ret. by left. }
  cbv zeta. apply wp_bind.
  assert (Hj : length (junk 4) = 4%nat) by (specialize (Hjunk 4 ltac:(lia)); lia).
  pose proof (length_encode_status (junk 4) (status_of seq) Hj) as Hl. rewrite <- Hl.
  apply (wp_state_publish g Hg init Hfresh blk size Hsize); [done | done | lia |].
  intros w' log' ts en1 Hw' Ho' Hg' Hts Hp. cbn [Z.eqb PSMSGR_OK negb].
  assert (Hpub : forall x,
    (x = inr (Some w', 0) \/ exists next, x = inl (Some w', u64 (seq + 1), next)) ->
    step_published w seq log log' x).
  { intros x Hx. right. eexists w', _. split; [| split; [| split; [| split; [exact Hp | exact Hx]]]].
    - split; [done |]. split; [done |]. rewrite <- Hc. by rewrite (wi_cap _ _ _ _ _ Hw'), (wi_cap _ _ _ _ _ Hw).
    - split; [done |]. split; [exact Hl |]. by exists (junk 4).
    - done. }
  apply wp_bind, wp_call; [split; [done | apply Hw'] |]. intros [] log2 [_ ->].
  destruct (seq =? count); [apply wp_ret, Hpub; by left |].
  apply wp_bind, wp_call; [split; [done | apply Hw'] |]. intros e log2 [_ ->].
  apply wp_ret, Hpub. right. by eexists.
Qed.
End writer.
End channel.

(** ** Properties *)

Section properties.
Context {C : Config} (strerror : Z -> string) (junk : Z -> list Z).
Context (Hjunk : forall n, 0 <= n -> Z.of_nat (length (junk n)) = n).
Context (g : geometry) (init : mem) (blk size : Z).

(** C26. What motor_writer publishes.  A pass of its loop with sequence number
    [seq], on a handle of the capacity it asks for, either finds the stop flag
    set and leaves the channel alone, or publishes exactly one value: under
    the handle's generation, the 24 bytes of status number [seq]; then it goes
    on with the next number or, at the count, ends with status 0.  So a
    channel that carries motor statuses only keeps doing so. *)
Theorem motor_writer_publishes (w : psmsgr_state_writer) (count period seq next en : Z) (log : list wev) :
  data_file g init size -> motor_handle g init blk w log -> 0 <= seq <= UINT64_MAX ->
  wp (HS := writer_of_file g init blk size)
    (writer_step strerror junk count period (Some w, seq, next)) en log
    (fun x _ log' => step_published g init blk w seq log log' x /\
                     (motor_log g init log -> motor_log g init log')).
Proof.
  intros F Hw Hs. eapply wp_mono; [by apply (wp_motor_step strerror junk Hjunk g init blk size F) |].
  intros x en' log' H. split; [exact H |]. intros Hm.
  destruct H as [[-> _] | (w' & v & _ & Hv & _ & Hp & _)]; [done |].
  rewrite motor_log_spec in *. rewrite Hp. apply Forall_app. split; [done |].
  constructor; [by exists seq | constructor].
Qed.

(** C15. What motor_reader shows.  While the channel's writers are
    motor_writers - any number of them, one after the other, each free to
    crash anywhere - a pass of the reader's loop that gets to a read ends with
    nothing to show only if nothing was published as far as the reader knew or
    a writer stored meanwhile; else a published value stands behind it, no
    older than the newest the reader had seen, and what is printed is the
    status number the writer gave it, under the value's generation - unless
    its slot was reused 2^27 times during the read.  The check of the payload
    type, which reads the channel's description again, passes. *)
Theorem motor_reader_shows (r : psmsgr_state_reader) (en : Z) (s : rstate) :
  data_file g init size -> psmi_test_skip_seq_recheck = false ->
  attached_to g blk r -> r_payload_type r = MOTOR_STATUS_V1 ->
  reader_state g init blk size s -> motor_log g init (rs_log s) ->
  wp (HS := motor_reader_of_file g init blk size) (next_value strerror junk (Some r)) en s
    (fun hx _ s' => next_post g init blk r s hx s').
Proof.
  intros F Hh Hr Ht Hs Hm. apply wp_next_value; try done. by apply (reader_state_rinv g init blk size F).
Qed.
End properties.

(** ** Witnesses: a new motor channel *)

#[local] Existing Instance config64.

Definition motor_geometry : geometry := {| g_slots := 3; g_stride := 64; g_cap := 24 |}.

Definition motor_init : mem := fun a =>
  if a <? 128 then encode_header (fresh_header (motor_options None) 5) !!! Z.to_nat a else 0.

Lemma motor_data_file : data_file motor_geometry motor_init 320.
Proof.
  split.
  - split; [cbn; lia | split; [cbn; lia | reflexivity]].
  - split; [reflexivity |]. intros i Hi. simpl in Hi.
    assert (i = 0 \/ i = 1 \/ i = 2) as [-> | [-> | ->]] by lia; reflexivity.
  - reflexivity.
  - reflexivity.
  - reflexivity.
Qed.

Definition motor_w : psmsgr_state_writer :=
  writer_attach (w_set_lock (zero_writer 8) 5) (map_ptr 1 0) 320 (header0 motor_init) PSMI_LATEST_NONE 41.

Lemma motor_w_handle : motor_handle motor_geometry motor_init 1 motor_w [].
Proof.
  split; [| done].
  by apply (created_winv motor_geometry motor_init 1 320 (df_header _ _ _ motor_data_file)).
Qed.

Definition motor_junk (n : Z) : list Z := replicate (Z.to_nat n) 7.

Lemma motor_junk_length (n : Z) : 0 <= n -> Z.of_nat (length (motor_junk n)) = n.
Proof. intros H. unfold motor_junk. rewrite length_replicate. lia. Qed.

Lemma motor_writer_publishes_witness :
  motor_handle motor_geometry motor_init 1 motor_w [] /\
  wp (HS := writer_of_file motor_geometry motor_init 1 320)
    (writer_step (fun _ => "error") motor_junk 0 100000000 (Some motor_w, 1, 5)) 0 []
    (fun x _ log' => step_published motor_geometry motor_init 1 motor_w 1 [] log' x /\
       (motor_log motor_geometry motor_init [] -> motor_log motor_geometry motor_init log')).
Proof.
  split; [exact motor_w_handle |].
  apply (motor_writer_publishes (fun _ => "error"%string) motor_junk motor_junk_length
    motor_geometry motor_init 1 320 motor_w 0 100000000 1 5 0 []);
    [exact motor_data_file | exact motor_w_handle | unfold UINT64_MAX; lia].
Defined.

Definition motor_r : psmsgr_state_reader := {|
  r_block := 9; r_hdr := Some {| p_blk := 1; p_off := 0 |}; r_map_size := 320;
  r_slot_count := 3; r_slot_stride := 64; r_capacity := 24; r_payload_type := MOTOR_STATUS_V1;
  r_config_flags := 0; r_announce := true; r_dev := 1; r_ino := 2;
  r_paths := {| pt_block := 0; pt_dir := ""; pt_data := ""; pt_lock := ""; pt_data_base := "" |} |}.

Definition motor_s : rstate := {| rs_log := []; rs_cur := 0; rs_acq := 0 |}.

Lemma motor_reader_shows_witness :
  reader_state motor_geometry motor_init 1 320 motor_s /\
  wp (HS := motor_reader_of_file motor_geometry motor_init 1 320)
    (next_value (fun _ => "error") motor_junk (Some motor_r)) 0 motor_s
    (fun hx _ s' => next_post motor_geometry motor_init 1 motor_r motor_s hx s').
Proof.
  assert (Hs : reader_state motor_geometry motor_init 1 320 motor_s).
  { split; [| done]. exists (Some motor_w). by apply written_created. }
  split; [exact Hs |].
  apply (motor_reader_shows (fun _ => "error"%string) motor_junk motor_junk_length
    motor_geometry motor_init 1 320); [exact motor_data_file | reflexivity | done | reflexivity | exact Hs |].
  intros j v Hv. by destruct j.
Defined.
