(* ===== verification/BenchDelivery.v ===== *)
(** * What the wake-up run counts

    The benchmark's reader on the memory model of Memory.v, while any writers
    publish: the samples of the run are distinct values in the order they were
    published, and [missed] counts the values between them. *)
From S2P Require Import Prelude Prog Common Layout Names Options Writer Reader Channel.
From S2P Require Import Memory Protocol History Published Seqlock WriterProof Session Delivery.
From S2P Require Import Example Opened MotorDelivery Bench BenchProof.
#[local] Open Scope list_scope.
#[local] Open Scope Z_scope.

(** ** Generations *)

(** The generations wrapped within the [n] values after [gen]. *)
Definition wraps (gen n : Z) : Z := if UINT32_MAX <? gen + n then 1 else 0.

Lemma wraps_add (gen : Z) (n m : nat) :
  1 <= gen <= UINT32_MAX -> Z.of_nat n + Z.of_nat m < UINT32_MAX ->
  wraps gen (Z.of_nat n) + wraps (Nat.iter n gen_succ gen) (Z.of_nat m) =
  wraps gen (Z.of_nat n + Z.of_nat m).
Proof.
  intros Hg Hn. rewrite gen_iter by done. unfold wraps, UINT32_MAX in *.
  assert (E : (gen - 1 + Z.of_nat n) mod 4294967295 =
    gen - 1 + Z.of_nat n - (if 4294967295 <? gen + Z.of_nat n then 4294967295 else 0)).
  { destruct (Z.ltb_spec 4294967295 (gen + Z.of_nat n)); [| rewrite Z.mod_small; lia].
    symmetry. apply (Z.mod_unique _ _ 1); lia. }
  rewrite E. repeat match goal with |- context [?a <? ?b] => destruct (Z.ltb_spec a b) end; lia.
Qed.

(** The values read, by their number: first [k0], then [ks], each later than
    the one before; the last one is [k]. *)
Inductive reads (k0 : nat) : list nat -> nat -> Prop :=
  | reads_none : reads k0 [] k0
  | reads_one ks k k' : reads k0 ks k -> (k < k')%nat -> reads k0 (ks ++ [k']) k'.

Lemma reads_length (k0 k : nat) (ks : list nat) : reads k0 ks k -> (k0 + length ks <= k)%nat.
Proof. induction 1; [simpl; lia | rewrite length_app; simpl; lia]. Qed.

Section bench.
Context {C : Config} (strerror : Z -> string) (main_pid : Z) (cfg : config).
Context (g : geometry) (init : mem) (blk size : Z).

Abbreviation publications := (publications g init).
Abbreviation published := (published g init).

(** ** The numbers of the values *)

(** Fewer than 2^32 - 1 values, and no slot that is read is committed 2^27
    times while it is. *)
Definition modest (log : list wev) : Prop :=
  Z.of_nat (length (publications log)) < UINT32_MAX /\
  forall j v, published log j = Some v -> commits_since g log j (v_slot v) < 134217728.

(** How many values a reader knows to have been published. *)
Definition told (s : rstate) : nat := length (publications (take (rs_cur s) (rs_log s))).

(** Value number [k] has the generation [gen]. *)
Definition numbered (log : list wev) (k : nat) (gen : Z) : Prop :=
  exists v, publications log !! k = Some v /\ v_generation v = gen.

Lemma publications_app (log ext : list wev) :
  exists t, publications (log ++ ext) = publications log ++ t.
Proof.
  induction ext as [|x ext [t IH]] using rev_ind; [exists []; by rewrite !app_nil_r |].
  rewrite app_assoc, publications_snoc, IH, <- app_assoc. by eexists.
Qed.

Lemma publications_take (log : list wev) (a b : nat) :
  (a <= b)%nat -> exists t, publications (take b log) = publications (take a log) ++ t.
Proof.
  intros H. rewrite <- (take_drop a (take b log)), take_take, Nat.min_l by done.
  apply publications_app.
Qed.

Lemma published_prefix (log ext : list wev) (j : nat) (v : value) :
  published log j = Some v -> published (log ++ ext) j = Some v.
Proof.
  intros H. assert (j < length log)%nat.
  { unfold Protocol.published in H. destruct (log !! j) eqn:E; [by eapply lookup_lt_Some | done]. }
  unfold Protocol.published in *. by rewrite lookup_app_l, mem_at_app by lia.
Qed.

(** The event that publishes adds its value, the others none. *)
Lemma publications_take_S (log : list wev) (j : nat) :
  publications (take (S j) log) =
  publications (take j log) ++ (match published log j with Some v => [v] | None => [] end).
Proof.
  unfold Protocol.published. destruct (log !! j) as [x|] eqn:E.
  - rewrite (take_S_r _ _ x) by done. rewrite publications_snoc. f_equal.
    unfold event_value, now. rewrite length_take. apply lookup_lt_Some in E as Hl.
    rewrite Nat.min_l by lia.
    assert (Em : mem_at init (take j log) j = mem_at init log j).
    { rewrite <- (take_drop j log) at 2. symmetry. apply mem_at_app. rewrite length_take. lia. }
    rewrite Em.
    destruct x as [o off bs|]; [| done]. by destruct (off =? HOff.latest).
  - apply lookup_ge_None in E. rewrite !take_ge by lia. by rewrite app_nil_r.
Qed.

Lemma publications_none (log : list wev) (a b : nat) :
  (a <= b)%nat -> (forall j, (a <= j < b)%nat -> ~ is_Some (published log j)) ->
  publications (take b log) = publications (take a log).
Proof.
  induction 1 as [|b Hb IH]; intros Hn; [done |]. rewrite publications_take_S, IH.
  - destruct (published log b) as [v|] eqn:E; [| by rewrite app_nil_r].
    exfalso. apply (Hn b); [lia | by exists v].
  - intros j Hj. apply Hn. lia.
Qed.

(** The number of the value event [j] publishes. *)
Lemma published_number (log : list wev) (j : nat) (v : value) :
  published log j = Some v ->
  let k := length (publications (take j log)) in
  publications log !! k = Some v /\
  (forall c, (j < c)%nat -> (S k <= length (publications (take c log)))%nat) /\
  (forall c, (forall j', (j' < c)%nat -> is_Some (published log j') -> (j' <= j)%nat) ->
     (length (publications (take c log)) <= S k)%nat).
Proof.
  intros Hj k. pose proof (publications_take_S log j) as E. rewrite Hj in E.
  assert (Hl : length (publications (take (S j) log)) = S k) by (rewrite E, length_app; simpl; lia).
  split; [| split].
  - destruct (publications_app (take (S j) log) (drop (S j) log)) as [t Et].
    rewrite take_drop in Et. rewrite Et, E, <- app_assoc.
    by rewrite lookup_app_r, Nat.sub_diag by lia.
  - intros c Hc. destruct (publications_take log (S j) c ltac:(lia)) as [t ->].
    rewrite length_app. lia.
  - intros c Hc. destruct (decide (c <= S j)%nat) as [Hle|Hgt].
    + destruct (publications_take log c (S j) Hle) as [t Et]. rewrite Et, length_app in Hl. lia.
    + rewrite (publications_none log (S j) c) by (lia || (intros j' Hj' H; specialize (Hc j' ltac:(lia) H); lia)).
      lia.
Qed.

Section machine.
Context (F : data_file g init size) (Hhook : psmi_test_skip_seq_recheck = false).

(** The machine of a reader of the file, whose run may go on. *)
#[local] Instance run_reader : Sem rstate := going (reader_of_file g init blk size).

Lemma told_later (s s' : rstate) :
  rinv g init s -> rext g init s s' ->
  length (publications (take (rs_cur s) (rs_log s'))) = told s.
Proof. intros (_ & Hc & _) (_ & [ext ->] & _). unfold told. by rewrite take_app_le. Qed.

Lemma told_mono (s s' : rstate) : rinv g init s -> rext g init s s' -> (told s <= told s')%nat.
Proof.
  intros Hi Hx. rewrite <- (told_later s s' Hi Hx). unfold told.
  destruct (publications_take (rs_log s') (rs_cur s) (rs_cur s') (rext_cur g init _ _ Hx)) as [t ->].
  rewrite length_app. lia.
Qed.

Lemma numbered_later (s s' : rstate) (k : nat) (gen : Z) :
  rext g init s s' -> numbered (rs_log s) k gen -> numbered (rs_log s') k gen.
Proof.
  intros (_ & [ext ->] & _) (v & Hk & Hg). exists v. split; [| done].
  destruct (publications_app (rs_log s) ext) as [t ->]. by apply lookup_app_l_Some.
Qed.

Lemma modest_before (s s' : rstate) : rext g init s s' -> modest (rs_log s') -> modest (rs_log s).
Proof.
  intros (_ & [ext ->] & _) [Hn Hc]. split.
  - destruct (publications_app (rs_log s) ext) as [t E]. rewrite E, length_app in Hn. lia.
  - intros j v Hj. specialize (Hc j v (published_prefix _ ext _ _ Hj)).
    unfold commits_since, commits in *. rewrite drop_app, List.filter_app, length_app in Hc. lia.
Qed.

(** A result that describes a value: which one. *)
Lemma outcome_number (copy : bool) (sz fl rc : Z) (b : list Z) (info : option psmsgr_state_info)
    (s s' : rstate) :
  rinv g init s -> rext g init s s' -> read_outcome g init copy sz fl s s' (rc, b, info) ->
  rc = PSMSGR_OK -> modest (rs_log s') ->
  exists i k, info = Some i /\ numbered (rs_log s') k (i_generation i) /\
              (told s <= S k)%nat /\ (S k <= told s')%nat.
Proof.
  intros Hi Hx H Hrc [_ Hm]. inversion H as [b' Hn | rc' b' i' j v P1 P2 P3 P4 P5 | b' Hn]; subst;
    try discriminate.
  destruct (P5 (Hm j v P1)) as (i & -> & (Eg & _) & _).
  destruct (published_number (rs_log s') j v P1) as (Hk & Hlow & Hup).
  exists i, (length (publications (take j (rs_log s')))). split; [done |].
  split; [by exists v |]. split; [rewrite <- (told_later s s' Hi Hx); by apply Hup | by apply Hlow].
Qed.

(** The generations of two values tell how many there are between them. *)
Lemma numbered_missed (s : rstate) (k k' : nat) (gen gen' : Z) :
  rinv g init s -> modest (rs_log s) -> numbered (rs_log s) k gen -> numbered (rs_log s) k' gen' ->
  (k < k')%nat ->
  1 <= gen <= UINT32_MAX /\ gen' = Nat.iter (k' - k) gen_succ gen /\
  missed_between gen gen' = Z.of_nat k' - Z.of_nat k - 1 + wraps gen (Z.of_nat k' - Z.of_nat k).
Proof.
  intros (Ha & _) [Hn _] (v & Hv & <-) (v' & Hv' & <-) Hlt.
  pose proof F as [Hg Hfresh _ _ _].
  pose proof (publications_ok g Hg init Hfresh _ Ha) as Hall. rewrite Forall_lookup in Hall.
  destruct (Hall k v Hv) as [Hgen _].
  assert (E : v_generation v' = Nat.iter (k' - k) gen_succ (v_generation v)).
  { replace k' with (k + (k' - k))%nat in Hv' by lia. revert v' Hv'.
    generalize (k' - k)%nat as n. induction n as [|n IH]; intros v' Hv'.
    - rewrite Nat.add_0_r in Hv'. simpl. congruence.
    - assert (Hl : (k + n < length (publications (rs_log s)))%nat)
        by (apply lookup_lt_Some in Hv'; lia).
      destruct (lookup_lt_is_Some_2 _ _ Hl) as [u Hu]. rewrite Nat.iter_succ, <- (IH u Hu).
      eapply (publications_chain g Hg init Hfresh); [exact Ha | exact Hu |].
      by rewrite <- Nat.add_succ_r. }
  pose proof (lookup_lt_Some _ _ _ Hv') as Hb.
  split; [unfold UINT32_MAX; lia |]. split; [done |]. rewrite E, missed_iter by (unfold UINT32_MAX in *; lia).
  unfold wraps. rewrite Nat2Z.inj_sub by lia. lia.
Qed.

(** Steps that are no loads. *)
Lemma wp_elsewhere (e : ev) (en : Z) (s : rstate) (Q : resp e -> Z -> rstate -> Prop) :
  rinv g init s ->
  match e with
  | SysClockGettime _ | SysNanosleep _ _ | Print _ _ | SysGetpid => True
  | _ => False
  end ->
  (forall r en' s', rext g init s s' -> Q r en' s') -> wp (call e) en s Q.
Proof.
  intros Hi He HQ. apply wp_call; [by destruct e |]. intros r s' Hs. apply HQ.
  assert (H : exists log, later g init blk size (rs_log s) log /\
    s' = {| rs_log := log; rs_cur := rs_cur s; rs_acq := rs_acq s |}) by (by destruct e).
  destruct H as (log & Hl & ->). pose proof Hi as (_ & Hc & Ha).
  destruct (later_grow g init blk size F _ _ Hl) as (ext & E & _).
  apply (grow_rext g init (later g init blk size) (later_grow g init blk size F)); try done;
    rewrite E, length_app; lia.
Qed.

(** ** A pass of the run *)

Lemma wp_now_ns (en : Z) (s : rstate) (Q : Z -> Z -> rstate -> Prop) :
  rinv g init s -> (forall t en' s', rext g init s s' -> Q t en' s') -> wp now_ns en s Q.
Proof.
  intros Hi HQ. unfold now_ns. apply wp_bind, wp_elsewhere; [done | done |].
  intros [sec ns] en' s' Hx. by apply wp_ret, HQ.
Qed.

Lemma wp_psmsgr_now_ns (en : Z) (s : rstate) (Q : Z -> Z -> rstate -> Prop) :
  rinv g init s -> (forall t en' s', rext g init s s' -> Q t en' s') -> wp psmsgr_now_ns en s Q.
Proof.
  intros Hi HQ. unfold psmsgr_now_ns, psmi_clock_ns. apply wp_bind, wp_elsewhere; [done | done |].
  intros [sec ns] en' s' Hx. by apply wp_ret, HQ.
Qed.

(** [die] does not return. *)
Lemma wp_run_die {A : Type} (what : string) (rc en : Z) (s : rstate)
    (Q : A + ending -> Z -> rstate -> Prop) :
  rinv g init s -> (forall e en' s', rext g init s s' -> Q (inr e) en' s') ->
  wp (die strerror main_pid what rc) en s Q.
Proof.
  intros Hi HQ. unfold die. apply wp_bind, wp_get_errno, wp_bind, wp_elsewhere; [done | done |].
  intros [] en1 s1 H1. apply wp_bind, wp_elsewhere; [apply H1 | done |].
  intros pid en2 s2 H2. apply wp_ret, HQ. by eapply rext_trans.
Qed.

(** A read with OK describes a value. *)
Lemma any_state_read (r : psmsgr_state_reader) (buf : list Z) (sz en : Z) :
  wp (HS := any_sem) (psmsgr_state_read (Some r) (Some buf) sz false) en tt
    (fun x _ _ => fst (fst (snd x)) = PSMSGR_OK -> is_Some (snd (snd x))).
Proof.
  unfold psmsgr_state_read. cbn [orb]. apply wp_any_skip. intros [rc r'] en1.
  destruct (Z.eqb_spec rc PSMSGR_OK) as [|Hn]; cbn [negb]; [| by apply wp_ret].
  apply wp_bind. eapply wp_mono; [apply any_read_latest |]. intros [[rc2 b] info] en2 [] Hi.
  destruct info as [i|]; [| destruct Hi as [H1 H2]].
  - destruct (_ || _); [| by apply wp_ret]. unfold announce.
    destruct (r_announce r'); by apply wp_ret.
  - destruct (Z.eqb_spec rc2 PSMSGR_OK); [done |].
    destruct (Z.eqb_spec rc2 PSMSGR_E_TOOSMALL); [done |]. by apply wp_ret.
Qed.

(** The values counted from number [k] on. *)
Definition counted_on (k : nat) (seen missed : Z) (s0 : samples) (st' : rstate)
    (s' : samples) (missed' seen' : Z) : Prop :=
  exists k', (k < k')%nat /\ (k' < told st')%nat /\ numbered (rs_log st') k' seen' /\
    s_seen s' = u64 (s_seen s0 + 1) /\
    missed' = missed + (Z.of_nat k' - Z.of_nat k - 1) + wraps seen (Z.of_nat k' - Z.of_nat k).

(** What the part after the wait does: nothing (BUSY), one more value - if a
    newer one than the last is known to be published -, or the end of the
    program. *)
Definition read_step (buf : list Z) (s : samples) (missed seen : Z) (st : rstate)
    (x : wake_state + (option psmsgr_state_reader * samples * Z + ending)) (st' : rstate) : Prop :=
  rext g init st st' /\
  match x with
  | inl (h, buf', s', missed', seen') =>
      (exists r', h = Some r' /\ attached_to g blk r') /\ length buf' = length buf /\
      (s' = s /\ missed' = missed /\ seen' = seen \/
       (modest (rs_log st') -> forall k, numbered (rs_log st) k seen -> (S k < told st)%nat ->
          counted_on k seen missed s st' s' missed' seen'))
  | inr (inl _) => False
  | inr (inr _) => True
  end.

Lemma wp_wake_read (r : psmsgr_state_reader) (buf : list Z) (s : samples) (missed seen en : Z)
    (st : rstate) :
  attached_to g blk r -> rinv g init st -> 16 <= Z.of_nat (length buf) ->
  wp (wake_read strerror main_pid (Some r) buf s missed seen) en st
    (fun x _ st' => read_step buf s missed seen st x st').
Proof.
  intros Hr Hi Hb. unfold wake_read. apply wp_bind. eapply wp_mono.
  { apply wp_any_and; [apply any_state_read |].
    apply wp_going, (wp_read g init blk size F r buf 16 en st Hhook Hi Hr). lia. }
  intros [h [[rc b] info]] en1 s1 (Hinfo & r' & Eh & Hr' & -> & Hx & [Hl _] & Ho).
  cbn [fst snd] in *. subst h. pose proof (proj1 Hx) as Hi1.
  apply wp_bind, wp_psmsgr_now_ns; [done |]. intros t en2 s2 Hx2.
  assert (Hx02 : rext g init st s2) by (by eapply rext_trans).
  destruct (rc =? PSMSGR_E_BUSY).
  { apply wp_ret. split; [done |]. split; [by exists r' |]. split; [done | by left]. }
  destruct (Z.eqb_spec rc PSMSGR_OK) as [Erc|]; cbn [negb].
  2: { apply wp_bind, wp_run_die; [apply Hx2 |]. intros e en3 s3 Hx3. apply wp_ret.
       split; [by eapply rext_trans | done]. }
  destruct (Hinfo Erc) as [i ->]. apply wp_ret. split; [done |]. split; [by exists r' |].
  split; [done |]. right. intros Hm k Hk0 Hnew. pose proof (modest_before _ _ Hx2 Hm) as Hm1.
  destruct (outcome_number _ _ _ _ _ _ _ _ Hi Hx Ho Erc Hm1) as (i' & k' & [= <-] & Hk' & Hlo & Hhi).
  assert (Hlt : (k < k')%nat) by lia. exists k'. split; [done |].
  split; [pose proof (told_mono _ _ Hi1 Hx2); lia |]. split; [by apply (numbered_later s1) |].
  split; [by rewrite samples_add_seen |].
  destruct (numbered_missed s1 k k' seen (i_generation i)) as (_ & _ & ->);
    [done | done | by apply (numbered_later st) | done | done |]. lia.
Qed.

(** The account of a run so far: the values read and those between them. *)
Definition account (k0 : nat) (gen0 : Z) (st : rstate) (s : samples) (missed seen : Z) : Prop :=
  exists ks k, reads k0 ks k /\ (k < told st)%nat /\ numbered (rs_log st) k seen /\
    s_seen s = Z.of_nat (length ks) /\
    missed = Z.of_nat k - Z.of_nat k0 - Z.of_nat (length ks) + wraps gen0 (Z.of_nat k - Z.of_nat k0).

Lemma account_later (k0 : nat) (gen0 missed seen : Z) (s : samples) (st st' : rstate) :
  rinv g init st -> rext g init st st' -> account k0 gen0 st s missed seen ->
  account k0 gen0 st' s missed seen.
Proof.
  intros Hi Hx (ks & k & H1 & H2 & H3 & H4). exists ks, k. split; [done |].
  split; [pose proof (told_mono _ _ Hi Hx); lia |]. by split; [apply (numbered_later st) |].
Qed.

Lemma account_step (k0 : nat) (gen0 missed seen missed' seen' : Z) (s s' : samples)
    (st st' : rstate) :
  rinv g init st -> rext g init st st' -> modest (rs_log st') -> numbered (rs_log st) k0 gen0 ->
  account k0 gen0 st s missed seen ->
  (forall k, numbered (rs_log st) k seen -> (k < told st)%nat ->
     counted_on k seen missed s st' s' missed' seen') ->
  account k0 gen0 st' s' missed' seen'.
Proof.
  intros Hi Hx Hm Hn0 (ks & k & H1 & H2 & H3 & H4 & ->) Hc.
  destruct (Hc k H3 H2) as (k' & Hlt & Hk' & Hn' & Hs & ->).
  exists (ks ++ [k']), k'. split; [by apply reads_one with k |]. do 2 (split; [done |]).
  assert (Hb : (k' < length (publications (rs_log st')))%nat).
  { destruct Hn' as (v & Hv & _). by eapply lookup_lt_Some. }
  pose proof (reads_length _ _ _ H1) as Hl. destruct Hm as [Hm Hm2]. unfold UINT32_MAX in Hm.
  rewrite length_app. cbn [length]. split; [rewrite Hs, H4, u64_small; lia |].
  destruct (decide (k0 = k)) as [->|Hne].
  - destruct Hn0 as (v0 & Hv0 & <-), H3 as (v & Hv & <-). assert (v = v0) as -> by congruence.
    rewrite Z.sub_diag. assert (wraps (v_generation v0) 0 = 0) as ->; [| lia].
    pose proof F as [Hg Hfresh _ _ _].
    pose proof (publications_ok g Hg init Hfresh _ (proj1 Hi)) as Hall. rewrite Forall_lookup in Hall.
    destruct (Hall k v0 Hv0) as [Hgen _]. unfold wraps, UINT32_MAX.
    destruct (Z.ltb_spec 4294967295 (v_generation v0 + 0)); lia.
  - destruct (numbered_missed st k0 k gen0 seen Hi (modest_before _ _ Hx (conj Hm Hm2)) Hn0 H3 ltac:(lia))
      as (Hg0 & -> & _).
    pose proof (wraps_add gen0 (k - k0) (k' - k) Hg0 ltac:(unfold UINT32_MAX; lia)) as E.
    rewrite !Nat2Z.inj_sub in E by lia.
    replace (Z.of_nat k - Z.of_nat k0 + (Z.of_nat k' - Z.of_nat k)) with (Z.of_nat k' - Z.of_nat k0)
      in E by lia. lia.
Qed.

(** A peek that shows another generation than that of value [k]: a newer value
    is known. *)
Lemma peek_newer (fl rc : Z) (info : option psmsgr_state_info) (seen : Z) (s s' : rstate) (k : nat) :
  rinv g init s -> rext g init s s' -> read_outcome g init false 0 fl s s' (rc, [], info) ->
  rc = PSMSGR_OK -> modest (rs_log s') ->
  match info with Some i => i_generation i =? seen | None => false end = false ->
  numbered (rs_log s) k seen -> (k < told s)%nat -> (S k < told s')%nat.
Proof.
  intros Hi Hx Ho Hrc Hm Hne Hk Hlt.
  destruct (outcome_number _ _ _ _ _ _ _ _ Hi Hx Ho Hrc Hm) as (i & k2 & -> & Hk2 & Hlo & Hhi).
  apply Z.eqb_neq in Hne. enough (k <> k2) by lia. intros ->. apply Hne.
  destruct (numbered_later _ _ _ _ Hx Hk) as (v & Hv & <-), Hk2 as (v2 & Hv2 & <-).
  by rewrite Hv in Hv2; injection Hv2 as ->.
Qed.

(** The state of the loop, and what is kept by a pass. *)
Definition poll_inv (k0 : nat) (gen0 : Z) (st0 : rstate) (x : wake_state) (st : rstate) : Prop :=
  let '(h, buf, s, missed, seen) := x in
  rext g init st0 st /\ (exists r, h = Some r /\ attached_to g blk r) /\
  16 <= Z.of_nat (length buf) /\
  (modest (rs_log st) -> account k0 gen0 st s missed seen).

Definition poll_end (k0 : nat) (gen0 : Z) (st0 : rstate)
    (x : option psmsgr_state_reader * samples * Z + ending) (st : rstate) : Prop :=
  match x with
  | inl (h, s, missed) => rext g init st0 st /\ (exists r, h = Some r /\ attached_to g blk r) /\
      (modest (rs_log st) -> exists seen, account k0 gen0 st s missed seen)
  | inr _ => True
  end.

Definition poll_post (k0 : nat) (gen0 : Z) (st0 : rstate)
    (x : wake_state + (option psmsgr_state_reader * samples * Z + ending)) (st : rstate) : Prop :=
  match x with inl x => poll_inv k0 gen0 st0 x st | inr x => poll_end k0 gen0 st0 x st end.

Lemma poll_inv_later (k0 : nat) (gen0 : Z) (st0 st st' : rstate) (x : wake_state) :
  rext g init st st' -> poll_inv k0 gen0 st0 x st -> poll_inv k0 gen0 st0 x st'.
Proof.
  destruct x as [[[[h buf] s] missed] seen]. intros Hx (H1 & H2 & H3 & H4).
  split; [by eapply rext_trans |]. split; [done |]. split; [done |]. intros Hm.
  apply (account_later k0 gen0 missed seen s st); [apply H1 | done |]. by apply H4, (modest_before st st').
Qed.

Lemma wp_poll_body (k0 : nat) (gen0 till en : Z) (fuel : nat) (st0 st : rstate) (x : wake_state) :
  numbered (rs_log st0) k0 gen0 -> poll_inv k0 gen0 st0 x st ->
  wp (wake_body strerror main_pid cfg fuel false till x) en st
    (fun y _ st' => poll_post k0 gen0 st0 y st').
Proof.
  intros Hn0 H. destruct x as [[[[h buf] s] missed] seen]. unfold wake_body.
  apply wp_bind, wp_now_ns; [apply H |]. intros now en1 s1 Hx1.
  apply (poll_inv_later _ _ _ _ _ _ Hx1) in H. destruct (till <=? now).
  { destruct H as (H1 & H2 & _ & H4). apply wp_ret. split; [done |]. split; [done |].
    intros Hm. exists seen. by apply H4. }
  pose proof H as (H1 & (r & -> & Hr) & Hb & Ha). pose proof (proj1 H1) as Hi1.
  apply wp_bind. eapply wp_mono.
  { apply wp_going, (wp_state_peek g (df_geometry _ _ _ F) init (df_fresh _ _ _ F) blk size (df_size _ _ _ F) _
      (later_grow g init blk size F) Hhook (later_live g init blk size) r en1 s1 Hr Hi1). }
  intros [h [rc info]] en2 s2 (r2 & Eh & Hr2 & -> & Hx2 & _ & Ho). cbn [fst snd] in *. subst h.
  pose proof (poll_inv_later _ _ _ _ _ _ Hx2 H) as H'.
  assert (Hsame : poll_inv k0 gen0 st0 (Some r2, buf, s, missed, seen) s2).
  { destruct H' as (E1 & _ & E3). split; [done |]. split; [by exists r2 | done]. }
  destruct (negb (rc =? PSMSGR_OK) && negb (rc =? PSMSGR_E_BUSY)).
  { apply wp_bind, wp_run_die; [apply Hx2 |]. intros e en3 s3 Hx3. by apply wp_ret. }
  destruct (Z.eqb_spec rc PSMSGR_OK) as [Erc|]; cbn [negb orb];
    [destruct (match info with Some i => _ | None => _ end) eqn:Enew |].
  1, 3: apply wp_bind, wp_elsewhere; [apply Hx2 | done |]; intros e en3 s3 Hx3; apply wp_ret;
    by apply (poll_inv_later _ _ _ s2).
  eapply wp_mono; [apply (wp_wake_read r2); [done | apply Hx2 | done] |].
  intros y en3 s3 (Hx3 & Hy). assert (Hx13 : rext g init s1 s3) by (by eapply rext_trans).
  destruct y as [[[[[h b'] s'] missed'] seen'] | [y | e]]; [| done | done].
  destruct Hy as (Hh & Hl & Hy). split; [by eapply rext_trans |]. split; [done |].
  split; [lia |]. intros Hm. pose proof (modest_before _ _ Hx13 Hm) as Hm1.
  destruct Hy as [(-> & -> & ->) | Hy]; [by apply (account_later _ _ _ _ _ s1), Ha |].
  apply (account_step k0 gen0 missed seen missed' seen' s s' s1 s3); [done .. | | by apply Ha |].
  { by apply (numbered_later st0). }
  intros k Hk Hlt. apply Hy; [done | by apply (numbered_later s1) |].
  by apply (peek_newer _ _ _ _ _ _ _ Hi1 Hx2 Ho Erc (modest_before _ _ Hx3 Hm) Enew Hk Hlt).
Qed.
End machine.

(** ** Property *)

(** C40. What [missed] counts.  The run of the benchmark that polls reads,
    while any writers publish, from a value [k0] the reader has seen on: every
    sample is a value later than the one before, and the samples and [missed]
    together are the values published after value [k0] up to the last one
    read - [missed] is the number of those that were published in between and
    not read, and one more if the generations wrapped meanwhile, because
    generation 0 is never used.  The part of a pass after the wait, the same
    for both runs: told of a value newer than the one [seen] names, it reads
    a later one, takes over its generation and adds the values between, or
    (BUSY) leaves everything as it was.  The account holds for runs in which
    fewer than 2^32 - 1 values are published and no value's slot is reused
    2^27 times while it is read; the poll's sleeps, the clock and the
    interleaving are arbitrary. *)
Theorem missed_counts (r : psmsgr_state_reader) (buf : list Z) (s : samples) (seen till en : Z)
    (k0 fuel wait_fuel : nat) (st : rstate) :
  data_file g init size -> psmi_test_skip_seq_recheck = false ->
  reader_state g init blk size st -> attached_to g blk r -> 16 <= Z.of_nat (length buf) ->
  numbered (rs_log st) k0 seen -> (k0 < told st)%nat -> s_seen s = 0 ->
  (forall missed,
     wp (HS := run_reader) (wake_read strerror main_pid (Some r) buf s missed seen) en st
       (fun x _ st' => read_step buf s missed seen st x st')) /\
  wp (HS := run_reader)
    (loop fuel (wake_body strerror main_pid cfg wait_fuel false till) (Some r, buf, s, 0, seen)) en st
    (fun x _ st' =>
       match x with
       | inl (_, s', missed) => modest (rs_log st') -> exists ks k,
           reads k0 ks k /\ (k < told st')%nat /\ s_seen s' = Z.of_nat (length ks) /\
           missed = Z.of_nat k - Z.of_nat k0 - Z.of_nat (length ks) +
                    wraps seen (Z.of_nat k - Z.of_nat k0)
       | inr _ => True
       end).
Proof.
  intros F Hhook Hst Hr Hb Hn Ht Hs. pose proof (reader_state_rinv g init blk size F st Hst) as Hi.
  split; [intros missed; by apply (wp_wake_read F) |].
  apply (wp_loop (fun x _ => poll_inv k0 seen st x)); [done | |].
  - intros x en' st' H. eapply wp_mono; [by apply (wp_poll_body F Hhook k0 seen) |].
    intros [y | [[[h s'] missed] | e]] en2 st2 Hy; [exact Hy | | done].
    intros Hm. destruct Hy as (_ & _ & Hy). destruct (Hy Hm) as (seen' & ks & k & H1 & H2 & _ & H4).
    by exists ks, k.
  - split; [by apply rext_refl |]. split; [by exists r |]. split; [done |]. intros _.
    exists [], k0. split; [constructor |]. do 2 (split; [done |]). split; [done |].
    rewrite Z.sub_diag. cbn [length]. destruct Hn as (v & Hv & <-).
    pose proof (publications_ok g (df_geometry _ _ _ F) init (df_fresh _ _ _ F) _ (proj1 Hi)) as Hall.
    rewrite Forall_lookup in Hall. destruct (Hall k0 v Hv) as [Hgen _]. unfold wraps, UINT32_MAX.
    destruct (Z.ltb_spec 4294967295 (v_generation v + 0)); lia.
Qed.
End bench.

(** ** Witness *)

(** The file of Example.v, read from its first value on: a second one is
    known. *)
Lemma ex_modest : modest ex_geometry ex_init ex_log.
Proof.
  split; [by vm_compute |]. intros j v Hj.
  assert (H : forallb (fun j => match published ex_geometry ex_init ex_log j with
      | Some v => commits_since ex_geometry ex_log j (v_slot v) <? 134217728
      | None => true
      end) (seq 0 (length ex_log)) = true) by (by vm_compute).
  rewrite forallb_forall in H. assert (Hl : (j < length ex_log)%nat).
  { unfold published in Hj. destruct (ex_log !! j) eqn:E; [by eapply lookup_lt_Some | done]. }
  specialize (H j ltac:(apply in_seq; lia)). rewrite Hj in H. by apply Z.ltb_lt.
Qed.

Lemma missed_counts_witness :
  (modest ex_geometry ex_init ex_log /\ numbered ex_geometry ex_init ex_log 0 41 /\
   told ex_geometry ex_init ex_state = 2%nat) /\
  wp (HS := run_reader ex_geometry ex_init 1 ex_size)
    (loop 1000 (wake_body (C := config64) (fun _ => ""%string) 77 default_cfg 0 false 5000000000)
       (Some ex_reader, replicate 16 0, samples_fresh 3 100, 0, 41)) 0 ex_state
    (fun x _ st' =>
       match x with
       | inl (_, s', missed) => modest ex_geometry ex_init (rs_log st') -> exists ks k,
           reads 0 ks k /\ (k < told ex_geometry ex_init st')%nat /\
           s_seen s' = Z.of_nat (length ks) /\
           missed = Z.of_nat k - Z.of_nat 0 - Z.of_nat (length ks) + wraps 41 (Z.of_nat k - Z.of_nat 0)
       | inr _ => True
       end).
Proof.
  assert (Hn : numbered ex_geometry ex_init ex_log 0 41) by (eexists; split; vm_compute; reflexivity).
  split; [split; [exact ex_modest | split; [exact Hn | by vm_compute]] |].
  apply (missed_counts (C := config64) (fun _ => ""%string) 77 default_cfg ex_geometry ex_init 1 ex_size);
    [exact ex_data_file | reflexivity | exact ex_reader_state | exact ex_attached | cbn; lia
    | exact Hn | vm_compute; lia | reflexivity].
Defined.
